(** * Quasi-1D reacting-flow residual engine (StFlow.cpp): model and properties

    A shallow embedding of [src/oneD/StFlow.cpp]: the grid set-up, the
    property cache and diffusive-flux update, the residual evaluation of the
    base engine and of the porous variant, the porous solid subsolver, the
    anchor relocation of the free flame and the restore path.

    Numbers.  The source computes in C++ [double].  Every definition below is
    written once, over an interface [Arith] of the operations the source uses,
    and is run at two instances: [Float64] (IEEE-754 binary64, the kernel's
    primitive floats) and [Exact] (canonical rationals [Qc]).  Properties of
    the control flow hold for every instance; algebraic identities are proved
    at [Exact] and say so.

    Indices.  [size_t] is 64 bits wide; where the source subtracts or adds on
    it the wrap-around is written out ([wrap]). *)

From Stdlib Require Import ZArith QArith Qcanon Floats Lia Lqa.
From stdpp Require Import base list strings pretty.

#[local] Open Scope Z_scope.

(** ** Arithmetic of the source *)

Class Arith := {
  num : Type;
  lit : Q -> num;                (* a decimal literal of the source *)
  add : num -> num -> num;
  sub : num -> num -> num;
  mul : num -> num -> num;
  div : num -> num -> num;
  opp : num -> num;              (* unary minus *)
  ltb : num -> num -> bool;      (* a < b *)
  leb : num -> num -> bool;      (* a <= b *)
  eqb : num -> num -> bool       (* a == b *)
}.

(** <cmath>: [sqrt] and [pow]. *)
Class Libm (A : Arith) := {
  sqrt : num -> num;
  pow : num -> num -> num
}.

Declare Scope num_scope.
Delimit Scope num_scope with num.
Infix "+!" := add (at level 50, left associativity) : num_scope.
Infix "-!" := sub (at level 50, left associativity) : num_scope.
Infix "*!" := mul (at level 40, left associativity) : num_scope.
Infix "/!" := div (at level 40, left associativity) : num_scope.
Infix "<!" := ltb (at level 70, no associativity) : num_scope.
Infix "<=!" := leb (at level 70, no associativity) : num_scope.
Infix "==!" := eqb (at level 70, no associativity) : num_scope.
Notation "a >! b" := (ltb b a) (at level 70, no associativity) : num_scope.
Notation "a >=! b" := (leb b a) (at level 70, no associativity) : num_scope.
#[local] Open Scope num_scope.

Definition num0 `{Arith} : num := lit 0%Q.
Definition num1 `{Arith} : num := lit 1%Q.
(** std::max(a, b): [(a < b) ? b : a] *)
Definition fmax `{Arith} (a b : num) : num := if a <! b then b else a.

(** *** binary64 *)

Definition float_of_Z (z : Z) : float :=
  match z with
  | Z0 => PrimFloat.of_uint63 (Uint63Axioms.of_Z 0)
  | Zpos _ => PrimFloat.of_uint63 (Uint63Axioms.of_Z z)
  | Zneg p => PrimFloat.opp (PrimFloat.of_uint63 (Uint63Axioms.of_Z (Zpos p)))
  end.

(** A decimal literal [n/10^k] with [n] and [10^k] below [2^53] is the
    correctly rounded quotient of two exact floats, which is the value the
    compiler gives the literal. *)
Definition float_lit (q : Q) : float :=
  PrimFloat.div (float_of_Z (Qnum q)) (float_of_Z (Zpos (Qden q))).

#[export] Instance Float64 : Arith := {|
  num := float;
  lit := float_lit;
  add := PrimFloat.add;
  sub := PrimFloat.sub;
  mul := PrimFloat.mul;
  div := PrimFloat.div;
  opp := PrimFloat.opp;
  ltb := PrimFloat.ltb;
  leb := PrimFloat.leb;
  eqb := PrimFloat.eqb
|}.

Fixpoint float_ipow (x : float) (n : nat) : float :=
  match n with
  | O => float_lit 1
  | S O => x
  | S n' => PrimFloat.mul (float_ipow x n') x
  end.

(** A stand-in for the [pow] of <cmath>, which the kernel does not have and
    whose rounding the sources do not fix: for the exponents 0..5 it
    multiplies out, and it is NaN for any other exponent.  It serves to run
    the model at binary64; a value that has passed through it can differ from
    the program's in the last bits, and is NaN where the source raises to a
    power that is not one of these integers (the heat-transfer correlation
    of PorousFlow::eval).  Every property that involves [pow] is proved for
    an arbitrary [Libm]. *)
Definition float_pow (x y : float) : float :=
  let exponent n := PrimFloat.eqb y (float_of_Z (Z.of_nat n)) in
  if exponent 0%nat then float_ipow x 0
  else if exponent 1%nat then float_ipow x 1
  else if exponent 2%nat then float_ipow x 2
  else if exponent 3%nat then float_ipow x 3
  else if exponent 4%nat then float_ipow x 4
  else if exponent 5%nat then float_ipow x 5
  else PrimFloat.nan.

#[export] Instance Float64_libm : Libm Float64 := {|
  sqrt := PrimFloat.sqrt;
  pow := float_pow
|}.

(** *** exact rationals *)

Definition Qc_ltb (a b : Qc) : bool := negb (Qle_bool b a).
Definition Qc_leb (a b : Qc) : bool := Qle_bool a b.

#[export] Instance Exact : Arith := {|
  num := Qc;
  lit := Q2Qc;
  add := Qcplus;
  sub := Qcminus;
  mul := Qcmult;
  div := Qcdiv;
  opp := Qcopp;
  ltb := Qc_ltb;
  leb := Qc_leb;
  eqb := Qc_eq_bool
|}.

(** ** size_t, vectors, exceptions *)

Definition SIZE_MAX : Z := 2 ^ 64 - 1.
Definition npos : Z := SIZE_MAX.
Definition wrap (z : Z) : Z := z mod 2 ^ 64.
(** std::vector<double>::max_size() *)
Definition max_size : Z := 2 ^ 60 - 1.

Inductive Error :=
| CanteraError (procedure message : string)
| length_error                       (* std::length_error, from vector::resize *)
| thrown_int (n : Z).                (* [throw 10] *)

Inductive Result (T : Type) :=
| Ok (v : T)
| Err (e : Error).
Arguments Ok {T} v.
Arguments Err {T} e.

Definition bind {T U} (r : Result T) (k : T -> Result U) : Result U :=
  match r with
  | Ok v => k v
  | Err e => Err e
  end.
Notation "x <- r ;; k" := (bind r (fun x => k))
  (at level 100, r at next level, right associativity).

(** v.resize(n, d): truncates or pads with [d]; [n] is a size_t. *)
Definition resize {T} (n : Z) (d : T) (v : list T) : Result (list T) :=
  if n >? max_size then Err length_error
  else Ok (take (Z.to_nat n) v ++ replicate (Z.to_nat n - length v)%nat d).

(** v[i] for reading; the source never checks the index, a read past the end
    is given the value zero here. *)
Definition vget `{Arith} (v : list num) (i : nat) : num := default num0 (v !! i).
Notation "v .[ i ]" := (vget v i) (at level 1, left associativity, format "v .[ i ]") : num_scope.
Definition bget (v : list bool) (i : nat) : bool := default false (v !! i).

(** ** The engine's state *)

#[local] Set Primitive Projections.

Section State.
Context {A : Arith}.

(** The thermodynamic provider's state, as set through [setTemperature],
    [setMassFractions_NoNorm] and [setPressure]. *)
Record Thermo := {
  th_T : num;
  th_Y : list num;
  th_P : num
}.

Inductive TransportOption :=
| c_None_Transport         (* m_transport_option == -1, no model configured *)
| c_Mixav_Transport
| c_Multi_Transport.

(** Grid State, with what Domain1D keeps for the domain's placement. *)
Record Grid := {
  m_nv : nat;
  m_points : nat;
  m_nsp : nat;
  m_z : list num;
  m_dz : list num;
  firstPoint : Z;
  lastPoint : Z;
  loc : nat
}.

(** Property Cache, fluxes and radiation. *)
Record Cache := {
  m_rho : list num;
  m_wtm : list num;
  m_cp : list num;
  m_visc : list num;
  m_tcon : list num;
  m_diff : list num;
  m_multidiff : list num;
  m_dthermal : list num;
  m_flux : list num;
  m_wdot : list num;
  m_ybar : list num;
  m_qdotRadiation : list num
}.

Record Settings := {
  m_press : num;
  m_wt : list num;
  m_transport_option : TransportOption;
  m_do_soret : bool;
  m_do_radiation : bool;
  m_dovisc : bool;
  m_epsilon_left : num;
  m_epsilon_right : num;
  m_kRadiating : list Z;
  m_do_energy : list bool;
  m_do_species : list bool;
  m_fixedtemp : list num;
  m_zfix : list num;
  m_tfix : list num;
  speciesNames : list string;
  m_desc : string                (* the description of the domain *)
}.

(** FreeFlame *)
Record Anchor := {
  m_zfixed : num;
  m_tfixed : num
}.

(** PorousFlow; [dosolid] is the container's trigger flag. *)
Record Solid := {
  Tw : list num;
  dq : list num;
  Twprev : list num;
  pore : list num;
  diam : list num;
  scond : list num;
  hconv : list num;
  pore1 : num; pore2 : num;
  diam1 : num; diam2 : num;
  scond1 : num; scond2 : num;
  Omega1 : num; Omega2 : num;
  srho : num; sCp : num;
  m_zmid : num; m_dzmid : num;
  dosolid : Z
}.

Record StFlow := {
  grid : Grid;
  cache : Cache;
  settings : Settings;
  m_thermo : Thermo;
  anchor : Anchor;
  solidf : Solid;
  logged : list string          (* what writelog has printed, oldest first *)
}.

Definition on_grid (f : Grid -> Grid) (s : StFlow) : StFlow :=
  let 'Build_StFlow g c t th a p l := s in Build_StFlow (f g) c t th a p l.
Definition on_cache (f : Cache -> Cache) (s : StFlow) : StFlow :=
  let 'Build_StFlow g c t th a p l := s in Build_StFlow g (f c) t th a p l.
Definition on_settings (f : Settings -> Settings) (s : StFlow) : StFlow :=
  let 'Build_StFlow g c t th a p l := s in Build_StFlow g c (f t) th a p l.
Definition set_thermo (th : Thermo) (s : StFlow) : StFlow :=
  let 'Build_StFlow g c t _ a p l := s in Build_StFlow g c t th a p l.
Definition set_anchor (a : Anchor) (s : StFlow) : StFlow :=
  let 'Build_StFlow g c t th _ p l := s in Build_StFlow g c t th a p l.
Definition on_solid (f : Solid -> Solid) (s : StFlow) : StFlow :=
  let 'Build_StFlow g c t th a p l := s in Build_StFlow g c t th a (f p) l.
Definition writelog (msg : string) (s : StFlow) : StFlow :=
  let 'Build_StFlow g c t th a p l := s in Build_StFlow g c t th a p (l ++ [msg]).

Definition set_m_nv v (g : Grid) : Grid :=
  let 'Build_Grid _ b c d e f h i := g in Build_Grid v b c d e f h i.
Definition set_m_points v (g : Grid) : Grid :=
  let 'Build_Grid a _ c d e f h i := g in Build_Grid a v c d e f h i.
Definition set_m_z v (g : Grid) : Grid :=
  let 'Build_Grid a b c _ e f h i := g in Build_Grid a b c v e f h i.
Definition set_m_dz v (g : Grid) : Grid :=
  let 'Build_Grid a b c d _ f h i := g in Build_Grid a b c d v f h i.

Definition set_m_rho v (k : Cache) : Cache :=
  let 'Build_Cache _ b c d e f g h i j l m := k in Build_Cache v b c d e f g h i j l m.
Definition set_m_wtm v (k : Cache) : Cache :=
  let 'Build_Cache a _ c d e f g h i j l m := k in Build_Cache a v c d e f g h i j l m.
Definition set_m_cp v (k : Cache) : Cache :=
  let 'Build_Cache a b _ d e f g h i j l m := k in Build_Cache a b v d e f g h i j l m.
Definition set_m_visc v (k : Cache) : Cache :=
  let 'Build_Cache a b c _ e f g h i j l m := k in Build_Cache a b c v e f g h i j l m.
Definition set_m_tcon v (k : Cache) : Cache :=
  let 'Build_Cache a b c d _ f g h i j l m := k in Build_Cache a b c d v f g h i j l m.
Definition set_m_diff v (k : Cache) : Cache :=
  let 'Build_Cache a b c d e _ g h i j l m := k in Build_Cache a b c d e v g h i j l m.
Definition set_m_multidiff v (k : Cache) : Cache :=
  let 'Build_Cache a b c d e f _ h i j l m := k in Build_Cache a b c d e f v h i j l m.
Definition set_m_dthermal v (k : Cache) : Cache :=
  let 'Build_Cache a b c d e f g _ i j l m := k in Build_Cache a b c d e f g v i j l m.
Definition set_m_flux v (k : Cache) : Cache :=
  let 'Build_Cache a b c d e f g h _ j l m := k in Build_Cache a b c d e f g h v j l m.
Definition set_m_wdot v (k : Cache) : Cache :=
  let 'Build_Cache a b c d e f g h i _ l m := k in Build_Cache a b c d e f g h i v l m.
Definition set_m_ybar v (k : Cache) : Cache :=
  let 'Build_Cache a b c d e f g h i j _ m := k in Build_Cache a b c d e f g h i j v m.
Definition set_m_qdotRadiation v (k : Cache) : Cache :=
  let 'Build_Cache a b c d e f g h i j l _ := k in Build_Cache a b c d e f g h i j l v.

Definition set_m_press v (t : Settings) : Settings :=
  let 'Build_Settings _ b c d e f g h i j k l m n o q := t in
  Build_Settings v b c d e f g h i j k l m n o q.
Definition set_m_dovisc v (t : Settings) : Settings :=
  let 'Build_Settings a b c d e _ g h i j k l m n o q := t in
  Build_Settings a b c d e v g h i j k l m n o q.
Definition set_m_do_energy v (t : Settings) : Settings :=
  let 'Build_Settings a b c d e f g h i _ k l m n o q := t in
  Build_Settings a b c d e f g h i v k l m n o q.
Definition set_m_do_species v (t : Settings) : Settings :=
  let 'Build_Settings a b c d e f g h i j _ l m n o q := t in
  Build_Settings a b c d e f g h i j v l m n o q.
Definition set_m_fixedtemp v (t : Settings) : Settings :=
  let 'Build_Settings a b c d e f g h i j k _ m n o q := t in
  Build_Settings a b c d e f g h i j k v m n o q.
Definition set_m_zfix v (t : Settings) : Settings :=
  let 'Build_Settings a b c d e f g h i j k l _ n o q := t in
  Build_Settings a b c d e f g h i j k l v n o q.
Definition set_m_tfix v (t : Settings) : Settings :=
  let 'Build_Settings a b c d e f g h i j k l m _ o q := t in
  Build_Settings a b c d e f g h i j k l m v o q.
Definition set_speciesNames v (t : Settings) : Settings :=
  let 'Build_Settings a b c d e f g h i j k l m n _ q := t in
  Build_Settings a b c d e f g h i j k l m n v q.

Definition set_Tw v (p : Solid) : Solid :=
  let 'Build_Solid _ b c d e f g p1 p2 d1 d2 s1 s2 o1 o2 r cp zm dz ds := p in
  Build_Solid v b c d e f g p1 p2 d1 d2 s1 s2 o1 o2 r cp zm dz ds.
Definition set_dq v (p : Solid) : Solid :=
  let 'Build_Solid a _ c d e f g p1 p2 d1 d2 s1 s2 o1 o2 r cp zm dz ds := p in
  Build_Solid a v c d e f g p1 p2 d1 d2 s1 s2 o1 o2 r cp zm dz ds.
Definition set_Twprev v (p : Solid) : Solid :=
  let 'Build_Solid a b _ d e f g p1 p2 d1 d2 s1 s2 o1 o2 r cp zm dz ds := p in
  Build_Solid a b v d e f g p1 p2 d1 d2 s1 s2 o1 o2 r cp zm dz ds.
Definition set_pore v (p : Solid) : Solid :=
  let 'Build_Solid a b c _ e f g p1 p2 d1 d2 s1 s2 o1 o2 r cp zm dz ds := p in
  Build_Solid a b c v e f g p1 p2 d1 d2 s1 s2 o1 o2 r cp zm dz ds.
Definition set_diam v (p : Solid) : Solid :=
  let 'Build_Solid a b c d _ f g p1 p2 d1 d2 s1 s2 o1 o2 r cp zm dz ds := p in
  Build_Solid a b c d v f g p1 p2 d1 d2 s1 s2 o1 o2 r cp zm dz ds.
Definition set_scond v (p : Solid) : Solid :=
  let 'Build_Solid a b c d e _ g p1 p2 d1 d2 s1 s2 o1 o2 r cp zm dz ds := p in
  Build_Solid a b c d e v g p1 p2 d1 d2 s1 s2 o1 o2 r cp zm dz ds.
Definition set_hconv v (p : Solid) : Solid :=
  let 'Build_Solid a b c d e f _ p1 p2 d1 d2 s1 s2 o1 o2 r cp zm dz ds := p in
  Build_Solid a b c d e f v p1 p2 d1 d2 s1 s2 o1 o2 r cp zm dz ds.
Definition set_dosolid v (p : Solid) : Solid :=
  let 'Build_Solid a b c d e f g p1 p2 d1 d2 s1 s2 o1 o2 r cp zm dz _ := p in
  Build_Solid a b c d e f g p1 p2 d1 d2 s1 s2 o1 o2 r cp zm dz v.

End State.

#[local] Unset Primitive Projections.

Arguments Thermo : clear implicits.
Arguments Grid : clear implicits.
Arguments Cache : clear implicits.
Arguments Settings : clear implicits.
Arguments Anchor : clear implicits.
Arguments Solid : clear implicits.
Arguments StFlow : clear implicits.

(** Sequencing a loop body that may throw over the values of its index. *)
Fixpoint for_each {S I : Type} (body : I -> S -> Result S) (idx : list I) (s : S)
  : Result S :=
  match idx with
  | [] => Ok s
  | i :: rest => s' <- body i s ;; for_each body rest s'
  end.

(** [for (j = a; j < b; j++)] over size_t values [a], [b]. *)
Definition range (a b : Z) : list nat :=
  if a <? b then seq (Z.to_nat a) (Z.to_nat (b - a)) else [].

(** ** Grid State: resize and setupGrid *)

Section GridState.
Context {A : Arith}.

(** Modelled from the spec: Domain1D::resize is declared in a header that is
    not among the sources.  Grid State "owns resize": the call records the
    component count and the point count, which the rest of [StFlow::resize]
    reads back as [m_nv] and [m_points]. *)
Definition Domain1D_resize (ncomponents points : nat) (s : StFlow A) : StFlow A :=
  on_grid (fun g => set_m_points points (set_m_nv ncomponents g)) s.

(** Array2D::resize(n, m, v) resizes the underlying vector to [n*m]. *)
Definition Array2D_resize (n m : nat) (v : num) (data : list num) : Result (list num) :=
  resize (wrap (Z.of_nat n * Z.of_nat m)) v data.

(** StFlow::resize *)
Definition StFlow_resize (ncomponents points : nat) (s : StFlow A) : Result (StFlow A) :=
  let s := Domain1D_resize ncomponents points s in
  let np := Z.of_nat (m_points (grid s)) in
  let nsp := Z.of_nat (m_nsp (grid s)) in
  let c := cache s in
  rho <- resize np num0 (m_rho c) ;;
  wtm <- resize np num0 (m_wtm c) ;;
  cp <- resize np num0 (m_cp c) ;;
  visc <- resize np num0 (m_visc c) ;;
  tcon <- resize np num0 (m_tcon c) ;;
  coeffs <-
    match m_transport_option (settings s) with
    | c_Mixav_Transport =>
        diff <- resize (wrap (nsp * np)) num0 (m_diff c) ;;
        Ok (m_multidiff c, diff, m_dthermal c)
    | _ =>
        multidiff <- resize (wrap (wrap (nsp * nsp) * np)) num0 (m_multidiff c) ;;
        diff <- resize (wrap (nsp * np)) num0 (m_diff c) ;;
        dthermal <- Array2D_resize (m_nsp (grid s)) (m_points (grid s)) num0 (m_dthermal c) ;;
        Ok (multidiff, diff, dthermal)
    end ;;
  let '(multidiff, diff, dthermal) := coeffs in
  flux <- Array2D_resize (m_nsp (grid s)) (m_points (grid s)) num0 (m_flux c) ;;
  wdot <- Array2D_resize (m_nsp (grid s)) (m_points (grid s)) num0 (m_wdot c) ;;
  do_energy <- resize np false (m_do_energy (settings s)) ;;
  qdot <- resize np num0 (m_qdotRadiation c) ;;
  fixedtemp <- resize np num0 (m_fixedtemp (settings s)) ;;
  dz <- resize (wrap (np - 1)) num0 (m_dz (grid s)) ;;
  z <- resize np num0 (m_z (grid s)) ;;
  Ok (on_grid (fun g => set_m_z z (set_m_dz dz g))
     (on_settings (fun t => set_m_fixedtemp fixedtemp (set_m_do_energy do_energy t))
     (on_cache (fun _ =>
        {| m_rho := rho; m_wtm := wtm; m_cp := cp; m_visc := visc; m_tcon := tcon;
           m_diff := diff; m_multidiff := multidiff; m_dthermal := dthermal;
           m_flux := flux; m_wdot := wdot; m_ybar := m_ybar c;
           m_qdotRadiation := qdot |}) s))).

Definition invalid_grid : Error :=
  CanteraError "StFlow::setupGrid" "grid points must be monotonically increasing".

(** The body of the loop of setupGrid, at index [j >= 1]. *)
Definition setupGrid_step (z : list num) (j : nat) (s : StFlow A) : Result (StFlow A) :=
  if z.[j] <=! z.[j - 1] then Err invalid_grid
  else
    let s := on_grid (fun g => set_m_z (<[j := z.[j]]> (m_z g)) g) s in
    Ok (on_grid (fun g =>
          set_m_dz (<[(j - 1)%nat := (m_z g).[j] -! (m_z g).[j - 1]]> (m_dz g)) g) s).

(** StFlow::setupGrid(n, z); the array [z] holds [n] coordinates. *)
Definition StFlow_setupGrid (z : list num) (s : StFlow A) : Result (StFlow A) :=
  s <- StFlow_resize (m_nv (grid s)) (length z) s ;;
  let s := on_grid (fun g => set_m_z (<[0%nat := z.[0]]> (m_z g)) g) s in
  for_each (setupGrid_step z) (range 1 (Z.of_nat (m_points (grid s)))) s.

End GridState.

(** The sizes [StFlow::resize] asks for can be allocated: none exceeds
    [max_size] (so none wraps either). *)
Definition allocatable (nsp n : nat) : Prop :=
  Z.of_nat n <= max_size /\
  Z.of_nat nsp * Z.of_nat n <= max_size /\
  Z.of_nat nsp * Z.of_nat nsp * Z.of_nat n <= max_size.

(** A strictly increasing coordinate array, by the comparison of the source. *)
Definition increasing {A : Arith} (z : list num) : Prop :=
  forall j a b, z !! j = Some a -> z !! S j = Some b -> (a <! b) = true.

(** A strictly increasing coordinate array, over the exact numbers. *)
Definition strictly_increasing (z : list Qc) : Prop :=
  forall j a b, z !! j = Some a -> z !! S j = Some b -> (a < b)%Qc.

(** ** What the sources do not contain

    [StFlow.cpp] calls inline helpers of StFlow.h and Domain1D.h, constants of
    ct_defs.h, and the thermodynamic, kinetics and transport providers; none
    of those files is among the sources.  The helpers that only read the
    solution vector or a cached array are modelled below from the data model
    of the specification; everything else is a parameter of the model. *)

Class Externals (A : Arith) := {
  (* ct_defs.h *)
  GasConstant : num;
  StefanBoltz : num;
  OneAtm : num;
  Undef : num;
  (* StFlow.h: stencils and previous-step values *)
  rho_u : StFlow A -> list num -> nat -> num;
  X : StFlow A -> list num -> nat -> nat -> num;
  shear : StFlow A -> list num -> nat -> num;
  dVdz : StFlow A -> list num -> nat -> num;
  dYdz : StFlow A -> list num -> nat -> nat -> num;
  dTdz : StFlow A -> list num -> nat -> num;
  divHeatFlux : StFlow A -> list num -> nat -> num;
  V_prev : StFlow A -> nat -> num;
  T_prev : StFlow A -> nat -> num;
  Y_prev : StFlow A -> nat -> nat -> num;
  mindex : StFlow A -> nat -> nat -> nat -> nat;
  solveEnergyEqn : list bool -> list bool;
  (* funcs.h *)
  linearInterp : num -> list num -> list num -> num;
  (* ThermoPhase, at the state last set *)
  density : Thermo A -> num;
  meanMolecularWeight : Thermo A -> num;
  cp_mass : Thermo A -> num;
  enthalpy_RT_ref : Thermo A -> list num;
  cp_R_ref : Thermo A -> list num;
  (* Kinetics *)
  getNetProductionRates : Thermo A -> list num;
  (* Transport *)
  viscosity : Thermo A -> num;
  thermalConductivity : Thermo A -> num;
  getMixDiffCoeffs : Thermo A -> list num;
  getMultiDiffCoeffs : Thermo A -> list num;
  getThermalDiffCoeffs : Thermo A -> list num
}.

Section Accessors.
Context {A : Arith}.

Definition c_offset_U : nat := 0.
Definition c_offset_V : nat := 1.
Definition c_offset_T : nat := 2.
Definition c_offset_L : nat := 3.
Definition c_offset_Y : nat := 4.

(** Modelled from the spec: Domain1D::index.  The solution vector is the
    concatenation, point after point, of [m_nv] components. *)
Definition index (s : StFlow A) (n j : nat) : nat := (m_nv (grid s) * j + n)%nat.

(** Modelled from the spec: the accessors of StFlow.h into the solution
    vector, per point [axial flow, radial velocity, temperature,
    pressure-curvature eigenvalue, mass fractions]. *)
Definition V (s : StFlow A) (x : list num) (j : nat) : num := x.[index s c_offset_V j].
Definition T (s : StFlow A) (x : list num) (j : nat) : num := x.[index s c_offset_T j].
Definition lambda (s : StFlow A) (x : list num) (j : nat) : num := x.[index s c_offset_L j].
Definition Y (s : StFlow A) (x : list num) (k j : nat) : num :=
  x.[index s (c_offset_Y + k) j].

(** Modelled from the spec: the accessors into the cached arrays.  An
    Array2D stores entry (k, j) at [nrows * j + k]. *)
Definition z (s : StFlow A) (j : nat) : num := (m_z (grid s)).[j].
Definition density_at (s : StFlow A) (j : nat) : num := (m_rho (cache s)).[j].
Definition T_fixed (s : StFlow A) (j : nat) : num := (m_fixedtemp (settings s)).[j].
Definition ix2 (s : StFlow A) (k j : nat) : nat := (m_nsp (grid s) * j + k)%nat.
Definition flux (s : StFlow A) (k j : nat) : num := (m_flux (cache s)).[ix2 s k j].
Definition wdot (s : StFlow A) (k j : nat) : num := (m_wdot (cache s)).[ix2 s k j].
Definition dthermal (s : StFlow A) (k j : nat) : num := (m_dthermal (cache s)).[ix2 s k j].

Definition set_flux (k j : nat) (v : num) (s : StFlow A) : StFlow A :=
  on_cache (fun c => set_m_flux (<[ix2 s k j := v]> (m_flux c)) c) s.

(** The species loop [for (k = 0; k < m_nsp; k++)]. *)
Definition species (s : StFlow A) : list nat := seq 0 (m_nsp (grid s)).

(** StFlow::setGas *)
Definition setGas (x : list num) (j : nat) (s : StFlow A) : StFlow A :=
  set_thermo {| th_T := T s x j;
                th_Y := take (m_nsp (grid s)) (drop (index s c_offset_Y j) x);
                th_P := m_press (settings s) |} s.

(** StFlow::setGasAtMidpoint *)
Definition setGasAtMidpoint (x : list num) (j : nat) (s : StFlow A) : StFlow A :=
  let ybar := fold_left (fun yb k => <[k := lit 0.5 *! (Y s x k j +! Y s x k (j + 1))]> yb)
                        (species s) (m_ybar (cache s)) in
  let s := on_cache (set_m_ybar ybar) s in
  set_thermo {| th_T := lit 0.5 *! (T s x j +! T s x (j + 1));
                th_Y := take (m_nsp (grid s)) ybar;
                th_P := m_press (settings s) |} s.

End Accessors.

(** ** Property Cache updater *)

Section PropertyCache.
Context {A : Arith} {E : Externals A}.

(** Modelled from the spec: StFlow::updateThermo is defined in StFlow.h.  "For
    each point in [j0,j1], sets the thermodynamic state (temperature,
    composition, fixed pressure) from the solution vector, then reads back
    density/molecular weight/heat capacity." *)
Definition updateThermo (x : list num) (j0 j1 : Z) (s : StFlow A) : StFlow A :=
  fold_left (fun s j =>
    let s := setGas x j s in
    let s := on_cache (fun c => set_m_rho (<[j := density (m_thermo s)]> (m_rho c)) c) s in
    let s := on_cache (fun c =>
               set_m_wtm (<[j := meanMolecularWeight (m_thermo s)]> (m_wtm c)) c) s in
    on_cache (fun c => set_m_cp (<[j := cp_mass (m_thermo s)]> (m_cp c)) c) s)
    (range j0 (wrap (j1 + 1))) s.

(** Writing [n] values from a provider into an array at offset [off]. *)
Definition blit (off : nat) (src dst : list num) (n : nat) : list num :=
  fold_left (fun d i => <[(off + i)%nat := src.[i]]> d) (seq 0 n) dst.

(** StFlow::updateTransport *)
Definition updateTransport (x : list num) (j0 j1 : Z) (s : StFlow A) : StFlow A :=
  match m_transport_option (settings s) with
  | c_Mixav_Transport =>
      fold_left (fun s j =>
        let s := setGasAtMidpoint x j s in
        let visc := if m_dovisc (settings s) then viscosity (m_thermo s) else lit 0 in
        let s := on_cache (fun c => set_m_visc (<[j := visc]> (m_visc c)) c) s in
        let s := on_cache (fun c =>
                   set_m_diff (blit (j * m_nsp (grid s)) (getMixDiffCoeffs (m_thermo s))
                                    (m_diff c) (m_nsp (grid s))) c) s in
        on_cache (fun c => set_m_tcon (<[j := thermalConductivity (m_thermo s)]> (m_tcon c)) c) s)
        (range j0 j1) s
  | c_Multi_Transport =>
      fold_left (fun s j =>
        let s := setGasAtMidpoint x j s in
        let wtm := meanMolecularWeight (m_thermo s) in
        let rho := density (m_thermo s) in
        let visc := if m_dovisc (settings s) then viscosity (m_thermo s) else lit 0 in
        let s := on_cache (fun c => set_m_visc (<[j := visc]> (m_visc c)) c) s in
        let nsp := m_nsp (grid s) in
        let s := on_cache (fun c =>
                   set_m_multidiff (blit (mindex s 0 0 j) (getMultiDiffCoeffs (m_thermo s))
                                         (m_multidiff c) (nsp * nsp)) c) s in
        let s := fold_left (fun s k =>
                   on_cache (fun c =>
                     set_m_diff (<[(k + j * nsp)%nat :=
                                     (m_wt (settings s)).[k] *! rho /! (wtm *! wtm)]> (m_diff c)) c) s)
                   (species s) s in
        let s := on_cache (fun c =>
                   set_m_tcon (<[j := thermalConductivity (m_thermo s)]> (m_tcon c)) c) s in
        if m_do_soret (settings s) then
          on_cache (fun c =>
            set_m_dthermal (blit (j * nsp) (getThermalDiffCoeffs (m_thermo s))
                                 (m_dthermal c) nsp) c) s
        else s)
        (range j0 j1) s
  | c_None_Transport => s
  end.

(** Mixture-averaged branch, first species loop: the flux of species [k]
    across interval [j], subtracted from [sum]. *)
Definition mixav_raw (x : list num) (j : nat) (wtm rho dz : num)
    (acc : StFlow A * num) (k : nat) : StFlow A * num :=
  let '(s, sum) := acc in
  let s := set_flux k j ((m_wt (settings s)).[k] *!
             (rho *! (m_diff (cache s)).[k + m_nsp (grid s) * j] /! wtm)) s in
  let s := set_flux k j (flux s k j *! ((X s x k j -! X s x k (j + 1)) /! dz)) s in
  (s, sum -! flux s k j).

(** Second species loop: "correction flux to insure that \sum_k Y_k V_k = 0." *)
Definition mixav_correct (x : list num) (j : nat) (sum : num)
    (s : StFlow A) (k : nat) : StFlow A :=
  set_flux k j (flux s k j +! sum *! Y s x k j) s.

(** The body of the loop over intervals, mixture-averaged branch. *)
Definition mixav_fluxes (x : list num) (j : nat) (s : StFlow A) : StFlow A :=
  let sum := lit 0 in
  let wtm := (m_wtm (cache s)).[j] in
  let rho := density_at s j in
  let dz := z s (j + 1) -! z s j in
  let '(s, sum) := fold_left (mixav_raw x j wtm rho dz) (species s) (s, sum) in
  fold_left (mixav_correct x j sum) (species s) s.

(** The state as the first species loop of interval [j] leaves it: column
    [j] of the flux array holds the fluxes before the correction. *)
Definition mixav_uncorrected (x : list num) (j : nat) (s : StFlow A) : StFlow A :=
  let wtm := (m_wtm (cache s)).[j] in
  let rho := density_at s j in
  let dz := z s (j + 1) -! z s j in
  (fold_left (mixav_raw x j wtm rho dz) (species s) (s, lit 0)).1.

Definition multi_fluxes (x : list num) (j : nat) (s : StFlow A) : StFlow A :=
  let dz := z s (j + 1) -! z s j in
  fold_left (fun s k =>
    let sum := fold_left (fun sum m =>
                 sum +! (m_wt (settings s)).[m] *! (m_multidiff (cache s)).[mindex s k m j]
                        *! (X s x m (j + 1) -! X s x m j))
                 (species s) (lit 0) in
    set_flux k j (sum *! (m_diff (cache s)).[k + j * m_nsp (grid s)] /! dz) s)
    (species s) s.

Definition soret_fluxes (x : list num) (m : nat) (s : StFlow A) : StFlow A :=
  let gradlogT := lit 2 *! (T s x (m + 1) -! T s x m) /!
                  ((T s x (m + 1) +! T s x m) *! (z s (m + 1) -! z s m)) in
  fold_left (fun s k => set_flux k m (flux s k m -! dthermal s k m *! gradlogT) s)
            (species s) s.

(** StFlow::updateDiffFluxes *)
Definition updateDiffFluxes (x : list num) (j0 j1 : Z) (s : StFlow A) : Result (StFlow A) :=
  s <- match m_transport_option (settings s) with
       | c_Mixav_Transport => Ok (fold_left (fun s j => mixav_fluxes x j s) (range j0 j1) s)
       | c_Multi_Transport => Ok (fold_left (fun s j => multi_fluxes x j s) (range j0 j1) s)
       | c_None_Transport => Err (CanteraError "updateDiffFluxes" "unknown transport model")
       end ;;
  if m_do_soret (settings s)
  then Ok (fold_left (fun s m => soret_fluxes x m s) (range j0 j1) s)
  else Ok s.

End PropertyCache.

(** ** Porous solid subsolver *)

Section SolidSolver.
Context {A : Arith} {L : Libm A} {E : Externals A}.

Definition sigma : num := lit 5.67e-8.
Definition tolerance : num := lit 0.000001.

(** The four diagonals' worth of one row of the conduction system. *)
Record Rows := {
  edia : list num;
  fdia : list num;
  gdia : list num;
  rhs : list num
}.

(** "Vector Population" inside the outer loop: row [i] of the tridiagonal
    system, from the current [dq] and the saved [Twprev]. *)
Definition solid_row (x hconv scond : list num) (srho sCp rdt : num)
    (s : StFlow A) (i : nat) : num * num * num * num :=
  let length := m_points (grid s) in
  if (i =? 0)%nat then (lit 0, lit 1, opp (lit 1), lit 0)
  else if (i =? length - 1)%nat then (opp (lit 1), lit 1, lit 0, lit 0)
  else
    let e := (lit 2 *! scond.[i]) /! ((z s i -! z s (i - 1)) *! (z s (i + 1) -! z s (i - 1))) in
    let f := opp (lit 2 *! scond.[i]) /! ((z s (i + 1) -! z s i) *! (z s (i + 1) -! z s (i - 1)))
             -! (lit 2 *! scond.[i]) /! ((z s i -! z s (i - 1)) *! (z s (i + 1) -! z s (i - 1)))
             -! hconv.[i] -! srho *! sCp *! rdt in
    let g := (lit 2 *! scond.[i]) /! ((z s (i + 1) -! z s i) *! (z s (i + 1) -! z s (i - 1))) in
    let r := opp hconv.[i] *! T s x i +! (dq (solidf s)).[i]
             -! srho *! sCp *! rdt *! (Twprev (solidf s)).[i] in
    (e, f, g, r).

Definition solid_rows (x hconv scond : list num) (srho sCp rdt : num) (s : StFlow A) : Rows :=
  let rows := map (solid_row x hconv scond srho sCp rdt s) (seq 0 (m_points (grid s))) in
  {| edia := map (fun r => r.1.1.1) rows;
     fdia := map (fun r => r.1.1.2) rows;
     gdia := map (fun r => r.1.2) rows;
     rhs := map snd rows |}.

(** "Decomposition": the scaled lower diagonal and the pivots. *)
Definition decomposition (length : nat) (m : Rows) : list num * list num :=
  fold_left (fun '(e, f) i =>
               let e := <[i := e.[i] /! f.[i - 1]]> e in
               let f := <[i := f.[i] -! e.[i] *! (gdia m).[i - 1]]> f in
               (e, f))
            (seq 1 (length - 1)) (edia m, fdia m).

(** "Forward Substitution". *)
Definition forward_substitution (length : nat) (edia rhs : list num) : list num :=
  fold_left (fun r i => <[i := r.[i] -! edia.[i] *! r.[i - 1]]> r)
            (seq 1 (length - 1)) rhs.

(** "Back Substitution", written into [Tw]. *)
Definition back_substitution (length : nat) (fdia gdia rhs Tw : list num) : list num :=
  let Tw := <[(length - 1)%nat := rhs.[length - 1] /! fdia.[length - 1]]> Tw in
  fold_left (fun tw i => <[i := (rhs.[i] -! gdia.[i] *! tw.[i + 1]) /! fdia.[i]]> tw)
            (rev (seq 0 (length - 1))) Tw.

(** The solid temperature field from the rows.  The source indexes with
    [length - 1] as an [int]; the model is meant for [1 <= length]. *)
Definition tridiagonal_solve (length : nat) (m : Rows) (Tw : list num) : list num :=
  let '(edia, fdia) := decomposition length m in
  back_substitution length fdia (gdia m) (forward_substitution length edia (rhs m)) Tw.

(** The forward and backward radiative fluxes of the two-flux method. *)
Record TwoFlux := {
  qplus : list num;
  qpnew : list num;
  qminus : list num;
  qmnew : list num
}.

(** "Vector Population" of the radiation part. *)
Definition two_flux_init (x : list num) (s : StFlow A) : TwoFlux :=
  let length := m_points (grid s) in
  let temp2 := T s x 0 in
  let up i := if (i =? 0)%nat then sigma *! pow temp2 (lit 4) else lit 0 in
  let down i := if (i =? 0)%nat then lit 0
                else if (i =? length - 1)%nat then sigma *! pow temp2 (lit 4)
                else lit 0 in
  {| qplus := map up (seq 0 length); qpnew := map up (seq 0 length);
     qminus := map down (seq 0 length); qmnew := map down (seq 0 length) |}.

(** One sweep of the S2 method: forward, backward, norms, copy. *)
Definition two_flux_sweep (RK Omega : list num) (s : StFlow A) (q : TwoFlux)
    : TwoFlux * num * num :=
  let length := m_points (grid s) in
  let Tw := Tw (solidf s) in
  let qpnew :=
    fold_left (fun qp i =>
      let temp := Tw.[i] in
      <[i := (qp.[i - 1] +! RK.[i] *! (z s i -! z s (i - 1)) *! Omega.[i] *! (qminus q).[i] +!
              lit 2 *! RK.[i] *! (z s i -! z s (i - 1)) *! (lit 1 -! Omega.[i]) *! sigma
                *! pow temp (lit 4)) /!
             (lit 1 +! (z s i -! z s (i - 1)) *! RK.[i] *! (lit 2 -! Omega.[i]))]> qp)
      (seq 1 (length - 1)) (qpnew q) in
  let qmnew :=
    fold_left (fun qm i =>
      let temp := Tw.[i] in
      <[i := (qm.[i + 1] +! RK.[i] *! (z s (i + 1) -! z s i) *! Omega.[i] *! qpnew.[i] +!
              lit 2 *! RK.[i] *! (z s (i + 1) -! z s i) *! (lit 1 -! Omega.[i]) *! sigma
                *! pow temp (lit 4)) /!
             (lit 1 +! (z s (i + 1) -! z s i) *! RK.[i] *! (lit 2 -! Omega.[i]))]> qm)
      (rev (seq 0 (length - 1))) (qmnew q) in
  let norm1 := fold_left (fun n i => n +! (qpnew.[i] -! (qplus q).[i]) *! (qpnew.[i] -! (qplus q).[i]))
                         (seq 0 length) (lit 0) in
  let norm2 := fold_left (fun n i => n +! (qmnew.[i] -! (qminus q).[i]) *! (qmnew.[i] -! (qminus q).[i]))
                         (seq 0 length) (lit 0) in
  let qplus := fold_left (fun v i => <[i := qpnew.[i]]> v) (seq 0 length) (qplus q) in
  let qminus := fold_left (fun v i => <[i := qmnew.[i]]> v) (seq 0 length) (qminus q) in
  ({| qplus := qplus; qpnew := qpnew; qminus := qminus; qmnew := qmnew |},
   sqrt norm1, sqrt norm2).

(** The inner loop [while (change2 > 0.000001)]; [fuel] bounds the number of
    times the condition is tested.  Returns the fluxes and [fail]. *)
Fixpoint two_flux_loop (fuel : nat) (RK Omega : list num) (s : StFlow A)
    (change2 : num) (count : Z) (fail : bool) (q : TwoFlux) : option (TwoFlux * bool) :=
  match fuel with
  | O => None
  | S fuel =>
      if change2 >! tolerance then
        let count := count + 1 in
        let '(q, norm1, norm2) := two_flux_sweep RK Omega s q in
        if count >? 100 then two_flux_loop fuel RK Omega s (lit 0) count true q
        else two_flux_loop fuel RK Omega s (fmax norm1 norm2) count fail q
      else Some (q, fail)
  end.

(** The net flux an outer pass proposes, after the inner loop. *)
Definition net_flux (RK Omega : list num) (s : StFlow A) (q : TwoFlux) (fail : bool)
    : list num * StFlow A :=
  let length := m_points (grid s) in
  if fail then (map (fun i => (dq (solidf s)).[i]) (seq 0 length), writelog "Rad Stall" s)
  else (map (fun i =>
          let temp := (Tw (solidf s)).[i] in
          lit 4 *! RK.[i] *! (lit 1 -! Omega.[i]) *!
            (sigma *! pow temp (lit 4) -! lit 0.5 *! (qplus q).[i] -! lit 0.5 *! (qminus q).[i]))
          (seq 0 length), s).

(** The relaxation of [dq] towards [dqnew], with the norm of the change. *)
Definition relax (length : nat) (dqnew dq : list num) : num * list num :=
  let a := lit 0.1 in
  fold_left (fun '(norm, dq) i =>
               (norm +! (dqnew.[i] -! dq.[i]) *! (dqnew.[i] -! dq.[i]),
                <[i := a *! dqnew.[i] +! (lit 1 -! a) *! dq.[i]]> dq))
            (seq 0 length) (lit 0, dq).

(** One pass of the body of the outer loop, up to the relaxation; [None] when
    the inner loop is out of fuel. *)
Definition solid_pass (inner_fuel : nat) (x hconv scond RK Omega : list num)
    (srho sCp rdt : num) (s : StFlow A) : option (StFlow A * num) :=
  let length := m_points (grid s) in
  let m := solid_rows x hconv scond srho sCp rdt s in
  let s := on_solid (fun p => set_Tw (tridiagonal_solve length m (Tw p)) p) s in
  match two_flux_loop inner_fuel RK Omega s (lit 1) 0 false (two_flux_init x s) with
  | None => None
  | Some (q, fail) =>
      let '(dqnew, s) := net_flux RK Omega s q fail in
      let '(norm, dq') := relax length dqnew (dq (solidf s)) in
      Some (on_solid (set_dq dq') s, norm)
  end.

(** The outer loop [while (change1 > 0.000001)].  Returns the state and
    [fail1]. *)
Fixpoint solid_loop (fuel inner_fuel : nat) (x hconv scond RK Omega : list num)
    (srho sCp rdt : num) (change1 : num) (count1 : Z) (fail1 : bool) (s : StFlow A)
    : option (StFlow A * bool) :=
  match fuel with
  | O => None
  | S fuel =>
      if change1 >! tolerance then
        let count1 := count1 + 1 in
        match solid_pass inner_fuel x hconv scond RK Omega srho sCp rdt s with
        | None => None
        | Some (s, norm) =>
            if count1 >? 400
            then solid_loop fuel inner_fuel x hconv scond RK Omega srho sCp rdt
                            (lit 0) count1 true s
            else solid_loop fuel inner_fuel x hconv scond RK Omega srho sCp rdt
                            (sqrt norm) count1 fail1 s
        end
      else Some (s, fail1)
  end.

(** What the part of [solid] before the outer loop does: [Twprev = Tw] and
    [dq[i] = 0]. *)
Definition solid_enter (s : StFlow A) : StFlow A :=
  let length := m_points (grid s) in
  let s := on_solid (fun p => set_Twprev (Tw p) p) s in
  on_solid (fun p => set_dq (fold_left (fun d i => <[i := lit 0]> d) (seq 0 length) (dq p)) p) s.

(** What the part after the loop does. *)
Definition solid_leave (fail1 : bool) (s : StFlow A) : StFlow A :=
  let length := m_points (grid s) in
  if fail1 then
    let s := on_solid (fun p =>
               set_Tw (fold_left (fun tw i => <[i := (Twprev p).[i]]> tw) (seq 0 length) (Tw p))
                      p) s in
    writelog "Rad not Converged" s
  else s.

(** The iteration caps of the two loops leave room for 401 and 101 passes,
    and one more test of the condition. *)
Definition outer_fuel : nat := 402.
Definition inner_fuel : nat := 102.





(** PorousFlow::solid; [None] when a loop runs out of fuel. *)
Definition PorousFlow_solid (x hconv scond RK Omega : list num) (srho sCp rdt : num)
    (s : StFlow A) : option (StFlow A) :=
  let s := solid_enter s in
  match solid_loop outer_fuel inner_fuel x hconv scond RK Omega srho sCp rdt
                   (lit 1) 0 false s with
  | None => None
  | Some (s, fail1) => Some (solid_leave fail1 s)
  end.

End SolidSolver.

(** ** Residual Engine *)

(** The class of the domain object; it selects the virtual functions
    [evalRightBoundary] and [evalContinuity]. *)
Inductive FlowKind :=
| AxiStagnFlow
| FreeFlame
| PorousFlow.

(** The caller's residual and flag buffers (the global arrays [rg], [diagg]). *)
Record Out {A : Arith} := {
  rsd : list num;
  diag : list Z
}.
Arguments Out : clear implicits.

Section ResidualEngine.
Context {A : Arith} {L : Libm A} {E : Externals A}.

(** rsd[index(n, j)] = v, with [rsd = rg + loc()]. *)
Definition set_rsd (s : StFlow A) (n j : nat) (v : num) (o : Out A) : Out A :=
  {| rsd := <[(loc (grid s) + index s n j)%nat := v]> (rsd o); diag := diag o |}.

(** diag[index(n, j)] = v, with [diag = diagg + loc()]. *)
Definition set_diag (s : StFlow A) (n j : nat) (v : Z) (o : Out A) : Out A :=
  {| rsd := rsd o; diag := <[(loc (grid s) + index s n j)%nat := v]> (diag o) |}.

(** Modelled from the spec: StFlow::getWdot is defined in StFlow.h.  The
    source term comes from "a netProductionRates query at a given point's
    thermodynamic state" and is stored in column [j] of [m_wdot]. *)
Definition getWdot (x : list num) (j : nat) (s : StFlow A) : StFlow A :=
  let s := setGas x j s in
  on_cache (fun c =>
    set_m_wdot (blit (ix2 s 0 j) (getNetProductionRates (m_thermo s)) (m_wdot c)
                     (m_nsp (grid s))) c) s.

(** The window of points [jmin..jmax] to evaluate and [j0..j1] to update. *)
Definition eval_window (jg : Z) (s : StFlow A) : Z * Z * Z * Z :=
  let last := wrap (Z.of_nat (m_points (grid s)) - 1) in
  let '(jmin, jmax) :=
    if jg =? npos then (0, last)
    else
      let jpt := if jg =? 0 then 0 else wrap (jg - firstPoint (grid s)) in
      (wrap (Z.max jpt 1 - 1), Z.min (wrap (jpt + 1)) last) in
  let j0 := wrap (Z.max jmin 1 - 1) in
  let j1 := Z.min (wrap (jmax + 1)) last in
  (jmin, jmax, j0, j1).

(** The test "the global point is outside the domain of influence". *)
Definition outside_influence (jg : Z) (s : StFlow A) : bool :=
  negb (jg =? npos) &&
  ((wrap (jg + 1) <? firstPoint (grid s)) || (jg >? wrap (lastPoint (grid s) + 1))).

(** The optically thin radiation block of StFlow::eval. *)
Definition planck (c : list num) (x : list num) (j : nat) (s : StFlow A) : num :=
  fold_left (fun kp n => kp +! c.[n] *! pow (lit 1000 /! T s x j) (lit (inject_Z (Z.of_nat n))))
            (seq 0 6) (lit 0).

Definition c_H2O : list num :=
  [lit (-0.23093); lit (-1.12390); lit 9.41530; lit (-2.99880); lit 0.51382; lit (-1.86840e-5)].
Definition c_CO2 : list num :=
  [lit 18.741; lit (-121.310); lit 273.500; lit (-194.050); lit 56.310; lit (-5.8169)].

Definition radiation (x : list num) (jmin jmax : Z) (s : StFlow A) : StFlow A :=
  let k_P_ref := lit 1 *! OneAtm in
  let kRad i := default npos (m_kRadiating (settings s) !! i) in
  let boundary_Rad_left := m_epsilon_left (settings s) *! StefanBoltz *! pow (T s x 0) (lit 4) in
  let boundary_Rad_right :=
    m_epsilon_right (settings s) *! StefanBoltz
      *! pow (T s x (Z.to_nat (wrap (Z.of_nat (m_points (grid s)) - 1)))) (lit 4) in
  fold_left (fun s j =>
    let k_P := lit 0 in
    let k_P :=
      if negb (kRad 1%nat =? npos) then
        let k_P_H2O := planck c_H2O x j s /! k_P_ref in
        k_P +! m_press (settings s) *! X s x (Z.to_nat (kRad 1%nat)) j *! k_P_H2O
      else k_P in
    let k_P :=
      if negb (kRad 0%nat =? npos) then
        let k_P_CO2 := planck c_CO2 x j s /! k_P_ref in
        k_P +! m_press (settings s) *! X s x (Z.to_nat (kRad 0%nat)) j *! k_P_CO2
      else k_P in
    let radiative_heat_loss :=
      lit 2 *! k_P *! (lit 2 *! StefanBoltz *! pow (T s x j) (lit 4)
                       -! boundary_Rad_left -! boundary_Rad_right) in
    on_cache (fun c => set_m_qdotRadiation (<[j := radiative_heat_loss]> (m_qdotRadiation c)) c) s)
    (range jmin jmax) s.

(** The rows at the left boundary, [j == 0]. *)
Definition left_boundary (x : list num) (s : StFlow A) (o : Out A) : Out A :=
  let o := set_rsd s c_offset_U 0
             (opp (rho_u s x 1 -! rho_u s x 0) /! (m_dz (grid s)).[0]
              -! (density_at s 1 *! V s x 1 +! density_at s 0 *! V s x 0)) o in
  let o := set_rsd s c_offset_V 0 (V s x 0) o in
  let o := set_rsd s c_offset_T 0 (T s x 0) o in
  let o := set_rsd s c_offset_L 0 (opp (rho_u s x 0)) o in
  let '(sum, o) :=
    fold_left (fun '(sum, o) k =>
                 (sum +! Y s x k 0,
                  set_rsd s (c_offset_Y + k) 0
                          (opp (flux s k 0 +! rho_u s x 0 *! Y s x k 0)) o))
              (species s) (lit 0, o) in
  set_rsd s c_offset_Y 0 (lit 1 -! sum) o.

(** The species rows shared by both right boundaries. *)
Definition right_species (x : list num) (s : StFlow A) (j : nat) (o : Out A) : Out A :=
  let '(sum, o) :=
    fold_left (fun '(sum, o) k =>
                 (sum +! Y s x k j,
                  set_rsd s (k + 4) j (flux s k (j - 1) +! rho_u s x j *! Y s x k j) o))
              (species s) (lit 0, o) in
  let o := set_rsd s 4 j (lit 1 -! sum) o in
  set_diag s 4 j 0 o.

(** AxiStagnFlow::evalRightBoundary *)
Definition AxiStagnFlow_evalRightBoundary (x : list num) (s : StFlow A) (o : Out A) : Out A :=
  let j := (m_points (grid s) - 1)%nat in
  let o := set_rsd s 0 j (rho_u s x j) o in
  let o := set_rsd s 1 j (V s x j) o in
  let o := set_rsd s 2 j (T s x j) o in
  let o := set_rsd s c_offset_L j (lambda s x j -! lambda s x (j - 1)) o in
  let o := set_diag s c_offset_L j 0 o in
  right_species x s j o.

(** FreeFlame::evalRightBoundary *)
Definition FreeFlame_evalRightBoundary (x : list num) (s : StFlow A) (o : Out A) : Out A :=
  let j := (m_points (grid s) - 1)%nat in
  let o := set_rsd s 0 j (rho_u s x j -! rho_u s x (j - 1)) o in
  let o := set_rsd s 1 j (V s x j) o in
  let o := set_rsd s 2 j (T s x j -! T s x (j - 1)) o in
  let o := set_rsd s c_offset_L j (lambda s x j -! lambda s x (j - 1)) o in
  let o := set_diag s c_offset_L j 0 o in
  right_species x s j o.

Definition evalRightBoundary (kind : FlowKind) (x : list num) (s : StFlow A) (o : Out A)
    : Out A :=
  match kind with
  | FreeFlame => FreeFlame_evalRightBoundary x s o
  | AxiStagnFlow | PorousFlow => AxiStagnFlow_evalRightBoundary x s o
  end.

(** AxiStagnFlow::evalContinuity *)
Definition AxiStagnFlow_evalContinuity (j : nat) (x : list num) (s : StFlow A) (o : Out A)
    : Out A :=
  let o := set_rsd s c_offset_U j
             (opp (rho_u s x (j + 1) -! rho_u s x j) /! (m_dz (grid s)).[j]
              -! (density_at s (j + 1) *! V s x (j + 1) +! density_at s j *! V s x j)) o in
  set_diag s c_offset_U j 0 o.

(** FreeFlame::evalContinuity; [grid(j)] is the coordinate [z(j)]. *)
Definition FreeFlame_evalContinuity (j : nat) (x : list num) (s : StFlow A) (o : Out A)
    : Out A :=
  let o :=
    if z s j >! m_zfixed (anchor s) then
      set_rsd s c_offset_U j
        (opp (rho_u s x j -! rho_u s x (j - 1)) /! (m_dz (grid s)).[j - 1]
         -! (density_at s (j - 1) *! V s x (j - 1) +! density_at s j *! V s x j)) o
    else if z s j ==! m_zfixed (anchor s) then
      if bget (m_do_energy (settings s)) j
      then set_rsd s c_offset_U j (T s x j -! m_tfixed (anchor s)) o
      else set_rsd s c_offset_U j (rho_u s x j -! (m_rho (cache s)).[0] *! lit 0.3) o
    else if z s j <! m_zfixed (anchor s) then
      set_rsd s c_offset_U j
        (opp (rho_u s x (j + 1) -! rho_u s x j) /! (m_dz (grid s)).[j]
         -! (density_at s (j + 1) *! V s x (j + 1) +! density_at s j *! V s x j)) o
    else o in
  set_diag s c_offset_U j 0 o.

Definition evalContinuity (kind : FlowKind) (j : nat) (x : list num) (s : StFlow A)
    (o : Out A) : Out A :=
  match kind with
  | FreeFlame => FreeFlame_evalContinuity j x s o
  | AxiStagnFlow | PorousFlow => AxiStagnFlow_evalContinuity j x s o
  end.

(** The radial momentum row, the same in both engines. *)
Definition momentum_row (j : nat) (x : list num) (rdt : num) (s : StFlow A) (o : Out A)
    : Out A :=
  let o := set_rsd s c_offset_V j
    ((shear s x j -! lambda s x j -! rho_u s x j *! dVdz s x j
      -! (m_rho (cache s)).[j] *! V s x j *! V s x j) /! (m_rho (cache s)).[j]
     -! rdt *! (V s x j -! V_prev s j)) o in
  set_diag s c_offset_V j 1 o.

(** The two sums of the energy equation: heat release and flux-weighted heat
    capacities. *)
Definition energy_sums (j : nat) (s : StFlow A) : num * num :=
  let h_RT := enthalpy_RT_ref (m_thermo s) in
  let cp_R := cp_R_ref (m_thermo s) in
  fold_left (fun '(sum, sum2) k =>
               let flxk := lit 0.5 *! (flux s k (j - 1) +! flux s k j) in
               (sum +! wdot s k j *! h_RT.[k],
                sum2 +! flxk *! cp_R.[k] /! (m_wt (settings s)).[k]))
            (species s) (lit 0, lit 0).

(** The row "temperature equals the fixed profile" of a point whose energy
    equation is disabled. *)
Definition fixed_temperature_row (j : nat) (x : list num) (s : StFlow A) (o : Out A)
    : Out A :=
  let o := set_rsd s c_offset_T j (T s x j -! T_fixed s j) o in
  set_diag s c_offset_T j 0 o.

Definition lambda_row (j : nat) (x : list num) (s : StFlow A) (o : Out A) : Out A :=
  let o := set_rsd s c_offset_L j (lambda s x j -! lambda s x (j - 1)) o in
  set_diag s c_offset_L j 0 o.

(** An interior point of StFlow::eval. *)
Definition StFlow_interior (kind : FlowKind) (j : nat) (x : list num) (rdt : num)
    (s : StFlow A) (o : Out A) : StFlow A * Out A :=
  let o := evalContinuity kind j x s o in
  let o := momentum_row j x rdt s o in
  let s := getWdot x j s in
  let o :=
    fold_left (fun o k =>
      let convec := rho_u s x j *! dYdz s x k j in
      let diffus := lit 2 *! (flux s k j -! flux s k (j - 1)) /! (z s (j + 1) -! z s (j - 1)) in
      let o := set_rsd s (c_offset_Y + k) j
        (((m_wt (settings s)).[k] *! wdot s k j -! convec -! diffus) /! (m_rho (cache s)).[j]
         -! rdt *! (Y s x k j -! Y_prev s k j)) o in
      set_diag s (c_offset_Y + k) j 1 o)
      (species s) o in
  let '(s, o) :=
    if bget (m_do_energy (settings s)) j then
      let s := setGas x j s in
      let '(sum, sum2) := energy_sums j s in
      let sum := sum *! (GasConstant *! T s x j) in
      let dtdzj := dTdz s x j in
      let sum2 := sum2 *! (GasConstant *! dtdzj) in
      let r := opp (m_cp (cache s)).[j] *! rho_u s x j *! dtdzj
               -! divHeatFlux s x j -! sum -! sum2 in
      let r := r /! ((m_rho (cache s)).[j] *! (m_cp (cache s)).[j]) in
      let r := r -! rdt *! (T s x j -! T_prev s j) in
      let r := r -! (m_qdotRadiation (cache s)).[j]
                    /! ((m_rho (cache s)).[j] *! (m_cp (cache s)).[j]) in
      (s, set_diag s c_offset_T j 1 (set_rsd s c_offset_T j r o))
    else (s, fixed_temperature_row j x s o) in
  (s, lambda_row j x s o).

(** The body of the loop over [j = jmin..jmax] of StFlow::eval. *)
Definition StFlow_point (kind : FlowKind) (x : list num) (rdt : num)
    (acc : StFlow A * Out A) (j : nat) : StFlow A * Out A :=
  let '(s, o) := acc in
  if (j =? 0)%nat then (s, left_boundary x s o)
  else if (Z.of_nat j =? wrap (Z.of_nat (m_points (grid s)) - 1))
       then (s, evalRightBoundary kind x s o)
       else StFlow_interior kind j x rdt s o.

(** StFlow::eval(jg, xg, rg, diagg, rdt).  The buffers are the global ones;
    [x], [rsd] and [diag] of the source start at offset [loc()]. *)
Definition StFlow_eval (kind : FlowKind) (jg : Z) (xg : list num) (o : Out A) (rdt : num)
    (s : StFlow A) : Result (StFlow A * Out A) :=
  if outside_influence jg s then Ok (s, o)
  else
    let rdt := if negb (jg =? npos) then lit 0 else rdt in
    let x := drop (loc (grid s)) xg in
    let '(jmin, jmax, j0, j1) := eval_window jg s in
    let s := updateThermo x j0 j1 s in
    let s := if jg =? npos then updateTransport x j0 j1 s else s in
    s <- updateDiffFluxes x j0 j1 s ;;
    let s := if m_do_radiation (settings s) then radiation x jmin jmax s else s in
    Ok (fold_left (StFlow_point kind x rdt) (range jmin (jmax + 1)) (s, o)).

(** The porosity, pore diameter and solid conductivity profiles of
    PorousFlow::eval, with the local vectors [RK], [Cmult], [mpow]. *)
Definition porous_profiles (s : StFlow A) : StFlow A * (list num * list num * list num) :=
  let length := m_points (grid s) in
  let p := solidf s in
  let lo := m_zmid p -! m_dzmid p in
  let hi := m_zmid p +! m_dzmid p in
  let blend a b i := ((b -! a) /! (lit 2 *! m_dzmid p)) *! (z s i -! lo) +! a in
  let pick a b i := if z s i <! lo then a else if z s i >! hi then b else blend a b i in
  let '(s, RK, Cmult, mpow) :=
    fold_left (fun '(s, RK, Cmult, mpow) i =>
      let s := on_solid (fun p => set_pore (<[i := pick (pore1 p) (pore2 p) i]> (pore p)) p) s in
      let s := on_solid (fun p => set_diam (<[i := pick (diam1 p) (diam2 p) i]> (diam p)) p) s in
      let RK := <[i := lit 3 *! (lit 1 -! (pore (solidf s)).[i]) /! (diam (solidf s)).[i]]> RK in
      let Cmult := <[i := lit (-400) *! (diam (solidf s)).[i] +! lit 0.687]> Cmult in
      let mpow := <[i := lit 443.7 *! (diam (solidf s)).[i] +! lit 0.361]> mpow in
      let s := on_solid (fun p =>
                 set_scond (<[i := lit 0.188 -! lit 17.5 *! (diam p).[i]]> (scond p)) p) s in
      (s, RK, Cmult, mpow))
      (seq 0 length)
      (s, replicate length (lit 0), replicate length (lit 0), replicate length (lit 0)) in
  (s, (RK, Cmult, mpow)).

Definition porous_albedo (s : StFlow A) : list num :=
  map (fun i => if z s i <! m_zmid (solidf s) then Omega1 (solidf s) else Omega2 (solidf s))
      (seq 0 (m_points (grid s))).

(** The convective heat-transfer coefficients over [jmin..jmax]. *)
Definition porous_hconv (x Cmult mpow : list num) (jmin jmax : Z) (s : StFlow A) : StFlow A :=
  fold_left (fun s j =>
    let lam := (m_tcon (cache s)).[j] in
    let visc := (m_visc (cache s)).[j] in
    let Re := (rho_u s x j *! (pore (solidf s)).[j] *! (diam (solidf s)).[j]) /! visc in
    let nusselt := Cmult.[j] *! pow Re mpow.[j] in
    on_solid (fun p =>
      set_hconv (<[j := (lam *! nusselt) /! pow (diam p).[j] (lit 2)]> (hconv p)) p) s)
    (range jmin (jmax + 1)) s.

(** An interior point of PorousFlow::eval. *)
Definition PorousFlow_interior (j : nat) (x : list num) (rdt : num)
    (s : StFlow A) (o : Out A) : StFlow A * Out A :=
  let pore := pore (solidf s) in
  let o := set_rsd s c_offset_U j
             (opp (rho_u s x (j + 1) *! pore.[j + 1] -! rho_u s x j *! pore.[j])
                /! (m_dz (grid s)).[j]
              -! (density_at s (j + 1) *! V s x (j + 1) +! density_at s j *! V s x j)) o in
  let o := set_diag s c_offset_U j 0 o in
  let o := momentum_row j x rdt s o in
  let s := getWdot x j s in
  let o :=
    fold_left (fun o k =>
      let convec := rho_u s x j *! dYdz s x k j *! pore.[j] in
      let diffus := lit 2 *! (flux s k j *! pore.[j] -! flux s k (j - 1) *! pore.[j - 1])
                    /! (z s (j + 1) -! z s (j - 1)) in
      let o := set_rsd s (c_offset_Y + k) j
        (((m_wt (settings s)).[k] *! (wdot s k j *! pore.[j]) -! convec -! diffus)
           /! ((m_rho (cache s)).[j] *! pore.[j])
         -! rdt *! (Y s x k j -! Y_prev s k j)) o in
      set_diag s (c_offset_Y + k) j 1 o)
      (species s) o in
  let '(s, o) :=
    if bget (m_do_energy (settings s)) j then
      let s := setGas x j s in
      let '(sum, sum2) := energy_sums j s in
      let sum := sum *! (GasConstant *! T s x j) in
      let dtdzj := dTdz s x j in
      let sum2 := sum2 *! (GasConstant *! dtdzj) in
      let r := opp (m_cp (cache s)).[j] *! rho_u s x j *! dtdzj
               -! divHeatFlux s x j -! sum -! sum2 in
      let r := r -! ((hconv (solidf s)).[j] *! (T s x j -! (Tw (solidf s)).[j])) /! pore.[j] in
      let r := r /! ((m_rho (cache s)).[j] *! (m_cp (cache s)).[j]) in
      let r := r -! rdt *! (T s x j -! T_prev s j) in
      (s, set_diag s c_offset_T j 1 (set_rsd s c_offset_T j r o))
    else (s, fixed_temperature_row j x s o) in
  (s, lambda_row j x s o).

Definition PorousFlow_point (x : list num) (rdt : num)
    (acc : StFlow A * Out A) (j : nat) : StFlow A * Out A :=
  let '(s, o) := acc in
  if (j =? 0)%nat then (s, left_boundary x s o)
  else if (Z.of_nat j =? wrap (Z.of_nat (m_points (grid s)) - 1))
       then (s, evalRightBoundary PorousFlow x s o)
       else PorousFlow_interior j x rdt s o.

(** PorousFlow::eval(jg, xg, rg, diagg, rdt); [None] when the solid subsolver
    runs out of fuel. *)
Definition PorousFlow_eval (jg : Z) (xg : list num) (o : Out A) (rdt : num)
    (s : StFlow A) : option (Result (StFlow A * Out A)) :=
  if outside_influence jg s then Some (Ok (s, o))
  else
    let rdt := if negb (jg =? npos) then lit 0 else rdt in
    let x := drop (loc (grid s)) xg in
    let '(jmin, jmax, j0, j1) := eval_window jg s in
    let s := on_settings (set_m_dovisc true) s in
    let s := updateThermo x j0 j1 s in
    let s := if jg =? npos then updateTransport x j0 j1 s else s in
    match updateDiffFluxes x j0 j1 s with
    | Err e => Some (Err e)
    | Ok s =>
        let length := Z.of_nat (m_points (grid s)) in
        match resize length (lit 0) (hconv (solidf s)),
              resize length (lit 0) (pore (solidf s)),
              resize length (lit 0) (diam (solidf s)),
              resize length (lit 0) (scond (solidf s)) with
        | Ok hc, Ok po, Ok di, Ok sc =>
            let s := on_solid (fun p => set_scond sc (set_diam di (set_pore po (set_hconv hc p)))) s in
            let '(s, (RK, Cmult, mpow)) := porous_profiles s in
            let Omega := porous_albedo s in
            let s := porous_hconv x Cmult mpow jmin jmax s in
            let solved :=
              if dosolid (solidf s) =? 1 then
                match PorousFlow_solid x (hconv (solidf s)) (scond (solidf s)) RK Omega
                                       (srho (solidf s)) (sCp (solidf s)) rdt s with
                | Some s => Some (on_solid (set_dosolid 0) s)
                | None => None
                end
              else Some s in
            match solved with
            | Some s => Some (Ok (fold_left (PorousFlow_point x rdt) (range jmin (jmax + 1)) (s, o)))
            | None => None
            end
        | _, _, _, _ => Some (Err length_error)
        end
    end.

End ResidualEngine.

(** ** Restoring a saved solution *)

(** The part of the XML document that [restore] reads, already parsed: the
    float arrays of "grid_data" in document order, and the optional children
    of the domain node. *)
Record FloatArray {A : Arith} := {
  title : string;
  values : list num
}.
Arguments FloatArray : clear implicits.

Record SolidNode {A : Arith} := {
  n_pore1 : num; n_pore2 : num; n_diam1 : num; n_diam2 : num;
  n_scond1 : num; n_scond2 : num; n_Omega1 : num; n_Omega2 : num;
  n_rho : num; n_Cp : num; n_zmid : num; n_dzmid : num;
  n_Tsolid : list num;
  n_Radiation : list num;
  n_Porosity : list num;
  n_Diameter : list num;
  n_SolidConductivity : list num;
  n_Hconv : list num
}.
Arguments SolidNode : clear implicits.

Record Document {A : Arith} := {
  pressure : num;
  grid_data : list (FloatArray A);
  energy_enabled : option (list num);
  species_enabled : option (list num);
  Solid_node : option (SolidNode A);
  strings : list (string * string)   (* the children "string": title and value *)
}.
Arguments Document : clear implicits.

Section Restore.
Context {A : Arith}.

(** PorousFlow::setupGrid, the search [while (z[i] > m_z[j+1])]: [j] advances
    and the loop throws 10 once [j+1 > m_points-1]; [gap] counts the steps
    left before that, [(m_points - 1) - (j + 1)]. *)
Fixpoint advance (gap : nat) (zi : num) (mz : list num) (j : nat) : Result nat :=
  if zi >! mz.[j + 1] then
    match gap with
    | O => Err (thrown_int 10)
    | S gap => advance gap zi mz (j + 1)
    end
  else Ok j.

(** PorousFlow::setupGrid: the solid fields are interpolated onto the new
    grid before the base class sets it up. *)
Definition PorousFlow_setupGrid (z : list num) (s : StFlow A) : Result (StFlow A) :=
  let n := length z in
  let TwTmp := Tw (solidf s) in
  let dqTmp := dq (solidf s) in
  let mz := m_z (grid s) in
  let last := (m_points (grid s) - 1)%nat in
  tw <- resize (Z.of_nat n) (lit 0) (Tw (solidf s)) ;;
  dq0 <- resize (Z.of_nat n) (lit 0) (dq (solidf s)) ;;
  r <- for_each (fun i '(tw, dq, j) =>
         if z.[i] <=! mz.[0] then Ok (<[i := TwTmp.[0]]> tw, <[i := dqTmp.[0]]> dq, j)
         else if z.[i] >=! mz.[last] then
           Ok (<[i := TwTmp.[last]]> tw, <[i := dqTmp.[last]]> dq, j)
         else
           j <- advance (last - (j + 1)) z.[i] mz j ;;
           let tmp := (z.[i] -! mz.[j]) /! (mz.[j + 1] -! mz.[j]) in
           Ok (<[i := (lit 1 -! tmp) *! TwTmp.[j] +! tmp *! TwTmp.[j + 1]]> tw,
               <[i := (lit 1 -! tmp) *! dqTmp.[j] +! tmp *! dqTmp.[j + 1]]> dq, j))
         (seq 0 n) (tw, dq0, 0%nat) ;;
  let '(tw, dq1, _) := r in
  StFlow_setupGrid z (on_solid (fun p => set_dq dq1 (set_Tw tw p)) s).

(** The virtual call [setupGrid]. *)
Definition setupGrid (kind : FlowKind) (z : list num) (s : StFlow A) : Result (StFlow A) :=
  match kind with
  | PorousFlow => PorousFlow_setupGrid z s
  | AxiStagnFlow | FreeFlame => StFlow_setupGrid z s
  end.

Fixpoint speciesIndex (names : list string) (nm : string) : option nat :=
  match names with
  | [] => None
  | n :: rest => if String.eqb n nm then Some 0%nat
                 else option_map S (speciesIndex rest nm)
  end.

Definition restore_error (message : string) : Error :=
  CanteraError "StFlow::restore" message.

(** The line break the source writes as a backslash and "n". *)
Definition newline : string := String (Ascii.ascii_of_nat 10) EmptyString.

(** [debuglog(msg, loglevel)] is declared in global.h, which is not among the
    sources; [restore] calls it with the condition [loglevel >= 2] in the
    place of the level, and the message is written when the condition holds. *)
Definition debuglog (msg : string) (condition : bool) (s : StFlow A) : StFlow A :=
  if condition then writelog msg s else s.

(** Modelled from the spec: the provider's [speciesName(k)], one name per
    species. *)
Definition speciesName (k : nat) (s : StFlow A) : string :=
  default "" (speciesNames (settings s) !! k).

(** The loop over the children "string": each is echoed to the log. *)
Definition restore_strings (doc : Document A) (s : StFlow A) : StFlow A :=
  fold_left (fun s nd => writelog (nd.1 +:+ ": " +:+ nd.2 +:+ newline) s) (strings doc) s.

(** First loop of StFlow::restore: every array titled "z" sets the grid up;
    the result is the state and [np], or the error "no grid points". *)
Definition restore_grid (kind : FlowKind) (doc : Document A) (loglevel : Z) (s : StFlow A)
    : Result (StFlow A * nat) :=
  r <- for_each (fun fa '(s, np, readgrid) =>
         if String.eqb (title fa) "z" then
           let np := length (values fa) in
           let s := if loglevel >=? 2
                    then writelog ("Grid contains " +:+ pretty np +:+ " points." +:+ newline) s
                    else s in
           s <- setupGrid kind (values fa) s ;;
           Ok (s, np, true)
         else Ok (s, np, readgrid))
         (grid_data doc) (s, 0%nat, false) ;;
  let '(s, np, readgrid) := r in
  if readgrid then Ok (s, np)
  else Err (restore_error "domain contains no grid points.").

(** soln[index(n, j)] = x[j] for [j < np]. *)
Definition copy_component (s : StFlow A) (n np : nat) (x soln : list num) : list num :=
  fold_left (fun soln j => <[index s n j := x.[j]]> soln) (seq 0 np) soln.

(** Second loop of StFlow::restore: the datasets, by title.  The loop
    carries the solution array and the locals [did_species] and [ignored]. *)
Definition restore_dataset (loglevel : Z) (np : nat) (fa : FloatArray A)
    (acc : StFlow A * list num * list Z * list string)
    : Result (StFlow A * list num * list Z * list string) :=
  let '(s, soln, did_species, ignored) := acc in
  let nm := title fa in
  let x := values fa in
  if String.eqb nm "u" then
    let s := debuglog "axial velocity   " (loglevel >=? 2) s in
    if negb (length x =? np)%nat then Err (restore_error "axial velocity array size error")
    else Ok (s, copy_component s 0 np x soln, did_species, ignored)
  else if String.eqb nm "z" then Ok (s, soln, did_species, ignored)
  else if String.eqb nm "V" then
    let s := debuglog "radial velocity   " (loglevel >=? 2) s in
    if negb (length x =? np)%nat then Err (restore_error "radial velocity array size error")
    else Ok (s, copy_component s 1 np x soln, did_species, ignored)
  else if String.eqb nm "T" then
    let s := debuglog "temperature   " (loglevel >=? 2) s in
    if negb (length x =? np)%nat then Err (restore_error "temperature array size error")
    else
      let soln := copy_component s 2 np x soln in
      let zmin := z s 0 in
      let zmax := z s (m_points (grid s) - 1) in
      let zz := map (fun jj => (z s jj -! zmin) /! (zmax -! zmin)) (seq 0 np) in
      Ok (on_settings (fun t => set_m_tfix x (set_m_zfix zz t)) s, soln,
          did_species, ignored)
  else if String.eqb nm "L" then
    let s := debuglog "lambda   " (loglevel >=? 2) s in
    if negb (length x =? np)%nat then Err (restore_error "lambda arary size error")
    else Ok (s, copy_component s 3 np x soln, did_species, ignored)
  else
    match speciesIndex (speciesNames (settings s)) nm with
    | Some k =>
        let s := debuglog (nm +:+ "   ") (loglevel >=? 2) s in
        if (length x =? np)%nat
        then Ok (s, copy_component s (k + 4) np x soln, <[k := 1]> did_species, ignored)
        else Ok (s, soln, did_species, ignored)
    | None => Ok (s, soln, did_species, ignored ++ [nm])
    end.

(** After the datasets, at [loglevel >= 2]: the titles that were ignored. *)
Definition log_ignored (loglevel : Z) (ignored : list string) (s : StFlow A) : StFlow A :=
  if (loglevel >=? 2) && negb (length ignored =? 0)%nat then
    let s := writelog (newline +:+ newline) s in
    let s := writelog ("Ignoring datasets:" +:+ newline) s in
    fold_left (fun s nm => writelog (nm +:+ "   ") s) ignored s
  else s.

(** At [loglevel >= 1]: the species no dataset was stored for, after a header
    that is written once. *)
Definition log_missing (loglevel : Z) (nsp : nat) (did_species : list Z) (s : StFlow A)
    : StFlow A :=
  if loglevel >=? 1 then
    (fold_left (fun '(s, wrote_header) ks =>
       if default 0 (did_species !! ks) =? 0 then
         let '(s, wrote_header) :=
           if negb wrote_header
           then (writelog ("Missing data for species:" +:+ newline) s, true)
           else (s, wrote_header) in
         (writelog (speciesName ks s +:+ " ") s, wrote_header)
       else (s, wrote_header))
       (seq 0 nsp) (s, false)).1
  else s.

(** [flags[i] = x[i]] for [i < x.size()], a double stored into a bool. *)
Definition store_flags (x : list num) (flags : list bool) : list bool :=
  fold_left (fun v i => <[i := negb (x.[i] ==! lit 0)]> v) (seq 0 (length x)) flags.

Definition energy_enabled_error (len np : nat) : Error :=
  restore_error ("energy_enabled is length " +:+ pretty len +:+
                 "but should be length " +:+ pretty np).

Definition species_enabled_warning (len nsp : nat) : string :=
  "
Warning: StFlow::restore: species_enabled is length " +:+ pretty len +:+
  " but should be length " +:+ pretty nsp +:+
  ". Enabling all species equations by default.".

(** The child "energy_enabled": a wrong length that is not zero throws. *)
Definition restore_energy_enabled (doc : Document A) (s : StFlow A) : Result (StFlow A) :=
  match energy_enabled doc with
  | Some x =>
      if (length x =? m_points (grid s))%nat
      then Ok (on_settings (fun t => set_m_do_energy (store_flags x (m_do_energy t)) t) s)
      else if negb (length x =? 0)%nat
           then Err (energy_enabled_error (length x) (m_points (grid s)))
           else Ok s
  | None => Ok s
  end.

(** The child "species_enabled": a wrong length that is not zero enables
    every species, with a warning when [loglevel > 0]. *)
Definition restore_species_enabled (doc : Document A) (loglevel : Z) (s : StFlow A)
    : StFlow A :=
  match species_enabled doc with
  | Some x =>
      if (length x =? m_nsp (grid s))%nat
      then on_settings (fun t => set_m_do_species (store_flags x (m_do_species t)) t) s
      else if negb (length x =? 0)%nat then
        (* "This may occur when restoring from a mechanism with a different
           number of species." *)
        let s := if loglevel >? 0
                 then writelog (species_enabled_warning (length x) (m_nsp (grid s))) s
                 else s in
        on_settings (set_m_do_species (replicate (m_nsp (grid s)) true)) s
      else s
  | None => s
  end.

Definition restore_flags (doc : Document A) (loglevel : Z) (s : StFlow A)
    : Result (StFlow A) :=
  s <- restore_energy_enabled doc s ;;
  Ok (restore_species_enabled doc loglevel s).

(** StFlow::restore.  Domain1D::restore (bounds and tolerances) and the
    refiner's criteria are outside this model; [nsp] is the provider's
    [nSpecies()], the number of its species names. *)
Definition StFlow_restore (kind : FlowKind) (doc : Document A) (soln : list num)
    (loglevel : Z) (s : StFlow A) : Result (StFlow A * list num) :=
  let ignored : list string := [] in
  let nsp := length (speciesNames (settings s)) in
  let did_species : list Z := replicate nsp 0 in
  let s := restore_strings doc s in
  let s := on_settings (set_m_press (pressure doc)) s in
  r <- restore_grid kind doc loglevel s ;;
  let '(s, np) := r in
  let s := debuglog ("Importing datasets:" +:+ newline) (loglevel >=? 2) s in
  r <- for_each (restore_dataset loglevel np) (grid_data doc)
                (s, soln, did_species, ignored) ;;
  let '(s, soln, did_species, ignored) := r in
  let s := log_ignored loglevel ignored s in
  let s := log_missing loglevel nsp did_species s in
  s <- restore_flags doc loglevel s ;;
  Ok (s, soln).

Definition solid_array_error (name : string) (len np : nat) : Error :=
  CanteraError "PorousFlow::restore"
    (name +:+ " is of length" +:+ pretty len +:+ "but should be length" +:+ pretty np).

(** One array of the "Solid" node: the member is resized to the point count,
    then filled when the lengths agree. *)
Definition restore_solid_array (name : string) (np : nat) (x member : list num)
    : Result (list num) :=
  member <- resize (Z.of_nat np) (lit 0) member ;;
  if (length x =? np)%nat
  then Ok (fold_left (fun m i => <[i := x.[i]]> m) (seq 0 (length x)) member)
  else if negb (length x =? 0)%nat then Err (solid_array_error name (length x) np)
  else Ok member.

Definition set_solid_scalars (n : SolidNode A) (p : Solid A) : Solid A :=
  {| Tw := Tw p; dq := dq p; Twprev := Twprev p; pore := pore p; diam := diam p;
     scond := scond p; hconv := hconv p;
     pore1 := n_pore1 n; pore2 := n_pore2 n; diam1 := n_diam1 n; diam2 := n_diam2 n;
     scond1 := n_scond1 n; scond2 := n_scond2 n; Omega1 := n_Omega1 n; Omega2 := n_Omega2 n;
     srho := n_rho n; sCp := n_Cp n; m_zmid := n_zmid n; m_dzmid := n_dzmid n;
     dosolid := dosolid p |}.

(** PorousFlow::restore *)
Definition PorousFlow_restore (doc : Document A) (soln : list num) (loglevel : Z)
    (s : StFlow A) : Result (StFlow A * list num) :=
  r <- StFlow_restore PorousFlow doc soln loglevel s ;;
  let '(s, soln) := r in
  match Solid_node doc with
  | None => Ok (s, soln)
  | Some n =>
      let s := on_solid (set_solid_scalars n) s in
      let np := m_points (grid s) in
      v <- restore_solid_array "Tw" np (n_Tsolid n) (Tw (solidf s)) ;;
      let s := on_solid (set_Tw v) s in
      v <- restore_solid_array "dq" np (n_Radiation n) (dq (solidf s)) ;;
      let s := on_solid (set_dq v) s in
      v <- restore_solid_array "Porosity" np (n_Porosity n) (pore (solidf s)) ;;
      let s := on_solid (set_pore v) s in
      v <- restore_solid_array "diam" np (n_Diameter n) (diam (solidf s)) ;;
      let s := on_solid (set_diam v) s in
      v <- restore_solid_array "scond" np (n_SolidConductivity n) (scond (solidf s)) ;;
      let s := on_solid (set_scond v) s in
      v <- restore_solid_array "hconv" np (n_Hconv n) (hconv (solidf s)) ;;
      Ok (on_solid (set_hconv v) s, soln)
  end.

End Restore.

(** ** Vocabulary of the statements *)

(** [sum += g(k)] over the indices [ks], from zero. *)
Definition sum_over {A : Arith} (g : nat -> num) (ks : list nat) : num :=
  fold_left (fun acc k => acc +! g k) ks (lit 0).

(** The state [s] with its flux array replaced. *)
Definition with_flux {A : Arith} (f : list num) (s : StFlow A) : StFlow A :=
  on_cache (set_m_flux f) s.

(** ** Fixed temperature profile and flame anchor *)

Section Finalize.
Context {A : Arith} {E : Externals A}.

(** StFlow::_finalize *)
Definition StFlow_finalize (x : list num) (s : StFlow A) : StFlow A :=
  let nz := length (m_zfix (settings s)) in
  let e := bget (m_do_energy (settings s)) 0 in
  let s :=
    fold_left (fun s j =>
      if e || (nz =? 0)%nat then
        on_settings (fun t => set_m_fixedtemp (<[j := T s x j]> (m_fixedtemp t)) t) s
      else
        let zz := (z s j -! z s 0) /! (z s (m_points (grid s) - 1) -! z s 0) in
        let tt := linearInterp zz (m_zfix (settings s)) (m_tfix (settings s)) in
        on_settings (fun t => set_m_fixedtemp (<[j := tt]> (m_fixedtemp t)) t) s)
      (range 0 (Z.of_nat (m_points (grid s)))) s in
  if e then on_settings (fun t => set_m_do_energy (solveEnergyEqn (m_do_energy t)) t) s
  else s.



End Finalize.


(** What the fixed-temperature rows read from the engine. *)
Definition obs_rows {A : Arith} (s : StFlow A) :=
  (grid s, m_do_energy (settings s), m_fixedtemp (settings s),
   m_transport_option (settings s)).

(** The arrays written by [updateTransport]. *)
Definition obs_transport {A : Arith} (s : StFlow A) :=
  (m_visc (cache s), m_tcon (cache s), m_diff (cache s),
   m_multidiff (cache s), m_dthermal (cache s)).

(** The arrays written by [updateThermo] and [updateDiffFluxes]. *)
Definition obs_thermo {A : Arith} (s : StFlow A) :=
  (m_rho (cache s), m_wtm (cache s), m_cp (cache s), m_flux (cache s)).

(** Everything the solid subsolver leaves alone. *)
Definition obs_gas {A : Arith} (s : StFlow A) :=
  (grid s, cache s, settings s, m_thermo s, anchor s).

(** The buffers [o] and [o'] differ at most at the positions [lo..hi-1]. *)
Definition block_frame {A : Arith} (lo hi : nat) (o o' : Out A) : Prop :=
  length (rsd o') = length (rsd o) /\
  length (diag o') = length (diag o) /\
  forall i, ~ (lo <= i < hi)%nat ->
    rsd o' !! i = rsd o !! i /\ diag o' !! i = diag o !! i.

(** What the residual rows read, with the transport arrays and the arrays of
    the thermodynamic and flux updates. *)
Definition obs_update {A : Arith} (s : StFlow A) := (obs_rows s, obs_transport s).
Definition obs_residual {A : Arith} (s : StFlow A) :=
  (obs_rows s, obs_transport s, obs_thermo s).

(** What every pass of the solid subsolver preserves: the gas side, the saved
    field [Twprev], and the solid temperature beyond the grid. *)
Definition solid_inv {A : Arith} (s s' : StFlow A) : Prop :=
  obs_gas s' = obs_gas s /\
  Twprev (solidf s') = Twprev (solidf s) /\
  length (Tw (solidf s')) = length (Tw (solidf s)) /\
  ((1 <= m_points (grid s))%nat ->
   forall i, (m_points (grid s) <= i)%nat -> Tw (solidf s') !! i = Tw (solidf s) !! i).

(** The row of the temperature residual of point [j] in the global buffers. *)
Definition T_row {A : Arith} (s : StFlow A) (j : nat) : nat :=
  (loc (grid s) + index s c_offset_T j)%nat.

(** The temperature row of point [j] holds the algebraic constraint
    "temperature equals the fixed profile". *)
Definition fixed_row_written {A : Arith} (s : StFlow A) (x : list num) (j : nat)
    (o : Out A) : Prop :=
  rsd o !! T_row s j = Some (T s x j -! T_fixed s j) /\ diag o !! T_row s j = Some 0.

(** What a loop over grid points guarantees for the row of point [j]; [pt]
    is the body of the loop. *)
Definition point_spec {A : Arith} (pt : StFlow A * Out A -> nat -> StFlow A * Out A)
    (x : list num) : Prop :=
  forall (s : StFlow A) (o : Out A) (j : nat),
    m_nv (grid s) = (4 + m_nsp (grid s))%nat ->
    (1 <= m_nsp (grid s))%nat ->
    (1 <= m_points (grid s))%nat ->
    Z.of_nat (m_points (grid s)) <= SIZE_MAX ->
    obs_residual (pt (s, o) j).1 = obs_residual s /\
    block_frame (loc (grid s) + m_nv (grid s) * j)
                (loc (grid s) + m_nv (grid s) * j + m_nv (grid s)) o (pt (s, o) j).2 /\
    ((0 < j)%nat -> (j + 1 < m_points (grid s))%nat ->
     bget (m_do_energy (settings s)) j = false ->
     (T_row s j < length (rsd o))%nat -> (T_row s j < length (diag o))%nat ->
     fixed_row_written s x j (pt (s, o) j).2).

(** The four datasets of [restore] whose length is checked against the point
    count. *)
Definition checked_titles : list string := ["u"; "V"; "T"; "L"].

(** A restored array that is not empty and not of the expected length. *)
Definition mismatched {A : Arith} (np : nat) (x : list num) : Prop :=
  x <> [] /\ length x <> np.

(** The six arrays of the "Solid" node, in the order they are read. *)
Definition solid_arrays {A : Arith} (n : SolidNode A) : list (list num) :=
  [n_Tsolid n; n_Radiation n; n_Porosity n; n_Diameter n; n_SolidConductivity n; n_Hconv n].

(** ** Interface kinetics (InterfaceKinetics.cpp)

    The bookkeeping of phase existence and stability, the lookup of the
    charge-transfer coefficient of a reaction, and the end of [updateROP],
    where the net rates of progress are formed and then corrected for phases
    that do not exist or are not stable. *)

Section InterfaceKinetics.
Context {A : Arith}.

(** The members of InterfaceKinetics that these functions read and write. *)
Record InterfaceKinetics := {
  n_phases : nat;                          (* m_thermo.size(), nPhases() *)
  n_reactions : nat;                       (* nReactions() *)
  m_phaseExists : list bool;
  m_phaseIsStable : list bool;
  m_phaseExistsCheck : Z;                  (* an int, used as a counter *)
  m_rxnPhaseIsReactant : list (list bool);
  m_rxnPhaseIsProduct : list (list bool);
  m_ropf : list num;
  m_ropr : list num;
  m_ropnet : list num;
  m_ROP_ok : bool;
  m_ctrxn : list Z;                        (* size_t reaction indices *)
  m_beta : list num
}.

Definition set_phaseExists v (k : InterfaceKinetics) : InterfaceKinetics :=
  let 'Build_InterfaceKinetics a b _ d e f g h i j l m n := k in
  Build_InterfaceKinetics a b v d e f g h i j l m n.
Definition set_phaseIsStable v (k : InterfaceKinetics) : InterfaceKinetics :=
  let 'Build_InterfaceKinetics a b c _ e f g h i j l m n := k in
  Build_InterfaceKinetics a b c v e f g h i j l m n.
Definition set_phaseExistsCheck v (k : InterfaceKinetics) : InterfaceKinetics :=
  let 'Build_InterfaceKinetics a b c d _ f g h i j l m n := k in
  Build_InterfaceKinetics a b c d v f g h i j l m n.
Definition set_rop (f r net : list num) (k : InterfaceKinetics) : InterfaceKinetics :=
  let 'Build_InterfaceKinetics a b c d e rf rp _ _ _ l m n := k in
  Build_InterfaceKinetics a b c d e rf rp f r net l m n.
Definition set_ROP_ok v (k : InterfaceKinetics) : InterfaceKinetics :=
  let 'Build_InterfaceKinetics a b c d e f g h i j _ m n := k in
  Build_InterfaceKinetics a b c d e f g h i j v m n.

(** InterfaceKinetics::setPhaseExistence(iphase, exists).  The counter is an
    [int]; it is decremented only next to [std::max(., 0)] and incremented
    once per phase that stops existing. *)
Definition setPhaseExistence (iphase : nat) (exists_ : Z) (k : InterfaceKinetics)
    : Result InterfaceKinetics :=
  if (n_phases k <=? iphase)%nat
  then Err (CanteraError "InterfaceKinetics:setPhaseExistence" "out of bounds")
  else if negb (exists_ =? 0) then
    let k :=
      if negb (bget (m_phaseExists k) iphase)
      then set_phaseExists (<[iphase := true]> (m_phaseExists k))
             (set_phaseExistsCheck (Z.max (m_phaseExistsCheck k - 1) 0) k)
      else k in
    Ok (set_phaseIsStable (<[iphase := true]> (m_phaseIsStable k)) k)
  else
    let k :=
      if bget (m_phaseExists k) iphase
      then set_phaseExists (<[iphase := false]> (m_phaseExists k))
             (set_phaseExistsCheck (m_phaseExistsCheck k + 1) k)
      else k in
    Ok (set_phaseIsStable (<[iphase := false]> (m_phaseIsStable k)) k).

(** InterfaceKinetics::phaseExistence(iphase): a bool returned as an int. *)
Definition phaseExistence (iphase : nat) (k : InterfaceKinetics) : Result Z :=
  if (n_phases k <=? iphase)%nat
  then Err (CanteraError "InterfaceKinetics:phaseExistence()" "out of bounds")
  else Ok (if bget (m_phaseExists k) iphase then 1 else 0).

(** InterfaceKinetics::phaseStability(iphase) *)
Definition phaseStability (iphase : nat) (k : InterfaceKinetics) : Result Z :=
  if (n_phases k <=? iphase)%nat
  then Err (CanteraError "InterfaceKinetics:phaseStability()" "out of bounds")
  else Ok (if bget (m_phaseIsStable k) iphase then 1 else 0).

(** InterfaceKinetics::setPhaseStability(iphase, isStable) *)
Definition setPhaseStability (iphase : nat) (isStable : Z) (k : InterfaceKinetics)
    : Result InterfaceKinetics :=
  if (n_phases k <=? iphase)%nat
  then Err (CanteraError "InterfaceKinetics:setPhaseStability" "out of bounds")
  else Ok (set_phaseIsStable (<[iphase := negb (isStable =? 0)]> (m_phaseIsStable k)) k).

(** InterfaceKinetics::electrochem_beta(irxn): the coefficient stored next to
    the first entry of [m_ctrxn] that equals [irxn], else 0. *)
Fixpoint electrochem_beta_from (i : nat) (ctrxn : list Z) (beta : list num) (irxn : Z)
    : num :=
  match ctrxn with
  | [] => lit 0
  | c :: rest => if c =? irxn then beta.[i] else electrochem_beta_from (S i) rest beta irxn
  end.

Definition electrochem_beta (irxn : Z) (k : InterfaceKinetics) : num :=
  electrochem_beta_from 0 (m_ctrxn k) (m_beta k) irxn.

(** [m_rxnPhaseIsReactant[j][p]] and [m_rxnPhaseIsProduct[j][p]]. *)
Definition rxn_phase (m : list (list bool)) (j p : nat) : bool :=
  bget (default [] (m !! j)) p.

(** The body of the loop over reactions under [if (m_phaseExistsCheck)] in
    InterfaceKinetics::updateROP, for reaction [j] with forward, reverse and
    net rates of progress [f], [r], [net].  The direction is tested once,
    before the loop over the phases. *)
Definition check_phases (k : InterfaceKinetics) (j : nat) (f r net : num)
    : num * num * num :=
  let exists_ p := bget (m_phaseExists k) p in
  let stable p := bget (m_phaseIsStable k) p in
  let reactant p := rxn_phase (m_rxnPhaseIsReactant k) j p in
  let product p := rxn_phase (m_rxnPhaseIsProduct k) j p in
  let phases := seq 0 (n_phases k) in
  if (r >! f) && (r >! lit 0) then
    fold_left (fun '(f, r, net) p =>
      let '(f, r, net) :=
        if product p && negb (exists_ p) then
          let net := lit 0 in
          let r := f in
          if f >! lit 0 then
            fold_left (fun '(f, r, net) rp =>
                         if reactant rp && negb (exists_ rp)
                         then (lit 0, lit 0, lit 0)
                         else (f, r, net))
                      phases (f, r, net)
          else (f, r, net)
        else (f, r, net) in
      if reactant p && negb (stable p) then (f, f, lit 0) else (f, r, net))
      phases (f, r, net)
  else if (f >! r) && (f >! lit 0) then
    fold_left (fun '(f, r, net) p =>
      let '(f, r, net) :=
        if reactant p && negb (exists_ p) then
          let net := lit 0 in
          let f := r in
          if f >! lit 0 then
            fold_left (fun '(f, r, net) rp =>
                         if product rp && negb (exists_ rp)
                         then (lit 0, lit 0, lit 0)
                         else (f, r, net))
                      phases (f, r, net)
          else (f, r, net)
        else (f, r, net) in
      if product p && negb (stable p) then (r, r, lit 0) else (f, r, net))
      phases (f, r, net)
  else (f, r, net).

(** The end of InterfaceKinetics::updateROP, from the loop that forms
    [m_ropnet]: the forward and reverse rates of progress are the ones the
    first part of the function has left in [m_ropf] and [m_ropr].  (The loop
    before it, over Butler-Volmer reactions, computes a local that is not
    used.) *)
Definition updateROP_net (k : InterfaceKinetics) : InterfaceKinetics :=
  let k :=
    fold_left (fun k j =>
                 set_rop (m_ropf k) (m_ropr k)
                         (<[j := (m_ropf k).[j] -! (m_ropr k).[j]]> (m_ropnet k)) k)
              (seq 0 (n_reactions k)) k in
  let k :=
    if negb (m_phaseExistsCheck k =? 0) then
      fold_left (fun k j =>
                   let '(f, r, net) :=
                     check_phases k j (m_ropf k).[j] (m_ropr k).[j] (m_ropnet k).[j] in
                   set_rop (<[j := f]> (m_ropf k)) (<[j := r]> (m_ropr k))
                           (<[j := net]> (m_ropnet k)) k)
                (seq 0 (n_reactions k)) k
    else k in
  set_ROP_ok true k.

(** What the phase bookkeeping maintains: one flag per phase in both vectors,
    and the counter equal to the number of phases that do not exist. *)
Definition phases_consistent (k : InterfaceKinetics) : Prop :=
  length (m_phaseExists k) = n_phases k /\
  length (m_phaseIsStable k) = n_phases k /\
  m_phaseExistsCheck k = Z.of_nat (count_occ bool_dec (m_phaseExists k) false).

(** The rates of a reaction after the correction: net rate zero, reverse rate
    equal to the forward rate. *)
Definition balanced (st : num * num * num) : Prop := st.2 = lit 0 /\ st.1.2 = st.1.1.

End InterfaceKinetics.
Arguments InterfaceKinetics : clear implicits.

(** The net rate of a reaction is its forward rate minus its reverse rate. *)
Definition net_is_difference (st : @num Exact * @num Exact * @num Exact) : Prop :=
  st.2 = st.1.1 -! st.1.2.

(** ** Component names (StFlow.cpp) *)

Section Components.
Context {A : Arith}.

(** StFlow::componentName(n) *)
Definition componentName (n : nat) (s : StFlow A) : string :=
  match n with
  | 0%nat => "u"
  | 1%nat => "V"
  | 2%nat => "T"
  | 3%nat => "lambda"
  | _ =>
      if (c_offset_Y <=? n)%nat && (n <? c_offset_Y + m_nsp (grid s))%nat
      then speciesName (n - c_offset_Y) s
      else "<unknown>"
  end.

(** StFlow::componentIndex(name); the result is a size_t, [npos] when no
    component has the name. *)
Definition componentIndex (name : string) (s : StFlow A) : Z :=
  if String.eqb name "u" then 0
  else if String.eqb name "V" then 1
  else if String.eqb name "T" then 2
  else if String.eqb name "lambda" then 3
  else
    match find (fun n => String.eqb (componentName n s) name) (seq 4 (m_nsp (grid s))) with
    | Some n => Z.of_nat n
    | None => npos
    end.

(** The names of the four flow components. *)
Definition flow_component_names : list string := ["u"; "V"; "T"; "lambda"].

End Components.

Section FinalizeValue.
Context {A : Arith} {E : Externals A}.

(** What the loop of [_finalize] stores at point [j]: the temperature of the
    solution, or the stored profile interpolated at the relative position. *)
Definition finalize_value (x : list num) (s : StFlow A) (j : nat) : num :=
  if bget (m_do_energy (settings s)) 0 || (length (m_zfix (settings s)) =? 0)%nat
  then T s x j
  else linearInterp ((z s j -! z s 0) /! (z s (m_points (grid s) - 1) -! z s 0))
                    (m_zfix (settings s)) (m_tfix (settings s)).

End FinalizeValue.

(** ** Choosing the transport model (StFlow.cpp) *)

(** The value of [m_trans->model()], as far as [setTransport] tells the
    models apart. *)
Inductive TransportModel :=
| cMulticomponent
| CK_Multicomponent
| cMixtureAveraged
| CK_MixtureAveraged
| other_model.

Section SetTransport.
Context {A : Arith}.

Definition set_m_do_soret (v : bool) (t : Settings A) : Settings A :=
  {| m_press := m_press t; m_wt := m_wt t; m_transport_option := m_transport_option t;
     m_do_soret := v; m_do_radiation := m_do_radiation t; m_dovisc := m_dovisc t;
     m_epsilon_left := m_epsilon_left t; m_epsilon_right := m_epsilon_right t;
     m_kRadiating := m_kRadiating t; m_do_energy := m_do_energy t;
     m_do_species := m_do_species t; m_fixedtemp := m_fixedtemp t;
     m_zfix := m_zfix t; m_tfix := m_tfix t; speciesNames := speciesNames t;
     m_desc := m_desc t |}.

Definition set_m_transport_option (v : TransportOption) (t : Settings A) : Settings A :=
  {| m_press := m_press t; m_wt := m_wt t; m_transport_option := v;
     m_do_soret := m_do_soret t; m_do_radiation := m_do_radiation t; m_dovisc := m_dovisc t;
     m_epsilon_left := m_epsilon_left t; m_epsilon_right := m_epsilon_right t;
     m_kRadiating := m_kRadiating t; m_do_energy := m_do_energy t;
     m_do_species := m_do_species t; m_fixedtemp := m_fixedtemp t;
     m_zfix := m_zfix t; m_tfix := m_tfix t; speciesNames := speciesNames t;
     m_desc := m_desc t |}.

Definition soret_error : Error :=
  CanteraError "setTransport"
    "Thermal diffusion (the Soret effect) requires using a multicomponent transport model.".

(** StFlow::setTransport(trans, withSoret).  The function assigns members
    before it throws, so the result is the state the call leaves behind
    together with the exception, if any.  A [resize] that throws leaves its
    vector as it was. *)
Definition setTransport (model : TransportModel) (withSoret : bool) (s : StFlow A)
    : StFlow A * option Error :=
  let s := on_settings (set_m_do_soret withSoret) s in
  let nsp := Z.of_nat (m_nsp (grid s)) in
  let np := Z.of_nat (m_points (grid s)) in
  match model with
  | cMulticomponent | CK_Multicomponent =>
      let s := on_settings (set_m_transport_option c_Multi_Transport) s in
      match resize (wrap (wrap (nsp * nsp) * np)) num0 (m_multidiff (cache s)) with
      | Err e => (s, Some e)
      | Ok multidiff =>
          let s := on_cache (set_m_multidiff multidiff) s in
          match resize (wrap (nsp * np)) num0 (m_diff (cache s)) with
          | Err e => (s, Some e)
          | Ok diff =>
              let s := on_cache (set_m_diff diff) s in
              match Array2D_resize (m_nsp (grid s)) (m_points (grid s)) num0
                                   (m_dthermal (cache s)) with
              | Err e => (s, Some e)
              | Ok dthermal => (on_cache (set_m_dthermal dthermal) s, None)
              end
          end
      end
  | cMixtureAveraged | CK_MixtureAveraged =>
      let s := on_settings (set_m_transport_option c_Mixav_Transport) s in
      match resize (wrap (nsp * np)) num0 (m_diff (cache s)) with
      | Err e => (s, Some e)
      | Ok diff =>
          let s := on_cache (set_m_diff diff) s in
          if withSoret then (s, Some soret_error) else (s, None)
      end
  | other_model => (s, Some (CanteraError "setTransport" "unknown transport model."))
  end.

(** StFlow::enableSoret(withSoret) *)
Definition enableSoret (withSoret : bool) (s : StFlow A) : StFlow A * option Error :=
  match m_transport_option (settings s) with
  | c_Multi_Transport => (on_settings (set_m_do_soret withSoret) s, None)
  | _ => (s, Some soret_error)
  end.

End SetTransport.

(** ** Saving a solution *)

Section Save.
Context {A : Arith}.

(** Array2D::getRow(n, x) of [Array2D soln(m_nv, m_points, sol + loc())]:
    component [n] at every point of the domain. *)
Definition getRow (s : StFlow A) (sol : list num) (n : nat) : list num :=
  map (fun j => sol.[loc (grid s) + index s n j]) (seq 0 (m_points (grid s))).

(** [values[i] = flags[i]], a bool stored into a double. *)
Definition of_bool (b : bool) : num := if b then lit 1 else lit 0.

(** StFlow::save, as the document [restore] reads: the description, if there
    is one, as a child "string", the pressure, the arrays of "grid_data" in
    the order they are added, and the two flag arrays.  Domain1D::save, the
    type attribute and the refiner's criteria are outside this model. *)
Definition StFlow_save (s : StFlow A) (sol : list num) : Document A :=
  let np := m_points (grid s) in
  let nsp := m_nsp (grid s) in
  {| pressure := m_press (settings s);
     grid_data :=
       [ {| title := "z"; values := m_z (grid s) |};
         {| title := "u"; values := getRow s sol 0 |};
         {| title := "V"; values := getRow s sol 1 |};
         {| title := "T"; values := getRow s sol 2 |};
         {| title := "L"; values := getRow s sol 3 |} ]
       ++ map (fun k => {| title := speciesName k s; values := getRow s sol (4 + k) |})
              (seq 0 nsp)
       ++ (if m_do_radiation (settings s)
           then [ {| title := "radiative_heat_loss";
                     values := map (fun i => (m_qdotRadiation (cache s)).[i])
                                   (seq 0 (length (m_z (grid s)))) |} ]
           else []);
     energy_enabled :=
       Some (map (fun i => of_bool (bget (m_do_energy (settings s)) i)) (seq 0 np));
     species_enabled :=
       Some (map (fun i => of_bool (bget (m_do_species (settings s)) i)) (seq 0 nsp));
     Solid_node := None;
     strings := if String.eqb (m_desc (settings s)) "" then []
                else [("description", m_desc (settings s))] |}.

(** PorousFlow::save adds the node "Solid". *)
Definition PorousFlow_save (s : StFlow A) (sol : list num) : Document A :=
  let flow := StFlow_save s sol in
  let p := solidf s in
  let per_point (v : list num) := map (fun i => v.[i]) (seq 0 (m_points (grid s))) in
  {| pressure := pressure flow;
     grid_data := grid_data flow;
     energy_enabled := energy_enabled flow;
     species_enabled := species_enabled flow;
     Solid_node :=
       Some {| n_pore1 := pore1 p; n_pore2 := pore2 p; n_diam1 := diam1 p;
               n_diam2 := diam2 p; n_scond1 := scond1 p; n_scond2 := scond2 p;
               n_Omega1 := Omega1 p; n_Omega2 := Omega2 p; n_rho := srho p;
               n_Cp := sCp p; n_zmid := m_zmid p; n_dzmid := m_dzmid p;
               n_Tsolid := per_point (Tw p);
               n_Radiation := per_point (dq p);
               n_Porosity := per_point (pore p);
               n_Diameter := per_point (diam p);
               n_SolidConductivity := per_point (scond p);
               n_Hconv := per_point (hconv p) |};
     strings := strings flow |}.

(** The XML layer between [save] and [restore] (addFloat, addFloatArray,
    getFloat, getFloatArray) is not among the sources: [written v] stands
    for the number read back after [v] has been written as text.  The
    arrays keep their titles, order and lengths. *)
Definition reread_solid (written : num -> num) (n : SolidNode A) : SolidNode A :=
  {| n_pore1 := written (n_pore1 n); n_pore2 := written (n_pore2 n);
     n_diam1 := written (n_diam1 n); n_diam2 := written (n_diam2 n);
     n_scond1 := written (n_scond1 n); n_scond2 := written (n_scond2 n);
     n_Omega1 := written (n_Omega1 n); n_Omega2 := written (n_Omega2 n);
     n_rho := written (n_rho n); n_Cp := written (n_Cp n);
     n_zmid := written (n_zmid n); n_dzmid := written (n_dzmid n);
     n_Tsolid := map written (n_Tsolid n);
     n_Radiation := map written (n_Radiation n);
     n_Porosity := map written (n_Porosity n);
     n_Diameter := map written (n_Diameter n);
     n_SolidConductivity := map written (n_SolidConductivity n);
     n_Hconv := map written (n_Hconv n) |}.

Definition reread (written : num -> num) (doc : Document A) : Document A :=
  {| pressure := written (pressure doc);
     grid_data := map (fun fa => {| title := title fa; values := map written (values fa) |})
                      (grid_data doc);
     energy_enabled := option_map (map written) (energy_enabled doc);
     species_enabled := option_map (map written) (species_enabled doc);
     Solid_node := option_map (reread_solid written) (Solid_node doc);
     strings := strings doc |}.

End Save.

Section SavedDomains.
Context {A : Arith}.

(** The sizes of a domain agree with its point and species counts. *)
Definition consistent (s : StFlow A) : Prop :=
  (1 <= m_points (grid s))%nat /\
  m_nv (grid s) = (4 + m_nsp (grid s))%nat /\
  length (m_z (grid s)) = m_points (grid s) /\
  length (m_do_energy (settings s)) = m_points (grid s) /\
  length (m_do_species (settings s)) = m_nsp (grid s) /\
  length (speciesNames (settings s)) = m_nsp (grid s).

(** Species names that [restore] can tell apart from each other and from
    the titles of the other datasets. *)
Definition names_usable (names : list string) : Prop :=
  NoDup names /\
  Forall (fun t => t ∉ names) ["z"; "u"; "V"; "T"; "L"; "radiative_heat_loss"].

(** The domain [r] a document is restored into has the species of the
    domain [s] it was saved from. *)
Definition same_mechanism (r s : StFlow A) : Prop :=
  m_nv (grid r) = m_nv (grid s) /\ m_nsp (grid r) = m_nsp (grid s) /\
  speciesNames (settings r) = speciesNames (settings s) /\
  length (m_do_species (settings r)) = m_nsp (grid s).

(** What the interpolation of PorousFlow::setupGrid needs of the domain it
    regrids: "greater" implies "greater or equal" for the numbers, and an
    old grid of two points or more.  The other kinds need nothing. *)
Definition regrid_ready (kind : FlowKind) (r : StFlow A) : Prop :=
  kind = PorousFlow ->
  (forall a b : num, (a >! b) = true -> (a >=! b) = true) /\
  (2 <= m_points (grid r))%nat.

(** The state of the domain while the datasets are read: only the fixed
    temperature profile changes. *)
Definition same_domain (s s' : StFlow A) : Prop :=
  grid s' = grid s /\
  m_press (settings s') = m_press (settings s) /\
  m_do_energy (settings s') = m_do_energy (settings s) /\
  m_do_species (settings s') = m_do_species (settings s) /\
  speciesNames (settings s') = speciesNames (settings s).

(** The component a dataset is stored to, by its title. *)
Definition stored_as (names : list string) (t : string) (n : nat) : Prop :=
  (t = "u" /\ n = 0%nat) \/ (t = "V" /\ n = 1%nat) \/ (t = "T" /\ n = 2%nat) \/
  (t = "L" /\ n = 3%nat) \/
  ((t ∉ ["u"; "z"; "V"; "T"; "L"]) /\ exists k, names !! k = Some t /\ n = (4 + k)%nat).

(** The title of component [n] in a saved document. *)
Definition saved_title (s : StFlow A) (n : nat) : string :=
  match n with
  | 0%nat => "u" | 1%nat => "V" | 2%nat => "T" | 3%nat => "L"
  | S (S (S (S k))) => speciesName k s
  end.

End SavedDomains.

Section SavedSolid.
Context {A : Arith}.

(** The six per-point arrays of the solid have one entry per point. *)
Definition solid_consistent (s : StFlow A) : Prop :=
  let np := m_points (grid s) in
  let p := solidf s in
  length (Tw p) = np /\ length (dq p) = np /\ length (pore p) = np /\
  length (diam p) = np /\ length (scond p) = np /\ length (hconv p) = np.

(** The scalar properties of the solid, in the order [save] writes them. *)
Definition solid_scalars (p : Solid A) : list num :=
  [pore1 p; pore2 p; diam1 p; diam2 p; scond1 p; scond2 p; Omega1 p; Omega2 p;
   srho p; sCp p; m_zmid p; m_dzmid p].

End SavedSolid.

Section BoundaryDefs.
Context {A : Arith}.

(** The sum of the mass fractions at point [j], in the order the boundary
    loops add them up. *)
Definition sum_Y (s : StFlow A) (x : list num) (j : nat) : num :=
  fold_left (fun sum k => sum +! Y s x k j) (species s) (lit 0).

(** The row of the first species of point [j] in the global buffers. *)
Definition Y0_row (s : StFlow A) (j : nat) : nat :=
  (loc (grid s) + index s c_offset_Y j)%nat.

(** The buffers [o] and [o'] agree at the positions [lo..hi-1]. *)
Definition block_agree (lo hi : nat) (o o' : Out A) : Prop :=
  forall i, (lo <= i < hi)%nat -> rsd o' !! i = rsd o !! i /\ diag o' !! i = diag o !! i.

(** What the loop over the points keeps while it is at other points than
    [j]: what the rows read of the domain [s], the lengths of the buffers
    [o], and the block of [j]. *)
Definition kept (s : StFlow A) (o : Out A) (j : nat) (a : StFlow A * Out A) : Prop :=
  obs_residual a.1 = obs_residual s /\
  length (rsd a.2) = length (rsd o) /\ length (diag a.2) = length (diag o) /\
  block_agree (loc (grid s) + m_nv (grid s) * j)
              (loc (grid s) + m_nv (grid s) * j + m_nv (grid s)) o a.2.

End BoundaryDefs.

Section BoundaryRowDefs.
Context {A : Arith}.

(** The row of the first species at the left boundary holds the
    normalisation of the mass fractions; its flag is the caller's. *)
Definition left_row_written (s : StFlow A) (x : list num) (o o' : Out A) : Prop :=
  rsd o' !! Y0_row s 0 = Some (lit 1 -! sum_Y s x 0) /\
  diag o' !! Y0_row s 0 = diag o !! Y0_row s 0.

(** The same row at the right boundary, marked algebraic. *)
Definition right_row_written (s : StFlow A) (x : list num) (o' : Out A) : Prop :=
  let j := (m_points (grid s) - 1)%nat in
  rsd o' !! Y0_row s j = Some (lit 1 -! sum_Y s x j) /\
  diag o' !! Y0_row s j = Some 0.

End BoundaryRowDefs.

Section BoundaryBody.
Context {A : Arith} {L : Libm A} {E : Externals A}.

(** The two boundary branches of the loop bodies. *)
Definition boundary_body (kind : FlowKind)
    (pt : StFlow A * Out A -> nat -> StFlow A * Out A) (x : list num) : Prop :=
  forall (s : StFlow A) (o : Out A),
    pt (s, o) 0%nat = (s, left_boundary x s o) /\
    ((2 <= m_points (grid s))%nat -> Z.of_nat (m_points (grid s)) <= SIZE_MAX ->
     pt (s, o) (m_points (grid s) - 1)%nat = (s, evalRightBoundary kind x s o)).

End BoundaryBody.

Section ProfileDefs.
Context {A : Arith}.

(** The profile between the two sections of the porous solid: [a] before the
    transition zone, [b] after it, and a straight line in between. *)
Definition section_profile (s : StFlow A) (a b : num) (i : nat) : num :=
  let p := solidf s in
  let lo := m_zmid p -! m_dzmid p in
  let hi := m_zmid p +! m_dzmid p in
  if z s i <! lo then a
  else if z s i >! hi then b
  else ((b -! a) /! (lit 2 *! m_dzmid p)) *! (z s i -! lo) +! a.

(** What the profile loop has stored for the points before [k]. *)
Definition profiles_stored (s : StFlow A) (n k : nat)
    (a : StFlow A * list num * list num * list num) : Prop :=
  let '(s', RK, Cmult, mpow) := a in
  let p := solidf s in
  let p' := solidf s' in
  obs_gas s' = obs_gas s /\
  (pore1 p', pore2 p', diam1 p', diam2 p') = (pore1 p, pore2 p, diam1 p, diam2 p) /\
  (length (pore p') = n /\ length (diam p') = n /\ length (scond p') = n /\
   length RK = n /\ length Cmult = n /\ length mpow = n) /\
  forall i, (i < k)%nat ->
    (pore p').[i] = section_profile s (pore1 p) (pore2 p) i /\
    (diam p').[i] = section_profile s (diam1 p) (diam2 p) i /\
    (scond p').[i] = lit 0.188 -! lit 17.5 *! (diam p').[i] /\
    RK.[i] = lit 3 *! (lit 1 -! (pore p').[i]) /! (diam p').[i] /\
    Cmult.[i] = lit (-400) *! (diam p').[i] +! lit 0.687 /\
    mpow.[i] = lit 443.7 *! (diam p').[i] +! lit 0.361.

End ProfileDefs.

Section FlagDefs.
Context {A : Arith}.

(** The position of component [n] of point [j] in the global buffers. *)
Definition row (s : StFlow A) (n j : nat) : nat := (loc (grid s) + index s n j)%nat.

(** The flags of an interior point: continuity and the pressure eigenvalue
    are algebraic, momentum and the species are differential, and the energy
    row is differential where the energy equation is enabled. *)
Definition interior_flags (s : StFlow A) (j : nat) (o' : Out A) : Prop :=
  diag o' !! row s c_offset_U j = Some 0 /\
  diag o' !! row s c_offset_V j = Some 1 /\
  diag o' !! row s c_offset_T j
    = Some (if bget (m_do_energy (settings s)) j then 1 else 0) /\
  diag o' !! row s c_offset_L j = Some 0 /\
  forall k, (k < m_nsp (grid s))%nat -> diag o' !! row s (c_offset_Y + k) j = Some 1.

(** The flags an interior point leaves behind, store by store. *)
Definition interior_diag (s : StFlow A) (j : nat) (d : list Z) : list Z :=
  <[row s c_offset_L j := 0]>
    (<[row s c_offset_T j := if bget (m_do_energy (settings s)) j then 1 else 0]>
       (fold_left (fun d k => <[row s (c_offset_Y + k) j := 1]> d) (species s)
          (<[row s c_offset_V j := 1]> (<[row s c_offset_U j := 0]> d)))).

End FlagDefs.

Section AnchorDefs.
Context {A : Arith}.

(** [kept] together with the anchor of the flame. *)
Definition kept_anchored (s : StFlow A) (o : Out A) (j : nat) (a : StFlow A * Out A)
    : Prop :=
  kept s o j a /\ anchor a.1 = anchor s.

(** The continuity row of an interior point of a free flame that lies on the
    anchor: with the energy equation enabled there, it pins the temperature
    to the anchor's. *)
Definition anchored_row_written (s : StFlow A) (x : list num) (j : nat) (o' : Out A)
    : Prop :=
  rsd o' !! row s c_offset_U j = Some (T s x j -! m_tfixed (anchor s)) /\
  diag o' !! row s c_offset_U j = Some 0.

(** The coordinate of point [j] compares with the anchor in none of the
    three ways the continuity equation asks for. *)
Definition unordered_with_anchor (s : StFlow A) (j : nat) : Prop :=
  (z s j >! m_zfixed (anchor s)) = false /\
  (z s j ==! m_zfixed (anchor s)) = false /\
  (z s j <! m_zfixed (anchor s)) = false.

End AnchorDefs.

Section NoAbsorptionDefs.
Context {A : Arith}.

(** A solid that neither absorbs nor emits: at every point the extinction
    coefficient is zero or the scattering albedo is one. *)
Definition no_absorption (RK Omega : list num) (n : nat) : Prop :=
  forall i, (i < n)%nat -> RK.[i] *! (lit 1 -! Omega.[i]) = lit 0.

(** The net radiative flux is zero at every point of the grid. *)
Definition no_net_flux (s : StFlow A) : Prop :=
  forall i, (i < m_points (grid s))%nat -> (dq (solidf s)).[i] = lit 0.

End NoAbsorptionDefs.

(** ** Concrete inputs

    States and arrays at which the properties below are evaluated. *)

Section Inputs.
Context {A : Arith}.

(** A flow domain with [nsp] species before any grid has been set: the
    per-point vectors are still empty. *)
Definition new_flow (nsp : nat) (option : TransportOption) : StFlow A := {|
  grid := {| m_nv := 4 + nsp; m_points := 0; m_nsp := nsp; m_z := []; m_dz := [];
             firstPoint := 0; lastPoint := 0; loc := 0 |};
  cache := {| m_rho := []; m_wtm := []; m_cp := []; m_visc := []; m_tcon := [];
              m_diff := []; m_multidiff := []; m_dthermal := []; m_flux := [];
              m_wdot := []; m_ybar := replicate nsp num0; m_qdotRadiation := [] |};
  settings := {| m_press := lit 101325; m_wt := replicate nsp num1;
                 m_transport_option := option; m_do_soret := false;
                 m_do_radiation := false; m_dovisc := true;
                 m_epsilon_left := num0; m_epsilon_right := num0;
                 m_kRadiating := [npos; npos];
                 m_do_energy := []; m_do_species := replicate nsp true;
                 m_fixedtemp := []; m_zfix := []; m_tfix := [];
                 speciesNames := []; m_desc := "" |};
  m_thermo := {| th_T := lit 300; th_Y := replicate nsp num0; th_P := lit 101325 |};
  anchor := {| m_zfixed := num0; m_tfixed := num0 |};
  solidf := {| Tw := []; dq := []; Twprev := []; pore := []; diam := [];
               scond := []; hconv := [];
               pore1 := num0; pore2 := num0; diam1 := num0; diam2 := num0;
               scond1 := num0; scond2 := num0; Omega1 := num0; Omega2 := num0;
               srho := num0; sCp := num0; m_zmid := num0; m_dzmid := num0;
               dosolid := 0 |};
  logged := []
|}.

End Inputs.

Section MoreInputs.
Context {A : Arith}.

(** A set of externals to run the model with: mole fractions from mass
    fractions by the mean molecular weight, one-sided differences for the
    stencils, a provider with unit properties, and no chemistry. *)
#[export] Instance plain : Externals A := {|
  GasConstant := lit 8314.4621;
  StefanBoltz := lit 5.67e-8;
  OneAtm := lit 101325;
  Undef := lit (-999.1234);
  rho_u := fun s x j => density_at s j *! x.[index s c_offset_U j];
  X := fun s x k j => (m_wtm (cache s)).[j] *! Y s x k j /! (m_wt (settings s)).[k];
  shear := fun _ _ _ => lit 0;
  dVdz := fun s x j => (V s x (j + 1) -! V s x j) /! (m_dz (grid s)).[j];
  dYdz := fun s x k j => (Y s x k (j + 1) -! Y s x k j) /! (m_dz (grid s)).[j];
  dTdz := fun s x j => (T s x (j + 1) -! T s x j) /! (m_dz (grid s)).[j];
  divHeatFlux := fun _ _ _ => lit 0;
  V_prev := fun _ _ => lit 0;
  T_prev := fun _ _ => lit 0;
  Y_prev := fun _ _ _ => lit 0;
  mindex := fun s k m j => (m * m_nsp (grid s) * m_nsp (grid s) + m_nsp (grid s) * j + k)%nat;
  solveEnergyEqn := fun flags => map (fun _ => true) flags;
  linearInterp := fun _ _ fpts => fpts.[0];
  density := fun _ => lit 1;
  meanMolecularWeight := fun _ => lit 1;
  cp_mass := fun _ => lit 1;
  enthalpy_RT_ref := fun th => map (fun _ => lit 0) (th_Y th);
  cp_R_ref := fun th => map (fun _ => lit 1) (th_Y th);
  getNetProductionRates := fun th => map (fun _ => lit 0) (th_Y th);
  viscosity := fun _ => lit 1;
  thermalConductivity := fun _ => lit 1;
  getMixDiffCoeffs := fun th => map (fun _ => lit 1) (th_Y th);
  getMultiDiffCoeffs := fun th => flat_map (fun _ => map (fun _ => lit 1) (th_Y th)) (th_Y th);
  getThermalDiffCoeffs := fun th => map (fun _ => lit 0) (th_Y th)
|}.

(** A domain of [nsp] species on the grid [zs], with unit density, mean
    molecular weight and diffusion coefficients in the cache, and all the
    other per-point arrays at zero. *)
Definition unit_flow (nsp : nat) (option : TransportOption) (zs : list num) : StFlow A :=
  let n := length zs in
  let s := new_flow nsp option in
  let ones := replicate n num1 in
  let zeros := replicate n num0 in
  let cells := replicate (nsp * n) num0 in
  on_grid (fun g =>
    {| m_nv := m_nv g; m_points := n; m_nsp := nsp; m_z := zs;
       m_dz := map (fun j => zs.[j + 1] -! zs.[j]) (seq 0 (n - 1));
       firstPoint := 0; lastPoint := Z.of_nat n - 1; loc := 0 |})
  (on_cache (fun c =>
    {| m_rho := ones; m_wtm := ones; m_cp := ones; m_visc := ones; m_tcon := ones;
       m_diff := replicate (nsp * n) num1; m_multidiff := replicate (nsp * nsp * n) num1;
       m_dthermal := cells; m_flux := cells; m_wdot := cells; m_ybar := m_ybar c;
       m_qdotRadiation := zeros |})
  (on_settings (fun t =>
     set_m_fixedtemp (replicate n (lit 300)) (set_m_do_energy (replicate n false) t)) s)).

(** Two points, two species: mass fractions (1/2, 1/4) at the first point,
    (1/4, 1/4) at the second, so they do not sum to one. *)
Definition x_unnormalised : list num :=
  [lit 0; lit 0; lit 300; lit 0; lit 0.5; lit 0.25;
   lit 0; lit 0; lit 300; lit 0; lit 0.25; lit 0.25].

(** The same with mass fractions (3/4, 1/4) at the first point. *)
Definition x_normalised : list num :=
  [lit 0; lit 0; lit 300; lit 0; lit 0.75; lit 0.25;
   lit 0; lit 0; lit 300; lit 0; lit 0.25; lit 0.25].

End MoreInputs.

(** Three grid points, and the same with the last two exchanged. *)
Definition grid_012 {A : Arith} : list num := [lit 0; lit 1; lit 2].
Definition grid_021 {A : Arith} : list num := [lit 0; lit 2; lit 1].

Definition grid_01 {A : Arith} : list num := [lit 0; lit 1].

Section FlameInputs.
Context {A : Arith}.

(** A solution array for one species: temperatures [ts], everything else at
    rest and the single mass fraction at one. *)
Definition temperature_profile (ts : list num) : list num :=
  flat_map (fun t => [lit 0; lit 0; t; lit 0; lit 1]) ts.

Definition grid_0123 : list num := [lit 0; lit 1; lit 2; lit 3].

(** A free flame on four points anchored at [(zfixed, 1000 K)]. *)
Definition anchored_flame (zfixed : num) : StFlow A :=
  set_anchor {| m_zfixed := zfixed; m_tfixed := lit 1000 |}
             (unit_flow 1 c_Mixav_Transport grid_0123).

(** Rising from 300 K to 2000 K, passing 1000 K between the points 1 and 2. *)
Definition rising_profile : list num :=
  temperature_profile [lit 300; lit 800; lit 1500; lit 2000].

End FlameInputs.




Section EvalInputs.
Context {A : Arith}.

(** The second of two domains: three points, global indices 5..7, its
    unknowns starting at offset 30 of the global arrays. *)
Definition second_domain (option : TransportOption) : StFlow A :=
  on_grid (fun g =>
    {| m_nv := m_nv g; m_points := m_points g; m_nsp := m_nsp g; m_z := m_z g;
       m_dz := m_dz g; firstPoint := 5; lastPoint := 7; loc := 30 |})
    (unit_flow 2 option grid_012).

(** Global buffers of 48 unknowns. *)
Definition blank_out : Out A := {| rsd := replicate 48 (lit 0); diag := replicate 48 7 |}.
Definition flat_solution : list num :=
  flat_map (fun _ => [lit 1; lit 0; lit 300; lit 0; lit 0.5; lit 0.5]) (seq 0 8).

End EvalInputs.

(** Three points of a two-species solution at 400 K. *)
Definition warm_solution {A : Arith} : list num :=
  flat_map (fun _ => [lit 1; lit 0; lit 400; lit 0; lit 0.5; lit 0.5]) (seq 0 3).

(** Buffers for three points of six unknowns. *)
Definition small_out {A : Arith} : Out A :=
  {| rsd := replicate 18 (lit 0); diag := replicate 18 7 |}.

Section SolidInputs.
Context {A : Arith}.

(** Gas at 300, 400 and 500 K on three points, two species. *)
Definition gas_300_400_500 : list num :=
  flat_map (fun t => [lit 1; lit 0; t; lit 0; lit 0.5; lit 0.5]) [lit 300; lit 400; lit 500].

Definition three (v : num) : list num := [v; v; v].

(** A porous domain on the grid 0, 1, 2 whose solid is at 300 K, with the net
    radiative flux [dq0] left by an earlier solve. *)
Definition porous_domain (dq0 : list num) : StFlow A :=
  on_solid (fun p => set_dq dq0 (set_Tw (three (lit 300)) p))
           (unit_flow 2 c_Mixav_Transport grid_012).

End SolidInputs.

Section RestoreInputs.
Context {A : Arith}.

(** A two-species domain, not yet on a grid, whose species are H2 and O2. *)
Definition named_flow : StFlow A :=
  on_settings (set_speciesNames ["H2"; "O2"]) (new_flow 2 c_Mixav_Transport).

(** A saved domain on the grid 0, 1, 2 with the datasets [extra] after the
    grid and the two optional flag arrays. *)
Definition saved_domain (extra : list (FloatArray A)) (energy species : option (list num))
    : Document A :=
  {| pressure := lit 101325;
     grid_data := {| title := "z"; values := grid_012 |} :: extra;
     energy_enabled := energy;
     species_enabled := species;
     Solid_node := None;
     strings := [] |}.

End RestoreInputs.

Section KineticsInputs.
Context {A : Arith}.

(** An interface between a gas (phase 0) and a bulk phase (phase 1) that does
    not exist.  Reaction 0 turns gas into bulk and runs backwards (1 forward,
    3 reverse); reaction 1 turns bulk into gas and runs forwards (2 forward,
    1 reverse) and is the one charge-transfer reaction. *)
Definition gas_and_missing_bulk : InterfaceKinetics A := {|
  n_phases := 2;
  n_reactions := 2;
  m_phaseExists := [true; false];
  m_phaseIsStable := [true; false];
  m_phaseExistsCheck := 1;
  m_rxnPhaseIsReactant := [[true; false]; [false; true]];
  m_rxnPhaseIsProduct := [[false; true]; [true; false]];
  m_ropf := [lit 1; lit 2];
  m_ropr := [lit 3; lit 1];
  m_ropnet := [lit 0; lit 0];
  m_ROP_ok := false;
  m_ctrxn := [1];
  m_beta := [lit 0.5]
|}.

End KineticsInputs.

Section SaveInputs.
Context {A : Arith}.

(** A two-species domain (H2, O2) on the grid 0, 1, 2. *)
Definition flame_012 : StFlow A :=
  on_settings (set_speciesNames ["H2"; "O2"]) (unit_flow 2 c_Mixav_Transport grid_012).

(** A porous domain on the same grid with all six solid arrays filled. *)
Definition filled_porous_domain : StFlow A :=
  on_solid (fun p => set_hconv (three (lit 10)) (set_scond (three (lit 2))
                       (set_diam (three (lit 0.001)) (set_pore (three (lit 0.8)) p))))
    (on_settings (set_speciesNames ["H2"; "O2"]) (porous_domain (three (lit 5)))).

(** A buffer for three points of six unknowns. *)
Definition empty_solution : list num := replicate 18 (lit 0).

End SaveInputs.

(** The same domain in exact arithmetic on the grid 0, 1/2, 1, and a text
    layer that keeps no decimals: every number is read back rounded down to
    a whole number. *)
Definition flame_halves : StFlow Exact :=
  on_settings (set_speciesNames ["H2"; "O2"])
    (unit_flow 2 c_Mixav_Transport [lit 0; lit 0.5; lit 1]).

Definition no_decimals (v : @num Exact) : @num Exact :=
  Q2Qc (inject_Z (Qnum (this v) / Z.pos (Qden (this v)))).

(** A porous domain in exact arithmetic on the grid 0, 1, 2 whose two
    sections meet around z = 1, with a transition zone of half-width 1/2. *)
Definition two_section_domain : StFlow Exact :=
  on_solid (set_solid_scalars
              {| n_pore1 := lit 0.8; n_pore2 := lit 0.9;
                 n_diam1 := lit 0.001; n_diam2 := lit 0.002;
                 n_scond1 := lit 1; n_scond2 := lit 1;
                 n_Omega1 := lit 0.8; n_Omega2 := lit 0.8;
                 n_rho := lit 510; n_Cp := lit 824;
                 n_zmid := lit 1; n_dzmid := lit 0.5;
                 n_Tsolid := []; n_Radiation := []; n_Porosity := [];
                 n_Diameter := []; n_SolidConductivity := []; n_Hconv := [] |})
    filled_porous_domain.

Section AnchorInputs.
Context {A : Arith}.

(** A free flame on the grid 0, 1, 2, 3 anchored at the point z = 1 with
    the energy equation enabled everywhere. *)
Definition burning_flame : StFlow A :=
  on_settings (set_m_do_energy [true; true; true; true]) (anchored_flame (lit 1)).

(** Buffers for four points of five unknowns. *)
Definition flame_out : Out A := {| rsd := replicate 20 (lit 0); diag := replicate 20 7 |}.

End AnchorInputs.

(** A stand-in for <cmath> over the exact numbers, where roots and powers
    have no exact value: the square root of [v] is taken to be [v] and the
    power [a^b] to be [a].  It serves to run the model; the properties
    proved over the exact numbers hold for every choice. *)
Definition exact_libm : Libm Exact := {| sqrt := fun v => v; pow := fun a _ => a |}.

(** * Properties *)

(** ** Helper lemmas: sizes and vectors *)

Lemma wrap_small (z : Z) : 0 <= z < 2 ^ 64 -> wrap z = z.
Proof. intros H. unfold wrap. apply Z.mod_small. exact H. Qed.

Lemma max_size_lt : max_size < 2 ^ 64.
Proof. reflexivity. Qed.

Lemma resize_Ok {T} (n : Z) (d : T) (v : list T) :
  0 <= n <= max_size ->
  exists l, resize n d v = Ok l /\ length l = Z.to_nat n.
Proof.
  intros [H0 H1]. unfold resize.
  destruct (Z.gtb_spec n max_size) as [Hgt|_]; [lia|].
  eexists; split; [reflexivity|].
  rewrite length_app, length_take, length_replicate. lia.
Qed.

Lemma resize_too_long {T} (n : Z) (d : T) (v : list T) :
  max_size < n -> resize n d v = Err length_error.
Proof.
  intros H. unfold resize.
  destruct (Z.gtb_spec n max_size) as [_|Hle]; [reflexivity|lia].
Qed.

Lemma for_each_app {S I} (body : I -> S -> Result S) (l1 l2 : list I) (s : S) :
  for_each body (l1 ++ l2) s = (s' <- for_each body l1 s ;; for_each body l2 s').
Proof.
  revert s. induction l1 as [|i l1 IH]; intros s; simpl; [reflexivity|].
  destruct (body i s); simpl; auto.
Qed.

Lemma range_from (a b : nat) :
  (a <= b)%nat -> range (Z.of_nat a) (Z.of_nat b) = seq a (b - a).
Proof.
  intros H. unfold range. destruct (Z.ltb_spec (Z.of_nat a) (Z.of_nat b)).
  - f_equal; lia.
  - replace (b - a)%nat with 0%nat by lia. reflexivity.
Qed.

(** ** Grid State *)

Section GridFacts.
Context {A : Arith}.

(** What [StFlow::resize] leaves behind when every allocation succeeds. *)
Record resized (nv n : nat) (s s' : StFlow A) : Prop := {
  rs_nv : m_nv (grid s') = nv;
  rs_points : m_points (grid s') = n;
  rs_nsp : m_nsp (grid s') = m_nsp (grid s);
  rs_rho : length (m_rho (cache s')) = n;
  rs_wtm : length (m_wtm (cache s')) = n;
  rs_cp : length (m_cp (cache s')) = n;
  rs_visc : length (m_visc (cache s')) = n;
  rs_tcon : length (m_tcon (cache s')) = n;
  rs_diff : length (m_diff (cache s')) = (m_nsp (grid s) * n)%nat;
  rs_flux : length (m_flux (cache s')) = (m_nsp (grid s) * n)%nat;
  rs_wdot : length (m_wdot (cache s')) = (m_nsp (grid s) * n)%nat;
  rs_energy : length (m_do_energy (settings s')) = n;
  rs_qdot : length (m_qdotRadiation (cache s')) = n;
  rs_fixed : length (m_fixedtemp (settings s')) = n;
  rs_dz : length (m_dz (grid s')) = (n - 1)%nat;
  rs_z : length (m_z (grid s')) = n;
  rs_coupled :
    match m_transport_option (settings s) with
    | c_Mixav_Transport =>
        m_multidiff (cache s') = m_multidiff (cache s) /\
        m_dthermal (cache s') = m_dthermal (cache s)
    | _ =>
        length (m_multidiff (cache s')) = (m_nsp (grid s) * m_nsp (grid s) * n)%nat /\
        length (m_dthermal (cache s')) = (m_nsp (grid s) * n)%nat
    end
}.

Ltac resize_step :=
  match goal with
  | |- context [resize ?n ?d ?v] =>
      let l := fresh "l" in let E := fresh "E" in let L := fresh "L" in
      destruct (resize_Ok n d v) as (l & E & L);
      [ try rewrite wrap_small; try rewrite wrap_small; unfold max_size in *; nia
      | rewrite E; cbn [bind] ]
  end.

Lemma StFlow_resize_ok (nv n : nat) (s : StFlow A) :
  (1 <= n)%nat -> allocatable (m_nsp (grid s)) n ->
  exists s', StFlow_resize nv n s = Ok s' /\ resized nv n s s'.
Proof.
  destruct s as [[gnv gnp nsp gz gdz fp lp lc] c t th a p l].
  cbn [grid m_nsp]. intros Hn (H1 & H2 & H3).
  unfold StFlow_resize, Array2D_resize. cbn.
  assert (Hw1 : wrap (Z.of_nat nsp * Z.of_nat n) = Z.of_nat nsp * Z.of_nat n)
    by (apply wrap_small; unfold max_size in *; nia).
  assert (Hw2 : wrap (Z.of_nat nsp * Z.of_nat nsp) = Z.of_nat nsp * Z.of_nat nsp)
    by (apply wrap_small; unfold max_size in *; nia).
  assert (Hw3 : wrap (Z.of_nat n - 1) = Z.of_nat n - 1)
    by (apply wrap_small; unfold max_size in *; lia).
  assert (Hw4 : wrap (Z.of_nat nsp * Z.of_nat nsp * Z.of_nat n)
                = Z.of_nat nsp * Z.of_nat nsp * Z.of_nat n)
    by (apply wrap_small; unfold max_size in *; nia).
  rewrite ?Hw2, ?Hw1, ?Hw3, ?Hw4.
  do 5 resize_step.
  destruct (m_transport_option t) eqn:Eopt; cbn [bind];
    repeat resize_step;
    (eexists; split; [reflexivity|]);
    constructor; cbn; rewrite ?Eopt; first [lia | split; first [reflexivity | lia]].
Qed.

End GridFacts.

Section GridLoop.
Context {A : Arith}.

Lemma vget_lookup (v : list num) (i : nat) (x : num) :
  v !! i = Some x -> v.[i] = x.
Proof. intros H. unfold vget. rewrite H. reflexivity. Qed.

Lemma vget_insert_eq (v : list num) (i : nat) (x : num) :
  (i < length v)%nat -> (<[i := x]> v).[i] = x.
Proof. intros H. unfold vget. rewrite list_lookup_insert_eq by exact H. reflexivity. Qed.

Lemma vget_insert_ne (v : list num) (i j : nat) (x : num) :
  i <> j -> (<[i := x]> v).[j] = v.[j].
Proof. intros H. unfold vget. rewrite list_lookup_insert_ne by exact H. reflexivity. Qed.

Lemma vget_ext (a b : list num) (k : nat) : a !! k = b !! k -> a.[k] = b.[k].
Proof. intros H. unfold vget. rewrite H. reflexivity. Qed.

(** A violation anywhere in the range makes the loop throw. *)
Lemma setupGrid_loop_throws (z : list num) (js : list nat) :
  forall s, (exists j, j ∈ js /\ (z.[j] <=! z.[j - 1]) = true) ->
  for_each (setupGrid_step z) js s = Err invalid_grid.
Proof.
  induction js as [|j0 js IH]; intros s (j & Hin & Hle).
  - inversion Hin.
  - cbn [for_each]. unfold setupGrid_step at 1.
    destruct (z.[j0] <=! z.[j0 - 1]) eqn:E0; [reflexivity|].
    cbn [bind]. apply IH. exists j. split; [|exact Hle].
    apply elem_of_cons in Hin as [->|Hin]; [congruence|exact Hin].
Qed.

(** The state of the grid after the loop has passed index [j]. *)
Record grid_filled (z : list num) (n j : nat) (s0 s : StFlow A) : Prop := {
  gf_cache : cache s = cache s0;
  gf_settings : settings s = settings s0;
  gf_nv : m_nv (grid s) = m_nv (grid s0);
  gf_points : m_points (grid s) = m_points (grid s0);
  gf_nsp : m_nsp (grid s) = m_nsp (grid s0);
  gf_len_z : length (m_z (grid s)) = n;
  gf_len_dz : length (m_dz (grid s)) = (n - 1)%nat;
  gf_z : forall i, (i < j)%nat -> m_z (grid s) !! i = z !! i;
  gf_dz : forall i, (S i < j)%nat -> m_dz (grid s) !! i = Some (z.[S i] -! z.[i])
}.

Lemma setupGrid_loop_fills (z : list num) (n : nat) (s0 : StFlow A) :
  length z = n ->
  forall k a s, (1 <= a)%nat -> (a + k = n)%nat ->
  (forall j, (a <= j < n)%nat -> (z.[j] <=! z.[j - 1]) = false) ->
  grid_filled z n a s0 s ->
  exists s', for_each (setupGrid_step z) (seq a k) s = Ok s' /\ grid_filled z n n s0 s'.
Proof.
  intros Hlen. induction k as [|k IH]; intros a s Ha Hak Hmono Hinv.
  - exists s. split; [reflexivity|]. assert (a = n) as -> by lia. exact Hinv.
  - cbn [seq for_each]. unfold setupGrid_step at 1.
    rewrite (Hmono a) by lia. cbn [bind].
    apply IH; [lia|lia|intros; apply Hmono; lia|].
    destruct Hinv as [Hc Ht Hnv Hp Hs Hlz Hldz Hz Hdz].
    destruct s as [[gnv gnp nsp gz gdz fp lp lc] c t th an p l]. cbn in *.
    assert (Hza : z !! a = Some z.[a]).
    { destruct (lookup_lt_is_Some_2 z a) as [x Hx]; [lia|].
      rewrite Hx. f_equal. symmetry. apply vget_lookup, Hx. }
    constructor; cbn; auto.
    + rewrite length_insert. exact Hlz.
    + rewrite length_insert. exact Hldz.
    + intros i Hi. destruct (decide (i = a)) as [->|Hne].
      * rewrite list_lookup_insert_eq by lia. symmetry. exact Hza.
      * rewrite list_lookup_insert_ne by congruence. apply Hz. lia.
    + intros i Hi. destruct (decide (i = a - 1)%nat) as [->|Hne].
      * rewrite list_lookup_insert_eq by lia. f_equal.
        replace (S (a - 1)) with a by lia.
        rewrite vget_insert_eq by lia.
        rewrite vget_insert_ne by lia.
        f_equal. unfold vget. rewrite Hz by lia. reflexivity.
      * rewrite list_lookup_insert_ne by congruence. apply Hdz. lia.
Qed.

End GridLoop.

(** Over the exact numbers, the loop's test fails on a strictly increasing array. *)
Lemma Qc_leb_false (a b : Qc) : (a < b)%Qc -> Qc_leb b a = false.
Proof.
  intros H. unfold Qc_leb. destruct (Qle_bool b a) eqn:E; [|reflexivity].
  apply Qle_bool_iff in E. exfalso. apply (Qclt_not_le _ _ H). exact E.
Qed.

Lemma Qc_leb_true (a b : Qc) : (a <= b)%Qc -> Qc_leb a b = true.
Proof. intros H. unfold Qc_leb. apply Qle_bool_iff. exact H. Qed.

(** [a < b] excludes [b <= a], in both arithmetics. *)
Lemma Exact_below_is_not_at_least (a b : @num Exact) :
  (a <! b) = true -> (b <=! a) = false.
Proof.
  cbn [ltb leb Exact]. unfold Qc_ltb, Qc_leb.
  destruct (Qle_bool b a); [discriminate|reflexivity].
Qed.

Lemma SFcompare_Lt_not_ge (a b : spec_float) :
  SFcompare a b = Some Lt -> SFcompare b a = Some Gt.
Proof.
  destruct a as [sa|sa| |sa ma ea], b as [sb|sb| |sb mb eb]; cbn;
    try discriminate; try (destruct sa; discriminate);
    try (destruct sb; discriminate);
    try (destruct sa, sb; try discriminate; reflexivity);
    try (destruct sa; intros H; try discriminate H; reflexivity);
    try (destruct sb; intros H; try discriminate H; reflexivity).
  change (Pos.compare_cont Eq mb ma) with (Pos.compare mb ma).
  change (Pos.compare_cont Eq ma mb) with (Pos.compare ma mb).
  rewrite (Z.compare_antisym ea eb), (Pos.compare_antisym ma mb).
  destruct sa, sb; try discriminate; try reflexivity;
    destruct (ea ?= eb)%Z; cbn; try discriminate; try reflexivity;
    destruct (ma ?= mb)%positive; cbn; try discriminate; reflexivity.
Qed.

Lemma Float64_below_is_not_at_least (a b : @num Float64) :
  (a <! b) = true -> (b <=! a) = false.
Proof.
  cbn [ltb leb Float64]. rewrite ltb_spec, leb_spec.
  unfold SFltb, SFleb.
  destruct (SFcompare (Prim2SF a) (Prim2SF b)) as [[| |]|] eqn:E; try discriminate.
  intros _. rewrite (SFcompare_Lt_not_ge _ _ E). reflexivity.
Qed.

Lemma StFlow_setupGrid_eq {A : Arith} (z : list num) (s : StFlow A) :
  StFlow_setupGrid z s =
  (s1 <- StFlow_resize (m_nv (grid s)) (length z) s ;;
   for_each (setupGrid_step z)
     (range 1 (Z.of_nat (m_points (grid s1))))
     (on_grid (fun g => set_m_z (<[0%nat := z.[0]]> (m_z g)) g) s1)).
Proof. reflexivity. Qed.

(** C2 (as amended).  For a non-empty, strictly increasing coordinate array
    whose vectors can be allocated, [setupGrid] succeeds, stores the
    coordinates and the spacings, and leaves every per-point array with as
    many entries as there are points (per-point-and-species arrays with
    species times points, the spacings with one less); the arrays of the
    multicomponent and thermal diffusion coefficients are the exception:
    [resize] sizes them only when the transport model is not the
    mixture-averaged one, and otherwise leaves them as they were.  For an
    array with [z[j+1] <= z[j]] at some index [setupGrid] throws the
    invalid-grid error.  Holds in every arithmetic where [a < b] excludes
    [b <= a], as binary64 and the exact numbers do. *)
Theorem setupGrid_sizes_or_invalid_grid {A : Arith} (s : StFlow A) (z : list num) :
  (forall a b : num, (a <! b) = true -> (b <=! a) = false) ->
  allocatable (m_nsp (grid s)) (length z) ->
  (z <> [] -> increasing z ->
   exists s', StFlow_setupGrid z s = Ok s' /\
     m_points (grid s') = length z /\
     m_z (grid s') = z /\
     length (m_dz (grid s')) = (length z - 1)%nat /\
     (forall i, (S i < length z)%nat ->
        m_dz (grid s') !! i = Some (z.[S i] -! z.[i])) /\
     length (m_rho (cache s')) = length z /\
     length (m_wtm (cache s')) = length z /\
     length (m_cp (cache s')) = length z /\
     length (m_visc (cache s')) = length z /\
     length (m_tcon (cache s')) = length z /\
     length (m_do_energy (settings s')) = length z /\
     length (m_qdotRadiation (cache s')) = length z /\
     length (m_fixedtemp (settings s')) = length z /\
     length (m_diff (cache s')) = (m_nsp (grid s) * length z)%nat /\
     length (m_flux (cache s')) = (m_nsp (grid s) * length z)%nat /\
     length (m_wdot (cache s')) = (m_nsp (grid s) * length z)%nat /\
     match m_transport_option (settings s) with
     | c_Mixav_Transport =>
         m_multidiff (cache s') = m_multidiff (cache s) /\
         m_dthermal (cache s') = m_dthermal (cache s)
     | _ =>
         length (m_multidiff (cache s'))
         = (m_nsp (grid s) * m_nsp (grid s) * length z)%nat /\
         length (m_dthermal (cache s')) = (m_nsp (grid s) * length z)%nat
     end) /\
  (forall j a b, z !! j = Some a -> z !! S j = Some b -> (b <=! a) = true ->
   StFlow_setupGrid z s = Err invalid_grid).
Proof.
  intros Hlaw Halloc. split.
  - intros Hne Hinc.
    assert (Hn : (1 <= length z)%nat) by (destruct z; [congruence|cbn; lia]).
    destruct (StFlow_resize_ok (m_nv (grid s)) (length z) s Hn Halloc)
      as (s1 & E1 & R1).
    unfold StFlow_setupGrid. rewrite E1. cbn [bind].
    set (s2 := on_grid _ s1).
    assert (Hp2 : m_points (grid s2) = length z).
    { subst s2. destruct R1. destruct s1 as [[] ? ? ? ? ? ?]. cbn in *. auto. }
    assert (Hr : range 1 (Z.of_nat (length z)) = seq 1 (length z - 1))
      by (apply (range_from 1); lia).
    rewrite Hp2, Hr.
    destruct (setupGrid_loop_fills z (length z) s2 eq_refl (length z - 1) 1 s2)
      as (s' & E' & F'); [lia|lia| | |].
    + intros j Hj.
      destruct (lookup_lt_is_Some_2 z j) as [b Hb]; [lia|].
      destruct (lookup_lt_is_Some_2 z (j - 1)) as [a Ha]; [lia|].
      rewrite (vget_lookup _ _ _ Hb), (vget_lookup _ _ _ Ha).
      apply Hlaw. apply (Hinc (j - 1)%nat); [exact Ha|].
      replace (S (j - 1)) with j by lia. exact Hb.
    + subst s2. destruct R1. destruct s1 as [[] ? ? ? ? ? ?]. cbn in *.
      constructor; cbn; auto.
      * rewrite length_insert. auto.
      * intros i Hi. assert (i = 0)%nat as -> by lia.
        rewrite list_lookup_insert_eq by lia.
        destruct z as [|z0 z]; [congruence|]. reflexivity.
      * intros i Hi. lia.
    + exists s'. split; [exact E'|].
      destruct F' as [Hc Ht Hnv Hp Hs Hlz Hldz Hz Hdz].
      assert (Hc2 : cache s2 = cache s1)
        by (subst s2; destruct s1 as [[] ? ? ? ? ? ?]; reflexivity).
      assert (Ht2 : settings s2 = settings s1)
        by (subst s2; destruct s1 as [[] ? ? ? ? ? ?]; reflexivity).
      rewrite Hc, Ht, Hc2, Ht2, Hp, Hp2.
      destruct R1.
      repeat match goal with |- _ /\ _ => split end; auto.
      apply list_eq. intros i.
      destruct (decide (i < length z)%nat) as [Hi|Hi].
      * apply Hz. exact Hi.
      * rewrite !lookup_ge_None_2 by lia. reflexivity.
  - intros j a b Ha Hb Hle.
    assert (Hj : (S j < length z)%nat) by (apply lookup_lt_Some in Hb; exact Hb).
    destruct (StFlow_resize_ok (m_nv (grid s)) (length z) s) as (s1 & E1 & R1);
      [lia|exact Halloc|].
    rewrite StFlow_setupGrid_eq, E1. cbn [bind].
    apply setupGrid_loop_throws. exists (S j). split.
    + destruct R1. destruct s1 as [[] ? ? ? ? ? ?]. cbn in *. subst.
      assert (Hr : range 1 (Z.of_nat (length z)) = seq 1 (length z - 1))
        by (apply (range_from 1); lia).
      rewrite Hr. apply elem_of_seq. lia.
    + replace (S j - 1)%nat with j by lia.
      rewrite (vget_lookup _ _ _ Ha), (vget_lookup _ _ _ Hb).
      exact Hle.
Qed.

Lemma setupGrid_sizes_or_invalid_grid_witness :
  (exists s', StFlow_setupGrid grid_012 (new_flow (A:=Float64) 2 c_Mixav_Transport) = Ok s' /\
     m_z (grid s') = grid_012 /\ length (m_dz (grid s')) = 2%nat /\
     length (m_rho (cache s')) = 3%nat /\ m_multidiff (cache s') = []) /\
  StFlow_setupGrid grid_021 (new_flow (A:=Float64) 2 c_Mixav_Transport) = Err invalid_grid.
Proof.
  split.
  - destruct (setupGrid_sizes_or_invalid_grid (A:=Float64)
                (new_flow 2 c_Mixav_Transport) grid_012) as [H _].
    { exact Float64_below_is_not_at_least. }
    { unfold allocatable, max_size. cbn. lia. }
    destruct H as (s' & E & _ & Hz & Hdz & _ & Hrho & H').
    { discriminate. }
    { intros [|[|[|j]]] a b Ha Hb; cbn in Ha, Hb; try discriminate;
        inversion Ha; inversion Hb; subst; vm_compute; reflexivity. }
    exists s'. repeat split; try assumption.
    apply H'.
  - destruct (setupGrid_sizes_or_invalid_grid (A:=Float64)
                (new_flow 2 c_Mixav_Transport) grid_021) as [_ H].
    { exact Float64_below_is_not_at_least. }
    { unfold allocatable, max_size. cbn. lia. }
    apply (H 1%nat (lit 2) (lit 1)); [reflexivity|reflexivity|].
    vm_compute. reflexivity.
Defined.

(** C2, the claim as stated fails on the empty array: it is (vacuously)
    strictly increasing, and [resize] asks for [m_points - 1] spacings, which
    wraps to [SIZE_MAX] and makes [vector::resize] throw std::length_error. *)
Lemma setupGrid_empty_array_throws :
  strictly_increasing [] /\
  StFlow_setupGrid [] (new_flow (A:=Exact) 2 c_Mixav_Transport) = Err length_error.
Proof.
  split.
  - intros j a b Ha. rewrite lookup_nil in Ha. discriminate.
  - vm_compute. reflexivity.
Qed.

(** ** Diffusive fluxes *)

(** [ring] over the exact instance. *)
Ltac exact_ring :=
  change (@num Exact) with Qc in *;
  change (@add Exact) with Qcplus in *;
  change (@sub Exact) with Qcminus in *;
  change (@mul Exact) with Qcmult in *;
  change (@div Exact) with Qcdiv in *;
  change (@lit Exact) with Q2Qc in *;
  ring.

Section ExactSums.

Lemma sum_over_acc (g : nat -> Qc) (ks : list nat) (a : Qc) :
  fold_left (fun acc k => (acc + g k)%Qc) ks a
  = (a + fold_left (fun acc k => (acc + g k)%Qc) ks 0)%Qc.
Proof.
  revert a. induction ks as [|k ks IH]; intros a; cbn [fold_left].
  - ring.
  - rewrite (IH (a + g k)%Qc), (IH (0 + g k)%Qc). ring.
Qed.

Lemma sum_over_cons (g : nat -> @num Exact) (k : nat) (ks : list nat) :
  sum_over g (k :: ks) = (g k + sum_over g ks)%Qc.
Proof.
  unfold sum_over. cbn [fold_left].
  change (@add Exact) with Qcplus. change (@lit Exact 0) with 0%Qc.
  rewrite sum_over_acc. exact_ring.
Qed.

Lemma sum_over_nil (g : nat -> @num Exact) : sum_over g [] = 0%Qc.
Proof. reflexivity. Qed.

Lemma sum_over_ext (g h : nat -> @num Exact) (ks : list nat) :
  (forall k, k ∈ ks -> g k = h k) -> sum_over g ks = sum_over h ks.
Proof.
  induction ks as [|k ks IH]; intros H; [reflexivity|].
  rewrite !sum_over_cons, (H k), IH; [reflexivity| |left].
  intros k' Hk'. apply H. right. exact Hk'.
Qed.

End ExactSums.

Section MixavFluxes.
Context {E : Externals Exact}.
Variables (x : list (@num Exact)) (s0 : StFlow Exact) (j : nat).

Let nsp := m_nsp (grid s0).
Let col (k : nat) : nat := (nsp * j + k)%nat.

(** First species loop of the mixture-averaged branch: it leaves [sum] at
    minus the total of the fluxes it has written. *)
Lemma mixav_first_loop (wtm rho dz : @num Exact) (ks : list nat) :
  NoDup ks ->
  forall (f : list (@num Exact)) (sum : @num Exact),
  (forall k, k ∈ ks -> (col k < length f)%nat) ->
  exists f',
    fold_left (mixav_raw x j wtm rho dz) ks (with_flux f s0, sum)
    = (with_flux f' s0, (sum - sum_over (fun k => f'.[col k]) ks)%Qc) /\
    length f' = length f /\
    (forall i, (forall k, k ∈ ks -> i <> col k) -> f' !! i = f !! i).
Proof.
  intros Hnd. induction Hnd as [|k ks Hk Hnd IH]; intros f sum Hlen.
  - exists f. cbn [fold_left]. rewrite sum_over_nil. split; [f_equal; exact_ring|]. auto.
  - cbn [fold_left].
    set (v1 := ((m_wt (settings (with_flux f s0))).[k] *!
                 (rho *! (m_diff (cache (with_flux f s0))).[k + m_nsp (grid (with_flux f s0)) * j]
                  /! wtm))).
    set (s1 := set_flux k j v1 (with_flux f s0)).
    set (v2 := flux s1 k j *! ((X s1 x k j -! X s1 x k (j + 1)) /! dz)).
    set (f2 := <[col k := v2]> (<[col k := v1]> f)).
    assert (Hlk : (col k < length f)%nat) by (apply Hlen; left).
    assert (Hfl : f2.[col k] = v2).
    { subst f2. apply (vget_insert_eq (A:=Exact)). rewrite length_insert. exact Hlk. }
    destruct (IH f2 (sum -! v2)) as (f' & Ef & Hl & Hout).
    { intros k' Hk'. subst f2. rewrite !length_insert. apply Hlen. right. exact Hk'. }
    exists f'. split; [|split].
    + assert (Hstep : mixav_raw x j wtm rho dz (with_flux f s0, sum) k
                     = (with_flux f2 s0, sum -! f2.[col k])) by reflexivity.
      rewrite Hstep, Hfl, Ef.
      f_equal. rewrite sum_over_cons.
      assert (Hv : f'.[col k] = v2).
      { unfold vget. rewrite Hout.
        - subst f2. rewrite list_lookup_insert_eq; [reflexivity|].
          rewrite length_insert. exact Hlk.
        - intros k' Hk' Heq. unfold col in Heq.
          assert (k = k') by lia. subst k'. contradiction. }
      rewrite Hv. exact_ring.
    + rewrite Hl. subst f2. rewrite !length_insert. reflexivity.
    + intros i Hi. rewrite Hout by (intros k' Hk'; apply Hi; right; exact Hk').
      subst f2. rewrite !list_lookup_insert_ne; [reflexivity| |];
        intros Heq; apply (Hi k); [left|exact (eq_sym Heq)|left|exact (eq_sym Heq)].
Qed.

(** Second species loop: the correction [sum * Y_k] is added to each flux. *)
Lemma mixav_second_loop (sum : @num Exact) (ks : list nat) :
  NoDup ks ->
  forall (f : list (@num Exact)),
  (forall k, k ∈ ks -> (col k < length f)%nat) ->
  exists f',
    fold_left (mixav_correct x j sum) ks (with_flux f s0)
    = with_flux f' s0 /\
    length f' = length f /\
    (forall i, (forall k, k ∈ ks -> i <> col k) -> f' !! i = f !! i) /\
    (forall k, k ∈ ks -> f'.[col k] = (f.[col k] + sum * Y s0 x k j)%Qc).
Proof.
  intros Hnd. induction Hnd as [|k ks Hk Hnd IH]; intros f Hlen.
  - exists f. cbn [fold_left]. repeat split; auto. intros k Hk. inversion Hk.
  - cbn [fold_left].
    set (v := flux (with_flux f s0) k j +! sum *! Y (with_flux f s0) x k j).
    set (f2 := <[col k := v]> f).
    destruct (IH f2) as (f' & Ef & Hl & Hout & Hin).
    { intros k' Hk'. subst f2. rewrite length_insert. apply Hlen. right. exact Hk'. }
    exists f'. split; [exact Ef|]. split; [|split].
    + rewrite Hl. subst f2. apply length_insert.
    + intros i Hi. rewrite Hout by (intros k' Hk'; apply Hi; right; exact Hk').
      subst f2. rewrite list_lookup_insert_ne; [reflexivity|].
      intros Heq. apply (Hi k); [left|exact (eq_sym Heq)].
    + intros k' Hk'. apply elem_of_cons in Hk' as [->|Hk'].
      * unfold vget at 1. rewrite Hout.
        -- subst f2. rewrite list_lookup_insert_eq by (apply Hlen; left). reflexivity.
        -- intros k' Hk' Heq. unfold col in Heq.
           assert (k = k') by lia. subst k'. contradiction.
      * rewrite (Hin k' Hk'). f_equal. subst f2. apply (vget_insert_ne (A:=Exact)).
        unfold col. intros Heq. assert (k = k') by lia. subst k'. contradiction.
Qed.

(** One interval: the column [j] of the flux array is rewritten; its total is
    the total of the fluxes of the first loop times one minus the sum of the
    mass fractions at point [j]. *)
Lemma mixav_fluxes_column (f : list (@num Exact)) :
  (forall k, (k < nsp)%nat -> (col k < length f)%nat) ->
  exists f',
    mixav_fluxes x j (with_flux f s0) = with_flux f' s0 /\
    length f' = length f /\
    (forall i, (forall k, (k < nsp)%nat -> i <> col k) -> f' !! i = f !! i) /\
    sum_over (fun k => f'.[col k]) (seq 0 nsp)
    = ((1 - sum_over (fun k => Y s0 x k j) (seq 0 nsp))
       * sum_over (fun k => flux (mixav_uncorrected x j (with_flux f s0)) k j) (seq 0 nsp))%Qc.
Proof.
  intros Hlen.
  assert (Hin : forall k, k ∈ seq 0 nsp -> (k < nsp)%nat)
    by (intros k Hk; apply elem_of_seq in Hk; lia).
  destruct (mixav_first_loop ((m_wtm (cache s0)).[j]) (density_at s0 j)
              (z s0 (j + 1) -! z s0 j) (seq 0 nsp) (NoDup_seq 0 nsp) f (lit 0))
    as (f1 & E1 & L1 & O1); [intros k Hk; apply Hlen, Hin, Hk|].
  destruct (mixav_second_loop (lit 0 -! sum_over (fun k => f1.[col k]) (seq 0 nsp))
              (seq 0 nsp) (NoDup_seq 0 nsp) f1)
    as (f2 & E2 & L2 & O2 & I2); [intros k Hk; rewrite L1; apply Hlen, Hin, Hk|].
  assert (Hraw : mixav_uncorrected x j (with_flux f s0) = with_flux f1 s0).
  { unfold mixav_uncorrected.
    change (species (with_flux f s0)) with (seq 0 nsp).
    change (m_wtm (cache (with_flux f s0))) with (m_wtm (cache s0)).
    change (density_at (with_flux f s0) j) with (density_at s0 j).
    change (z (with_flux f s0)) with (z s0).
    cbv zeta. rewrite E1. reflexivity. }
  exists f2. split; [|split; [|split]].
  - unfold mixav_fluxes.
    change (species (with_flux f s0)) with (seq 0 nsp).
    change (m_wtm (cache (with_flux f s0))) with (m_wtm (cache s0)).
    change (density_at (with_flux f s0) j) with (density_at s0 j).
    change (z (with_flux f s0)) with (z s0).
    rewrite E1. exact E2.
  - congruence.
  - intros i Hi. rewrite O2, O1; [reflexivity| |];
      intros k Hk; apply Hi, Hin, Hk.
  - rewrite Hraw.
    change (fun k => flux (with_flux f1 s0) k j) with (fun k => f1.[col k]).
    rewrite (sum_over_ext _ (fun k => f1.[col k] +!
               (lit 0 -! sum_over (fun k => f1.[col k]) (seq 0 nsp)) *! Y s0 x k j))
      by (intros k Hk; apply I2, Hk).
    assert (Hlin : forall c ks,
      sum_over (fun k => f1.[col k] +! c *! Y s0 x k j) ks
      = sum_over (fun k => f1.[col k]) ks +! c *! sum_over (fun k => Y s0 x k j) ks).
    { intros c. induction ks as [|k ks IH]; [rewrite !sum_over_nil; exact_ring|].
      rewrite !sum_over_cons, IH. exact_ring. }
    rewrite Hlin. exact_ring.
Qed.

End MixavFluxes.

Lemma elem_of_range (a b : Z) (j : nat) :
  0 <= a -> (j ∈ range a b <-> a <= Z.of_nat j < b).
Proof.
  intros Ha. unfold range. destruct (Z.ltb_spec a b).
  - rewrite elem_of_seq. lia.
  - split; [intros H'; inversion H'|lia].
Qed.

Lemma NoDup_range (a b : Z) : NoDup (range a b).
Proof. unfold range. destruct (a <? b); [apply NoDup_seq|constructor]. Qed.

(** The loop over intervals: the total of each interval's column, from the
    state the loop has reached when it comes to that interval. *)
Lemma mixav_intervals {E : Externals Exact} (x : list (@num Exact)) (s0 : StFlow Exact)
    (js : list nat) :
  NoDup js ->
  forall f : list (@num Exact),
  (forall j k, j ∈ js -> (k < m_nsp (grid s0))%nat ->
     (m_nsp (grid s0) * j + k < length f)%nat) ->
  exists f',
    fold_left (fun s j => mixav_fluxes x j s) js (with_flux f s0) = with_flux f' s0 /\
    length f' = length f /\
    (forall i, (forall j k, j ∈ js -> (k < m_nsp (grid s0))%nat ->
                  i <> (m_nsp (grid s0) * j + k)%nat) -> f' !! i = f !! i) /\
    (forall l1 j l2, js = l1 ++ j :: l2 ->
       sum_over (fun k => f'.[(m_nsp (grid s0) * j + k)%nat]) (seq 0 (m_nsp (grid s0)))
       = ((1 - sum_over (fun k => Y s0 x k j) (seq 0 (m_nsp (grid s0))))
          * sum_over (fun k => flux (mixav_uncorrected x j
                                       (fold_left (fun s j => mixav_fluxes x j s) l1
                                                  (with_flux f s0))) k j)
                     (seq 0 (m_nsp (grid s0))))%Qc).
Proof.
  intros Hnd. induction Hnd as [|j js Hj Hnd IH]; intros f Hlen.
  - exists f. cbn [fold_left]. repeat split; auto.
    intros l1 j l2 H. destruct l1; discriminate H.
  - cbn [fold_left].
    destruct (mixav_fluxes_column x s0 j f) as (f1 & E1 & L1 & O1 & Z1).
    { intros k Hk. apply Hlen; [left|exact Hk]. }
    destruct (IH f1) as (f' & E' & L' & O' & Z').
    { intros j' k Hj' Hk. rewrite L1. apply Hlen; [right; exact Hj'|exact Hk]. }
    exists f'. rewrite E1. split; [exact E'|]. split; [congruence|]. split.
    + intros i Hi. rewrite O', O1; [reflexivity| |].
      * intros k Hk. apply Hi; [left|exact Hk].
      * intros j' k Hj' Hk. apply Hi; [right; exact Hj'|exact Hk].
    + intros l1 j' l2 Hsplit. destruct l1 as [|j1 l1].
      * cbn [app] in Hsplit. injection Hsplit as <- _. cbn [fold_left].
        rewrite <- Z1. apply sum_over_ext. intros k Hk.
        apply elem_of_seq in Hk. unfold vget. rewrite O'; [reflexivity|].
        intros j' k' Hj' Hk' Heq.
        assert (j = j') by nia. subst j'. contradiction.
      * cbn [app] in Hsplit. injection Hsplit as <- Hsplit.
        cbn [fold_left]. rewrite E1. apply (Z' l1 j' l2 Hsplit).
Qed.

Lemma range_split (a b : Z) (j : nat) :
  0 <= a -> a <= Z.of_nat j < b ->
  range a b = range a (Z.of_nat j) ++ j :: range (Z.of_nat j + 1) b.
Proof.
  intros Ha Hj. unfold range.
  destruct (Z.ltb_spec a b) as [_|H]; [|lia].
  replace (Z.to_nat (b - a)) with (Z.to_nat (Z.of_nat j - a) + S (Z.to_nat (b - (Z.of_nat j + 1))))%nat
    by lia.
  rewrite seq_app. cbn [seq].
  replace (Z.to_nat a + Z.to_nat (Z.of_nat j - a))%nat with j by lia.
  replace (Z.to_nat (Z.of_nat j + 1)) with (S j) by lia.
  destruct (Z.ltb_spec a (Z.of_nat j)) as [_|H1].
  - destruct (Z.ltb_spec (Z.of_nat j + 1) b) as [_|H2]; [reflexivity|].
    replace (Z.to_nat (b - (Z.of_nat j + 1))) with 0%nat by lia. reflexivity.
  - replace (Z.to_nat (Z.of_nat j - a)) with 0%nat by lia. cbn [seq app].
    destruct (Z.ltb_spec (Z.of_nat j + 1) b) as [_|H2]; [reflexivity|].
    replace (Z.to_nat (b - (Z.of_nat j + 1))) with 0%nat by lia. reflexivity.
Qed.

(** C1 (as amended).  Mixture-averaged model, Soret disabled, exact
    arithmetic: after [updateDiffFluxes] the species fluxes of every interval
    [j] of the updated window sum to [1 - sum_k Y(x,k,j)] times the total of
    the fluxes the first species loop stored for that interval (the
    uncorrected fluxes, taken at the state the loop over intervals has
    reached); so they sum to zero when the mass fractions at point [j] of the
    solution array sum to one. *)
Theorem mixav_fluxes_sum_to_zero {E : Externals Exact} (s : StFlow Exact)
    (x : list (@num Exact)) (j0 j1 : Z) :
  m_transport_option (settings s) = c_Mixav_Transport ->
  m_do_soret (settings s) = false ->
  0 <= j0 -> j1 <= Z.of_nat (m_points (grid s)) ->
  length (m_flux (cache s)) = (m_nsp (grid s) * m_points (grid s))%nat ->
  exists s', updateDiffFluxes x j0 j1 s = Ok s' /\
    forall j : nat, j0 <= Z.of_nat j < j1 ->
      let sj := fold_left (fun s j => mixav_fluxes x j s) (range j0 (Z.of_nat j)) s in
      sum_over (fun k => flux s' k j) (species s)
      = ((1 - sum_over (fun k => Y s x k j) (species s))
         * sum_over (fun k => flux (mixav_uncorrected x j sj) k j) (species s))%Qc /\
      (sum_over (fun k => Y s x k j) (species s) = 1%Qc ->
       sum_over (fun k => flux s' k j) (species s) = 0%Qc).
Proof.
  intros Hopt Hsoret Hj0 Hj1 Hlen.
  destruct (mixav_intervals x s (range j0 j1) (NoDup_range j0 j1) (m_flux (cache s)))
    as (f' & E' & L' & O' & Z').
  { intros j k Hj Hk. apply elem_of_range in Hj; [|exact Hj0]. rewrite Hlen. nia. }
  exists (with_flux f' s). split.
  - unfold updateDiffFluxes. rewrite Hopt. cbn [bind].
    change (fold_left (fun s j => mixav_fluxes x j s) (range j0 j1) s)
      with (fold_left (fun s j => mixav_fluxes x j s) (range j0 j1)
              (with_flux (m_flux (cache s)) s)).
    rewrite E'.
    change (m_do_soret (settings (with_flux f' s))) with (m_do_soret (settings s)).
    rewrite Hsoret. reflexivity.
  - intros j Hj sj.
    assert (Hsum : sum_over (fun k => flux (with_flux f' s) k j) (species s)
                   = ((1 - sum_over (fun k => Y s x k j) (species s))
                      * sum_over (fun k => flux (mixav_uncorrected x j sj) k j)
                                 (species s))%Qc).
    { exact (Z' _ j _ (range_split j0 j1 j Hj0 Hj)). }
    split; [exact Hsum|].
    intros HY. rewrite Hsum, HY. exact_ring.
Qed.

Lemma mixav_fluxes_sum_to_zero_witness :
  (exists s',
     updateDiffFluxes (E:=plain) x_normalised 0 1
       (unit_flow (A:=Exact) 2 c_Mixav_Transport grid_01) = Ok s' /\
     sum_over (fun k => flux s' k 0) [0; 1]%nat = 0%Qc) /\
  (exists s',
     updateDiffFluxes (E:=plain) x_unnormalised 0 1
       (unit_flow (A:=Exact) 2 c_Mixav_Transport grid_01) = Ok s' /\
     sum_over (fun k => flux s' k 0) [0; 1]%nat = ((1 - lit 0.75) * lit 0.25)%Qc).
Proof.
  split.
  - destruct (mixav_fluxes_sum_to_zero (E:=plain)
                (unit_flow 2 c_Mixav_Transport grid_01) x_normalised 0 1)
      as (s' & E' & H'); [reflexivity|reflexivity|lia|cbn; lia|reflexivity|].
    exists s'. split; [exact E'|].
    apply (H' 0%nat); [lia|].
    apply Qc_is_canon. vm_compute. reflexivity.
  - destruct (mixav_fluxes_sum_to_zero (E:=plain)
                (unit_flow 2 c_Mixav_Transport grid_01) x_unnormalised 0 1)
      as (s' & E' & H'); [reflexivity|reflexivity|lia|cbn; lia|reflexivity|].
    exists s'. split; [exact E'|].
    destruct (H' 0%nat) as [Hs _]; [lia|].
    etransitivity; [exact Hs|].
    apply Qc_is_canon. vm_compute. reflexivity.
Defined.

(** C1, the claim as stated fails when the mass fractions do not sum to one.
    In binary64, two species on two points with unit properties and mass
    fractions (1/2, 1/4) and (1/4, 1/4): the raw fluxes are 1/4 and 0, the
    correction is -1/4 times the mass fractions, and the corrected fluxes
    1/8 and -1/16 sum to 1/16.  Every operation here is exact in binary64. *)
Lemma mixav_fluxes_sum_nonzero :
  exists s',
    updateDiffFluxes (E:=plain) x_unnormalised 0 1
      (unit_flow (A:=Float64) 2 c_Mixav_Transport grid_01) = Ok s' /\
    flux s' 0 0 = lit 0.125 /\
    flux s' 1 0 = lit (-0.0625) /\
    sum_over (fun k => flux s' k 0) [0; 1]%nat = lit 0.0625 /\
    (sum_over (fun k => flux s' k 0) [0; 1]%nat ==! lit 0) = false.
Proof.
  eexists. split; [vm_compute; reflexivity|].
  repeat split; vm_compute; reflexivity.
Qed.

(** ** Flame anchor *)



Lemma find_first {T} (p : T -> bool) (l1 l2 : list T) (a : T) :
  (forall b, b ∈ l1 -> p b = false) -> p a = true ->
  find p (l1 ++ a :: l2) = Some a.
Proof.
  intros H1 Ha. induction l1 as [|b l1 IH]; cbn [app find].
  - rewrite Ha. reflexivity.
  - rewrite (H1 b) by left. apply IH. intros c Hc. apply H1. right. exact Hc.
Qed.



Section FinalizeFacts.
Context {A : Arith} {E : Externals A}.

(** [StFlow::_finalize] writes the fixed profile and the energy flags only. *)
Lemma StFlow_finalize_frame (x : list num) (s : StFlow A) :
  grid (StFlow_finalize x s) = grid s /\ anchor (StFlow_finalize x s) = anchor s.
Proof.
  unfold StFlow_finalize.
  set (body := fun (s0 : StFlow A) (j : nat) => _).
  assert (H : forall l s1, grid (fold_left body l s1) = grid s1 /\
                           anchor (fold_left body l s1) = anchor s1).
  { induction l as [|j l IH]; intros s1; [split; reflexivity|].
    cbn [fold_left]. destruct (IH (body s1 j)) as [Hg Ha].
    rewrite Hg, Ha. subst body. cbv beta.
    destruct (_ || _); split; reflexivity. }
  destruct (H (range 0 (Z.of_nat (m_points (grid s)))) s) as [Hg Ha].
  destruct (bget _ 0); split; first [exact Hg | exact Ha].
Qed.

End FinalizeFacts.



Section AnchorFacts.
Context {E : Externals Exact}.
Variables (x : list (@num Exact)) (s : StFlow Exact).

Let s1 := StFlow_finalize x s.




End AnchorFacts.





(** ** Residual Engine: the Jacobian guard *)

(** C10.  In Jacobian mode ([jg != npos]) with [jg] outside the domain's
    window of influence ([jg + 1 < firstPoint()] or [jg > lastPoint() + 1])
    both engines return at once: the residual and flag buffers and the whole
    engine state come back unchanged. *)
Theorem eval_outside_influence_returns {A : Arith} {L : Libm A} {E : Externals A}
    (kind : FlowKind) (jg : Z) (xg : list num) (o : Out A) (rdt : num) (s : StFlow A) :
  0 <= jg < npos ->
  0 <= lastPoint (grid s) < npos ->
  jg + 1 < firstPoint (grid s) \/ jg > lastPoint (grid s) + 1 ->
  StFlow_eval kind jg xg o rdt s = Ok (s, o) /\
  PorousFlow_eval jg xg o rdt s = Some (Ok (s, o)).
Proof.
  intros Hjg Hlast Hout.
  assert (Hg : outside_influence jg s = true).
  { unfold outside_influence.
    destruct (Z.eqb_spec jg npos) as [->|_]; [lia|]. cbn [negb andb].
    rewrite !wrap_small by (unfold npos, SIZE_MAX in *; lia).
    apply orb_true_iff. destruct Hout as [H|H]; [left|right]; lia. }
  unfold StFlow_eval, PorousFlow_eval. rewrite Hg. split; reflexivity.
Qed.

Lemma eval_outside_influence_returns_witness :
  StFlow_eval (E:=plain) AxiStagnFlow 2 flat_solution blank_out (lit 10)
              (second_domain (A:=Float64) c_Mixav_Transport)
  = Ok (second_domain c_Mixav_Transport, blank_out) /\
  PorousFlow_eval (E:=plain) 2 flat_solution blank_out (lit 10)
                  (second_domain (A:=Float64) c_Mixav_Transport)
  = Some (Ok (second_domain c_Mixav_Transport, blank_out)).
Proof.
  apply (eval_outside_influence_returns (E:=plain) AxiStagnFlow 2 flat_solution blank_out
           (lit 10) (second_domain c_Mixav_Transport)).
  - unfold npos, SIZE_MAX. lia.
  - unfold npos, SIZE_MAX. cbn. lia.
  - left. cbn. lia.
Defined.

(** ** Residual Engine: what each step leaves unchanged *)

Lemma fold_left_obs {S I T} (obs : S -> T) (f : S -> I -> S) (l : list I) :
  (forall s i, obs (f s i) = obs s) -> forall s, obs (fold_left f l s) = obs s.
Proof.
  intros H. induction l as [|i l IH]; intros s; [reflexivity|].
  cbn [fold_left]. rewrite IH. apply H.
Qed.

Lemma fold_left_rel {S I} (R : S -> S -> Prop) (f : S -> I -> S) (l : list I) :
  (forall s, R s s) -> (forall a b c, R a b -> R b c -> R a c) ->
  (forall s i, i ∈ l -> R s (f s i)) -> forall s, R s (fold_left f l s).
Proof.
  intros Hr Ht. induction l as [|i l IH]; intros H s; [apply Hr|].
  cbn [fold_left]. apply (Ht _ (f s i)).
  - apply H. left.
  - apply IH. intros s' i' Hi'. apply H. right. exact Hi'.
Qed.

Section Frames.
Context {A : Arith} {L : Libm A} {E : Externals A}.

Lemma block_frame_refl (lo hi : nat) (o : Out A) : block_frame lo hi o o.
Proof. repeat split; reflexivity. Qed.

Lemma block_frame_trans (lo hi : nat) (a b c : Out A) :
  block_frame lo hi a b -> block_frame lo hi b c -> block_frame lo hi a c.
Proof.
  intros (H1 & H2 & H3) (K1 & K2 & K3). split; [congruence|]. split; [congruence|].
  intros i Hi. destruct (H3 i Hi) as [E1 E2]. destruct (K3 i Hi) as [F1 F2].
  split; congruence.
Qed.

Lemma set_rsd_block (s : StFlow A) (n j : nat) (v : num) (o : Out A) :
  (n < m_nv (grid s))%nat ->
  block_frame (loc (grid s) + m_nv (grid s) * j)
              (loc (grid s) + m_nv (grid s) * j + m_nv (grid s)) o (set_rsd s n j v o).
Proof.
  intros Hn. unfold block_frame, set_rsd, index. cbn [rsd diag].
  rewrite length_insert. repeat split.
  rewrite list_lookup_insert_ne by lia. reflexivity.
Qed.

Lemma set_diag_block (s : StFlow A) (n j : nat) (v : Z) (o : Out A) :
  (n < m_nv (grid s))%nat ->
  block_frame (loc (grid s) + m_nv (grid s) * j)
              (loc (grid s) + m_nv (grid s) * j + m_nv (grid s)) o (set_diag s n j v o).
Proof.
  intros Hn. unfold block_frame, set_diag, index. cbn [rsd diag].
  rewrite length_insert. repeat split.
  rewrite list_lookup_insert_ne by lia. reflexivity.
Qed.

End Frames.

(** ** Porous solid subsolver *)

(** A loop of stores [v[pos i] = ...]: the length stays, and so does every
    position the loop does not store to. *)
Lemma fold_insert_outside {T I} (pos : I -> nat) (g : list T -> I -> T) (l : list I) :
  forall v : list T,
  length (fold_left (fun acc i => <[pos i := g acc i]> acc) l v) = length v /\
  forall k, (forall i, i ∈ l -> pos i <> k) ->
    fold_left (fun acc i => <[pos i := g acc i]> acc) l v !! k = v !! k.
Proof.
  induction l as [|i l IH]; intros v; cbn [fold_left]; [split; reflexivity|].
  destruct (IH (<[pos i := g v i]> v)) as [Hl Hk]. split.
  - rewrite Hl. apply length_insert.
  - intros k Hne. rewrite Hk by (intros i' Hi'; apply Hne; right; exact Hi').
    apply list_lookup_insert_ne. apply Hne. left.
Qed.

Lemma lookup_map {T U} (f : T -> U) (l : list T) (i : nat) :
  map f l !! i = option_map f (l !! i).
Proof.
  revert i. induction l as [|a l IH]; intros [|i]; cbn; auto.
Qed.

(** A loop of stores [a[i] = g(i)] for [i < n]: what each position holds. *)
Lemma fold_store_lookup {T} (g : nat -> T) (n : nat) (a : list T) :
  length (fold_left (fun tw i => <[i := g i]> tw) (seq 0 n) a) = length a /\
  forall k, fold_left (fun tw i => <[i := g i]> tw) (seq 0 n) a !! k
            = if decide (k < n /\ k < length a)%nat then Some (g k) else a !! k.
Proof.
  induction n as [|n IH].
  - split; [reflexivity|]. intros k. destruct (decide _) as [[H _]|_]; [lia|reflexivity].
  - destruct IH as [Hl Hk].
    rewrite seq_S, fold_left_app. cbn [fold_left Nat.add]. split.
    + rewrite length_insert. exact Hl.
    + intros k. destruct (decide (k = n)) as [->|Hne].
      * destruct (decide (n < length a)%nat) as [Hin|Hin].
        -- rewrite list_lookup_insert_eq by (rewrite Hl; exact Hin).
           destruct (decide _) as [_|H]; [reflexivity|lia].
        -- rewrite list_insert_ge by (rewrite Hl; lia). rewrite Hk.
           destruct (decide _) as [H|_]; [lia|].
           destruct (decide _) as [H|_]; [lia|reflexivity].
      * rewrite list_lookup_insert_ne by congruence. rewrite Hk.
        destruct (decide (k < n /\ k < length a)%nat),
                 (decide (k < S n /\ k < length a)%nat); try lia; reflexivity.
Qed.

(** A loop of copies [a[i] = b[i]] for [i < n] turns [a] into [b] when the
    two agree from [n] on. *)
Lemma fold_copy_eq {A : Arith} (n : nat) (a b : list num) :
  length a = length b ->
  (forall i, (n <= i)%nat -> a !! i = b !! i) ->
  fold_left (fun tw i => <[i := b.[i]]> tw) (seq 0 n) a = b.
Proof.
  intros Hlen Hout.
  destruct (fold_store_lookup (fun i => b.[i]) n a) as [Hl Hk].
  apply list_eq. intros k. rewrite Hk.
  destruct (decide _) as [[H1 H2]|H].
  - destruct (lookup_lt_is_Some_2 b k) as [y Hy]; [lia|].
    rewrite Hy. f_equal. apply vget_lookup. exact Hy.
  - destruct (decide (k < n)%nat) as [Hkn|Hkn].
    + rewrite !lookup_ge_None_2 by lia. reflexivity.
    + apply Hout. lia.
Qed.

(** A loop of stores of one value over a vector no longer than the loop. *)
Lemma fold_fill_eq {T} (v : T) (n : nat) (a : list T) :
  (length a <= n)%nat ->
  fold_left (fun d i => <[i := v]> d) (seq 0 n) a = replicate (length a) v.
Proof.
  intros Hlen.
  destruct (fold_store_lookup (fun _ => v) n a) as [Hl Hk].
  apply list_eq. intros k. rewrite Hk.
  destruct (decide _) as [[H1 H2]|H].
  - symmetry. apply lookup_replicate_2. exact H2.
  - rewrite !lookup_ge_None_2; [reflexivity|rewrite length_replicate|]; lia.
Qed.

Section SolidFacts.
Context {A : Arith} {L : Libm A} {E : Externals A}.

(** Zero is not above the tolerance: the assignment [change = 0] ends a loop. *)
Hypothesis zero_below_tolerance : (lit 0 >! tolerance) = false.

Lemma two_flux_loop_total (RK Omega : list num) (s : StFlow A) :
  forall (fuel : nat) (change2 : num) (count : Z) (fail : bool) (q : TwoFlux),
  0 <= count <= 101 -> (101 <= count -> change2 = lit 0) ->
  (102 - count <= Z.of_nat fuel) ->
  exists q' fail', two_flux_loop fuel RK Omega s change2 count fail q = Some (q', fail').
Proof.
  induction fuel as [|fuel IH]; intros change2 count fail q Hc Hz Hf; [lia|].
  cbn [two_flux_loop].
  destruct (change2 >! tolerance) eqn:Ech; [|eauto].
  assert (Hlt : count <= 100).
  { destruct (Z_le_gt_dec count 100) as [H|H]; [exact H|].
    rewrite Hz in Ech by lia. congruence. }
  destruct (two_flux_sweep RK Omega s q) as [[q1 n1] n2].
  destruct (Z.gtb_spec (count + 1) 100).
  - apply IH; [lia|reflexivity|lia].
  - apply IH; [lia|intros; lia|lia].
Qed.

(** [net_flux], [relax] and the tridiagonal solve touch the solid fields and
    the log only. *)
Lemma net_flux_gas (RK Omega : list num) (s : StFlow A) (q : TwoFlux) (fail : bool) :
  obs_gas (net_flux RK Omega s q fail).2 = obs_gas s /\
  Twprev (solidf (net_flux RK Omega s q fail).2) = Twprev (solidf s) /\
  Tw (solidf (net_flux RK Omega s q fail).2) = Tw (solidf s).
Proof. unfold net_flux. destruct fail; repeat split. Qed.

Lemma tridiagonal_solve_frame (n : nat) (m : Rows) (tw : list num) :
  length (tridiagonal_solve n m tw) = length tw /\
  ((1 <= n)%nat -> forall i, (n <= i)%nat -> tridiagonal_solve n m tw !! i = tw !! i).
Proof.
  unfold tridiagonal_solve.
  destruct (decomposition n m) as [e f].
  set (r := forward_substitution n e (rhs m)).
  unfold back_substitution.
  set (tw1 := <[(n - 1)%nat := _]> tw).
  destruct (fold_insert_outside (fun i : nat => i)
              (fun tw i => (r.[i] -! (gdia m).[i] *! tw.[i + 1]) /! f.[i])
              (rev (seq 0 (n - 1))) tw1) as [Hl Hk].
  split.
  - rewrite Hl. subst tw1. apply length_insert.
  - intros Hn i Hi. rewrite Hk.
    + subst tw1. apply list_lookup_insert_ne. lia.
    + intros i' Hi'. apply list_elem_of_In, in_rev, list_elem_of_In, elem_of_seq in Hi'. lia.
Qed.

Lemma solid_inv_refl (s : StFlow A) : solid_inv s s.
Proof. repeat split. Qed.

Lemma solid_inv_trans (a b c : StFlow A) : solid_inv a b -> solid_inv b c -> solid_inv a c.
Proof.
  intros (G1 & P1 & L1 & O1) (G2 & P2 & L2 & O2).
  assert (Hg : grid b = grid a) by (unfold obs_gas in G1; congruence).
  repeat split; try congruence.
  intros Hn i Hi. rewrite O2, O1; auto; rewrite Hg; assumption.
Qed.

Lemma solid_pass_total (x hconv scond RK Omega : list num) (srho sCp rdt : num)
    (s : StFlow A) :
  exists s' norm,
    solid_pass inner_fuel x hconv scond RK Omega srho sCp rdt s = Some (s', norm) /\
    solid_inv s s' /\
    Tw (solidf s') = tridiagonal_solve (m_points (grid s))
                       (solid_rows x hconv scond srho sCp rdt s) (Tw (solidf s)).
Proof.
  unfold solid_pass.
  set (s1 := on_solid _ s).
  destruct (two_flux_loop_total RK Omega s1 inner_fuel (lit 1) 0 false (two_flux_init x s1))
    as (q & fail & Eq); [lia|intros; lia|unfold inner_fuel; lia|].
  rewrite Eq.
  destruct (net_flux_gas RK Omega s1 q fail) as (Hg & Hp & Ht).
  destruct (net_flux RK Omega s1 q fail) as [dqnew s2]. cbn [snd] in *.
  destruct (relax (m_points (grid s)) dqnew (dq (solidf s2))) as [norm dq'].
  exists (on_solid (set_dq dq') s2), norm. split; [reflexivity|].
  destruct (tridiagonal_solve_frame (m_points (grid s))
              (solid_rows x hconv scond srho sCp rdt s) (Tw (solidf s))) as [Hl Ho].
  split; [|exact Ht].
  split; [exact Hg|]. split; [exact Hp|].
  split; [rewrite <- Hl; f_equal; exact Ht|].
  intros Hn i Hi. rewrite <- (Ho Hn i Hi). f_equal. exact Ht.
Qed.

Lemma solid_loop_total (x hconv scond RK Omega : list num) (srho sCp rdt : num) :
  forall (fuel : nat) (change1 : num) (count1 : Z) (fail1 : bool) (s : StFlow A),
  0 <= count1 <= 401 -> (401 <= count1 -> change1 = lit 0) ->
  (402 - count1 <= Z.of_nat fuel) ->
  exists s' fail',
    solid_loop fuel inner_fuel x hconv scond RK Omega srho sCp rdt change1 count1 fail1 s
    = Some (s', fail') /\
    solid_inv s s'.
Proof.
  induction fuel as [|fuel IH]; intros change1 count1 fail1 s Hc Hz Hf; [lia|].
  cbn [solid_loop].
  destruct (change1 >! tolerance) eqn:Ech;
    [|exists s, fail1; split; [reflexivity|apply solid_inv_refl]].
  assert (Hlt : count1 <= 400).
  { destruct (Z_le_gt_dec count1 400) as [H|H]; [exact H|].
    rewrite Hz in Ech by lia. congruence. }
  destruct (solid_pass_total x hconv scond RK Omega srho sCp rdt s)
    as (s1 & norm & E1 & I1 & _).
  rewrite E1.
  destruct (Z.gtb_spec (count1 + 1) 400).
  - destruct (IH (lit 0) (count1 + 1) true s1) as (s' & f' & E' & I');
      [lia|reflexivity|lia|].
    exists s', f'. split; [exact E'|]. exact (solid_inv_trans _ _ _ I1 I').
  - destruct (IH (sqrt norm) (count1 + 1) fail1 s1) as (s' & f' & E' & I');
      [lia|intros; lia|lia|].
    exists s', f'. split; [exact E'|]. exact (solid_inv_trans _ _ _ I1 I').
Qed.

End SolidFacts.

(** ** Residual Engine: frames of the updates *)

Section UpdateFrames.
Context {A : Arith} {L : Libm A} {E : Externals A}.

Lemma updateThermo_obs (x : list num) (j0 j1 : Z) (s : StFlow A) :
  obs_update (updateThermo x j0 j1 s) = obs_update s.
Proof. unfold updateThermo. apply fold_left_obs. reflexivity. Qed.

Lemma updateTransport_obs (x : list num) (j0 j1 : Z) (s : StFlow A) :
  obs_rows (updateTransport x j0 j1 s) = obs_rows s.
Proof.
  unfold updateTransport. destruct (m_transport_option (settings s)); [reflexivity| |].
  - apply fold_left_obs. reflexivity.
  - apply fold_left_obs. intros s' j.
    cbv zeta.
    match goal with
    | |- obs_rows (if ?c then _ else _) = _ => destruct c
    end; cbn [obs_rows on_cache grid settings];
    match goal with
    | |- context [fold_left ?f (species ?s0) ?s1] =>
        change (obs_rows (fold_left f (species s0) s1) = obs_rows s');
        rewrite (fold_left_obs obs_rows f (species s0)) by reflexivity; reflexivity
    end.
Qed.

Lemma mixav_fluxes_obs (x : list num) (j : nat) (s : StFlow A) :
  obs_update (mixav_fluxes x j s) = obs_update s.
Proof.
  unfold mixav_fluxes. cbv zeta.
  destruct (fold_left _ (species s) (s, lit 0)) as [s1 sum] eqn:E1.
  rewrite (fold_left_obs obs_update) by reflexivity.
  change s1 with (fst (s1, sum)). rewrite <- E1.
  apply (fold_left_obs (fun a : StFlow A * num => obs_update a.1)).
  intros [s' sum'] k. reflexivity.
Qed.

Lemma multi_fluxes_obs (x : list num) (j : nat) (s : StFlow A) :
  obs_update (multi_fluxes x j s) = obs_update s.
Proof. unfold multi_fluxes. apply fold_left_obs. reflexivity. Qed.

Lemma soret_fluxes_obs (x : list num) (j : nat) (s : StFlow A) :
  obs_update (soret_fluxes x j s) = obs_update s.
Proof. unfold soret_fluxes. apply fold_left_obs. reflexivity. Qed.

Lemma updateDiffFluxes_obs (x : list num) (j0 j1 : Z) (s s' : StFlow A) :
  updateDiffFluxes x j0 j1 s = Ok s' -> obs_update s' = obs_update s.
Proof.
  unfold updateDiffFluxes. intros H.
  destruct (m_transport_option (settings s)); cbn [bind] in H; [discriminate| |].
  - set (s1 := fold_left _ (range j0 j1) s) in H.
    assert (H1 : obs_update s1 = obs_update s)
      by (apply fold_left_obs; intros; apply mixav_fluxes_obs).
    destruct (m_do_soret (settings s1)); inversion H; subst s'; [|exact H1].
    rewrite <- H1. apply fold_left_obs. intros; apply soret_fluxes_obs.
  - set (s1 := fold_left _ (range j0 j1) s) in H.
    assert (H1 : obs_update s1 = obs_update s)
      by (apply fold_left_obs; intros; apply multi_fluxes_obs).
    destruct (m_do_soret (settings s1)); inversion H; subst s'; [|exact H1].
    rewrite <- H1. apply fold_left_obs. intros; apply soret_fluxes_obs.
Qed.

Lemma updateDiffFluxes_Ok (x : list num) (j0 j1 : Z) (s : StFlow A) :
  m_transport_option (settings s) <> c_None_Transport ->
  exists s', updateDiffFluxes x j0 j1 s = Ok s'.
Proof.
  intros H. unfold updateDiffFluxes.
  destruct (m_transport_option (settings s)); [congruence| |]; cbn [bind];
    match goal with |- context [if ?c then _ else _] => destruct c end; eauto.
Qed.

Lemma radiation_obs (x : list num) (jmin jmax : Z) (s : StFlow A) :
  obs_residual (radiation x jmin jmax s) = obs_residual s.
Proof. unfold radiation. cbv zeta. apply fold_left_obs. reflexivity. Qed.

End UpdateFrames.

(** ** Residual Engine: frames of the residual rows *)

Section PointFrames.
Context {A : Arith} {L : Libm A} {E : Externals A}.

Ltac block_chain :=
  repeat match goal with
  | |- block_frame _ _ ?o ?o => apply block_frame_refl
  | |- block_frame _ _ ?o (set_rsd ?s ?n ?j ?v ?o1) =>
      apply (block_frame_trans _ _ o o1); [|apply (set_rsd_block s n j v o1); cbn; lia]
  | |- block_frame _ _ ?o (set_diag ?s ?n ?j ?v ?o1) =>
      apply (block_frame_trans _ _ o o1); [|apply (set_diag_block s n j v o1); cbn; lia]
  end.

Variable s : StFlow A.
Hypothesis well_formed : m_nv (grid s) = (4 + m_nsp (grid s))%nat.
Hypothesis has_species : (1 <= m_nsp (grid s))%nat.

Let lo (j : nat) : nat := (loc (grid s) + m_nv (grid s) * j)%nat.
Let hi (j : nat) : nat := (loc (grid s) + m_nv (grid s) * j + m_nv (grid s))%nat.

Lemma species_in (k : nat) : k ∈ species s -> (k < m_nsp (grid s))%nat.
Proof. unfold species. intros H. apply elem_of_seq in H. lia. Qed.

Lemma left_boundary_block (x : list num) (o : Out A) :
  block_frame (lo 0) (hi 0) o (left_boundary x s o).
Proof.
  unfold left_boundary.
  match goal with
  | |- context [fold_left ?f (species s) (?z, ?o0)] =>
      assert (H : block_frame (lo 0) (hi 0) o0 (fold_left f (species s) (z, o0)).2)
  end.
  { apply (fold_left_rel (fun a b : num * Out A => block_frame (lo 0) (hi 0) a.2 b.2)).
    - intros a. apply block_frame_refl.
    - intros a b c. apply block_frame_trans.
    - intros [sum o1] k Hk. apply species_in in Hk. cbn [snd].
      apply set_rsd_block. unfold c_offset_Y. lia. }
  destruct (fold_left _ (species s) _) as [sum o1]. cbn [snd] in H.
  apply (block_frame_trans _ _ _ o1); [|apply set_rsd_block; unfold c_offset_Y; lia].
  eapply block_frame_trans; [|exact H].
  unfold c_offset_U, c_offset_V, c_offset_T, c_offset_L. block_chain.
Qed.

Lemma right_species_block (x : list num) (j : nat) (o : Out A) :
  block_frame (lo j) (hi j) o (right_species x s j o).
Proof.
  unfold right_species.
  match goal with
  | |- context [fold_left ?f (species s) (?z, ?o0)] =>
      assert (H : block_frame (lo j) (hi j) o0 (fold_left f (species s) (z, o0)).2)
  end.
  { apply (fold_left_rel (fun a b : num * Out A => block_frame (lo j) (hi j) a.2 b.2)).
    - intros a. apply block_frame_refl.
    - intros a b c. apply block_frame_trans.
    - intros [sum o1] k Hk. apply species_in in Hk. cbn [snd].
      apply set_rsd_block. lia. }
  destruct (fold_left _ (species s) _) as [sum o1]. cbn [snd] in H.
  eapply block_frame_trans; [exact H|]. block_chain.
Qed.

Lemma evalRightBoundary_block (kind : FlowKind) (x : list num) (o : Out A) :
  block_frame (lo (m_points (grid s) - 1)) (hi (m_points (grid s) - 1)) o
              (evalRightBoundary kind x s o).
Proof.
  unfold evalRightBoundary, AxiStagnFlow_evalRightBoundary, FreeFlame_evalRightBoundary.
  destruct kind;
    (eapply block_frame_trans; [|apply right_species_block]);
    unfold c_offset_L; block_chain.
Qed.

Lemma evalContinuity_block (kind : FlowKind) (j : nat) (x : list num) (o : Out A) :
  block_frame (lo j) (hi j) o (evalContinuity kind j x s o).
Proof.
  unfold evalContinuity, AxiStagnFlow_evalContinuity, FreeFlame_evalContinuity.
  destruct kind; unfold c_offset_U;
    repeat match goal with |- context [if ?c then _ else _] => destruct c end;
    block_chain.
Qed.

Lemma momentum_row_block (j : nat) (x : list num) (rdt : num) (o : Out A) :
  block_frame (lo j) (hi j) o (momentum_row j x rdt s o).
Proof. unfold momentum_row, c_offset_V. block_chain. Qed.

Lemma fixed_temperature_row_block (j : nat) (x : list num) (o : Out A) :
  block_frame (lo j) (hi j) o (fixed_temperature_row j x s o).
Proof. unfold fixed_temperature_row, c_offset_T. block_chain. Qed.

Lemma lambda_row_block (j : nat) (x : list num) (o : Out A) :
  block_frame (lo j) (hi j) o (lambda_row j x s o).
Proof. unfold lambda_row, c_offset_L. block_chain. Qed.

End PointFrames.

Section InteriorRows.
Context {A : Arith} {L : Libm A} {E : Externals A}.

Lemma obs_rows_reads (s0 s1 : StFlow A) (x : list num) (j : nat) :
  obs_rows s1 = obs_rows s0 ->
  grid s1 = grid s0 /\
  T_row s1 j = T_row s0 j /\ T s1 x j = T s0 x j /\ T_fixed s1 j = T_fixed s0 j /\
  bget (m_do_energy (settings s1)) j = bget (m_do_energy (settings s0)) j.
Proof.
  unfold obs_rows. intros H. inversion H as [[Hg He Hf Ho]].
  unfold T_row, T, T_fixed, index. rewrite Hg, He, Hf. repeat split.
Qed.

(** The last two stores of an interior point whose energy flag is cleared. *)
Lemma fixed_then_lambda (s : StFlow A) (x : list num) (j : nat) (o : Out A) :
  (T_row s j < length (rsd o))%nat -> (T_row s j < length (diag o))%nat ->
  fixed_row_written s x j (lambda_row j x s (fixed_temperature_row j x s o)).
Proof.
  intros Hr Hd. unfold fixed_row_written, lambda_row, fixed_temperature_row,
    set_rsd, set_diag, T_row in *. cbn [rsd diag].
  unfold index, c_offset_T, c_offset_L in *.
  split; (rewrite list_lookup_insert_ne by lia);
    (rewrite list_lookup_insert_eq by lia); reflexivity.
Qed.

Lemma species_rows_block (s : StFlow A) (j : nat)
    (row : nat -> num) (o : Out A) :
  m_nv (grid s) = (4 + m_nsp (grid s))%nat ->
  block_frame (loc (grid s) + m_nv (grid s) * j)
              (loc (grid s) + m_nv (grid s) * j + m_nv (grid s)) o
    (fold_left (fun o k => set_diag s (c_offset_Y + k) j 1
                             (set_rsd s (c_offset_Y + k) j (row k) o))
               (species s) o).
Proof.
  intros Hwf.
  apply (fold_left_rel (block_frame _ _)).
  - intros a. apply block_frame_refl.
  - intros a b c. apply block_frame_trans.
  - intros o1 k Hk. apply elem_of_seq in Hk.
    eapply block_frame_trans;
      [apply set_rsd_block|apply set_diag_block]; unfold c_offset_Y; lia.
Qed.

Lemma StFlow_point_spec (kind : FlowKind) (x : list num) (rdt : num) :
  point_spec (StFlow_point kind x rdt) x.
Proof.
  intros s o j Hwf Hsp Hnp Hsz.
  unfold StFlow_point.
  destruct (Nat.eqb_spec j 0) as [->|Hj0].
  { cbn [fst snd]. split; [reflexivity|]. split; [|intros; lia].
    apply left_boundary_block; assumption. }
  rewrite wrap_small by (unfold SIZE_MAX in *; lia).
  destruct (Z.eqb_spec (Z.of_nat j) (Z.of_nat (m_points (grid s)) - 1)) as [Hjl|Hjl].
  { cbn [fst snd]. split; [reflexivity|]. split; [|intros; lia].
    replace j with (m_points (grid s) - 1)%nat by lia.
    apply evalRightBoundary_block; assumption. }
  unfold StFlow_interior.
  set (o1 := momentum_row j x rdt s (evalContinuity kind j x s o)).
  set (s1 := getWdot x j s).
  set (o2 := fold_left _ (species s1) o1).
  assert (B1 : block_frame (loc (grid s) + m_nv (grid s) * j)
                 (loc (grid s) + m_nv (grid s) * j + m_nv (grid s)) o o1).
  { eapply block_frame_trans;
      [apply evalContinuity_block|apply momentum_row_block]; assumption. }
  assert (B2 : block_frame (loc (grid s) + m_nv (grid s) * j)
                 (loc (grid s) + m_nv (grid s) * j + m_nv (grid s)) o o2).
  { eapply block_frame_trans; [exact B1|].
    subst o2. apply (species_rows_block s1 j). exact Hwf. }
  change (bget (m_do_energy (settings s1)) j) with (bget (m_do_energy (settings s)) j).
  destruct (bget (m_do_energy (settings s)) j) eqn:Eflag.
  - destruct (energy_sums j (setGas x j s1)) as [sum sum2]. cbn [fst snd].
    split; [reflexivity|]. split; [|intros; congruence].
    eapply block_frame_trans; [exact B2|].
    eapply block_frame_trans; [|apply (lambda_row_block (setGas x j s1)); assumption].
    assert (H2 : (c_offset_T < m_nv (grid s))%nat) by (unfold c_offset_T; lia).
    eapply block_frame_trans;
      [apply (set_rsd_block (setGas x j s1))|apply (set_diag_block (setGas x j s1))];
      exact H2.
  - cbn [fst snd]. split; [reflexivity|]. split.
    + eapply block_frame_trans; [exact B2|].
      eapply block_frame_trans;
        [apply (fixed_temperature_row_block s1)|apply (lambda_row_block s1)]; assumption.
    + intros _ _ _ Hr Hd. destruct B2 as (Lr & Ld & _).
      apply (fixed_then_lambda s1 x j o2); [rewrite Lr|rewrite Ld]; assumption.
Qed.

Lemma PorousFlow_point_spec (x : list num) (rdt : num) :
  point_spec (PorousFlow_point x rdt) x.
Proof.
  intros s o j Hwf Hsp Hnp Hsz.
  unfold PorousFlow_point.
  destruct (Nat.eqb_spec j 0) as [->|Hj0].
  { cbn [fst snd]. split; [reflexivity|]. split; [|intros; lia].
    apply left_boundary_block; assumption. }
  rewrite wrap_small by (unfold SIZE_MAX in *; lia).
  destruct (Z.eqb_spec (Z.of_nat j) (Z.of_nat (m_points (grid s)) - 1)) as [Hjl|Hjl].
  { cbn [fst snd]. split; [reflexivity|]. split; [|intros; lia].
    replace j with (m_points (grid s) - 1)%nat by lia.
    apply evalRightBoundary_block; assumption. }
  unfold PorousFlow_interior. cbv zeta.
  match goal with
  | |- context [momentum_row j x rdt s ?o0] => set (o1 := momentum_row j x rdt s o0)
  end.
  set (s1 := getWdot x j s).
  set (o2 := fold_left _ (species s1) o1).
  assert (B1 : block_frame (loc (grid s) + m_nv (grid s) * j)
                 (loc (grid s) + m_nv (grid s) * j + m_nv (grid s)) o o1).
  { eapply block_frame_trans; [|apply momentum_row_block; assumption].
    eapply block_frame_trans;
      [apply set_rsd_block|apply set_diag_block]; unfold c_offset_U; lia. }
  assert (B2 : block_frame (loc (grid s) + m_nv (grid s) * j)
                 (loc (grid s) + m_nv (grid s) * j + m_nv (grid s)) o o2).
  { eapply block_frame_trans; [exact B1|].
    subst o2. apply (species_rows_block s1 j). exact Hwf. }
  change (bget (m_do_energy (settings s1)) j) with (bget (m_do_energy (settings s)) j).
  destruct (bget (m_do_energy (settings s)) j) eqn:Eflag.
  - destruct (energy_sums j (setGas x j s1)) as [sum sum2]. cbn [fst snd].
    split; [reflexivity|]. split; [|intros; congruence].
    eapply block_frame_trans; [exact B2|].
    eapply block_frame_trans; [|apply (lambda_row_block (setGas x j s1)); assumption].
    assert (H2 : (c_offset_T < m_nv (grid s))%nat) by (unfold c_offset_T; lia).
    eapply block_frame_trans;
      [apply (set_rsd_block (setGas x j s1))|apply (set_diag_block (setGas x j s1))];
      exact H2.
  - cbn [fst snd]. split; [reflexivity|]. split.
    + eapply block_frame_trans; [exact B2|].
      eapply block_frame_trans;
        [apply (fixed_temperature_row_block s1)|apply (lambda_row_block s1)]; assumption.
    + intros _ _ _ Hr Hd. destruct B2 as (Lr & Ld & _).
      apply (fixed_then_lambda s1 x j o2); [rewrite Lr|rewrite Ld]; assumption.
Qed.

End InteriorRows.

Section SolidTotal.
Context {A : Arith} {L : Libm A} {E : Externals A}.
Hypothesis zero_below_tolerance : (lit 0 >! tolerance) = false.

(** [solid] returns, whatever its inputs, and touches nothing of the gas side. *)
Lemma PorousFlow_solid_total (x hconv scond RK Omega : list num) (srho sCp rdt : num)
    (s : StFlow A) :
  exists s1 fail1,
    solid_loop outer_fuel inner_fuel x hconv scond RK Omega srho sCp rdt
               (lit 1) 0 false (solid_enter s) = Some (s1, fail1) /\
    PorousFlow_solid x hconv scond RK Omega srho sCp rdt s = Some (solid_leave fail1 s1) /\
    solid_inv (solid_enter s) s1 /\
    obs_gas (solid_leave fail1 s1) = obs_gas s.
Proof.
  destruct (solid_loop_total zero_below_tolerance x hconv scond RK Omega srho sCp rdt
              outer_fuel (lit 1) 0 false (solid_enter s))
    as (s1 & fail1 & E1 & I1); [lia|intros; lia|unfold outer_fuel; lia|].
  exists s1, fail1. split; [exact E1|]. split; [|split; [exact I1|]].
  - unfold PorousFlow_solid. rewrite E1. reflexivity.
  - destruct I1 as (Hg & _). unfold solid_leave.
    destruct fail1; [change (obs_gas s1 = obs_gas s)|]; exact Hg.
Qed.

End SolidTotal.

Section SolidCaps.
Context {A : Arith} {L : Libm A} {E : Externals A}.

Hypothesis zero_below_tolerance : (lit 0 >! tolerance) = false.





End SolidCaps.

Section SolidRevert.
Context {A : Arith} {L : Libm A} {E : Externals A}.

(** A pass that returns preserves what [solid_inv] lists. *)
Lemma solid_pass_inv (x hconv scond RK Omega : list num) (srho sCp rdt : num)
    (s s' : StFlow A) (norm : num) :
  solid_pass inner_fuel x hconv scond RK Omega srho sCp rdt s = Some (s', norm) ->
  solid_inv s s'.
Proof.
  unfold solid_pass.
  set (s1 := on_solid _ s).
  destruct (two_flux_loop inner_fuel RK Omega s1 (lit 1) 0 false (two_flux_init x s1))
    as [[q fail]|]; [|discriminate].
  destruct (net_flux_gas RK Omega s1 q fail) as (Hg & Hp & Ht).
  destruct (net_flux RK Omega s1 q fail) as [dqnew s2]. cbn [snd] in *.
  destruct (relax (m_points (grid s)) dqnew (dq (solidf s2))) as [norm' dq'].
  intros H. injection H as <- _.
  destruct (tridiagonal_solve_frame (m_points (grid s))
              (solid_rows x hconv scond srho sCp rdt s) (Tw (solidf s))) as [Hl Ho].
  split; [exact Hg|]. split; [exact Hp|].
  split; [rewrite <- Hl; f_equal; exact Ht|].
  intros Hn i Hi. rewrite <- (Ho Hn i Hi). f_equal. exact Ht.
Qed.

Lemma solid_loop_inv (x hconv scond RK Omega : list num) (srho sCp rdt : num) :
  forall (fuel : nat) (change1 : num) (count1 : Z) (fail1 : bool) (s s' : StFlow A)
         (fail' : bool),
  solid_loop fuel inner_fuel x hconv scond RK Omega srho sCp rdt change1 count1 fail1 s
  = Some (s', fail') ->
  solid_inv s s'.
Proof.
  induction fuel as [|fuel IH]; intros change1 count1 fail1 s s' fail'; [discriminate|].
  cbn [solid_loop].
  destruct (change1 >! tolerance);
    [|intros H; injection H as <- _; apply solid_inv_refl].
  destruct (solid_pass inner_fuel x hconv scond RK Omega srho sCp rdt s)
    as [[s1 norm]|] eqn:E1; [|discriminate].
  pose proof (solid_pass_inv _ _ _ _ _ _ _ _ _ _ _ E1) as I1.
  destruct (count1 + 1 >? 400); intros H;
    exact (solid_inv_trans _ _ _ I1 (IH _ _ _ _ _ _ H)).
Qed.

(** When the outer loop ends on its cap the solid temperature comes back as
    it was before the solve. *)
Lemma solid_leave_reverts (x hconv scond RK Omega : list num) (srho sCp rdt : num)
    (s s1 : StFlow A) :
  (1 <= m_points (grid s))%nat ->
  solid_loop outer_fuel inner_fuel x hconv scond RK Omega srho sCp rdt
             (lit 1) 0 false (solid_enter s) = Some (s1, true) ->
  PorousFlow_solid x hconv scond RK Omega srho sCp rdt s = Some (solid_leave true s1) /\
  Tw (solidf (solid_leave true s1)) = Tw (solidf s) /\
  logged (solid_leave true s1) = logged s1 ++ ["Rad not Converged"].
Proof.
  intros Hn E1. split; [unfold PorousFlow_solid; rewrite E1; reflexivity|].
  split; [|reflexivity].
  destruct (solid_loop_inv _ _ _ _ _ _ _ _ _ _ _ _ _ _ _ E1) as (Hg & Hp & Hl & Ho).
  assert (Hgrid : grid s1 = grid s)
    by exact (f_equal (fun t => t.1.1.1.1) Hg).
  change (Tw (solidf (solid_leave true s1)))
    with (fold_left (fun tw i => <[i := (Twprev (solidf s1)).[i]]> tw)
            (seq 0 (m_points (grid s1))) (Tw (solidf s1))).
  rewrite Hgrid, Hp.
  change (Twprev (solidf (solid_enter s))) with (Tw (solidf s)).
  apply fold_copy_eq.
  - exact Hl.
  - intros i Hi. apply (Ho Hn i Hi).
Qed.

End SolidRevert.

Section EvalRows.
Context {A : Arith} {L : Libm A} {E : Externals A}.

Lemma obs_gas_residual (s s' : StFlow A) :
  obs_gas s' = obs_gas s -> obs_residual s' = obs_residual s.
Proof.
  unfold obs_gas, obs_residual, obs_rows, obs_transport, obs_thermo.
  intros H. inversion H as [[Hg Hc Ht Hth Ha]]. rewrite Hg, Hc, Ht. reflexivity.
Qed.

Lemma obs_residual_rows (s s' : StFlow A) :
  obs_residual s' = obs_residual s -> obs_rows s' = obs_rows s.
Proof. intros H. exact (f_equal (fun t => t.1.1) H). Qed.

Lemma obs_update_rows (s s' : StFlow A) :
  obs_update s' = obs_update s -> obs_rows s' = obs_rows s.
Proof. intros H. exact (f_equal fst H). Qed.

Lemma obs_update_transport (s s' : StFlow A) :
  obs_update s' = obs_update s -> obs_transport s' = obs_transport s.
Proof. intros H. exact (f_equal snd H). Qed.

Lemma obs_residual_transport (s s' : StFlow A) :
  obs_residual s' = obs_residual s -> obs_transport s' = obs_transport s.
Proof. intros H. exact (f_equal (fun t => t.1.2) H). Qed.


Lemma obs_rows_option (s s' : StFlow A) :
  obs_rows s' = obs_rows s ->
  m_transport_option (settings s') = m_transport_option (settings s).
Proof. intros H. exact (f_equal snd H). Qed.

(** The loop over the points of the window: the temperature row of an
    interior point with the energy flag cleared ends as the fixed-profile
    constraint, whatever the other points store. *)
Lemma points_fold (pt : StFlow A * Out A -> nat -> StFlow A * Out A) (x : list num)
    (j : nat) :
  point_spec pt x ->
  forall (js : list nat) (s : StFlow A) (o : Out A),
  NoDup js ->
  m_nv (grid s) = (4 + m_nsp (grid s))%nat ->
  (1 <= m_nsp (grid s))%nat ->
  (1 <= m_points (grid s))%nat ->
  Z.of_nat (m_points (grid s)) <= SIZE_MAX ->
  obs_residual (fold_left pt js (s, o)).1 = obs_residual s /\
  length (rsd (fold_left pt js (s, o)).2) = length (rsd o) /\
  length (diag (fold_left pt js (s, o)).2) = length (diag o) /\
  (j ∉ js ->
   rsd (fold_left pt js (s, o)).2 !! T_row s j = rsd o !! T_row s j /\
   diag (fold_left pt js (s, o)).2 !! T_row s j = diag o !! T_row s j) /\
  (j ∈ js -> (0 < j)%nat -> (j + 1 < m_points (grid s))%nat ->
   bget (m_do_energy (settings s)) j = false ->
   (T_row s j < length (rsd o))%nat -> (T_row s j < length (diag o))%nat ->
   fixed_row_written s x j (fold_left pt js (s, o)).2).
Proof.
  intros Hpt js. induction js as [|j' js IH]; intros s o Hnd Hwf Hsp Hnp Hsz.
  - cbn [fold_left fst snd].
    split; [reflexivity|]. split; [reflexivity|]. split; [reflexivity|].
    split; [intros _; split; reflexivity|intros Hin; inversion Hin].
  - cbn [fold_left]. apply NoDup_cons in Hnd as [Hj' Hnd].
    destruct (Hpt s o j' Hwf Hsp Hnp Hsz) as (Ho & Hb & Hw).
    destruct (pt (s, o) j') as [s1 o1]. cbn [fst snd] in Ho, Hb, Hw.
    destruct (obs_rows_reads s s1 x j (obs_residual_rows _ _ Ho))
      as (Hg & Hrow & HT & HTf & Hfl).
    destruct Hb as (Lr & Ld & Hout).
    destruct (IH s1 o1 Hnd) as (Io & Ilr & Ild & Inot & Iin);
      [rewrite Hg; assumption..|].
    split; [congruence|]. split; [congruence|]. split; [congruence|]. split.
    + intros Hnot. apply not_elem_of_cons in Hnot as [Hne Hnot].
      destruct (Inot Hnot) as [R1 R2]. rewrite Hrow in R1, R2.
      destruct (Hout (T_row s j)) as [O1 O2].
      { unfold T_row, index, c_offset_T. nia. }
      split; congruence.
    + intros Hin Hj0 Hj1 Hflag Hr Hd.
      destruct (decide (j = j')) as [<-|Hne].
      * destruct (Inot Hj') as [R1 R2]. rewrite Hrow in R1, R2.
        destruct (Hw Hj0 Hj1 Hflag Hr Hd) as [W1 W2].
        split; congruence.
      * apply elem_of_cons in Hin as [Heq|Hin]; [contradiction|].
        destruct (Iin Hin) as [W1 W2]; try (rewrite ?Hg, ?Hrow, ?Hfl; congruence).
        unfold fixed_row_written. rewrite <- Hrow, <- HT, <- HTf. split; assumption.
Qed.

End EvalRows.

Section EvalFacts.
Context {A : Arith} {L : Libm A} {E : Externals A}.

Lemma eval_window_nonneg (jg : Z) (s : StFlow A) (jmin jmax j0 j1 : Z) :
  eval_window jg s = (jmin, jmax, j0, j1) -> 0 <= jmin /\ 0 <= j0.
Proof.
  unfold eval_window.
  destruct (jg =? npos); intros H; inversion H; subst; unfold wrap; split;
    try lia; apply Z.mod_pos_bound; lia.
Qed.

Lemma porous_profiles_obs (s : StFlow A) :
  obs_residual (porous_profiles s).1 = obs_residual s.
Proof.
  unfold porous_profiles. cbv zeta.
  match goal with
  | |- context [fold_left ?f ?l ?a] =>
      assert (H : obs_residual (fold_left f l a).1.1.1 = obs_residual s)
  end.
  { apply (fold_left_obs (fun a : StFlow A * list num * list num * list num =>
                            obs_residual a.1.1.1)).
    intros [[[s' RK] Cm] mp] i. reflexivity. }
  destruct (fold_left _ _ _) as [[[s' RK] Cm] mp]. exact H.
Qed.

Lemma porous_hconv_obs (x Cmult mpow : list num) (jmin jmax : Z) (s : StFlow A) :
  obs_residual (porous_hconv x Cmult mpow jmin jmax s) = obs_residual s.
Proof. unfold porous_hconv. apply fold_left_obs. reflexivity. Qed.

(** The state that enters the loop over points of StFlow::eval. *)
Lemma StFlow_eval_unfold (kind : FlowKind) (jg : Z) (xg : list num) (o : Out A)
    (rdt : num) (s : StFlow A) (jmin jmax j0 j1 : Z) :
  m_transport_option (settings s) <> c_None_Transport ->
  outside_influence jg s = false ->
  eval_window jg s = (jmin, jmax, j0, j1) ->
  exists s1,
    obs_rows s1 = obs_rows s /\
    (jg <> npos -> obs_transport s1 = obs_transport s) /\
    (exists s0, updateDiffFluxes (drop (loc (grid s)) xg) j0 j1
                  (if jg =? npos
                   then updateTransport (drop (loc (grid s)) xg) j0 j1
                          (updateThermo (drop (loc (grid s)) xg) j0 j1 s)
                   else updateThermo (drop (loc (grid s)) xg) j0 j1 s) = Ok s0 /\
                obs_residual s1 = obs_residual s0) /\
    StFlow_eval kind jg xg o rdt s
    = Ok (fold_left (StFlow_point kind (drop (loc (grid s)) xg)
                       (if negb (jg =? npos) then lit 0 else rdt))
                    (range jmin (jmax + 1)) (s1, o)).
Proof.
  intros Hopt Hin Hwin. unfold StFlow_eval. rewrite Hin, Hwin.
  set (x := drop (loc (grid s)) xg).
  set (sa := updateThermo x j0 j1 s).
  assert (Ha : obs_update sa = obs_update s) by apply updateThermo_obs.
  set (sb := if jg =? npos then updateTransport x j0 j1 sa else sa).
  assert (Hb : obs_rows sb = obs_rows s).
  { subst sb. destruct (jg =? npos).
    - rewrite updateTransport_obs. apply obs_update_rows, Ha.
    - apply obs_update_rows, Ha. }
  assert (Hbt : jg <> npos -> obs_transport sb = obs_transport s).
  { intros Hne. subst sb. destruct (Z.eqb_spec jg npos); [contradiction|].
    apply obs_update_transport, Ha. }
  assert (Hoptb : m_transport_option (settings sb) <> c_None_Transport)
    by (rewrite (obs_rows_option _ _ Hb); exact Hopt).
  destruct (updateDiffFluxes_Ok x j0 j1 sb Hoptb) as (sc & Ec).
  rewrite Ec. cbn [bind].
  assert (Hc : obs_update sc = obs_update sb) by (eapply updateDiffFluxes_obs; exact Ec).
  set (sd := if m_do_radiation (settings sc) then radiation x jmin jmax sc else sc).
  assert (Hd : obs_residual sd = obs_residual sc).
  { subst sd. destruct (m_do_radiation (settings sc)); [apply radiation_obs|reflexivity]. }
  exists sd. split; [|split; [|split]].
  - rewrite (obs_residual_rows _ _ Hd), (obs_update_rows _ _ Hc). exact Hb.
  - intros Hne. rewrite (obs_residual_transport _ _ Hd), (obs_update_transport _ _ Hc).
    exact (Hbt Hne).
  - exists sc. split; [reflexivity|exact Hd].
  - reflexivity.
Qed.

End EvalFacts.

Section EvalFacts2.
Context {A : Arith} {L : Libm A} {E : Externals A}.





Hypothesis zero_below_tolerance : (lit 0 >! tolerance) = false.

(** The state that enters the loop over points of PorousFlow::eval. *)
Lemma PorousFlow_eval_unfold (jg : Z) (xg : list num) (o : Out A)
    (rdt : num) (s : StFlow A) (jmin jmax j0 j1 : Z) :
  m_transport_option (settings s) <> c_None_Transport ->
  Z.of_nat (m_points (grid s)) <= max_size ->
  outside_influence jg s = false ->
  eval_window jg s = (jmin, jmax, j0, j1) ->
  exists s1,
    obs_rows s1 = obs_rows s /\
    (jg <> npos -> obs_transport s1 = obs_transport s) /\
    (exists s0, updateDiffFluxes (drop (loc (grid s)) xg) j0 j1
                  (if jg =? npos
                   then updateTransport (drop (loc (grid s)) xg) j0 j1
                          (updateThermo (drop (loc (grid s)) xg) j0 j1
                             (on_settings (set_m_dovisc true) s))
                   else updateThermo (drop (loc (grid s)) xg) j0 j1
                          (on_settings (set_m_dovisc true) s)) = Ok s0 /\
                obs_residual s1 = obs_residual s0) /\
    PorousFlow_eval jg xg o rdt s
    = Some (Ok (fold_left (PorousFlow_point (drop (loc (grid s)) xg)
                             (if negb (jg =? npos) then lit 0 else rdt))
                          (range jmin (jmax + 1)) (s1, o))).
Proof.
  intros Hopt Hmax Hin Hwin. unfold PorousFlow_eval. rewrite Hin, Hwin.
  set (x := drop (loc (grid s)) xg).
  set (rdt' := if negb (jg =? npos) then lit 0 else rdt).
  set (sv := on_settings (set_m_dovisc true) s).
  assert (Hv : obs_rows sv = obs_rows s) by reflexivity.
  set (sa := updateThermo x j0 j1 sv).
  assert (Ha : obs_update sa = obs_update sv) by apply updateThermo_obs.
  set (sb := if jg =? npos then updateTransport x j0 j1 sa else sa).
  assert (Hb : obs_rows sb = obs_rows s).
  { subst sb. destruct (jg =? npos).
    - rewrite updateTransport_obs. apply obs_update_rows, Ha.
    - apply obs_update_rows, Ha. }
  assert (Hbt : jg <> npos -> obs_transport sb = obs_transport s).
  { intros Hne. subst sb. destruct (Z.eqb_spec jg npos); [contradiction|].
    apply (obs_update_transport sv), Ha. }
  assert (Hoptb : m_transport_option (settings sb) <> c_None_Transport)
    by (rewrite (obs_rows_option _ _ Hb); exact Hopt).
  destruct (updateDiffFluxes_Ok x j0 j1 sb Hoptb) as (sc & Ec).
  rewrite Ec.
  assert (Hc : obs_update sc = obs_update sb) by (eapply updateDiffFluxes_obs; exact Ec).
  assert (Hgc : grid sc = grid s).
  { pose proof (obs_update_rows _ _ Hc) as H1. rewrite Hb in H1.
    exact (f_equal (fun t => t.1.1.1) H1). }
  rewrite Hgc.
  destruct (resize_Ok (Z.of_nat (m_points (grid s))) (lit 0) (hconv (solidf sc)))
    as (hc & -> & _); [lia|].
  destruct (resize_Ok (Z.of_nat (m_points (grid s))) (lit 0) (pore (solidf sc)))
    as (po & -> & _); [lia|].
  destruct (resize_Ok (Z.of_nat (m_points (grid s))) (lit 0) (diam (solidf sc)))
    as (di & -> & _); [lia|].
  destruct (resize_Ok (Z.of_nat (m_points (grid s))) (lit 0) (scond (solidf sc)))
    as (sc' & -> & _); [lia|].
  set (sd := on_solid _ sc).
  assert (Hd : obs_residual sd = obs_residual sc) by reflexivity.
  pose proof (porous_profiles_obs sd) as He.
  destruct (porous_profiles sd) as [se [[RK Cmult] mpow]]. cbn [fst] in He.
  set (sf := porous_hconv x Cmult mpow jmin jmax se).
  assert (Hf : obs_residual sf = obs_residual se) by apply porous_hconv_obs.
  assert (Hfc : obs_residual sf = obs_residual sc) by congruence.
  assert (Hsolved : exists sg,
    (if dosolid (solidf sf) =? 1
     then match PorousFlow_solid x (hconv (solidf sf)) (scond (solidf sf)) RK
                  (porous_albedo se) (srho (solidf sf)) (sCp (solidf sf)) rdt' sf with
          | Some s2 => Some (on_solid (set_dosolid 0) s2)
          | None => None
          end
     else Some sf) = Some sg /\ obs_residual sg = obs_residual sc).
  { destruct (dosolid (solidf sf) =? 1); [|exists sf; split; [reflexivity|exact Hfc]].
    destruct (PorousFlow_solid_total zero_below_tolerance x (hconv (solidf sf))
                (scond (solidf sf)) RK (porous_albedo se) (srho (solidf sf))
                (sCp (solidf sf)) rdt' sf) as (s2 & f2 & _ & E2 & _ & G2).
    rewrite E2. eexists. split; [reflexivity|].
    rewrite <- Hfc. apply obs_gas_residual. exact G2. }
  destruct Hsolved as (sg & Eg & Hg).
  exists sg. split; [|split; [|split]].
  - rewrite (obs_residual_rows _ _ Hg), (obs_update_rows _ _ Hc). exact Hb.
  - intros Hne. rewrite (obs_residual_transport _ _ Hg), (obs_update_transport _ _ Hc).
    exact (Hbt Hne).
  - exists sc. split; [reflexivity|exact Hg].
  - fold rdt'. rewrite Eg. reflexivity.
Qed.

End EvalFacts2.

(** ** Residual Engine: the claims *)

(** C6.  For an interior grid point [j] of the evaluated window whose
    energy-enable flag is cleared, the engine writes [T(x,j) - T_fixed(j)]
    into the temperature row of [j] and marks the row algebraic (flag 0);
    the base engine and the porous variant both do. *)
Theorem fixed_temperature_row_algebraic {A : Arith} {L : Libm A} {E : Externals A}
    (kind : FlowKind) (jg : Z) (xg : list num) (o : Out A) (rdt : num) (s : StFlow A)
    (jmin jmax j0 j1 : Z) (j : nat) :
  (lit 0 >! tolerance) = false ->
  m_nv (grid s) = (4 + m_nsp (grid s))%nat ->
  (1 <= m_nsp (grid s))%nat ->
  Z.of_nat (m_points (grid s)) <= max_size ->
  m_transport_option (settings s) <> c_None_Transport ->
  outside_influence jg s = false ->
  eval_window jg s = (jmin, jmax, j0, j1) ->
  jmin <= Z.of_nat j <= jmax ->
  (0 < j)%nat -> (j + 1 < m_points (grid s))%nat ->
  bget (m_do_energy (settings s)) j = false ->
  (T_row s j < length (rsd o))%nat -> (T_row s j < length (diag o))%nat ->
  (exists s' o', StFlow_eval kind jg xg o rdt s = Ok (s', o') /\
     fixed_row_written s (drop (loc (grid s)) xg) j o') /\
  (exists s' o', PorousFlow_eval jg xg o rdt s = Some (Ok (s', o')) /\
     fixed_row_written s (drop (loc (grid s)) xg) j o').
Proof.
  intros Htol Hwf Hsp Hmax Hopt Hin Hwin Hj Hj0 Hj1 Hflag Hr Hd.
  destruct (eval_window_nonneg jg s jmin jmax j0 j1 Hwin) as [Hmin _].
  assert (Hsz : Z.of_nat (m_points (grid s)) <= SIZE_MAX)
    by (unfold max_size, SIZE_MAX in *; lia).
  assert (Hjin : j ∈ range jmin (jmax + 1)) by (apply elem_of_range; lia).
  assert (Hfin : forall pt s1,
            point_spec pt (drop (loc (grid s)) xg) -> obs_rows s1 = obs_rows s ->
            fixed_row_written s (drop (loc (grid s)) xg) j
              (fold_left pt (range jmin (jmax + 1)) (s1, o)).2).
  { intros pt s1 Hpt H1.
    destruct (obs_rows_reads s s1 (drop (loc (grid s)) xg) j H1)
      as (Hg & Hrow & HT & HTf & Hfl).
    destruct (points_fold pt (drop (loc (grid s)) xg) j Hpt
                (range jmin (jmax + 1)) s1 o (NoDup_range _ _))
      as (_ & _ & _ & _ & Hw); [rewrite Hg; first [assumption|lia]..|].
    destruct Hw as [W1 W2]; try (rewrite ?Hg, ?Hrow, ?Hfl; assumption).
    unfold fixed_row_written. rewrite <- Hrow, <- HT, <- HTf. split; assumption. }
  split.
  - destruct (StFlow_eval_unfold kind jg xg o rdt s jmin jmax j0 j1 Hopt Hin Hwin)
      as (s1 & H1 & _ & _ & Ee).
    rewrite Ee.
    destruct (fold_left _ (range jmin (jmax + 1)) (s1, o)) as [s' o'] eqn:Ef.
    exists s', o'. split; [reflexivity|].
    change o' with (s', o').2. rewrite <- Ef.
    apply Hfin; [apply StFlow_point_spec|exact H1].
  - destruct (PorousFlow_eval_unfold Htol jg xg o rdt s jmin jmax j0 j1 Hopt Hmax Hin Hwin)
      as (s1 & H1 & _ & _ & Ee).
    rewrite Ee.
    destruct (fold_left _ (range jmin (jmax + 1)) (s1, o)) as [s' o'] eqn:Ef.
    exists s', o'. split; [reflexivity|].
    change o' with (s', o').2. rewrite <- Ef.
    apply Hfin; [apply PorousFlow_point_spec|exact H1].
Qed.

Lemma fixed_temperature_row_algebraic_witness :
  (exists s' o',
     StFlow_eval (E:=plain) AxiStagnFlow npos warm_solution small_out (lit 10)
       (unit_flow (A:=Float64) 2 c_Mixav_Transport grid_012) = Ok (s', o') /\
     rsd o' !! 8%nat = Some (lit 100) /\ diag o' !! 8%nat = Some 0) /\
  (exists s' o',
     PorousFlow_eval (E:=plain) npos warm_solution small_out (lit 10)
       (unit_flow (A:=Float64) 2 c_Mixav_Transport grid_012) = Some (Ok (s', o')) /\
     rsd o' !! 8%nat = Some (lit 100) /\ diag o' !! 8%nat = Some 0).
Proof.
  destruct (fixed_temperature_row_algebraic (E:=plain) AxiStagnFlow npos warm_solution
              small_out (lit 10) (unit_flow (A:=Float64) 2 c_Mixav_Transport grid_012)
              0 2 0 2 1%nat)
    as [(s1 & o1 & E1 & R1 & D1) (s2 & o2 & E2 & R2 & D2)];
    [reflexivity|reflexivity|cbn; lia|unfold max_size; cbn; lia|discriminate
    |reflexivity|reflexivity|lia|lia|cbn; lia|reflexivity
    |vm_compute; lia|vm_compute; lia|].
  split; [exists s1, o1|exists s2, o2]; (split; [assumption|]); split; assumption.
Defined.



(** ** Porous solid subsolver: the claims *)

(** The relaxation [a*d + (1-a)*d] gives back [d] over the exact numbers. *)
Lemma Exact_relaxation_fixed (d : @num Exact) :
  lit 0.1 *! d +! (lit 1 -! lit 0.1) *! d = d.
Proof.
  assert (H1 : @lit Exact 1 = 1%Qc) by (apply Qc_is_canon; reflexivity).
  rewrite H1. exact_ring.
Qed.


(** C3 (as amended).  Of the two solid fields only the temperature is carried
    into a solve: [solid] saves it as [Twprev], from where it enters the
    capacitive term of every interior row, and it is the field restored on
    non-convergence: when the outer loop ends with [fail1] set, [solid]
    returns with the solid temperature it was called with.  The net
    radiative flux is set to zero before the outer loop starts, so the result
    of [solid] is the same whatever values [dq] held before. *)
Theorem solid_seeded_by_temperature_only {A : Arith} {L : Libm A}
    (x hconv scond RK Omega : list num) (srho sCp rdt : num) (s : StFlow A)
    (d : list num) :
  (1 <= m_points (grid s))%nat ->
  length d = length (dq (solidf s)) ->
  (length d <= m_points (grid s))%nat ->
  PorousFlow_solid x hconv scond RK Omega srho sCp rdt (on_solid (set_dq d) s)
  = PorousFlow_solid x hconv scond RK Omega srho sCp rdt s /\
  Twprev (solidf (solid_enter s)) = Tw (solidf s) /\
  dq (solidf (solid_enter s)) = replicate (length (dq (solidf s))) (lit 0) /\
  (forall i, (0 < i)%nat -> (i + 1 < m_points (grid s))%nat ->
     rhs (solid_rows x hconv scond srho sCp rdt (solid_enter s)) !! i
     = Some (opp hconv.[i] *! T s x i +! (replicate (length (dq (solidf s))) (lit 0)).[i]
             -! srho *! sCp *! rdt *! (Tw (solidf s)).[i])) /\
  (forall s1,
     solid_loop outer_fuel inner_fuel x hconv scond RK Omega srho sCp rdt
                (lit 1) 0 false (solid_enter s) = Some (s1, true) ->
     PorousFlow_solid x hconv scond RK Omega srho sCp rdt s = Some (solid_leave true s1) /\
     Tw (solidf (solid_leave true s1)) = Tw (solidf s)).
Proof.
  intros Hn Hlen Hle.
  assert (Hz : forall l : list num, (length l <= m_points (grid s))%nat ->
            fold_left (fun d i => <[i := lit 0]> d) (seq 0 (m_points (grid s))) l
            = replicate (length l) (lit 0)).
  { intros l Hl. apply fold_fill_eq. exact Hl. }
  assert (Hdq : dq (solidf (solid_enter s)) = replicate (length (dq (solidf s))) (lit 0)).
  { change (dq (solidf (solid_enter s)))
      with (fold_left (fun d i => <[i := lit 0]> d) (seq 0 (m_points (grid s)))
              (dq (solidf s))).
    apply Hz. lia. }
  split; [|split; [reflexivity|split; [exact Hdq|split]]].
  3:{ intros s1 E1.
      destruct (solid_leave_reverts x hconv scond RK Omega srho sCp rdt s s1 Hn E1)
        as (H1 & H2 & _).
      split; assumption. }
  - assert (He : solid_enter (on_solid (set_dq d) s) = solid_enter s).
    { change (solid_enter (on_solid (set_dq d) s))
        with (on_solid (set_dq (fold_left (fun d i => <[i := lit 0]> d)
                                  (seq 0 (m_points (grid s))) d))
                (on_solid (fun p => set_Twprev (Tw p) p) s)).
      change (solid_enter s)
        with (on_solid (set_dq (fold_left (fun d i => <[i := lit 0]> d)
                                  (seq 0 (m_points (grid s))) (dq (solidf s))))
                (on_solid (fun p => set_Twprev (Tw p) p) s)).
      rewrite (Hz d), (Hz (dq (solidf s))) by lia. rewrite Hlen. reflexivity. }
    unfold PorousFlow_solid. rewrite He. reflexivity.
  - intros i Hi0 Hi1.
    unfold solid_rows. cbn [rhs].
    change (m_points (grid (solid_enter s))) with (m_points (grid s)).
    rewrite !lookup_map, lookup_seq_lt by lia. cbn [option_map].
    unfold solid_row.
    change (m_points (grid (solid_enter s))) with (m_points (grid s)).
    destruct (Nat.eqb_spec (0 + i) 0) as [H0|_]; [lia|].
    destruct (Nat.eqb_spec (0 + i) (m_points (grid s) - 1)) as [H1|_]; [lia|].
    cbn [snd Nat.add]. rewrite Hdq. reflexivity.
Qed.

Lemma solid_seeded_by_temperature_only_witness :
  PorousFlow_solid (A:=Float64) gas_300_400_500 (three (lit 1)) (three (lit 1))
    (three (lit 1)) (three (lit 0)) (lit 1) (lit 1) (lit 0)
    (on_solid (set_dq (three (lit 5))) (porous_domain (three (lit 7))))
  = PorousFlow_solid (A:=Float64) gas_300_400_500 (three (lit 1)) (three (lit 1))
      (three (lit 1)) (three (lit 0)) (lit 1) (lit 1) (lit 0)
      (porous_domain (three (lit 7))).
Proof.
  refine (proj1 (solid_seeded_by_temperature_only (A:=Float64) gas_300_400_500
                   (three (lit 1)) (three (lit 1)) (three (lit 1)) (three (lit 0))
                   (lit 1) (lit 1) (lit 0)
                   (porous_domain (three (lit 7))) (three (lit 5)) _ _ _));
    [cbn; lia|reflexivity|cbn; lia].
Defined.

(** C3, the claim as stated fails for the net radiative flux.  In binary64,
    on three points with an absorbing solid: a solve that starts from the
    flux (5, 5, 5) left by an earlier evaluation and one that starts from
    (0, 0, 0) end in the same state, the solid at 310.4 K. *)
Lemma solid_ignores_previous_flux :
  PorousFlow_solid (A:=Float64) gas_300_400_500 (three (lit 1)) (three (lit 1))
    (three (lit 1)) (three (lit 0)) (lit 1) (lit 1) (lit 0)
    (porous_domain (three (lit 5)))
  = PorousFlow_solid (A:=Float64) gas_300_400_500 (three (lit 1)) (three (lit 1))
      (three (lit 1)) (three (lit 0)) (lit 1) (lit 1) (lit 0)
      (porous_domain (three (lit 0))) /\
  exists s',
    PorousFlow_solid (A:=Float64) gas_300_400_500 (three (lit 1)) (three (lit 1))
      (three (lit 1)) (three (lit 0)) (lit 1) (lit 1) (lit 0)
      (porous_domain (three (lit 5))) = Some s' /\
    Tw (solidf s') = three (A:=Float64) 310.41668825063516%float /\
    logged s' = [].
Proof.
  split; [vm_compute; reflexivity|].
  eexists. split; [vm_compute; reflexivity|]. split; vm_compute; reflexivity.
Qed.


(** The outer cap is reached: weak convective coupling and a thin absorbing
    solid keep the flux change above the tolerance for 401 passes; the solid
    temperature comes back as it was (300 K) and the stall is logged. *)
Example solid_outer_cap_reached :
  exists s1,
    solid_loop (A:=Float64) outer_fuel inner_fuel gas_300_400_500 (three (lit 0.1))
      (three (lit 1)) (three (lit 0.1)) (three (lit 0)) (lit 1) (lit 1) (lit 0)
      (lit 1) 0 false (solid_enter (porous_domain (three (lit 0)))) = Some (s1, true) /\
    Tw (solidf s1) <> three (lit 300) /\
    option_map (fun s => (Tw (solidf s), logged s))
      (PorousFlow_solid (A:=Float64) gas_300_400_500 (three (lit 0.1)) (three (lit 1))
         (three (lit 0.1)) (three (lit 0)) (lit 1) (lit 1) (lit 0)
         (porous_domain (three (lit 0))))
    = Some (three (lit 300), ["Rad not Converged"]).
Proof.
  eexists. split; [vm_compute; reflexivity|]. split; [|vm_compute; reflexivity].
  vm_compute. discriminate.
Qed.

(** The inner cap is reached: with pure scattering and a large extinction
    coefficient the two-flux iteration does not settle in 101 sweeps; the
    pass keeps [dq], logs the stall, and the outer loop ends with it. *)
Example solid_inner_cap_reached :
  option_map (fun s => (Tw (solidf s), dq (solidf s), logged s))
    (PorousFlow_solid (A:=Float64) gas_300_400_500 (three (lit 1)) (three (lit 1))
       (three (lit 1000000)) (three (lit 1)) (lit 1) (lit 1) (lit 0)
       (porous_domain (three (lit 0))))
  = Some (three (lit 400), three (lit 0), ["Rad Stall"]).
Proof. vm_compute. reflexivity. Qed.

Section SolidRows.
Context {A : Arith} {L : Libm A}.

(** Row [i] of the four diagonals is [solid_row] at [i]. *)
Lemma solid_rows_lookup (x hconv scond : list num) (srho sCp rdt : num)
    (s : StFlow A) (i : nat) :
  (i < m_points (grid s))%nat ->
  let m := solid_rows x hconv scond srho sCp rdt s in
  let r := solid_row x hconv scond srho sCp rdt s i in
  edia m !! i = Some r.1.1.1 /\ fdia m !! i = Some r.1.1.2 /\
  gdia m !! i = Some r.1.2 /\ rhs m !! i = Some r.2.
Proof.
  intros Hi. unfold solid_rows. cbn [edia fdia gdia rhs].
  rewrite !lookup_map, lookup_seq_lt by lia. cbn [option_map Nat.add].
  repeat split.
Qed.

Lemma solid_rows_length (x hconv scond : list num) (srho sCp rdt : num) (s : StFlow A) :
  let m := solid_rows x hconv scond srho sCp rdt s in
  length (edia m) = m_points (grid s) /\ length (fdia m) = m_points (grid s) /\
  length (gdia m) = m_points (grid s) /\ length (rhs m) = m_points (grid s).
Proof.
  unfold solid_rows. cbn [edia fdia gdia rhs].
  rewrite !length_map, length_seq. repeat split.
Qed.

Lemma solid_rows_first (x hconv scond : list num) (srho sCp rdt : num) (s : StFlow A) :
  (1 <= m_points (grid s))%nat ->
  let m := solid_rows x hconv scond srho sCp rdt s in
  edia m !! 0%nat = Some (lit 0) /\ fdia m !! 0%nat = Some (lit 1) /\
  gdia m !! 0%nat = Some (opp (lit 1)) /\ rhs m !! 0%nat = Some (lit 0).
Proof.
  intros Hn m.
  destruct (solid_rows_lookup x hconv scond srho sCp rdt s 0) as (a & b & c & d); [lia|].
  auto.
Qed.

Lemma solid_rows_last (x hconv scond : list num) (srho sCp rdt : num) (s : StFlow A) :
  (2 <= m_points (grid s))%nat ->
  let n := m_points (grid s) in
  let m := solid_rows x hconv scond srho sCp rdt s in
  edia m !! (n - 1)%nat = Some (opp (lit 1)) /\ fdia m !! (n - 1)%nat = Some (lit 1) /\
  gdia m !! (n - 1)%nat = Some (lit 0) /\ rhs m !! (n - 1)%nat = Some (lit 0).
Proof.
  intros Hn n m.
  assert (Rn : solid_row x hconv scond srho sCp rdt s (n - 1)
               = (opp (lit 1), lit 1, lit 0, lit 0)).
  { unfold solid_row.
    destruct (Nat.eqb_spec (n - 1) 0) as [H0|_]; [subst n; lia|].
    fold n. rewrite Nat.eqb_refl. reflexivity. }
  destruct (solid_rows_lookup x hconv scond srho sCp rdt s (n - 1)) as (a & b & c & d);
    [subst n; lia|].
  rewrite Rn in a, b, c, d. auto.
Qed.

End SolidRows.

(** C4 (as amended).  In every pass of the outer loop the first and the last
    row of the conduction system are the difference rows [Tw[0] - Tw[1] = 0]
    and [Tw[n-1] - Tw[n-2] = 0]: they hold no gas temperature and are the same
    for every solution vector, so the solid field is closed by zero-gradient
    end conditions.  An interior row balances conduction on the uneven grid,
    convection to the gas at [hconv], and the capacitive term at
    [srho * sCp * rdt], with the net radiative flux as a source. *)
Theorem solid_rows_zero_gradient_ends {A : Arith} {L : Libm A}
    (x hconv scond : list num) (srho sCp rdt : num) (s : StFlow A) :
  (2 <= m_points (grid s))%nat ->
  let n := m_points (grid s) in
  let m := solid_rows x hconv scond srho sCp rdt s in
  (edia m !! 0%nat = Some (lit 0) /\ fdia m !! 0%nat = Some (lit 1) /\
   gdia m !! 0%nat = Some (opp (lit 1)) /\ rhs m !! 0%nat = Some (lit 0)) /\
  (edia m !! (n - 1)%nat = Some (opp (lit 1)) /\ fdia m !! (n - 1)%nat = Some (lit 1) /\
   gdia m !! (n - 1)%nat = Some (lit 0) /\ rhs m !! (n - 1)%nat = Some (lit 0)) /\
  (forall x' : list num,
     let m' := solid_rows x' hconv scond srho sCp rdt s in
     (edia m' !! 0%nat, fdia m' !! 0%nat, gdia m' !! 0%nat, rhs m' !! 0%nat)
     = (edia m !! 0%nat, fdia m !! 0%nat, gdia m !! 0%nat, rhs m !! 0%nat) /\
     (edia m' !! (n - 1)%nat, fdia m' !! (n - 1)%nat, gdia m' !! (n - 1)%nat,
      rhs m' !! (n - 1)%nat)
     = (edia m !! (n - 1)%nat, fdia m !! (n - 1)%nat, gdia m !! (n - 1)%nat,
        rhs m !! (n - 1)%nat)) /\
  (forall i, (0 < i)%nat -> (i + 1 < n)%nat ->
     let below := z s i -! z s (i - 1) in
     let above := z s (i + 1) -! z s i in
     let span := z s (i + 1) -! z s (i - 1) in
     edia m !! i = Some ((lit 2 *! scond.[i]) /! (below *! span)) /\
     fdia m !! i = Some (opp (lit 2 *! scond.[i]) /! (above *! span)
                         -! (lit 2 *! scond.[i]) /! (below *! span)
                         -! hconv.[i] -! srho *! sCp *! rdt) /\
     gdia m !! i = Some ((lit 2 *! scond.[i]) /! (above *! span)) /\
     rhs m !! i = Some (opp hconv.[i] *! T s x i +! (dq (solidf s)).[i]
                        -! srho *! sCp *! rdt *! (Twprev (solidf s)).[i])).
Proof.
  intros Hn n m.
  assert (L0 := fun x0 => solid_rows_first x0 hconv scond srho sCp rdt s (Nat.lt_le_incl _ _ Hn)).
  assert (Ln := fun x0 => solid_rows_last x0 hconv scond srho sCp rdt s Hn).
  cbv zeta in L0, Ln. fold n in Ln.
  split; [exact (L0 x)|]. split; [exact (Ln x)|]. split.
  - intros x' m'.
    destruct (L0 x) as (a & b & c & d), (L0 x') as (a' & b' & c' & d').
    destruct (Ln x) as (e & f & g & h), (Ln x') as (e' & f' & g' & h').
    subst m m'. rewrite a, b, c, d, a', b', c', d', e, f, g, h, e', f', g', h'.
    split; reflexivity.
  - intros i Hi0 Hi1 below above span.
    destruct (solid_rows_lookup x hconv scond srho sCp rdt s i) as (a & b & c & d);
      [subst n; lia|].
    assert (Ri : solid_row x hconv scond srho sCp rdt s i
                 = ((lit 2 *! scond.[i]) /! (below *! span),
                    opp (lit 2 *! scond.[i]) /! (above *! span)
                    -! (lit 2 *! scond.[i]) /! (below *! span)
                    -! hconv.[i] -! srho *! sCp *! rdt,
                    (lit 2 *! scond.[i]) /! (above *! span),
                    opp hconv.[i] *! T s x i +! (dq (solidf s)).[i]
                    -! srho *! sCp *! rdt *! (Twprev (solidf s)).[i])).
    { unfold solid_row.
      destruct (Nat.eqb_spec i 0) as [H0|_]; [lia|].
      destruct (Nat.eqb_spec i (m_points (grid s) - 1)) as [H1|_]; [subst n; lia|].
      reflexivity. }
    rewrite Ri in a, b, c, d. auto.
Qed.

Lemma solid_rows_zero_gradient_ends_witness :
  let m := solid_rows (A:=Float64) gas_300_400_500 (three (lit 1)) (three (lit 1))
             (lit 1) (lit 1) (lit 0) (porous_domain (three (lit 0))) in
  edia m !! 0%nat = Some (lit 0) /\ fdia m !! 0%nat = Some (lit 1) /\
  gdia m !! 0%nat = Some (opp (lit 1)) /\ rhs m !! 0%nat = Some (lit 0).
Proof.
  refine (proj1 (solid_rows_zero_gradient_ends (A:=Float64) gas_300_400_500
                   (three (lit 1)) (three (lit 1)) (lit 1) (lit 1) (lit 0)
                   (porous_domain (three (lit 0))) _)).
  cbn. lia.
Defined.

(** C4, the claim as stated fails.  In binary64, on three points with the gas
    at 300, 400 and 500 K, no radiation to absorb and the solid at 300 K:
    the first solve, and the whole subsolver, leave the solid at 400 K at
    both ends, 100 K away from the gas next to either end. *)
Lemma solid_ends_not_pinned_to_gas :
  let s := porous_domain (A:=Float64) (three (lit 0)) in
  let x := gas_300_400_500 in
  T s x 0 = lit 300 /\ T s x 2 = lit 500 /\
  tridiagonal_solve 3
    (solid_rows x (three (lit 1)) (three (lit 1)) (lit 1) (lit 1) (lit 0)
       (solid_enter s))
    (Tw (solidf s)) = three (lit 400) /\
  option_map (fun s' => Tw (solidf s'))
    (PorousFlow_solid x (three (lit 1)) (three (lit 1)) (three (lit 1))
       (three (lit 1)) (lit 1) (lit 1) (lit 0) s)
  = Some (three (lit 400)).
Proof. repeat split; vm_compute; reflexivity. Qed.

Section SolvedEnds.
Context {A : Arith}.

(** The decomposition loop keeps the lengths of both diagonals and every
    position it does not visit. *)
Lemma decomposition_fold (g : list num) (l : list nat) :
  forall e f : list num,
  let r := fold_left (fun '(e, f) i =>
                        let e := <[i := e.[i] /! f.[i - 1]]> e in
                        let f := <[i := f.[i] -! e.[i] *! g.[i - 1]]> f in
                        (e, f)) l (e, f) in
  length r.1 = length e /\ length r.2 = length f /\
  forall k, (forall i, i ∈ l -> i <> k) -> r.1 !! k = e !! k /\ r.2 !! k = f !! k.
Proof.
  induction l as [|i l IH]; intros e f; cbn [fold_left].
  - repeat split.
  - specialize (IH (<[i := e.[i] /! f.[i - 1]]> e)
                   (<[i := f.[i] -! (<[i := e.[i] /! f.[i - 1]]> e).[i] *! g.[i - 1]]> f)).
    cbv zeta in IH |- *. destruct IH as (He & Hf & Hk).
    rewrite He, Hf, !length_insert. repeat split.
    + destruct (Hk k) as [-> _]; [intros i' Hi'; apply H; right; exact Hi'|].
      apply list_lookup_insert_ne, H. left.
    + destruct (Hk k) as [_ ->]; [intros i' Hi'; apply H; right; exact Hi'|].
      apply list_lookup_insert_ne, H. left.
Qed.

(** The last store of the back substitution is the one at position 0. *)
Lemma back_substitution_first (n : nat) (f g r tw : list num) :
  (2 <= n)%nat -> (1 <= length tw)%nat ->
  let tw' := back_substitution n f g r tw in
  tw'.[0] = (r.[0] -! g.[0] *! tw'.[1]) /! f.[0].
Proof.
  intros Hn Hl. unfold back_substitution.
  set (tw1 := <[(n - 1)%nat := _]> tw).
  replace (n - 1)%nat with (S (n - 2)) by lia.
  cbn [seq rev]. rewrite <- seq_shift, fold_left_app. cbn [fold_left].
  set (twp := fold_left _ (rev (map S (seq 0 (n - 2)))) tw1).
  cbv zeta.
  assert (Hlen : length twp = length tw).
  { subst twp.
    rewrite (proj1 (fold_insert_outside (fun i : nat => i)
                      (fun tw i => (r.[i] -! g.[i] *! tw.[i + 1]) /! f.[i]) _ tw1)).
    subst tw1. apply length_insert. }
  rewrite vget_insert_eq by lia.
  rewrite (vget_insert_ne _ 0 1) by lia. reflexivity.
Qed.

(** The first two stores of the back substitution are those at the last two
    positions. *)
Lemma back_substitution_last (n : nat) (f g r tw : list num) :
  (2 <= n)%nat -> (n <= length tw)%nat ->
  let tw' := back_substitution n f g r tw in
  tw'.[n - 1] = r.[n - 1] /! f.[n - 1] /\
  tw'.[n - 2] = (r.[n - 2] -! g.[n - 2] *! tw'.[n - 1]) /! f.[n - 2].
Proof.
  intros Hn Hl. unfold back_substitution.
  set (tw1 := <[(n - 1)%nat := r.[n - 1] /! f.[n - 1]]> tw).
  assert (Hs : seq 0 (n - 1) = seq 0 (n - 2) ++ [(n - 2)%nat]).
  { replace (n - 1)%nat with (n - 2 + 1)%nat by lia. rewrite seq_app. reflexivity. }
  rewrite Hs, rev_app_distr. cbn [rev app fold_left].
  set (tw2 := <[(n - 2)%nat := _]> tw1).
  destruct (fold_insert_outside (fun i : nat => i)
              (fun tw i => (r.[i] -! g.[i] *! tw.[i + 1]) /! f.[i])
              (rev (seq 0 (n - 2))) tw2) as [_ Hk].
  assert (Hout : forall k, (n - 2 <= k)%nat ->
            forall i, i ∈ rev (seq 0 (n - 2)) -> i <> k).
  { intros k Hk' i Hi. apply list_elem_of_In, in_rev, list_elem_of_In, elem_of_seq in Hi. lia. }
  cbv zeta.
  rewrite (vget_ext _ tw2 (n - 1)) by (apply Hk, Hout; lia).
  rewrite (vget_ext _ tw2 (n - 2)) by (apply Hk, Hout; lia).
  assert (H1 : tw2.[n - 1] = r.[n - 1] /! f.[n - 1]).
  { subst tw2. rewrite vget_insert_ne by lia. subst tw1. apply vget_insert_eq. lia. }
  split; [exact H1|].
  rewrite H1. subst tw2. rewrite vget_insert_eq by (subst tw1; rewrite length_insert; lia).
  replace (n - 2 + 1)%nat with (n - 1)%nat by lia.
  subst tw1. rewrite vget_insert_eq by lia. reflexivity.
Qed.

(** The forward substitution leaves position 0 alone, and its last store is
    the one at the last position. *)
Lemma forward_substitution_ends (n : nat) (e r : list num) :
  (2 <= n)%nat -> (n <= length r)%nat ->
  let r' := forward_substitution n e r in
  r'.[0] = r.[0] /\
  r'.[n - 1] = r.[n - 1] -! e.[n - 1] *! r'.[n - 2].
Proof.
  intros Hn Hl. unfold forward_substitution.
  assert (Hs : seq 1 (n - 1) = seq 1 (n - 2) ++ [(n - 1)%nat]).
  { replace (n - 1)%nat with (n - 2 + 1)%nat at 1 by lia. rewrite seq_app.
    replace (1 + (n - 2))%nat with (n - 1)%nat by lia. reflexivity. }
  cbv zeta. split.
  - apply vget_ext.
    apply (fold_insert_outside (fun i : nat => i)
             (fun r i => r.[i] -! e.[i] *! r.[i - 1]) (seq 1 (n - 1)) r).
    intros i Hi. apply elem_of_seq in Hi. lia.
  - rewrite Hs, fold_left_app. cbn [fold_left].
    destruct (fold_insert_outside (fun i : nat => i)
                (fun r i => r.[i] -! e.[i] *! r.[i - 1]) (seq 1 (n - 2)) r) as [Hlen Hk].
    set (r0 := fold_left _ (seq 1 (n - 2)) r) in *.
    rewrite vget_insert_eq by lia.
    rewrite (vget_insert_ne _ (n - 1) (n - 2)) by lia.
    replace (n - 1 - 1)%nat with (n - 2)%nat by lia.
    rewrite (vget_ext r0 r (n - 1)); [reflexivity|].
    apply Hk. intros i Hi. apply elem_of_seq in Hi. lia.
Qed.

(** The decomposition leaves position 0 alone, and its last stores are those
    at the last position. *)
Lemma decomposition_ends (n : nat) (m : Rows) :
  (2 <= n)%nat -> (n <= length (edia m))%nat -> (n <= length (fdia m))%nat ->
  let e' := (decomposition n m).1 in
  let f' := (decomposition n m).2 in
  f'.[0] = (fdia m).[0] /\
  e'.[n - 1] = (edia m).[n - 1] /! f'.[n - 2] /\
  f'.[n - 1] = (fdia m).[n - 1] -! e'.[n - 1] *! (gdia m).[n - 2].
Proof.
  intros Hn Hle Hlf. unfold decomposition.
  assert (Hs : seq 1 (n - 1) = seq 1 (n - 2) ++ [(n - 1)%nat]).
  { replace (n - 1)%nat with (n - 2 + 1)%nat at 1 by lia. rewrite seq_app.
    replace (1 + (n - 2))%nat with (n - 1)%nat by lia. reflexivity. }
  cbv zeta. split.
  - apply vget_ext.
    apply (decomposition_fold (gdia m) (seq 1 (n - 1)) (edia m) (fdia m)).
    intros i Hi. apply elem_of_seq in Hi. lia.
  - rewrite Hs, fold_left_app. cbn [fold_left].
    destruct (decomposition_fold (gdia m) (seq 1 (n - 2)) (edia m) (fdia m))
      as (He & Hf & Hk).
    cbv zeta in He, Hf, Hk.
    destruct (fold_left _ (seq 1 (n - 2)) (edia m, fdia m)) as [e0 f0].
    cbn [fst snd] in *.
    destruct (Hk (n - 1)%nat) as [Ee Ef];
      [intros i Hi; apply elem_of_seq in Hi; lia|].
    replace (n - 1 - 1)%nat with (n - 2)%nat by lia.
    rewrite !vget_insert_eq by lia.
    rewrite (vget_insert_ne _ (n - 1) (n - 2)) by lia.
    rewrite (vget_ext e0 (edia m) (n - 1) Ee), (vget_ext f0 (fdia m) (n - 1) Ef).
    split; reflexivity.
Qed.

End SolvedEnds.

(** X13.  What the end rows mean for the solved field, in exact arithmetic: the
    solid temperature at the first point equals that at the second, and, when
    the last two pivots of the elimination are not zero, the temperature at
    the last point equals that at the one before. *)
Theorem solved_field_flat_at_ends
    (x hconv scond : list (@num Exact)) (srho sCp rdt : @num Exact)
    (s : StFlow Exact) (tw : list (@num Exact)) :
  (2 <= m_points (grid s))%nat -> (m_points (grid s) <= length tw)%nat ->
  let n := m_points (grid s) in
  let m := solid_rows x hconv scond srho sCp rdt s in
  let tw' := tridiagonal_solve n m tw in
  tw'.[0] = tw'.[1] /\
  ((decomposition n m).2.[n - 2] <> 0%Qc -> (decomposition n m).2.[n - 1] <> 0%Qc ->
   tw'.[n - 1] = tw'.[n - 2]).
Proof.
  intros Hn Hl n m tw'.
  destruct (solid_rows_length x hconv scond srho sCp rdt s) as (Le & Lf & Lg & Lr).
  destruct (solid_rows_first x hconv scond srho sCp rdt s) as (_ & F0 & G0 & R0); [lia|].
  destruct (solid_rows_last x hconv scond srho sCp rdt s Hn) as (En & Fn & _ & Rn).
  fold m in Le, Lf, Lg, Lr, F0, G0, R0. fold n m in En, Fn, Rn.
  apply vget_lookup in F0, G0, R0, En, Fn, Rn.
  destruct (decomposition_ends n m) as (Df0 & Den & Dfn); [lia..|].
  subst tw'. unfold tridiagonal_solve.
  destruct (decomposition n m) as [e' f']. cbn [fst snd] in *.
  destruct (forward_substitution_ends n e' (rhs m)) as (Fr0 & Frn); [lia..|].
  destruct (back_substitution_last n f' (gdia m) (forward_substitution n e' (rhs m)) tw)
    as (Bn & Bn1); [lia..|].
  pose proof (back_substitution_first n f' (gdia m)
                (forward_substitution n e' (rhs m)) tw) as B0.
  cbv zeta in *.
  set (r' := forward_substitution n e' (rhs m)) in *.
  set (t := back_substitution n f' (gdia m) r' tw) in *.
  split.
  - rewrite B0 by lia. rewrite Fr0, R0, G0, Df0, F0.
    change (@div Exact) with Qcdiv; change (@sub Exact) with Qcminus;
      change (@mul Exact) with Qcmult; change (@opp Exact) with Qcopp;
      change (@lit Exact) with Q2Qc; change (@num Exact) with Qc in *.
    change (Q2Qc 0) with 0%Qc. change (Q2Qc 1) with 1%Qc.
    field. discriminate.
  - intros P1 P2. rewrite Bn1, Bn, Frn, Rn.
    rewrite Dfn, Fn, Den, En in *.
    revert P1 P2.
    change (@div Exact) with Qcdiv; change (@sub Exact) with Qcminus;
      change (@mul Exact) with Qcmult; change (@opp Exact) with Qcopp;
      change (@lit Exact) with Q2Qc; change (@num Exact) with Qc in *.
    change (Q2Qc 0) with 0%Qc. change (Q2Qc 1) with 1%Qc.
    generalize (f'.[n - 2]) (r'.[n - 2]) ((gdia m).[n - 2]).
    intros p rho g P1 P2. change (@num Exact) with Qc in *.
    field.
    split; [exact P1|]. intros H. apply P2.
    assert (H' : (p + g)%Qc = 0%Qc).
    { rewrite <- H.
      match goal with
      | |- _ = (_ - ?c * _)%Qc => assert (Hc : c = (- (1))%Qc) by reflexivity; rewrite Hc
      end.
      ring. }
    assert (Hg : g = (- p)%Qc) by (rewrite <- (Qcplus_0_l (- p)), <- H'; ring).
    rewrite Hg. field. exact P1.
Qed.

Lemma solved_field_flat_at_ends_witness :
  let s := porous_domain (A:=Exact) (three (lit 0)) in
  let tw' := tridiagonal_solve 3
               (solid_rows gas_300_400_500 (three (lit 1)) (three (lit 1))
                  (lit 1) (lit 1) (lit 0) s) (Tw (solidf s)) in
  tw'.[0] = tw'.[1] /\ tw'.[2] = tw'.[1].
Proof.
  intros s tw'.
  destruct (solved_field_flat_at_ends gas_300_400_500 (three (lit 1)) (three (lit 1))
              (lit 1) (lit 1) (lit 0) s (Tw (solidf s))) as [H0 Hn].
  - cbn. lia.
  - cbn. lia.
  - split; [exact H0|]. apply Hn.
    + vm_compute. discriminate.
    + vm_compute. discriminate.
Defined.

Section RestoreFacts.
Context {A : Arith}.

Lemma restore_dataset_errors (loglevel : Z) (np : nat) (fa : FloatArray A)
    (acc : StFlow A * list num * list Z * list string) (e : Error) :
  restore_dataset loglevel np fa acc = Err e -> exists msg, e = restore_error msg.
Proof.
  unfold restore_dataset. destruct acc as [[[s soln] did] ign].
  repeat match goal with
         | |- context [if ?c then _ else _] => destruct c
         | |- context [match ?c with Some _ => _ | None => _ end] => destruct c
         end; intros H; try discriminate H; injection H as <-; eexists; reflexivity.
Qed.

Lemma restore_dataset_mismatch (loglevel : Z) (np : nat) (fa : FloatArray A)
    (acc : StFlow A * list num * list Z * list string) :
  title fa ∈ checked_titles -> length (values fa) <> np ->
  exists msg, restore_dataset loglevel np fa acc = Err (restore_error msg).
Proof.
  intros Ht Hl. apply Nat.eqb_neq in Hl.
  unfold restore_dataset. destruct acc as [[[s soln] did] ign]. rewrite Hl. cbn [negb].
  unfold checked_titles in Ht.
  repeat (apply elem_of_cons in Ht as [-> | Ht]; [cbn; eexists; reflexivity|]).
  apply elem_of_nil in Ht. destruct Ht.
Qed.

(** The loop over the datasets stops at the first one that throws. *)
Lemma for_each_dataset_mismatch (loglevel : Z) (np : nat) (l : list (FloatArray A)) :
  forall acc fa, fa ∈ l -> title fa ∈ checked_titles -> length (values fa) <> np ->
  exists msg, for_each (restore_dataset loglevel np) l acc = Err (restore_error msg).
Proof.
  induction l as [|fa0 l IH]; intros acc fa Hin Ht Hl.
  - apply elem_of_nil in Hin. destruct Hin.
  - cbn [for_each]. destruct (restore_dataset loglevel np fa0 acc) as [acc'|e] eqn:E0.
    + apply elem_of_cons in Hin as [->|Hin].
      * destruct (restore_dataset_mismatch loglevel np fa0 acc Ht Hl) as [msg Hm]. congruence.
      * exact (IH acc' fa Hin Ht Hl).
    + destruct (restore_dataset_errors loglevel np fa0 acc e E0) as [msg ->].
      exists msg. reflexivity.
Qed.

(** A species dataset of the wrong length is passed over: its title goes to
    the log at [loglevel >= 2] and nothing else changes. *)
Lemma restore_dataset_species (loglevel : Z) (np : nat) (fa : FloatArray A) (s : StFlow A)
    (soln : list num) (did : list Z) (ignored : list string) (k : nat) :
  title fa ∉ "z" :: checked_titles ->
  speciesIndex (speciesNames (settings s)) (title fa) = Some k ->
  length (values fa) <> np ->
  restore_dataset loglevel np fa (s, soln, did, ignored)
  = Ok (debuglog (title fa +:+ "   ") (loglevel >=? 2) s, soln, did, ignored).
Proof.
  intros Ht Hk Hl. apply Nat.eqb_neq in Hl.
  unfold restore_dataset. rewrite Hk, Hl.
  assert (Hne : forall t, t ∈ "z" :: checked_titles -> String.eqb (title fa) t = false).
  { intros t Hin. apply String.eqb_neq. intros E. apply Ht. rewrite E. exact Hin. }
  rewrite !Hne by (unfold checked_titles; repeat first [apply list_elem_of_here | apply list_elem_of_further]).
  reflexivity.
Qed.

(** What [restore] writes to the log leaves the rest of the state alone. *)
Lemma log_ignored_state (loglevel : Z) (ignored : list string) (s : StFlow A) :
  grid (log_ignored loglevel ignored s) = grid s /\
  settings (log_ignored loglevel ignored s) = settings s /\
  solidf (log_ignored loglevel ignored s) = solidf s.
Proof.
  unfold log_ignored. destruct (_ && _); [|repeat split].
  cbv zeta.
  match goal with
  | |- context [fold_left ?f ignored ?s0] =>
      assert (H : forall l s1, grid (fold_left f l s1) = grid s1 /\
                               settings (fold_left f l s1) = settings s1 /\
                               solidf (fold_left f l s1) = solidf s1);
      [|exact (H ignored s0)]
  end.
  induction l as [|nm l IH]; intros s1; [repeat split|].
  cbn [fold_left]. destruct (IH (writelog (nm +:+ "   ") s1)) as (H1 & H2 & H3).
  rewrite H1, H2, H3. repeat split.
Qed.

Lemma log_missing_state (loglevel : Z) (nsp : nat) (did : list Z) (s : StFlow A) :
  grid (log_missing loglevel nsp did s) = grid s /\
  settings (log_missing loglevel nsp did s) = settings s /\
  solidf (log_missing loglevel nsp did s) = solidf s.
Proof.
  unfold log_missing. destruct (loglevel >=? 1); [|repeat split].
  match goal with
  | |- context [fold_left ?f (seq 0 nsp) (s, false)] =>
      assert (H : forall l (a : StFlow A * bool),
                grid (fold_left f l a).1 = grid a.1 /\
                settings (fold_left f l a).1 = settings a.1 /\
                solidf (fold_left f l a).1 = solidf a.1);
      [|exact (H (seq 0 nsp) (s, false))]
  end.
  induction l as [|ks l IH]; intros [s1 w]; [repeat split|].
  cbn [fold_left].
  match goal with
  | |- context [fold_left _ l ?a1] => destruct (IH a1) as (H1 & H2 & H3)
  end.
  rewrite H1, H2, H3.
  destruct (default 0 (did !! ks) =? 0); [|repeat split].
  destruct w; repeat split.
Qed.

(** One array of the "Solid" node either is stored or throws its own error. *)
Lemma restore_solid_array_cases (name : string) (np : nat) (x member : list num) :
  Z.of_nat np <= max_size ->
  (x <> [] -> length x <> np ->
   restore_solid_array name np x member = Err (solid_array_error name (length x) np)) /\
  ((x = [] \/ length x = np) -> exists v, restore_solid_array name np x member = Ok v).
Proof.
  intros Hmax. unfold restore_solid_array.
  destruct (resize_Ok (Z.of_nat np) (lit 0) member) as (l & -> & _); [lia|].
  cbn [bind]. split.
  - intros Hx Hl. apply Nat.eqb_neq in Hl. rewrite Hl.
    destruct x; [congruence|]. reflexivity.
  - intros [->|Hl].
    + destruct (0 =? np)%nat eqn:E; cbn [length]; rewrite E; eexists; reflexivity.
    + apply Nat.eqb_eq in Hl. rewrite Hl. eexists; reflexivity.
Qed.

Lemma mismatched_dec (np : nat) (x : list num) :
  mismatched np x \/ (x = [] \/ length x = np).
Proof.
  unfold mismatched. destruct x as [|a x]; [right; left; reflexivity|].
  destruct (Nat.eq_dec (length (a :: x)) np); [right; right; assumption|].
  left. split; [discriminate|assumption].
Qed.

End RestoreFacts.

Section RestoreSolid.
Context {A : Arith}.

Lemma PorousFlow_restore_mismatch (doc : Document A) (soln : list num) (loglevel : Z)
    (s s2 : StFlow A) (soln2 : list num) (n : SolidNode A) (x : list num) :
  StFlow_restore PorousFlow doc soln loglevel s = Ok (s2, soln2) ->
  Solid_node doc = Some n ->
  Z.of_nat (m_points (grid s2)) <= max_size ->
  x ∈ solid_arrays n -> mismatched (m_points (grid s2)) x ->
  exists name len,
    PorousFlow_restore doc soln loglevel s
    = Err (solid_array_error name len (m_points (grid s2))).
Proof.
  intros Hr Hn Hmax Hin Hbad.
  unfold PorousFlow_restore. rewrite Hr. cbn [bind]. rewrite Hn.
  cbv zeta.
  change (m_points (grid (on_solid (set_solid_scalars n) s2))) with (m_points (grid s2)).
  set (np := m_points (grid s2)) in *.
  assert (Hstep : forall name y member (k : list num -> Result (StFlow A * list num)),
            (mismatched np y ->
             exists name' len, (v <- restore_solid_array name np y member ;; k v)
                               = Err (solid_array_error name' len np)) /\
            ((y = [] \/ length y = np) ->
             exists v, (v <- restore_solid_array name np y member ;; k v) = k v)).
  { intros name y member k.
    destruct (restore_solid_array_cases name np y member Hmax) as [Hb Hg]. split.
    - intros [H1 H2]. rewrite (Hb H1 H2). exists name, (length y). reflexivity.
    - intros H. destruct (Hg H) as [v ->]. exists v. reflexivity. }
  unfold solid_arrays in Hin.
  repeat match goal with
  | |- exists name len, (v <- restore_solid_array ?nm np ?y ?member ;; @?k v) = _ =>
      destruct (mismatched_dec np y) as [Hy|Hy];
      [exact (proj1 (Hstep nm y member k) Hy)|];
      destruct (proj2 (Hstep nm y member k) Hy) as [? ->];
      apply elem_of_cons in Hin as [->|Hin];
      [destruct Hbad as [B1 B2]; destruct Hy as [Hy|Hy]; [exact (False_ind _ (B1 Hy))
                                                         |exact (False_ind _ (B2 Hy))]|];
      clear Hy; cbv beta
  end.
  apply elem_of_nil in Hin. destruct Hin.
Qed.

End RestoreSolid.

(** C9 (as amended).  In [restore], with the grid read as [np] points:
    a dataset "u", "V", "T" or "L" of another length makes the whole call
    throw a CanteraError of StFlow::restore; a species dataset of another
    length raises nothing: its title goes to the log at [loglevel >= 2], the
    solution and the rest of the state are left as they were, and the
    species is not marked as read (so it is listed under "Missing data for
    species" at [loglevel >= 1]); once the datasets are read, a non-empty
    "energy_enabled" of the wrong length throws, while "species_enabled"
    never does: a non-empty array of the wrong length enables every species
    equation, with a warning in the log when [loglevel > 0].  In the porous
    variant an error of the base-class restore propagates, and a non-empty
    solid array of the wrong length throws a CanteraError of
    PorousFlow::restore. *)
Theorem restore_length_mismatch {A : Arith} (kind : FlowKind) (doc : Document A)
    (soln : list num) (loglevel : Z) (s s1 : StFlow A) (np : nat) :
  restore_grid kind doc loglevel
    (on_settings (set_m_press (pressure doc)) (restore_strings doc s)) = Ok (s1, np) ->
  (forall fa, fa ∈ grid_data doc -> title fa ∈ checked_titles ->
     length (values fa) <> np ->
     exists msg, StFlow_restore kind doc soln loglevel s = Err (restore_error msg)) /\
  (forall fa s' soln' did ignored k, title fa ∉ "z" :: checked_titles ->
     speciesIndex (speciesNames (settings s')) (title fa) = Some k ->
     length (values fa) <> np ->
     restore_dataset loglevel np fa (s', soln', did, ignored)
     = Ok (debuglog (title fa +:+ "   ") (loglevel >=? 2) s', soln', did, ignored)) /\
  (forall s2 soln2 did ignored,
     for_each (restore_dataset loglevel np) (grid_data doc)
       (debuglog ("Importing datasets:" +:+ newline) (loglevel >=? 2) s1, soln,
        replicate (length (speciesNames (settings s))) 0, [])
     = Ok (s2, soln2, did, ignored) ->
     let s2' := log_missing loglevel (length (speciesNames (settings s))) did
                  (log_ignored loglevel ignored s2) in
     (forall x, energy_enabled doc = Some x -> mismatched (m_points (grid s2)) x ->
        StFlow_restore kind doc soln loglevel s
        = Err (energy_enabled_error (length x) (m_points (grid s2)))) /\
     (forall s3, restore_energy_enabled doc s2' = Ok s3 ->
        StFlow_restore kind doc soln loglevel s
        = Ok (restore_species_enabled doc loglevel s3, soln2) /\
        (forall x, species_enabled doc = Some x -> mismatched (m_nsp (grid s3)) x ->
           m_do_species (settings (restore_species_enabled doc loglevel s3))
           = replicate (m_nsp (grid s3)) true /\
           logged (restore_species_enabled doc loglevel s3)
           = if loglevel >? 0
             then logged s3 ++ [species_enabled_warning (length x) (m_nsp (grid s3))]
             else logged s3))) /\
  (forall e, StFlow_restore PorousFlow doc soln loglevel s = Err e ->
     PorousFlow_restore doc soln loglevel s = Err e) /\
  (forall s2 soln2 n x,
     StFlow_restore PorousFlow doc soln loglevel s = Ok (s2, soln2) ->
     Solid_node doc = Some n -> Z.of_nat (m_points (grid s2)) <= max_size ->
     x ∈ solid_arrays n -> mismatched (m_points (grid s2)) x ->
     exists name len,
       PorousFlow_restore doc soln loglevel s
       = Err (solid_array_error name len (m_points (grid s2)))).
Proof.
  intros Hgrid.
  set (nsp := length (speciesNames (settings s))).
  set (s1' := debuglog ("Importing datasets:" +:+ newline) (loglevel >=? 2) s1).
  assert (Hunfold : StFlow_restore kind doc soln loglevel s
                    = (r <- for_each (restore_dataset loglevel np) (grid_data doc)
                                     (s1', soln, replicate nsp 0, []) ;;
                       let '(s, soln, did, ignored) := r in
                       s <- restore_flags doc loglevel
                              (log_missing loglevel nsp did (log_ignored loglevel ignored s)) ;;
                       Ok (s, soln))).
  { unfold StFlow_restore. cbv zeta. rewrite Hgrid. reflexivity. }
  split; [|split; [|split; [|split]]].
  - intros fa Hin Ht Hl.
    destruct (for_each_dataset_mismatch loglevel np (grid_data doc)
                (s1', soln, replicate nsp 0, []) fa Hin Ht Hl) as [msg Hm].
    exists msg. rewrite Hunfold, Hm. reflexivity.
  - intros fa s' soln' did ignored k. apply restore_dataset_species.
  - intros s2 soln2 did ignored Hd s2'. rewrite Hunfold, Hd. cbn [bind].
    fold s2'. unfold restore_flags.
    assert (Hg2 : grid s2' = grid s2).
    { subst s2'. destruct (log_missing_state loglevel nsp did (log_ignored loglevel ignored s2))
        as (-> & _). apply log_ignored_state. }
    split.
    + intros x Hx [Hne Hl]. unfold restore_energy_enabled. rewrite Hx, Hg2.
      apply Nat.eqb_neq in Hl. rewrite Hl.
      destruct x; [congruence|]. reflexivity.
    + intros s3 He. rewrite He. cbn [bind]. split; [reflexivity|].
      intros x Hx [Hne Hl]. unfold restore_species_enabled. rewrite Hx.
      apply Nat.eqb_neq in Hl. rewrite Hl.
      destruct x as [|a x]; [congruence|]. cbn [length Nat.eqb negb].
      destruct (loglevel >? 0); split; reflexivity.
  - intros e He. unfold PorousFlow_restore. rewrite He. reflexivity.
  - intros s2 soln2 n x. apply PorousFlow_restore_mismatch.
Qed.

Lemma restore_length_mismatch_witness :
  StFlow_restore (A:=Float64) AxiStagnFlow (saved_domain [] (Some [lit 1]) None)
    (replicate 18 (lit 0)) 1 named_flow
  = Err (energy_enabled_error 1 3).
Proof.
  set (doc := saved_domain (A:=Float64) [] (Some [lit 1]) None).
  set (s1 := match restore_grid AxiStagnFlow doc 1
                     (on_settings (set_m_press (pressure doc))
                        (restore_strings doc named_flow)) with
             | Ok (s1, _) => s1
             | Err _ => named_flow
             end).
  assert (Hg : restore_grid AxiStagnFlow doc 1
                 (on_settings (set_m_press (pressure doc)) (restore_strings doc named_flow))
               = Ok (s1, 3%nat))
    by (vm_compute; reflexivity).
  assert (Hd : for_each (restore_dataset 1 3) (grid_data doc)
                 (debuglog ("Importing datasets:" +:+ newline) (1 >=? 2) s1,
                  replicate 18 (lit 0),
                  replicate (length (speciesNames (settings (named_flow (A:=Float64))))) 0, [])
               = Ok (s1, replicate 18 (lit 0), [0; 0], []))
    by (vm_compute; reflexivity).
  destruct (restore_length_mismatch AxiStagnFlow doc (replicate 18 (lit 0)) 1 named_flow
              s1 3 Hg) as (_ & _ & H3 & _).
  destruct (H3 s1 (replicate 18 (lit 0)) [0; 0] [] Hd) as [He _].
  assert (Hp : m_points (grid s1) = 3%nat) by (vm_compute; reflexivity).
  rewrite Hp in He.
  apply (He [lit 1]); [reflexivity|split; [discriminate|cbn; lia]].
Defined.

(** C9, the claim as stated fails for the species arrays.  A saved domain of
    three points whose "H2" dataset has one value and whose "species_enabled"
    has one entry for two species restores without an error: the dataset is
    passed over, the solution stays as it was, and every species equation is
    enabled.  At log level 1 the log names both species as missing (the
    dataset of H2 was not stored and there is none for O2) and ends with
    the warning. *)
Lemma restore_accepts_wrong_species_lengths :
  let doc := saved_domain (A:=Float64) [{| title := "H2"; values := [lit 1] |}]
               None (Some [lit 1]) in
  exists s',
    StFlow_restore AxiStagnFlow doc (replicate 18 (lit 0)) 1 named_flow
    = Ok (s', replicate 18 (lit 0)) /\
    m_points (grid s') = 3%nat /\ m_nsp (grid s') = 2%nat /\
    m_do_species (settings s') = [true; true] /\
    logged s' = ["Missing data for species:" +:+ newline; "H2 "; "O2 ";
                 species_enabled_warning 1 2].
Proof.
  eexists. split; [vm_compute; reflexivity|]. repeat split.
Qed.

(** * Further properties of the code *)

Section EvalLocality.
Context {A : Arith} {L : Libm A} {E : Externals A}.

Lemma block_frame_weaken (lo hi lo' hi' : nat) (o o' : Out A) :
  (lo' <= lo)%nat -> (hi <= hi')%nat ->
  block_frame lo hi o o' -> block_frame lo' hi' o o'.
Proof.
  intros Hlo Hhi (H1 & H2 & H3). split; [exact H1|]. split; [exact H2|].
  intros i Hi. apply H3. lia.
Qed.

(** A loop over the points [js], all of them in [a..b-1], stores only into
    the rows of those points. *)
Lemma points_block (pt : StFlow A * Out A -> nat -> StFlow A * Out A) (x : list num)
    (a b : nat) :
  point_spec pt x ->
  forall (js : list nat) (s : StFlow A) (o : Out A),
  (forall j, j ∈ js -> (a <= j < b)%nat) ->
  m_nv (grid s) = (4 + m_nsp (grid s))%nat ->
  (1 <= m_nsp (grid s))%nat ->
  (1 <= m_points (grid s))%nat ->
  Z.of_nat (m_points (grid s)) <= SIZE_MAX ->
  obs_residual (fold_left pt js (s, o)).1 = obs_residual s /\
  block_frame (loc (grid s) + m_nv (grid s) * a) (loc (grid s) + m_nv (grid s) * b)
              o (fold_left pt js (s, o)).2.
Proof.
  intros Hpt js. induction js as [|j js IH]; intros s o Hjs Hwf Hsp Hnp Hsz.
  - cbn [fold_left fst snd]. split; [reflexivity|apply block_frame_refl].
  - cbn [fold_left].
    destruct (Hpt s o j Hwf Hsp Hnp Hsz) as (Ho & Hb & _).
    destruct (pt (s, o) j) as [s1 o1]. cbn [fst snd] in Ho, Hb.
    assert (Hg : grid s1 = grid s)
      by exact (f_equal (fun t => t.1.1.1.1.1) Ho).
    destruct (IH s1 o1) as (Io & Ib);
      [intros j' Hj'; apply Hjs; right; exact Hj'|rewrite Hg; assumption..|].
    split; [congruence|].
    rewrite Hg in Ib.
    apply (block_frame_trans _ _ o o1); [|exact Ib].
    assert (Hj : (a <= j < b)%nat) by (apply Hjs; left).
    assert (H1 : (m_nv (grid s) * a <= m_nv (grid s) * j)%nat)
      by (apply Nat.mul_le_mono_l; lia).
    assert (H2 : (m_nv (grid s) * (j + 1) <= m_nv (grid s) * b)%nat)
      by (apply Nat.mul_le_mono_l; lia).
    eapply block_frame_weaken; [| |exact Hb]; lia.
Qed.

End EvalLocality.

(** X1.  A residual evaluation stores only into the rows of the points of its
    window: with [jmin..jmax] the points to evaluate, both engines return
    buffers of the same lengths that agree with the ones passed in at every
    position outside [loc + nv*jmin, loc + nv*(jmax+1)), and the grid, the
    energy flags, the fixed temperatures and the transport option of the
    domain are as before. *)
Theorem eval_stores_only_window_rows {A : Arith} {L : Libm A} {E : Externals A}
    (kind : FlowKind) (jg : Z) (xg : list num) (o : Out A) (rdt : num) (s : StFlow A)
    (jmin jmax j0 j1 : Z) :
  (lit 0 >! tolerance) = false ->
  m_nv (grid s) = (4 + m_nsp (grid s))%nat ->
  (1 <= m_nsp (grid s))%nat ->
  (1 <= m_points (grid s))%nat ->
  Z.of_nat (m_points (grid s)) <= max_size ->
  m_transport_option (settings s) <> c_None_Transport ->
  outside_influence jg s = false ->
  eval_window jg s = (jmin, jmax, j0, j1) ->
  (exists s' o', StFlow_eval kind jg xg o rdt s = Ok (s', o') /\
     obs_rows s' = obs_rows s /\
     block_frame (loc (grid s) + m_nv (grid s) * Z.to_nat jmin)
                 (loc (grid s) + m_nv (grid s) * Z.to_nat (jmax + 1)) o o') /\
  (exists s' o', PorousFlow_eval jg xg o rdt s = Some (Ok (s', o')) /\
     obs_rows s' = obs_rows s /\
     block_frame (loc (grid s) + m_nv (grid s) * Z.to_nat jmin)
                 (loc (grid s) + m_nv (grid s) * Z.to_nat (jmax + 1)) o o').
Proof.
  intros Htol Hwf Hsp Hnp Hmax Hopt Hin Hwin.
  destruct (eval_window_nonneg jg s jmin jmax j0 j1 Hwin) as [Hmin _].
  assert (Hsz : Z.of_nat (m_points (grid s)) <= SIZE_MAX)
    by (unfold max_size, SIZE_MAX in *; lia).
  assert (Hjs : forall j, j ∈ range jmin (jmax + 1) ->
            (Z.to_nat jmin <= j < Z.to_nat (jmax + 1))%nat).
  { intros j Hj. apply elem_of_range in Hj; lia. }
  assert (Hloop : forall (pt : StFlow A * Out A -> nat -> StFlow A * Out A) x s1,
            point_spec pt x -> obs_rows s1 = obs_rows s ->
            obs_rows (fold_left pt (range jmin (jmax + 1)) (s1, o)).1 = obs_rows s /\
            block_frame (loc (grid s) + m_nv (grid s) * Z.to_nat jmin)
                        (loc (grid s) + m_nv (grid s) * Z.to_nat (jmax + 1)) o
                        (fold_left pt (range jmin (jmax + 1)) (s1, o)).2).
  { intros pt x s1 Hpt H1.
    assert (Hg : grid s1 = grid s) by exact (f_equal (fun t => t.1.1.1) H1).
    destruct (points_block pt x (Z.to_nat jmin) (Z.to_nat (jmax + 1)) Hpt
                (range jmin (jmax + 1)) s1 o Hjs) as [Ho Hb];
      [rewrite Hg; assumption..|].
    rewrite Hg in Hb. split; [|exact Hb].
    rewrite (obs_residual_rows _ _ Ho). exact H1. }
  split.
  - destruct (StFlow_eval_unfold kind jg xg o rdt s jmin jmax j0 j1 Hopt Hin Hwin)
      as (s1 & H1 & _ & _ & Ee).
    rewrite Ee.
    destruct (Hloop (StFlow_point kind (drop (loc (grid s)) xg)
                       (if negb (jg =? npos) then lit 0 else rdt))
                (drop (loc (grid s)) xg) s1 (StFlow_point_spec _ _ _) H1) as [Hr Hb].
    destruct (fold_left _ (range jmin (jmax + 1)) (s1, o)) as [s' o'].
    exists s', o'. split; [reflexivity|]. split; assumption.
  - destruct (PorousFlow_eval_unfold Htol jg xg o rdt s jmin jmax j0 j1
                Hopt Hmax Hin Hwin) as (s1 & H1 & _ & _ & Ee).
    rewrite Ee.
    destruct (Hloop (PorousFlow_point (drop (loc (grid s)) xg)
                       (if negb (jg =? npos) then lit 0 else rdt))
                (drop (loc (grid s)) xg) s1 (PorousFlow_point_spec _ _) H1) as [Hr Hb].
    destruct (fold_left _ (range jmin (jmax + 1)) (s1, o)) as [s' o'].
    exists s', o'. split; [reflexivity|]. split; assumption.
Qed.

Lemma eval_stores_only_window_rows_witness :
  exists s' o',
    StFlow_eval (E:=plain) AxiStagnFlow 6 flat_solution blank_out (lit 10)
      (second_domain (A:=Float64) c_Mixav_Transport) = Ok (s', o') /\
    block_frame 30 48 blank_out o'.
Proof.
  destruct (eval_stores_only_window_rows (E:=plain) AxiStagnFlow 6 flat_solution
              blank_out (lit 10) (second_domain (A:=Float64) c_Mixav_Transport) 0 2 0 2)
    as [(s' & o' & E1 & _ & B1) _];
    [reflexivity|reflexivity|cbn; lia|cbn; lia|unfold max_size; cbn; lia|discriminate
    |reflexivity|reflexivity|].
  exists s', o'. split; [exact E1|exact B1].
Defined.

(** X2.  A residual evaluation on a domain that has no transport model yet
    (the state the constructor leaves) throws the error of [updateDiffFluxes]
    in both engines, whatever the mode and the window, unless the call
    returns at once because [jg] is outside the domain's influence. *)
Theorem eval_without_transport_model_throws {A : Arith} {L : Libm A} {E : Externals A}
    (kind : FlowKind) (jg : Z) (xg : list num) (o : Out A) (rdt : num) (s : StFlow A) :
  m_transport_option (settings s) = c_None_Transport ->
  outside_influence jg s = false ->
  StFlow_eval kind jg xg o rdt s
  = Err (CanteraError "updateDiffFluxes" "unknown transport model") /\
  PorousFlow_eval jg xg o rdt s
  = Some (Err (CanteraError "updateDiffFluxes" "unknown transport model")).
Proof.
  intros Hopt Hin.
  assert (Hthrow : forall s0 x j0 j1,
            m_transport_option (settings s0) = c_None_Transport ->
            updateDiffFluxes x j0 j1
              (if jg =? npos then updateTransport x j0 j1 (updateThermo x j0 j1 s0)
               else updateThermo x j0 j1 s0)
            = Err (CanteraError "updateDiffFluxes" "unknown transport model")).
  { intros s0 x j0 j1 H0.
    assert (Ha : obs_rows (updateThermo x j0 j1 s0) = obs_rows s0)
      by (apply obs_update_rows, updateThermo_obs).
    assert (Hb : obs_rows (if jg =? npos
                           then updateTransport x j0 j1 (updateThermo x j0 j1 s0)
                           else updateThermo x j0 j1 s0) = obs_rows s0).
    { destruct (jg =? npos); [rewrite updateTransport_obs|]; exact Ha. }
    unfold updateDiffFluxes. rewrite (obs_rows_option _ _ Hb), H0. reflexivity. }
  destruct (eval_window jg s) as [[[jmin jmax] j0] j1] eqn:Hwin.
  split.
  - unfold StFlow_eval. rewrite Hin, Hwin.
    rewrite (Hthrow s (drop (loc (grid s)) xg) j0 j1 Hopt). reflexivity.
  - unfold PorousFlow_eval. rewrite Hin, Hwin.
    change (loc (grid (on_settings (set_m_dovisc true) s))) with (loc (grid s)).
    rewrite (Hthrow (on_settings (set_m_dovisc true) s) (drop (loc (grid s)) xg) j0 j1 Hopt).
    reflexivity.
Qed.

Lemma eval_without_transport_model_throws_witness :
  StFlow_eval (E:=plain) FreeFlame npos flat_solution blank_out (lit 0)
    (second_domain (A:=Float64) c_None_Transport)
  = Err (CanteraError "updateDiffFluxes" "unknown transport model").
Proof.
  apply (eval_without_transport_model_throws (E:=plain) FreeFlame npos flat_solution
           blank_out (lit 0) (second_domain (A:=Float64) c_None_Transport));
    reflexivity.
Defined.

Section Windows.
Context {A : Arith}.

Lemma range_empty (a b : Z) : b <= a -> range a b = [].
Proof. intros H. unfold range. destruct (Z.ltb_spec a b); [lia|reflexivity]. Qed.

(** The window of a Jacobian column whose point [jg] belongs to the domain:
    the point and its neighbours, clipped to the grid. *)
Lemma eval_window_inside (jg : Z) (s : StFlow A) :
  jg <> npos ->
  0 <= firstPoint (grid s) <= jg ->
  jg - firstPoint (grid s) < Z.of_nat (m_points (grid s)) ->
  Z.of_nat (m_points (grid s)) <= max_size ->
  let jpt := jg - firstPoint (grid s) in
  let last := Z.of_nat (m_points (grid s)) - 1 in
  eval_window jg s
  = (Z.max (jpt - 1) 0, Z.min (jpt + 1) last, Z.max (jpt - 2) 0, Z.min (jpt + 2) last).
Proof.
  intros Hne Hfirst Hlt Hmax jpt last. unfold eval_window.
  unfold max_size in Hmax.
  destruct (Z.eqb_spec jg npos) as [|_]; [contradiction|].
  assert (Hjpt : (if jg =? 0 then 0 else wrap (jg - firstPoint (grid s))) = jpt).
  { destruct (Z.eqb_spec jg 0) as [H0|_]; [subst jpt; lia|].
    apply wrap_small. lia. }
  rewrite Hjpt.
  rewrite (wrap_small (Z.of_nat (m_points (grid s)) - 1)) by lia.
  rewrite (wrap_small (Z.max jpt 1 - 1)) by lia.
  rewrite (wrap_small (jpt + 1)) by lia.
  rewrite (wrap_small (Z.max (Z.max jpt 1 - 1) 1 - 1)) by lia.
  rewrite (wrap_small (Z.min (jpt + 1) (Z.of_nat (m_points (grid s)) - 1) + 1)) by lia.
  subst last. f_equal; [f_equal; [f_equal|]|]; lia.
Qed.

(** The window of the column of the point just left of the domain: in
    size_t arithmetic [jpt = jg - firstPoint()] is [npos], so [jmin] is
    [npos - 1] and [jmax] is 0. *)
Lemma eval_window_left_neighbour (s : StFlow A) :
  1 <= firstPoint (grid s) - 1 < max_size ->
  (1 <= m_points (grid s))%nat ->
  Z.of_nat (m_points (grid s)) <= max_size ->
  eval_window (firstPoint (grid s) - 1) s
  = (2 ^ 64 - 2, 0, 2 ^ 64 - 3, Z.min 1 (Z.of_nat (m_points (grid s)) - 1)).
Proof.
  intros Hjg Hnp Hmax. unfold eval_window. unfold max_size in *.
  destruct (Z.eqb_spec (firstPoint (grid s) - 1) npos) as [H|_];
    [unfold npos, SIZE_MAX in H; lia|].
  destruct (Z.eqb_spec (firstPoint (grid s) - 1) 0) as [H|_]; [lia|].
  replace (firstPoint (grid s) - 1 - firstPoint (grid s)) with (-1) by lia.
  rewrite (wrap_small (Z.of_nat (m_points (grid s)) - 1)) by lia.
  change (wrap (Z.max (wrap (-1)) 1 - 1)) with (2 ^ 64 - 2).
  change (wrap (wrap (-1) + 1)) with 0.
  rewrite (Z.min_l 0) by lia.
  change (wrap (Z.max (2 ^ 64 - 2) 1 - 1)) with (2 ^ 64 - 3).
  change (wrap (0 + 1)) with 1.
  reflexivity.
Qed.

(** The window of the column of the point just right of the domain: the last
    point of the domain. *)
Lemma eval_window_right_neighbour (s : StFlow A) :
  0 <= firstPoint (grid s) ->
  firstPoint (grid s) + Z.of_nat (m_points (grid s)) <= max_size ->
  (1 <= m_points (grid s))%nat ->
  let last := Z.of_nat (m_points (grid s)) - 1 in
  eval_window (firstPoint (grid s) + Z.of_nat (m_points (grid s))) s
  = (last, last, Z.max (last - 1) 0, last).
Proof.
  intros Hfirst Hmax Hnp last. unfold eval_window. unfold max_size in *.
  destruct (Z.eqb_spec (firstPoint (grid s) + Z.of_nat (m_points (grid s))) npos) as [H|_];
    [unfold npos, SIZE_MAX in H; lia|].
  destruct (Z.eqb_spec (firstPoint (grid s) + Z.of_nat (m_points (grid s))) 0) as [H|_];
    [lia|].
  replace (firstPoint (grid s) + Z.of_nat (m_points (grid s)) - firstPoint (grid s))
    with (Z.of_nat (m_points (grid s))) by lia.
  rewrite (wrap_small (Z.of_nat (m_points (grid s)))) by lia.
  rewrite (wrap_small (Z.of_nat (m_points (grid s)) - 1)) by lia.
  rewrite (wrap_small (Z.max (Z.of_nat (m_points (grid s))) 1 - 1)) by lia.
  rewrite (wrap_small (Z.of_nat (m_points (grid s)) + 1)) by lia.
  rewrite (wrap_small (Z.max (Z.max (Z.of_nat (m_points (grid s))) 1 - 1) 1 - 1)) by lia.
  rewrite (wrap_small (Z.min (Z.of_nat (m_points (grid s)) + 1)
                             (Z.of_nat (m_points (grid s)) - 1) + 1)) by lia.
  subst last. f_equal; [f_equal; [f_equal|]|]; lia.
Qed.

End Windows.

(** X3.  The window of a Jacobian column.  For a point [jg] of the domain the
    engine evaluates the point and its neighbours, clipped to the grid (at
    most three points), after updating the properties on that window widened
    by one point each side.  For the point just right of the domain it
    evaluates the last point.  For the point just left of the domain (other
    than global point 0) the window is empty: the call is not an early
    return, but both engines hand back the residual and flag buffers they
    were given. *)
Theorem jacobian_window {A : Arith} {L : Libm A} {E : Externals A} (s : StFlow A) :
  (lit 0 >! tolerance) = false ->
  (1 <= m_points (grid s))%nat ->
  0 <= firstPoint (grid s) ->
  firstPoint (grid s) + Z.of_nat (m_points (grid s)) <= max_size ->
  lastPoint (grid s) = firstPoint (grid s) + Z.of_nat (m_points (grid s)) - 1 ->
  let last := Z.of_nat (m_points (grid s)) - 1 in
  (forall jg, firstPoint (grid s) <= jg <= lastPoint (grid s) ->
     let jpt := jg - firstPoint (grid s) in
     eval_window jg s
     = (Z.max (jpt - 1) 0, Z.min (jpt + 1) last, Z.max (jpt - 2) 0, Z.min (jpt + 2) last)) /\
  eval_window (lastPoint (grid s) + 1) s = (last, last, Z.max (last - 1) 0, last) /\
  (2 <= firstPoint (grid s) ->
   m_transport_option (settings s) <> c_None_Transport ->
   forall kind xg o rdt,
     outside_influence (firstPoint (grid s) - 1) s = false /\
     (exists s', StFlow_eval kind (firstPoint (grid s) - 1) xg o rdt s = Ok (s', o)) /\
     (exists s', PorousFlow_eval (firstPoint (grid s) - 1) xg o rdt s = Some (Ok (s', o)))).
Proof.
  intros Htol Hnp Hfirst Hmax Hlast last.
  assert (Hm : Z.of_nat (m_points (grid s)) <= max_size) by lia.
  split; [|split].
  - intros jg Hjg jpt. apply eval_window_inside; try lia.
    unfold npos, SIZE_MAX. unfold max_size in *. lia.
  - rewrite Hlast.
    replace (firstPoint (grid s) + Z.of_nat (m_points (grid s)) - 1 + 1)
      with (firstPoint (grid s) + Z.of_nat (m_points (grid s))) by lia.
    apply eval_window_right_neighbour; assumption.
  - intros H2 Hopt kind xg o rdt.
    assert (Hw := eval_window_left_neighbour s ltac:(lia) Hnp Hm).
    assert (Hin : outside_influence (firstPoint (grid s) - 1) s = false).
    { unfold outside_influence. rewrite Hlast. unfold max_size in *.
      rewrite !wrap_small by lia.
      apply andb_false_iff. right. apply orb_false_iff. split.
      - apply Z.ltb_ge. lia.
      - rewrite Z.gtb_ltb. apply Z.ltb_ge. lia. }
    assert (He : range (2 ^ 64 - 2) (0 + 1) = []) by (apply range_empty; lia).
    split; [exact Hin|]. split.
    + destruct (StFlow_eval_unfold kind _ xg o rdt s _ _ _ _ Hopt Hin Hw)
        as (s1 & _ & _ & _ & Ee).
      exists s1. rewrite Ee, He. reflexivity.
    + destruct (PorousFlow_eval_unfold Htol _ xg o rdt s _ _ _ _ Hopt Hm Hin Hw)
        as (s1 & _ & _ & _ & Ee).
      exists s1. rewrite Ee, He. reflexivity.
Qed.

Lemma jacobian_window_witness :
  eval_window 6 (second_domain (A:=Float64) c_Mixav_Transport) = (0, 2, 0, 2) /\
  eval_window 8 (second_domain (A:=Float64) c_Mixav_Transport) = (2, 2, 1, 2) /\
  exists s', StFlow_eval (E:=plain) AxiStagnFlow 4 flat_solution blank_out (lit 10)
               (second_domain (A:=Float64) c_Mixav_Transport) = Ok (s', blank_out).
Proof.
  destruct (jacobian_window (E:=plain) (second_domain (A:=Float64) c_Mixav_Transport))
    as (H1 & H2 & H3);
    [reflexivity|cbn; lia|cbn; lia|unfold max_size; cbn; lia|reflexivity|].
  split; [exact (H1 6 ltac:(cbn; lia))|]. split; [exact H2|].
  destruct (H3 ltac:(cbn; lia) ltac:(discriminate) AxiStagnFlow flat_solution blank_out
              (lit 10)) as (_ & Hs & _).
  exact Hs.
Defined.

(** ** Interface kinetics *)

Section PhaseFacts.

Lemma count_false_insert (l : list bool) (i : nat) (b b' : bool) :
  l !! i = Some b ->
  (count_occ bool_dec (<[i := b']> l) false + (if b then 0 else 1)
   = count_occ bool_dec l false + (if b' then 0 else 1))%nat.
Proof.
  revert i. induction l as [|a l IH]; intros [|i] H; cbn in H; try discriminate.
  - injection H as ->. change (<[0%nat := b']> (b :: l)) with (b' :: l). cbn [count_occ].
    destruct (bool_dec b' false), (bool_dec b false), b, b'; try congruence; lia.
  - change (<[S i := b']> (a :: l)) with (a :: <[i := b']> l). cbn [count_occ].
    specialize (IH i H). destruct (bool_dec a false); lia.
Qed.

Lemma count_false_zero (l : list bool) :
  count_occ bool_dec l false = 0%nat <-> forall i, (i < length l)%nat -> bget l i = true.
Proof.
  induction l as [|a l IH]; cbn [count_occ length].
  - split; [intros _ i Hi; lia|reflexivity].
  - destruct (bool_dec a false) as [->|Ha].
    + split; [discriminate|]. intros H. specialize (H 0%nat ltac:(lia)). discriminate H.
    + rewrite IH. split.
      * intros H [|i] Hi; [destruct a; [reflexivity|congruence]|]. apply (H i). lia.
      * intros H i Hi. apply (H (S i)). lia.
Qed.

Lemma bget_insert_eq (l : list bool) (i : nat) (b : bool) :
  (i < length l)%nat -> bget (<[i := b]> l) i = b.
Proof. intros H. unfold bget. rewrite list_lookup_insert_eq by exact H. reflexivity. Qed.

Lemma bget_insert_ne (l : list bool) (i j : nat) (b : bool) :
  i <> j -> bget (<[i := b]> l) j = bget l j.
Proof. intros H. unfold bget. rewrite list_lookup_insert_ne by exact H. reflexivity. Qed.

Lemma bget_lookup (l : list bool) (i : nat) :
  (i < length l)%nat -> l !! i = Some (bget l i).
Proof.
  intros H. unfold bget. destruct (lookup_lt_is_Some_2 l i H) as [b ->]. reflexivity.
Qed.

End PhaseFacts.

(** X4.  Phase bookkeeping of the interface kinetics.  With one flag per phase
    in both vectors and the counter equal to the number of phases that do not
    exist: an index past the last phase makes all four accessors throw
    "out of bounds"; for a phase of the object [setPhaseExistence] succeeds,
    keeps the vectors and the counter consistent, afterwards both
    [phaseExistence] and [phaseStability] of that phase return the value set,
    no other phase changes, and the counter is zero exactly when every phase
    exists. *)
Theorem phase_existence_bookkeeping {A : Arith} (iphase : nat) (exists_ : Z)
    (k : InterfaceKinetics A) :
  phases_consistent k ->
  ((n_phases k <= iphase)%nat ->
     setPhaseExistence iphase exists_ k
     = Err (CanteraError "InterfaceKinetics:setPhaseExistence" "out of bounds") /\
     phaseExistence iphase k
     = Err (CanteraError "InterfaceKinetics:phaseExistence()" "out of bounds") /\
     phaseStability iphase k
     = Err (CanteraError "InterfaceKinetics:phaseStability()" "out of bounds") /\
     setPhaseStability iphase exists_ k
     = Err (CanteraError "InterfaceKinetics:setPhaseStability" "out of bounds")) /\
  ((iphase < n_phases k)%nat ->
     exists k',
       setPhaseExistence iphase exists_ k = Ok k' /\
       phases_consistent k' /\
       phaseExistence iphase k' = Ok (if exists_ =? 0 then 0 else 1) /\
       phaseStability iphase k' = Ok (if exists_ =? 0 then 0 else 1) /\
       (forall p, p <> iphase ->
          phaseExistence p k' = phaseExistence p k /\
          phaseStability p k' = phaseStability p k) /\
       (m_phaseExistsCheck k' = 0 <->
        forall p, (p < n_phases k)%nat -> phaseExistence p k' = Ok 1)).
Proof.
  intros (Le & Ls & Hc). split.
  - intros Hout. apply Nat.leb_le in Hout.
    unfold setPhaseExistence, phaseExistence, phaseStability, setPhaseStability.
    rewrite Hout. repeat split.
  - intros Hin.
    assert (Hlt : (n_phases k <=? iphase)%nat = false) by (apply Nat.leb_gt; exact Hin).
    destruct k as [np nr ex st chk rr rp f r net ok ct be].
    cbn [n_phases m_phaseExists m_phaseIsStable m_phaseExistsCheck] in *.
    assert (Hex : ex !! iphase = Some (bget ex iphase)) by (apply bget_lookup; lia).
    remember (bget ex iphase) as b0 eqn:Eb.
    pose proof (count_false_insert ex iphase b0 true Hex) as Ct.
    pose proof (count_false_insert ex iphase b0 false Hex) as Cf.
    remember (negb (exists_ =? 0)) as e eqn:Ee.
    set (ex' := if e then (if b0 then ex else <[iphase := true]> ex)
                else (if b0 then <[iphase := false]> ex else ex)).
    set (chk' := if e then (if b0 then chk else Z.max (chk - 1) 0)
                 else (if b0 then chk + 1 else chk)).
    exists (Build_InterfaceKinetics np nr ex' (<[iphase := e]> st) chk'
              rr rp f r net ok ct be).
    assert (Lex' : length ex' = np).
    { subst ex'. destruct e, b0; rewrite ?length_insert; exact Le. }
    assert (Gex' : bget ex' iphase = e).
    { subst ex'. destruct e, b0; rewrite ?bget_insert_eq by lia; auto. }
    assert (Cex' : chk' = Z.of_nat (count_occ bool_dec ex' false)).
    { subst ex' chk'. destruct e, b0; lia. }
    assert (Oex' : forall p, p <> iphase -> bget ex' p = bget ex p).
    { intros p Hp. subst ex'. destruct e, b0;
        rewrite ?bget_insert_ne by congruence; reflexivity. }
    split; [|split; [|split; [|split; [|split]]]].
    + unfold setPhaseExistence.
      cbn [n_phases m_phaseExists m_phaseIsStable m_phaseExistsCheck].
      rewrite Hlt, <- Ee, <- Eb. subst ex' chk'.
      destruct e, b0; reflexivity.
    + repeat split; cbn [n_phases m_phaseExists m_phaseIsStable m_phaseExistsCheck].
      * exact Lex'.
      * rewrite length_insert. exact Ls.
      * exact Cex'.
    + unfold phaseExistence. cbn [n_phases m_phaseExists]. rewrite Hlt, Gex'.
      rewrite Ee. destruct (exists_ =? 0); reflexivity.
    + unfold phaseStability. cbn [n_phases m_phaseIsStable].
      rewrite Hlt, bget_insert_eq by lia.
      rewrite Ee. destruct (exists_ =? 0); reflexivity.
    + intros p Hp. unfold phaseExistence, phaseStability.
      cbn [n_phases m_phaseExists m_phaseIsStable].
      rewrite (Oex' p Hp), bget_insert_ne by congruence. split; reflexivity.
    + cbn [m_phaseExistsCheck]. rewrite Cex'.
      assert (Hz : Z.of_nat (count_occ bool_dec ex' false) = 0
                   <-> count_occ bool_dec ex' false = 0%nat) by lia.
      rewrite Hz, count_false_zero, Lex'.
      split; intros H p Hp.
      * unfold phaseExistence. cbn [n_phases m_phaseExists].
        assert ((np <=? p)%nat = false) as -> by (apply Nat.leb_gt; exact Hp).
        rewrite (H p Hp). reflexivity.
      * specialize (H p Hp). unfold phaseExistence in H.
        cbn [n_phases m_phaseExists] in H.
        assert (Hq : (np <=? p)%nat = false) by (apply Nat.leb_gt; exact Hp).
        rewrite Hq in H. destruct (bget ex' p); [reflexivity|discriminate H].
Qed.

Lemma phase_existence_bookkeeping_witness :
  exists k',
    setPhaseExistence 1 1 (gas_and_missing_bulk (A:=Float64)) = Ok k' /\
    phaseExistence 1 k' = Ok 1 /\ phaseStability 1 k' = Ok 1.
Proof.
  destruct (phase_existence_bookkeeping 1 1 (gas_and_missing_bulk (A:=Float64)))
    as [_ H]; [repeat split|].
  destruct H as (k' & E1 & _ & E2 & E3 & _); [cbn; lia|].
  exists k'. split; [exact E1|]. split; [exact E2|exact E3].
Defined.

Section RatesOfProgress.
Context {A : Arith}.

(** [set_rop] touches the three rate vectors only. *)
Lemma check_phases_set_rop (k : InterfaceKinetics A) (f' r' net' : list num) (j : nat)
    (f r net : num) :
  check_phases (set_rop f' r' net' k) j f r net = check_phases k j f r net.
Proof. destruct k. reflexivity. Qed.

Lemma set_rop_set_rop (k : InterfaceKinetics A) (f r net f' r' net' : list num) :
  set_rop f' r' net' (set_rop f r net k) = set_rop f' r' net' k.
Proof. destruct k. reflexivity. Qed.

Lemma set_rop_fields (k : InterfaceKinetics A) (f r net : list num) :
  m_ropf (set_rop f r net k) = f /\ m_ropr (set_rop f r net k) = r /\
  m_ropnet (set_rop f r net k) = net /\
  n_reactions (set_rop f r net k) = n_reactions k /\
  m_phaseExistsCheck (set_rop f r net k) = m_phaseExistsCheck k.
Proof. destruct k. repeat split. Qed.

Lemma set_rop_id (k : InterfaceKinetics A) :
  set_rop (m_ropf k) (m_ropr k) (m_ropnet k) k = k.
Proof. destruct k. reflexivity. Qed.

(** The loop that forms the net rates. *)
Lemma net_loop (k : InterfaceKinetics A) (n : nat) :
  (n <= length (m_ropnet k))%nat ->
  exists net',
    fold_left (fun k j =>
                 set_rop (m_ropf k) (m_ropr k)
                         (<[j := (m_ropf k).[j] -! (m_ropr k).[j]]> (m_ropnet k)) k)
              (seq 0 n) k
    = set_rop (m_ropf k) (m_ropr k) net' k /\
    length net' = length (m_ropnet k) /\
    (forall j, (j < n)%nat -> net'.[j] = (m_ropf k).[j] -! (m_ropr k).[j]) /\
    (forall j, (n <= j)%nat -> net'.[j] = (m_ropnet k).[j]).
Proof.
  intros Hn. induction n as [|n IH].
  - exists (m_ropnet k). cbn [seq fold_left]. rewrite set_rop_id.
    repeat split. intros j Hj. lia.
  - destruct IH as (net' & E & Hl & Hlo & Hhi); [lia|].
    rewrite seq_S, fold_left_app, E. cbn [fold_left Nat.add].
    destruct (set_rop_fields k (m_ropf k) (m_ropr k) net') as (-> & -> & -> & _).
    rewrite set_rop_set_rop.
    exists (<[n := (m_ropf k).[n] -! (m_ropr k).[n]]> net').
    split; [reflexivity|]. split; [rewrite length_insert; exact Hl|]. split.
    + intros j Hj. destruct (decide (j = n)) as [->|Hne].
      * apply vget_insert_eq. lia.
      * rewrite vget_insert_ne by congruence. apply Hlo. lia.
    + intros j Hj. rewrite vget_insert_ne by lia. apply Hhi. lia.
Qed.

(** The loop that corrects the rates for the phases. *)
Lemma check_loop (k : InterfaceKinetics A) (n : nat) :
  (n <= length (m_ropf k))%nat -> (n <= length (m_ropr k))%nat ->
  (n <= length (m_ropnet k))%nat ->
  exists f' r' net',
    fold_left (fun k j =>
                 let '(f, r, net) :=
                   check_phases k j (m_ropf k).[j] (m_ropr k).[j] (m_ropnet k).[j] in
                 set_rop (<[j := f]> (m_ropf k)) (<[j := r]> (m_ropr k))
                         (<[j := net]> (m_ropnet k)) k)
              (seq 0 n) k
    = set_rop f' r' net' k /\
    (length f' = length (m_ropf k) /\ length r' = length (m_ropr k) /\
     length net' = length (m_ropnet k)) /\
    (forall j, (j < n)%nat ->
       (f'.[j], r'.[j], net'.[j])
       = check_phases k j (m_ropf k).[j] (m_ropr k).[j] (m_ropnet k).[j]) /\
    (forall j, (n <= j)%nat ->
       f'.[j] = (m_ropf k).[j] /\ r'.[j] = (m_ropr k).[j] /\ net'.[j] = (m_ropnet k).[j]).
Proof.
  intros Hf Hr Hn. induction n as [|n IH].
  - exists (m_ropf k), (m_ropr k), (m_ropnet k). cbn [seq fold_left].
    rewrite set_rop_id. repeat split. intros j Hj. lia.
  - destruct IH as (f' & r' & net' & E & (Lf & Lr & Ln) & Hlo & Hhi); [lia..|].
    rewrite seq_S, fold_left_app, E. cbn [fold_left Nat.add].
    destruct (set_rop_fields k f' r' net') as (-> & -> & -> & _).
    rewrite check_phases_set_rop.
    destruct (Hhi n (le_n n)) as (-> & -> & ->).
    destruct (check_phases k n (m_ropf k).[n] (m_ropr k).[n] (m_ropnet k).[n])
      as [[f r] net] eqn:Ec.
    rewrite set_rop_set_rop.
    exists (<[n := f]> f'), (<[n := r]> r'), (<[n := net]> net').
    split; [reflexivity|]. split; [rewrite !length_insert; auto|]. split.
    + intros j Hj. destruct (decide (j = n)) as [->|Hne].
      * rewrite !vget_insert_eq by lia. rewrite Ec. reflexivity.
      * rewrite !vget_insert_ne by congruence. apply Hlo. lia.
    + intros j Hj. rewrite !vget_insert_ne by lia. apply Hhi. lia.
Qed.

Lemma inner_zero_balanced (test : nat -> bool) (l : list nat) (st : num * num * num) :
  balanced st ->
  balanced (fold_left (fun '(f, r, net) rp =>
                         if test rp then (lit 0, lit 0, lit 0) else (f, r, net)) l st).
Proof.
  revert st. induction l as [|p l IH]; intros [[f r] net] H; [exact H|].
  cbn [fold_left]. apply IH. destruct (test p); [split; reflexivity|exact H].
Qed.

Lemma fold_establish {S I} (Q : S -> Prop) (body : S -> I -> S) (hit : I -> bool)
    (l : list I) (p : I) :
  p ∈ l -> hit p = true ->
  (forall st q, hit q = true -> Q (body st q)) ->
  (forall st q, Q st -> Q (body st q)) ->
  forall st, Q (fold_left body l st).
Proof.
  intros Hin Hp Hhit Hkeep.
  assert (Hq : forall l st, Q st -> Q (fold_left body l st)).
  { intros l'. induction l' as [|q l' IH]; intros st H; [exact H|].
    cbn [fold_left]. apply IH, Hkeep, H. }
  induction l as [|q l IH]; intros st; [inversion Hin|].
  cbn [fold_left]. apply elem_of_cons in Hin as [<-|Hin].
  - apply Hq, Hhit, Hp.
  - apply IH, Hin.
Qed.

(** A reverse-running reaction one of whose product phases does not exist, or
    one of whose reactant phases is not stable, ends balanced. *)
Lemma check_phases_reverse (k : InterfaceKinetics A) (j p : nat) (f r net : num) :
  (r >! f) = true -> (r >! lit 0) = true -> (p < n_phases k)%nat ->
  rxn_phase (m_rxnPhaseIsProduct k) j p && negb (bget (m_phaseExists k) p)
  || rxn_phase (m_rxnPhaseIsReactant k) j p && negb (bget (m_phaseIsStable k) p) = true ->
  balanced (check_phases k j f r net).
Proof.
  intros H1 H2 Hp Hhit. unfold check_phases. rewrite H1, H2. cbn [andb].
  apply (fold_establish balanced _
           (fun p => rxn_phase (m_rxnPhaseIsProduct k) j p && negb (bget (m_phaseExists k) p)
                     || rxn_phase (m_rxnPhaseIsReactant k) j p
                        && negb (bget (m_phaseIsStable k) p))
           (seq 0 (n_phases k)) p).
  - apply elem_of_seq. lia.
  - exact Hhit.
  - intros [[f0 r0] n0] q Hq. cbv beta iota.
    pose proof (inner_zero_balanced
                  (fun rp => rxn_phase (m_rxnPhaseIsReactant k) j rp
                             && negb (bget (m_phaseExists k) rp))
                  (seq 0 (n_phases k)) (f0, f0, lit 0) (conj eq_refl eq_refl)) as Hb.
    destruct (rxn_phase (m_rxnPhaseIsProduct k) j q && negb (bget (m_phaseExists k) q))
      eqn:E1;
    destruct (rxn_phase (m_rxnPhaseIsReactant k) j q && negb (bget (m_phaseIsStable k) q))
      eqn:E2; try discriminate Hq;
    destruct (f0 >! lit 0);
    try destruct (fold_left _ (seq 0 (n_phases k)) (f0, f0, lit 0)) as [[f1 r1] n1];
    first [exact Hb | split; reflexivity].
  - intros [[f0 r0] n0] q [Hn Hr]. cbn [fst snd] in Hn, Hr. subst. cbv beta iota.
    pose proof (inner_zero_balanced
                  (fun rp => rxn_phase (m_rxnPhaseIsReactant k) j rp
                             && negb (bget (m_phaseExists k) rp))
                  (seq 0 (n_phases k)) (f0, f0, lit 0) (conj eq_refl eq_refl)) as Hb.
    destruct (rxn_phase (m_rxnPhaseIsProduct k) j q && negb (bget (m_phaseExists k) q));
    destruct (rxn_phase (m_rxnPhaseIsReactant k) j q && negb (bget (m_phaseIsStable k) q));
    destruct (f0 >! lit 0);
    try destruct (fold_left _ (seq 0 (n_phases k)) (f0, f0, lit 0)) as [[f1 r1] n1];
    first [exact Hb | split; reflexivity].
Qed.

(** A forward-running reaction one of whose reactant phases does not exist,
    or one of whose product phases is not stable, ends balanced. *)
Lemma check_phases_forward (k : InterfaceKinetics A) (j p : nat) (f r net : num) :
  (r >! f) && (r >! lit 0) = false ->
  (f >! r) = true -> (f >! lit 0) = true -> (p < n_phases k)%nat ->
  rxn_phase (m_rxnPhaseIsReactant k) j p && negb (bget (m_phaseExists k) p)
  || rxn_phase (m_rxnPhaseIsProduct k) j p && negb (bget (m_phaseIsStable k) p) = true ->
  balanced (check_phases k j f r net).
Proof.
  intros H0 H1 H2 Hp Hhit. unfold check_phases. rewrite H0, H1, H2. cbn [andb].
  apply (fold_establish balanced _
           (fun p => rxn_phase (m_rxnPhaseIsReactant k) j p && negb (bget (m_phaseExists k) p)
                     || rxn_phase (m_rxnPhaseIsProduct k) j p
                        && negb (bget (m_phaseIsStable k) p))
           (seq 0 (n_phases k)) p).
  - apply elem_of_seq. lia.
  - exact Hhit.
  - intros [[f0 r0] n0] q Hq. cbv beta iota.
    pose proof (inner_zero_balanced
                  (fun rp => rxn_phase (m_rxnPhaseIsProduct k) j rp
                             && negb (bget (m_phaseExists k) rp))
                  (seq 0 (n_phases k)) (r0, r0, lit 0) (conj eq_refl eq_refl)) as Hb.
    destruct (rxn_phase (m_rxnPhaseIsReactant k) j q && negb (bget (m_phaseExists k) q))
      eqn:E1;
    destruct (rxn_phase (m_rxnPhaseIsProduct k) j q && negb (bget (m_phaseIsStable k) q))
      eqn:E2; try discriminate Hq;
    destruct (r0 >! lit 0);
    try destruct (fold_left _ (seq 0 (n_phases k)) (r0, r0, lit 0)) as [[f1 r1] n1];
    first [exact Hb | split; reflexivity].
  - intros [[f0 r0] n0] q [Hn Hr]. cbn [fst snd] in Hn, Hr. subst. cbv beta iota.
    pose proof (inner_zero_balanced
                  (fun rp => rxn_phase (m_rxnPhaseIsProduct k) j rp
                             && negb (bget (m_phaseExists k) rp))
                  (seq 0 (n_phases k)) (f0, f0, lit 0) (conj eq_refl eq_refl)) as Hb.
    destruct (rxn_phase (m_rxnPhaseIsReactant k) j q && negb (bget (m_phaseExists k) q));
    destruct (rxn_phase (m_rxnPhaseIsProduct k) j q && negb (bget (m_phaseIsStable k) q));
    destruct (f0 >! lit 0);
    try destruct (fold_left _ (seq 0 (n_phases k)) (f0, f0, lit 0)) as [[f1 r1] n1];
    first [exact Hb | split; reflexivity].
Qed.

Lemma updateROP_net_unfold (k : InterfaceKinetics A) :
  length (m_ropf k) = n_reactions k -> length (m_ropr k) = n_reactions k ->
  length (m_ropnet k) = n_reactions k ->
  exists f' r' net',
    updateROP_net k = set_ROP_ok true (set_rop f' r' net' k) /\
    (m_phaseExistsCheck k = 0 -> f' = m_ropf k /\ r' = m_ropr k /\
       forall j, (j < n_reactions k)%nat -> net'.[j] = (m_ropf k).[j] -! (m_ropr k).[j]) /\
    (m_phaseExistsCheck k <> 0 ->
       forall j, (j < n_reactions k)%nat ->
         (f'.[j], r'.[j], net'.[j])
         = check_phases k j (m_ropf k).[j] (m_ropr k).[j]
                        ((m_ropf k).[j] -! (m_ropr k).[j])).
Proof.
  intros Lf Lr Ln. unfold updateROP_net.
  destruct (net_loop k (n_reactions k)) as (net1 & E1 & L1 & Hlo1 & _); [lia|].
  rewrite E1.
  destruct (set_rop_fields k (m_ropf k) (m_ropr k) net1) as (Ff & Fr & Fn & Fnr & Fc).
  rewrite Fc, Fnr.
  destruct (Z.eqb_spec (m_phaseExistsCheck k) 0) as [Hz|Hnz]; cbn [negb].
  - exists (m_ropf k), (m_ropr k), net1. split; [reflexivity|]. split.
    + intros _. repeat split. exact Hlo1.
    + intros H. contradiction.
  - destruct (check_loop (set_rop (m_ropf k) (m_ropr k) net1 k) (n_reactions k))
      as (f' & r' & net' & E2 & _ & Hlo2 & _); [rewrite ?Ff, ?Fr, ?Fn; lia..|].
    rewrite E2, set_rop_set_rop.
    exists f', r', net'. split; [reflexivity|]. split.
    + intros H. contradiction.
    + intros _ j Hj. rewrite (Hlo2 j Hj), check_phases_set_rop, Ff, Fr, Fn.
      rewrite (Hlo1 j Hj). reflexivity.
Qed.

Lemma set_ROP_ok_fields (k : InterfaceKinetics A) (b : bool) :
  m_ROP_ok (set_ROP_ok b k) = b /\ m_ropf (set_ROP_ok b k) = m_ropf k /\
  m_ropr (set_ROP_ok b k) = m_ropr k /\ m_ropnet (set_ROP_ok b k) = m_ropnet k.
Proof. destruct k. repeat split. Qed.

End RatesOfProgress.

(** X5.  The end of [updateROP].  The rates are marked valid.  When the
    counter of missing phases is zero the forward and reverse rates stay as
    computed and every net rate is their difference.  Otherwise a reaction
    that runs backwards (reverse rate above the forward rate and above zero)
    while a phase holding one of its products does not exist, or a phase
    holding one of its reactants is not stable, ends with net rate zero and
    its reverse rate equal to its forward rate; and likewise, with the roles
    of reactants and products exchanged, a reaction that runs forwards. *)
Theorem updateROP_net_guards_missing_phases {A : Arith} (k : InterfaceKinetics A) :
  length (m_ropf k) = n_reactions k -> length (m_ropr k) = n_reactions k ->
  length (m_ropnet k) = n_reactions k ->
  let k' := updateROP_net k in
  m_ROP_ok k' = true /\
  (m_phaseExistsCheck k = 0 ->
     m_ropf k' = m_ropf k /\ m_ropr k' = m_ropr k /\
     forall j, (j < n_reactions k)%nat ->
       (m_ropnet k').[j] = (m_ropf k).[j] -! (m_ropr k).[j]) /\
  (m_phaseExistsCheck k <> 0 ->
     forall j p, (j < n_reactions k)%nat -> (p < n_phases k)%nat ->
       let f := (m_ropf k).[j] in
       let r := (m_ropr k).[j] in
       ((r >! f) = true -> (r >! lit 0) = true ->
        rxn_phase (m_rxnPhaseIsProduct k) j p && negb (bget (m_phaseExists k) p)
        || rxn_phase (m_rxnPhaseIsReactant k) j p && negb (bget (m_phaseIsStable k) p)
        = true ->
        (m_ropnet k').[j] = lit 0 /\ (m_ropr k').[j] = (m_ropf k').[j]) /\
       ((r >! f) && (r >! lit 0) = false -> (f >! r) = true -> (f >! lit 0) = true ->
        rxn_phase (m_rxnPhaseIsReactant k) j p && negb (bget (m_phaseExists k) p)
        || rxn_phase (m_rxnPhaseIsProduct k) j p && negb (bget (m_phaseIsStable k) p)
        = true ->
        (m_ropnet k').[j] = lit 0 /\ (m_ropr k').[j] = (m_ropf k').[j])).
Proof.
  intros Lf Lr Ln k'.
  destruct (updateROP_net_unfold k Lf Lr Ln) as (f' & r' & net' & E & Hz & Hnz).
  subst k'. rewrite E.
  destruct (set_ROP_ok_fields (set_rop f' r' net' k) true) as (-> & -> & -> & ->).
  destruct (set_rop_fields k f' r' net') as (-> & -> & -> & _).
  split; [reflexivity|]. split.
  - intros H0. destruct (Hz H0) as (-> & -> & Hn). repeat split. exact Hn.
  - intros H0 j p Hj Hp f r. specialize (Hnz H0 j Hj). split.
    + intros H1 H2 Hhit.
      pose proof (check_phases_reverse k j p f r (f -! r) H1 H2 Hp Hhit) as [Hb1 Hb2].
      subst f r. rewrite <- Hnz in Hb1, Hb2. cbn [fst snd] in Hb1, Hb2.
      split; assumption.
    + intros H1 H2 H3 Hhit.
      pose proof (check_phases_forward k j p f r (f -! r) H1 H2 H3 Hp Hhit) as [Hb1 Hb2].
      subst f r. rewrite <- Hnz in Hb1, Hb2. cbn [fst snd] in Hb1, Hb2.
      split; assumption.
Qed.

Lemma updateROP_net_guards_missing_phases_witness :
  let k' := updateROP_net (gas_and_missing_bulk (A:=Float64)) in
  ((m_ropnet k').[0] = lit 0 /\ (m_ropr k').[0] = (m_ropf k').[0]) /\
  ((m_ropnet k').[1] = lit 0 /\ (m_ropr k').[1] = (m_ropf k').[1]).
Proof.
  destruct (updateROP_net_guards_missing_phases (gas_and_missing_bulk (A:=Float64)))
    as (_ & _ & H); [reflexivity..|].
  split.
  - apply (proj1 (H ltac:(discriminate) 0%nat 1%nat ltac:(cbn; lia) ltac:(cbn; lia)));
      reflexivity.
  - apply (proj2 (H ltac:(discriminate) 1%nat 1%nat ltac:(cbn; lia) ltac:(cbn; lia)));
      reflexivity.
Defined.

Section ExactRates.

Lemma difference_zero (a : @num Exact) : lit 0 = a -! a.
Proof.
  change (@num Exact) with Qc in *. change (@sub Exact) with Qcminus.
  change (@lit Exact 0) with 0%Qc. ring.
Qed.

Lemma fold_keep {S I} (Q : S -> Prop) (body : S -> I -> S) (l : list I) :
  (forall st q, Q st -> Q (body st q)) -> forall st, Q st -> Q (fold_left body l st).
Proof.
  intros Hk. induction l as [|q l IH]; intros st H; [exact H|].
  cbn [fold_left]. apply IH, Hk, H.
Qed.

Lemma check_phases_net (k : InterfaceKinetics Exact) (j : nat) (f r : @num Exact) :
  net_is_difference (check_phases k j f r (f -! r)).
Proof.
  assert (Hz : forall a : @num Exact, net_is_difference (a, a, lit 0))
    by (intros a; apply difference_zero).
  assert (Hin : forall (test : nat -> bool) l st,
            net_is_difference st ->
            net_is_difference
              (fold_left (fun '(f, r, net) rp =>
                            if test rp then (lit 0, lit 0, lit 0) else (f, r, net)) l st)).
  { intros test l. apply fold_keep. intros [[f0 r0] n0] q H.
    destruct (test q); [apply Hz|exact H]. }
  unfold check_phases.
  destruct ((r >! f) && (r >! lit 0)); [|destruct ((f >! r) && (f >! lit 0))].
  - apply fold_keep; [|reflexivity].
    intros [[f0 r0] n0] q H. cbv beta iota.
    pose proof (Hin (fun rp => rxn_phase (m_rxnPhaseIsReactant k) j rp
                               && negb (bget (m_phaseExists k) rp))
                    (seq 0 (n_phases k)) (f0, f0, lit 0) (Hz f0)) as Hb.
    destruct (rxn_phase (m_rxnPhaseIsProduct k) j q && negb (bget (m_phaseExists k) q));
    destruct (rxn_phase (m_rxnPhaseIsReactant k) j q && negb (bget (m_phaseIsStable k) q));
    destruct (f0 >! lit 0);
    try destruct (fold_left _ (seq 0 (n_phases k)) (f0, f0, lit 0)) as [[f1 r1] n1];
    first [exact Hb | exact H | apply Hz].
  - apply fold_keep; [|reflexivity].
    intros [[f0 r0] n0] q H. cbv beta iota.
    pose proof (Hin (fun rp => rxn_phase (m_rxnPhaseIsProduct k) j rp
                               && negb (bget (m_phaseExists k) rp))
                    (seq 0 (n_phases k)) (r0, r0, lit 0) (Hz r0)) as Hb.
    destruct (rxn_phase (m_rxnPhaseIsReactant k) j q && negb (bget (m_phaseExists k) q));
    destruct (rxn_phase (m_rxnPhaseIsProduct k) j q && negb (bget (m_phaseIsStable k) q));
    destruct (r0 >! lit 0);
    try destruct (fold_left _ (seq 0 (n_phases k)) (r0, r0, lit 0)) as [[f1 r1] n1];
    first [exact Hb | exact H | apply Hz].
  - reflexivity.
Qed.

End ExactRates.

(** X6.  In exact arithmetic the three rate vectors that [updateROP] leaves
    are consistent: for every reaction the net rate of progress is the
    forward rate minus the reverse rate, whether or not the correction for
    missing phases has changed them. *)
Theorem updateROP_net_is_forward_minus_reverse (k : InterfaceKinetics Exact) :
  length (m_ropf k) = n_reactions k -> length (m_ropr k) = n_reactions k ->
  length (m_ropnet k) = n_reactions k ->
  forall j, (j < n_reactions k)%nat ->
    (m_ropnet (updateROP_net k)).[j]
    = (m_ropf (updateROP_net k)).[j] -! (m_ropr (updateROP_net k)).[j].
Proof.
  intros Lf Lr Ln j Hj.
  destruct (updateROP_net_unfold k Lf Lr Ln) as (f' & r' & net' & E & Hz & Hnz).
  rewrite E.
  destruct (set_ROP_ok_fields (set_rop f' r' net' k) true) as (_ & -> & -> & ->).
  destruct (set_rop_fields k f' r' net') as (-> & -> & -> & _).
  destruct (Z.eq_dec (m_phaseExistsCheck k) 0) as [H0|H0].
  - destruct (Hz H0) as (-> & -> & Hn). apply Hn, Hj.
  - pose proof (check_phases_net k j (m_ropf k).[j] (m_ropr k).[j]) as Hd.
    rewrite <- (Hnz H0 j Hj) in Hd. exact Hd.
Qed.

Lemma updateROP_net_is_forward_minus_reverse_witness :
  (m_ropnet (updateROP_net (gas_and_missing_bulk (A:=Exact)))).[1]
  = (m_ropf (updateROP_net (gas_and_missing_bulk (A:=Exact)))).[1]
    -! (m_ropr (updateROP_net (gas_and_missing_bulk (A:=Exact)))).[1].
Proof.
  apply (updateROP_net_is_forward_minus_reverse (gas_and_missing_bulk (A:=Exact)));
    [reflexivity|reflexivity|reflexivity|cbn; lia].
Defined.

Section BetaLookup.
Context {A : Arith}.

Lemma electrochem_beta_from_spec (ctrxn : list Z) (beta : list num) (irxn : Z) :
  forall i0,
  (irxn ∉ ctrxn -> electrochem_beta_from i0 ctrxn beta irxn = lit 0) /\
  (forall i, ctrxn !! i = Some irxn ->
     (forall i', (i' < i)%nat -> ctrxn !! i' <> Some irxn) ->
     electrochem_beta_from i0 ctrxn beta irxn = beta.[i0 + i]).
Proof.
  induction ctrxn as [|c rest IH]; intros i0; cbn [electrochem_beta_from].
  - split; [reflexivity|]. intros i H. rewrite lookup_nil in H. discriminate.
  - destruct (IH (S i0)) as [IH0 IH1]. split.
    + intros Hn. apply not_elem_of_cons in Hn as [Hne Hn].
      destruct (Z.eqb_spec c irxn) as [->|_]; [congruence|]. apply IH0, Hn.
    + intros [|i] Hi Hfirst.
      * cbn in Hi. injection Hi as ->. rewrite Z.eqb_refl, Nat.add_0_r. reflexivity.
      * destruct (Z.eqb_spec c irxn) as [->|_].
        { exfalso. apply (Hfirst 0%nat); [lia|reflexivity]. }
        replace (i0 + S i)%nat with (S i0 + i)%nat by lia.
        apply IH1; [exact Hi|].
        intros i' Hi'. apply (Hfirst (S i')). lia.
Qed.

End BetaLookup.

(** X7.  The charge-transfer coefficient of a reaction.  [electrochem_beta]
    returns 0 for a reaction that is not in the list of charge-transfer
    reactions, and the coefficient stored at the same position for one that
    is; when a reaction is listed more than once, the first entry wins. *)
Theorem electrochem_beta_lookup {A : Arith} (k : InterfaceKinetics A) (irxn : Z) :
  (irxn ∉ m_ctrxn k -> electrochem_beta irxn k = lit 0) /\
  (forall i, m_ctrxn k !! i = Some irxn ->
     (forall i', (i' < i)%nat -> m_ctrxn k !! i' <> Some irxn) ->
     electrochem_beta irxn k = (m_beta k).[i]) /\
  (NoDup (m_ctrxn k) ->
   forall i, m_ctrxn k !! i = Some irxn -> electrochem_beta irxn k = (m_beta k).[i]).
Proof.
  destruct (electrochem_beta_from_spec (m_ctrxn k) (m_beta k) irxn 0) as [H0 H1].
  split; [exact H0|]. split; [exact H1|].
  intros Hnd i Hi. apply H1; [exact Hi|].
  intros i' Hi' Heq.
  assert (i' = i) by (eapply NoDup_lookup; eauto). lia.
Qed.

(** ** Regridding the solid fields *)

Section RegridErrors.
Context {A : Arith}.

Lemma resize_error {T} (n : Z) (d : T) (v : list T) (e : Error) :
  resize n d v = Err e -> e = length_error.
Proof. unfold resize. destruct (n >? max_size); intros H; congruence. Qed.

Lemma for_each_error {S I} (P : Error -> Prop) (body : I -> S -> Result S) (l : list I) :
  (forall i s e, body i s = Err e -> P e) ->
  forall s e, for_each body l s = Err e -> P e.
Proof.
  intros Hb. induction l as [|i l IH]; intros s e H; cbn [for_each] in H.
  - discriminate.
  - destruct (body i s) as [s'|e'] eqn:E; cbn [bind] in H.
    + exact (IH s' e H).
    + injection H as <-. exact (Hb i s e' E).
Qed.

Ltac resize_cases H :=
  repeat match type of H with
         | context [resize ?n ?d ?v] =>
             let E := fresh "E" in
             destruct (resize n d v) eqn:E; cbn [bind] in H;
             [|injection H as <-; left; exact (resize_error _ _ _ _ E)]
         end.

(** [setupGrid] of the base class throws nothing but the allocation error and
    the invalid-grid error. *)
Lemma StFlow_setupGrid_errors (z : list num) (s : StFlow A) (e : Error) :
  StFlow_setupGrid z s = Err e -> e = length_error \/ e = invalid_grid.
Proof.
  unfold StFlow_setupGrid. intros H.
  destruct (StFlow_resize (m_nv (grid s)) (length z) s) as [s1|e1] eqn:E1;
    cbn [bind] in H.
  - right. revert H. apply (for_each_error (fun e => e = invalid_grid)). intros i s0 e0.
    unfold setupGrid_step. destruct (z.[i] <=! z.[i - 1]); congruence.
  - injection H as <-. clear - E1. revert E1.
    unfold StFlow_resize, Array2D_resize. cbv zeta. intros H.
    resize_cases H.
    destruct (m_transport_option _); cbn [bind] in H; resize_cases H; discriminate H.
Qed.

Section Search.
Hypothesis above_is_at_least : forall a b : num, (a >! b) = true -> (a >=! b) = true.

(** The search of PorousFlow::setupGrid does not run off the old grid when
    the new coordinate is not at or past its last point. *)
Lemma advance_stays (mz : list num) (zi : num) (gap : nat) :
  forall j, (zi >=! mz.[j + 1 + gap]) = false ->
  exists j', advance gap zi mz j = Ok j' /\ (j <= j' <= j + gap)%nat.
Proof.
  induction gap as [|gap IH]; intros j Hlast; cbn [advance].
  - destruct (zi >! mz.[j + 1]) eqn:E.
    + apply above_is_at_least in E. rewrite Nat.add_0_r in Hlast. congruence.
    + exists j. split; [reflexivity|lia].
  - destruct (zi >! mz.[j + 1]) eqn:E.
    + destruct (IH (j + 1)%nat) as (j' & E' & Hj').
      { replace (j + 1 + 1 + gap)%nat with (j + 1 + S gap)%nat by lia. exact Hlast. }
      exists j'. split; [exact E'|lia].
    + exists j. split; [reflexivity|lia].
Qed.

Lemma regrid_loop_total (z mz TwTmp dqTmp : list num) (last : nat) (l : list nat) :
  (1 <= last)%nat ->
  forall tw dq j, (j + 1 <= last)%nat ->
  exists st,
    for_each (fun (i : nat) '((tw, dq, j) : list num * list num * nat) =>
         if z.[i] <=! mz.[0] then Ok (<[i := TwTmp.[0]]> tw, <[i := dqTmp.[0]]> dq, j)
         else if z.[i] >=! mz.[last] then
           Ok (<[i := TwTmp.[last]]> tw, <[i := dqTmp.[last]]> dq, j)
         else
           j <- advance (last - (j + 1)) z.[i] mz j ;;
           Ok (<[i := (lit 1 -! (z.[i] -! mz.[j]) /! (mz.[j + 1] -! mz.[j])) *! TwTmp.[j]
                      +! (z.[i] -! mz.[j]) /! (mz.[j + 1] -! mz.[j]) *! TwTmp.[j + 1]]> tw,
               <[i := (lit 1 -! (z.[i] -! mz.[j]) /! (mz.[j + 1] -! mz.[j])) *! dqTmp.[j]
                      +! (z.[i] -! mz.[j]) /! (mz.[j + 1] -! mz.[j]) *! dqTmp.[j + 1]]> dq,
               j))
      l (tw, dq, j) = Ok st.
Proof.
  intros Hlast. induction l as [|i l IH]; intros tw dq j Hj; cbn [for_each].
  - eexists; reflexivity.
  - destruct (z.[i] <=! mz.[0]); cbn [bind]; [apply IH, Hj|].
    destruct (z.[i] >=! mz.[last]) eqn:E; cbn [bind]; [apply IH, Hj|].
    destruct (advance_stays mz z.[i] (last - (j + 1)) j) as (j' & -> & Hj').
    { replace (j + 1 + (last - (j + 1)))%nat with last by lia. exact E. }
    cbn [bind]. apply IH. lia.
Qed.

End Search.
End RegridErrors.

(** X8.  PorousFlow::setupGrid never throws its integer 10.  When the old
    grid has at least two points and "greater" implies "greater or equal" for
    the numbers (as it does for doubles, NaN included, and for the exact
    numbers), the search for the interval of a new point stops inside the old
    grid; the only errors the call can end in are the allocation error and
    the invalid-grid error of the base class. *)
Theorem PorousFlow_setupGrid_never_throws_10 {A : Arith} (z : list num) (s : StFlow A)
    (e : Error) :
  (forall a b : num, (a >! b) = true -> (a >=! b) = true) ->
  (2 <= m_points (grid s))%nat ->
  PorousFlow_setupGrid z s = Err e ->
  e = length_error \/ e = invalid_grid.
Proof.
  intros Hlaw Hnp. unfold PorousFlow_setupGrid. cbv zeta. intros H.
  destruct (resize (Z.of_nat (length z)) (lit 0) (Tw (solidf s))) as [tw|e1] eqn:E1;
    cbn [bind] in H; [|injection H as <-; left; exact (resize_error _ _ _ _ E1)].
  destruct (resize (Z.of_nat (length z)) (lit 0) (dq (solidf s))) as [dq0|e2] eqn:E2;
    cbn [bind] in H; [|injection H as <-; left; exact (resize_error _ _ _ _ E2)].
  destruct (regrid_loop_total Hlaw z (m_z (grid s)) (Tw (solidf s)) (dq (solidf s))
              (m_points (grid s) - 1) (seq 0 (length z)) ltac:(lia) tw dq0 0 ltac:(lia))
    as ([[tw' dq'] j'] & E3).
  rewrite E3 in H. cbn [bind] in H.
  exact (StFlow_setupGrid_errors _ _ _ H).
Qed.

Lemma Exact_above_is_at_least (a b : @num Exact) : (a >! b) = true -> (a >=! b) = true.
Proof.
  change ((negb (Qle_bool a b)) = true -> Qle_bool b a = true).
  intros H. apply negb_true_iff in H. apply Qle_bool_iff.
  destruct (Qlt_le_dec b a) as [Hlt|Hle]; [apply Qlt_le_weak, Hlt|].
  apply Qle_bool_iff in Hle. congruence.
Qed.

Lemma PorousFlow_setupGrid_never_throws_10_witness :
  PorousFlow_setupGrid grid_021 (porous_domain (A:=Exact) (three (lit 0)))
  = Err invalid_grid /\
  (invalid_grid = length_error \/ invalid_grid = invalid_grid).
Proof.
  assert (H : PorousFlow_setupGrid grid_021 (porous_domain (A:=Exact) (three (lit 0)))
              = Err invalid_grid) by (vm_compute; reflexivity).
  split; [exact H|].
  apply (PorousFlow_setupGrid_never_throws_10 grid_021
           (porous_domain (A:=Exact) (three (lit 0))) invalid_grid
           Exact_above_is_at_least); [cbn; lia|exact H].
Defined.

(** The same for doubles, NaN included. *)
Lemma Float64_above_is_at_least (a b : @num Float64) :
  (a >! b) = true -> (a >=! b) = true.
Proof.
  change (PrimFloat.ltb b a = true -> PrimFloat.leb b a = true).
  rewrite FloatAxioms.ltb_spec, FloatAxioms.leb_spec.
  unfold SpecFloat.SFltb, SpecFloat.SFleb.
  destruct (SpecFloat.SFcompare _ _) as [[| |]|]; congruence.
Qed.

Section SameGrid.
Variables z TwTmp dqTmp : list (@num Exact).
Hypothesis increasing : strictly_increasing z.

Lemma increasing_lt (i j : nat) :
  (i < j)%nat -> (j < length z)%nat -> (z.[i] < z.[j])%Qc.
Proof.
  intros Hij Hj. induction j as [|j IH]; [lia|].
  assert (Hs : (z.[j] < z.[S j])%Qc).
  { destruct (lookup_lt_is_Some_2 z j) as [a Ha]; [lia|].
    destruct (lookup_lt_is_Some_2 z (S j)) as [b Hb]; [lia|].
    rewrite (vget_lookup (A:=Exact) _ _ _ Ha), (vget_lookup (A:=Exact) _ _ _ Hb).
    exact (increasing j a b Ha Hb). }
  destruct (decide (i = j)) as [->|Hne]; [exact Hs|].
  apply (Qclt_trans _ z.[j]); [apply IH; lia|exact Hs].
Qed.

(** On the old grid itself the search for point [i] ends at [i - 1]. *)
Lemma advance_same (i : nat) :
  (i < length z)%nat ->
  forall gap j, (j < i)%nat -> (i <= j + 1 + gap)%nat ->
  advance gap z.[i] z j = Ok (i - 1)%nat.
Proof.
  intros Hi. induction gap as [|gap IH]; intros j Hj Hgap; cbn [advance].
  - assert (j + 1 = i)%nat as -> by lia.
    change (z.[i] >! z.[i]) with (Qc_ltb z.[i] z.[i]). unfold Qc_ltb.
    rewrite (proj2 (Qle_bool_iff _ _)) by apply Qle_refl. cbn [negb].
    f_equal. lia.
  - destruct (decide (j + 1 = i)%nat) as [<-|Hne].
    + change (z.[j + 1] >! z.[j + 1]) with (Qc_ltb z.[j + 1] z.[j + 1]). unfold Qc_ltb.
      rewrite (proj2 (Qle_bool_iff _ _)) by apply Qle_refl. cbn [negb].
      f_equal. lia.
    + change (z.[i] >! z.[j + 1]) with (Qc_ltb z.[j + 1] z.[i]). unfold Qc_ltb.
      assert (Hlt : (z.[j + 1] < z.[i])%Qc) by (apply increasing_lt; lia).
      destruct (Qle_bool z.[i] z.[j + 1]) eqn:E.
      * apply Qle_bool_iff in E. exfalso. exact (Qclt_not_le _ _ Hlt E).
      * cbn [negb]. apply IH; lia.
Qed.

(** The linear interpolation at the right end of its interval. *)
Lemma interpolate_at_right_end (a b u v : @num Exact) :
  (a < b)%Qc ->
  (lit 1 -! (b -! a) /! (b -! a)) *! u +! (b -! a) /! (b -! a) *! v = v.
Proof.
  intros Hab.
  change (@num Exact) with Qc in *.
  change (@add Exact) with Qcplus; change (@sub Exact) with Qcminus;
    change (@mul Exact) with Qcmult; change (@div Exact) with Qcdiv.
  change (@lit Exact 1) with 1%Qc.
  field. intros H.
  assert (b = a) by (rewrite <- (Qcplus_0_l a), <- H; ring).
  subst. exact (Qclt_not_eq _ _ Hab eq_refl).
Qed.

Lemma regrid_same_loop :
  length TwTmp = length z -> length dqTmp = length z ->
  forall k a tw dq j,
  (a + k = length z)%nat -> (j <= a - 1)%nat ->
  length tw = length z -> length dq = length z ->
  (forall i, (i < a)%nat -> tw !! i = TwTmp !! i /\ dq !! i = dqTmp !! i) ->
  exists j',
    for_each (fun (i : nat) '((tw, dq, j) : list num * list num * nat) =>
         if z.[i] <=! z.[0] then Ok (<[i := TwTmp.[0]]> tw, <[i := dqTmp.[0]]> dq, j)
         else if z.[i] >=! z.[length z - 1] then
           Ok (<[i := TwTmp.[length z - 1]]> tw, <[i := dqTmp.[length z - 1]]> dq, j)
         else
           j <- advance (length z - 1 - (j + 1)) z.[i] z j ;;
           Ok (<[i := (lit 1 -! (z.[i] -! z.[j]) /! (z.[j + 1] -! z.[j])) *! TwTmp.[j]
                      +! (z.[i] -! z.[j]) /! (z.[j + 1] -! z.[j]) *! TwTmp.[j + 1]]> tw,
               <[i := (lit 1 -! (z.[i] -! z.[j]) /! (z.[j + 1] -! z.[j])) *! dqTmp.[j]
                      +! (z.[i] -! z.[j]) /! (z.[j + 1] -! z.[j]) *! dqTmp.[j + 1]]> dq,
               j))
      (seq a k) (tw, dq, j) = Ok (TwTmp, dqTmp, j').
Proof.
  intros LT LD. induction k as [|k IH]; intros a tw dq j Hak Hj Ltw Ldq Hpre.
  - exists j. cbn [seq for_each].
    assert (Et : tw = TwTmp).
    { apply list_eq. intros i. destruct (decide (i < length z)%nat);
        [apply Hpre; lia|rewrite !lookup_ge_None_2 by lia; reflexivity]. }
    assert (Ed : dq = dqTmp).
    { apply list_eq. intros i. destruct (decide (i < length z)%nat);
        [apply Hpre; lia|rewrite !lookup_ge_None_2 by lia; reflexivity]. }
    rewrite Et, Ed. reflexivity.
  - cbn [seq for_each].
    lazymatch goal with
    | |- context [for_each ?f (seq (S a) k)] =>
        assert (Hnext : forall tw' dq' j',
                  tw' = <[a := TwTmp.[a]]> tw -> dq' = <[a := dqTmp.[a]]> dq ->
                  (j' <= a)%nat ->
                  exists j'', for_each f (seq (S a) k) (tw', dq', j')
                              = Ok (TwTmp, dqTmp, j''))
    end.
    { intros tw' dq' j' -> -> Hj'.
      apply IH; [lia|lia|rewrite length_insert; exact Ltw|rewrite length_insert; exact Ldq|].
      intros i Hi. destruct (decide (i = a)) as [->|Hne].
      - rewrite !list_lookup_insert_eq by lia.
        destruct (lookup_lt_is_Some_2 TwTmp a) as [u Hu]; [lia|].
        destruct (lookup_lt_is_Some_2 dqTmp a) as [v Hv]; [lia|].
        rewrite (vget_lookup (A:=Exact) _ _ _ Hu), (vget_lookup (A:=Exact) _ _ _ Hv).
        split; congruence.
      - rewrite !list_lookup_insert_ne by congruence. apply Hpre. lia. }
    destruct (decide (a = 0)%nat) as [->|Ha0].
    { change (z.[0] <=! z.[0]) with (Qc_leb z.[0] z.[0]).
      rewrite Qc_leb_true by apply Qcle_refl. cbn [bind].
      apply Hnext; [reflexivity|reflexivity|lia]. }
    change (z.[a] <=! z.[0]) with (Qc_leb z.[a] z.[0]).
    rewrite Qc_leb_false by (apply increasing_lt; lia).
    destruct (decide (a = length z - 1)%nat) as [Hl|Hl].
    { assert (E : (z.[a] >=! z.[length z - 1]) = true).
      { rewrite <- Hl. change (z.[a] >=! z.[a]) with (Qc_leb z.[a] z.[a]).
        apply Qc_leb_true, Qcle_refl. }
      rewrite E. cbn [bind].
      apply Hnext; [rewrite <- Hl; reflexivity|rewrite <- Hl; reflexivity|lia]. }
    change (z.[a] >=! z.[length z - 1]) with (Qc_leb z.[length z - 1] z.[a]).
    rewrite Qc_leb_false by (apply increasing_lt; lia).
    rewrite (advance_same a) by lia. cbn [bind].
    replace (a - 1 + 1)%nat with a by lia.
    rewrite !interpolate_at_right_end by (apply increasing_lt; lia).
    apply Hnext; [reflexivity|reflexivity|lia].
Qed.

End SameGrid.

Section GridFrames.
Context {A : Arith}.

Lemma for_each_obs {S I T} (obs : S -> T) (body : I -> S -> Result S) (l : list I) :
  (forall i s s', body i s = Ok s' -> obs s' = obs s) ->
  forall s s', for_each body l s = Ok s' -> obs s' = obs s.
Proof.
  intros Hb. induction l as [|i l IH]; intros s s' H; cbn [for_each] in H.
  - injection H as <-. reflexivity.
  - destruct (body i s) as [s1|e] eqn:E; cbn [bind] in H; [|discriminate].
    rewrite (IH s1 s' H). exact (Hb i s s1 E).
Qed.

Lemma resize_same {T} (n : Z) (d : T) (v : list T) :
  0 <= n <= max_size -> length v = Z.to_nat n -> resize n d v = Ok v.
Proof.
  intros Hn Hl. unfold resize.
  destruct (Z.gtb_spec n max_size) as [Hgt|_]; [lia|].
  rewrite <- Hl, firstn_all, Nat.sub_diag. cbn [replicate]. rewrite app_nil_r. reflexivity.
Qed.

(** [setupGrid] of the base class leaves the solid fields, the anchor, the
    thermodynamic state and the log alone. *)
Lemma StFlow_setupGrid_frame (z : list num) (s s' : StFlow A) :
  StFlow_setupGrid z s = Ok s' ->
  solidf s' = solidf s /\ anchor s' = anchor s /\ m_thermo s' = m_thermo s /\
  logged s' = logged s.
Proof.
  unfold StFlow_setupGrid. intros H.
  destruct (StFlow_resize (m_nv (grid s)) (length z) s) as [s1|e1] eqn:E1;
    cbn [bind] in H; [|discriminate].
  assert (H1 : (solidf s1, anchor s1, m_thermo s1, logged s1)
               = (solidf s, anchor s, m_thermo s, logged s)).
  { clear H. revert E1. unfold StFlow_resize, Array2D_resize. cbv zeta. intros H.
    repeat match type of H with
           | context [resize ?n ?d ?v] =>
               destruct (resize n d v); cbn [bind] in H; [|discriminate H]
           end.
    destruct (m_transport_option _); cbn [bind] in H;
      repeat match type of H with
             | context [resize ?n ?d ?v] =>
                 destruct (resize n d v); cbn [bind] in H; [|discriminate H]
             end;
      injection H as <-; reflexivity. }
  assert (H2 : (solidf s', anchor s', m_thermo s', logged s')
               = (solidf s1, anchor s1, m_thermo s1, logged s1)).
  { apply (for_each_obs (fun s : StFlow A => (solidf s, anchor s, m_thermo s, logged s)))
      in H; [exact H|].
    intros i s0 s0'. unfold setupGrid_step.
    destruct (z.[i] <=! z.[i - 1]); [discriminate|]. intros E. injection E as <-.
    reflexivity. }
  rewrite H1 in H2. injection H2 as -> -> -> ->. repeat split.
Qed.

End GridFrames.

(** On an increasing array [setupGrid] of the base class succeeds and stores
    the array. *)
Lemma StFlow_setupGrid_increasing (s : StFlow Exact) (z : list (@num Exact)) :
  allocatable (m_nsp (grid s)) (length z) -> z <> [] -> strictly_increasing z ->
  exists s', StFlow_setupGrid z s = Ok s' /\
    m_points (grid s') = length z /\ m_z (grid s') = z.
Proof.
  intros Halloc Hne Hinc.
  assert (Hn : (1 <= length z)%nat) by (destruct z; [congruence|cbn; lia]).
  destruct (StFlow_resize_ok (m_nv (grid s)) (length z) s Hn Halloc) as (s1 & E1 & R1).
  unfold StFlow_setupGrid. rewrite E1. cbn [bind].
  set (s2 := on_grid _ s1).
  assert (Hp2 : m_points (grid s2) = length z).
  { subst s2. destruct R1. destruct s1 as [[] ? ? ? ? ? ?]. cbn in *. auto. }
  assert (Hr : range 1 (Z.of_nat (length z)) = seq 1 (length z - 1))
    by (apply (range_from 1); lia).
  rewrite Hp2, Hr.
  destruct (setupGrid_loop_fills z (length z) s2 eq_refl (length z - 1) 1 s2)
    as (s' & E' & F'); [lia|lia| | |].
  - intros j Hj.
    destruct (lookup_lt_is_Some_2 z j) as [b Hb]; [lia|].
    destruct (lookup_lt_is_Some_2 z (j - 1)) as [a Ha]; [lia|].
    rewrite (vget_lookup (A:=Exact) _ _ _ Hb), (vget_lookup (A:=Exact) _ _ _ Ha).
    apply Qc_leb_false. apply (Hinc (j - 1)%nat); [exact Ha|].
    replace (S (j - 1)) with j by lia. exact Hb.
  - subst s2. destruct R1. destruct s1 as [[] ? ? ? ? ? ?]. cbn in *.
    constructor; cbn; auto.
    + rewrite length_insert. auto.
    + intros i Hi. assert (i = 0)%nat as -> by lia.
      rewrite list_lookup_insert_eq by lia.
      destruct z as [|z0 z]; [congruence|]. reflexivity.
    + intros i Hi. lia.
  - exists s'. split; [exact E'|].
    destruct F' as [Hc Ht Hnv Hp Hs Hlz Hldz Hz Hdz].
    split; [rewrite Hp; exact Hp2|].
    apply list_eq. intros i.
    destruct (decide (i < length z)%nat) as [Hi|Hi].
    + apply Hz. exact Hi.
    + rewrite !lookup_ge_None_2 by lia. reflexivity.
Qed.

(** X9.  Regridding the porous domain onto the grid it already has changes
    neither solid field.  In exact arithmetic, for a strictly increasing grid
    with one solid temperature and one net radiative flux per point,
    PorousFlow::setupGrid called with the current coordinates succeeds and
    leaves [Tw], [dq], the coordinates and the point count as they were: the
    interpolation weight of every interior point is exactly one. *)
Theorem PorousFlow_setupGrid_same_grid (s : StFlow Exact) :
  (1 <= m_points (grid s))%nat ->
  length (m_z (grid s)) = m_points (grid s) ->
  strictly_increasing (m_z (grid s)) ->
  length (Tw (solidf s)) = m_points (grid s) ->
  length (dq (solidf s)) = m_points (grid s) ->
  allocatable (m_nsp (grid s)) (m_points (grid s)) ->
  exists s',
    PorousFlow_setupGrid (m_z (grid s)) s = Ok s' /\
    Tw (solidf s') = Tw (solidf s) /\ dq (solidf s') = dq (solidf s) /\
    m_z (grid s') = m_z (grid s) /\ m_points (grid s') = m_points (grid s).
Proof.
  intros Hnp Hlz Hinc Ltw Ldq Halloc.
  unfold PorousFlow_setupGrid. cbv zeta.
  assert (Hmax : Z.of_nat (m_points (grid s)) <= max_size) by apply Halloc.
  rewrite (resize_same _ _ (Tw (solidf s))) by (rewrite ?Nat2Z.id; lia).
  rewrite (resize_same _ _ (dq (solidf s))) by (rewrite ?Nat2Z.id; lia).
  cbn [bind]. rewrite <- Hlz.
  destruct (regrid_same_loop (m_z (grid s)) (Tw (solidf s)) (dq (solidf s)) Hinc
              ltac:(lia) ltac:(lia) (length (m_z (grid s))) 0
              (Tw (solidf s)) (dq (solidf s)) 0)
    as (j' & E); [lia|lia|lia|lia|intros i Hi; lia|].
  rewrite E. cbn [bind].
  destruct (StFlow_setupGrid_increasing
              (on_solid (fun p => set_dq (dq (solidf s)) (set_Tw (Tw (solidf s)) p)) s)
              (m_z (grid s))) as (s' & E' & Hp & Hz).
  - rewrite Hlz. exact Halloc.
  - intros H0. rewrite H0 in Hlz. cbn in Hlz. lia.
  - exact Hinc.
  - exists s'. split; [exact E'|].
    destruct (StFlow_setupGrid_frame _ _ _ E') as (Hs & _).
    rewrite Hs. repeat split; [exact Hz|lia].
Qed.

Lemma PorousFlow_setupGrid_same_grid_witness :
  exists s',
    PorousFlow_setupGrid grid_012 (porous_domain (A:=Exact) (three (lit 5))) = Ok s' /\
    Tw (solidf s') = three (lit 300) /\ dq (solidf s') = three (lit 5).
Proof.
  destruct (PorousFlow_setupGrid_same_grid (porous_domain (A:=Exact) (three (lit 5))))
    as (s' & E & Ht & Hd & _).
  - cbn. lia.
  - reflexivity.
  - intros [|[|[|j]]] a b Ha Hb; cbn in Ha, Hb; try discriminate;
      inversion Ha; inversion Hb; subst; reflexivity.
  - reflexivity.
  - reflexivity.
  - unfold allocatable, max_size. cbn. lia.
  - exists s'. split; [exact E|]. split; [exact Ht|exact Hd].
Defined.

(** ** Component names *)

Section ComponentFacts.
Context {A : Arith}.

Lemma componentName_species (n : nat) (s : StFlow A) :
  (4 <= n < 4 + m_nsp (grid s))%nat ->
  componentName n s = speciesName (n - 4) s.
Proof.
  intros Hn. unfold componentName, c_offset_Y.
  destruct n as [|[|[|[|n]]]]; try lia.
  assert ((4 <=? S (S (S (S n))))%nat = true) as -> by (apply Nat.leb_le; lia).
  assert ((S (S (S (S n))) <? 4 + m_nsp (grid s))%nat = true) as ->
    by (apply Nat.ltb_lt; lia).
  reflexivity.
Qed.

Lemma seq_split_at (a n i : nat) :
  (i < n)%nat -> seq a n = seq a i ++ (a + i)%nat :: seq (a + i + 1) (n - i - 1).
Proof.
  intros Hi. replace n with (i + (1 + (n - i - 1)))%nat at 1 by lia.
  rewrite seq_app. cbn [seq Nat.add]. do 3 f_equal. lia.
Qed.

End ComponentFacts.

(** X10.  Component names and indices are inverse to each other.  Whenever
    [componentIndex] finds a name, the index it returns is that of a
    component with this name; a component past the last species is called
    "<unknown>"; and when the species names are distinct and none of them is
    "u", "V", "T" or "lambda", [componentIndex (componentName n)] is [n] for
    every component [n] of the domain. *)
Theorem componentIndex_inverts_componentName {A : Arith} (s : StFlow A) :
  Z.of_nat (4 + m_nsp (grid s)) <= max_size ->
  (forall name, componentIndex name s <> npos ->
     0 <= componentIndex name s < Z.of_nat (4 + m_nsp (grid s)) /\
     componentName (Z.to_nat (componentIndex name s)) s = name) /\
  (forall n, (4 + m_nsp (grid s) <= n)%nat -> componentName n s = "<unknown>") /\
  (length (speciesNames (settings s)) = m_nsp (grid s) ->
   NoDup (speciesNames (settings s)) ->
   (forall nm, nm ∈ speciesNames (settings s) -> nm ∉ flow_component_names) ->
   forall n, (n < 4 + m_nsp (grid s))%nat ->
     componentIndex (componentName n s) s = Z.of_nat n).
Proof.
  intros Hmax. split; [|split].
  - intros name. unfold componentIndex.
    destruct (String.eqb_spec name "u") as [->|_]; [intros _; split; [lia|reflexivity]|].
    destruct (String.eqb_spec name "V") as [->|_]; [intros _; split; [lia|reflexivity]|].
    destruct (String.eqb_spec name "T") as [->|_]; [intros _; split; [lia|reflexivity]|].
    destruct (String.eqb_spec name "lambda") as [->|_];
      [intros _; split; [lia|reflexivity]|].
    destruct (find _ (seq 4 (m_nsp (grid s)))) as [n|] eqn:E; [|congruence].
    intros _. apply find_some in E as [Hin Heq].
    apply in_seq in Hin. apply String.eqb_eq in Heq.
    rewrite Nat2Z.id. split; [lia|exact Heq].
  - intros n Hn. unfold componentName, c_offset_Y.
    destruct n as [|[|[|[|n]]]]; try lia.
    assert ((S (S (S (S n))) <? 4 + m_nsp (grid s))%nat = false) as ->
      by (apply Nat.ltb_ge; lia).
    rewrite andb_false_r. reflexivity.
  - intros Hlen Hnd Hfresh n Hn.
    destruct n as [|[|[|[|n]]]]; try reflexivity.
    set (m := S (S (S (S n)))).
    assert (Hm : (4 <= m < 4 + m_nsp (grid s))%nat) by (subst m; lia).
    rewrite (componentName_species m s Hm).
    assert (Hk : speciesNames (settings s) !! (m - 4)%nat = Some (speciesName (m - 4) s)).
    { unfold speciesName.
      destruct (lookup_lt_is_Some_2 (speciesNames (settings s)) (m - 4)) as [nm ->];
        [lia|reflexivity]. }
    assert (Hnot : speciesName (m - 4) s ∉ flow_component_names).
    { apply Hfresh. eapply list_elem_of_lookup_2. exact Hk. }
    unfold componentIndex.
    assert (Hne : forall t, t ∈ flow_component_names ->
              String.eqb (speciesName (m - 4) s) t = false).
    { intros t Ht. apply String.eqb_neq. intros E. apply Hnot. rewrite E. exact Ht. }
    rewrite !Hne
      by (unfold flow_component_names;
          repeat first [apply list_elem_of_here | apply list_elem_of_further]).
    rewrite (seq_split_at 4 (m_nsp (grid s)) (m - 4)) by lia.
    replace (4 + (m - 4))%nat with m by lia.
    rewrite (find_first _ _ _ m).
    + reflexivity.
    + intros b Hb. apply elem_of_seq in Hb.
      rewrite (componentName_species b s) by lia.
      apply String.eqb_neq. intros E.
      assert (Hb' : speciesNames (settings s) !! (b - 4)%nat = Some (speciesName (m - 4) s)).
      { unfold speciesName at 1 in E. rewrite <- E. unfold speciesName.
        destruct (lookup_lt_is_Some_2 (speciesNames (settings s)) (b - 4)) as [nm ->];
          [lia|reflexivity]. }
      assert ((b - 4 = m - 4)%nat) by (eapply NoDup_lookup; eauto). lia.
    + rewrite (componentName_species m s Hm). apply String.eqb_refl.
Qed.

Lemma componentIndex_inverts_componentName_witness :
  componentIndex "O2" (named_flow (A:=Float64)) = 5 /\
  componentName 5 (named_flow (A:=Float64)) = "O2" /\
  componentIndex "lambda" (named_flow (A:=Float64)) = 3.
Proof.
  destruct (componentIndex_inverts_componentName (named_flow (A:=Float64)))
    as (_ & _ & H); [unfold max_size; cbn; lia|].
  split; [|split; reflexivity].
  refine (H eq_refl _ _ 5%nat _).
  - apply NoDup_cons. split; [|apply NoDup_singleton].
    intros Hx. apply list_elem_of_singleton in Hx. discriminate Hx.
  - intros nm Hnm Hin.
    apply elem_of_cons in Hnm as [->|Hnm];
      [|apply list_elem_of_singleton in Hnm; subst nm];
      repeat (apply elem_of_cons in Hin as [Hin|Hin]; [discriminate Hin|]);
      apply elem_of_nil in Hin; exact Hin.
  - cbn. lia.
Defined.

(** ** The fixed temperature profile *)

Section FinalizeProfile.
Context {A : Arith} {E : Externals A}.

(** The loop of [_finalize] is a loop of stores into [m_fixedtemp]. *)
Lemma finalize_loop (x : list num) (s : StFlow A) (l : list nat) :
  forall v,
  fold_left (fun s0 j =>
      if bget (m_do_energy (settings s)) 0 || (length (m_zfix (settings s)) =? 0)%nat then
        on_settings (fun t => set_m_fixedtemp (<[j := T s0 x j]> (m_fixedtemp t)) t) s0
      else
        on_settings (fun t =>
          set_m_fixedtemp
            (<[j := linearInterp
                      ((z s0 j -! z s0 0) /! (z s0 (m_points (grid s0) - 1) -! z s0 0))
                      (m_zfix (settings s0)) (m_tfix (settings s0))]> (m_fixedtemp t)) t) s0)
    l (on_settings (set_m_fixedtemp v) s)
  = on_settings (set_m_fixedtemp (fold_left (fun v j => <[j := finalize_value x s j]> v) l v)) s.
Proof.
  induction l as [|j l IH]; intros v; [reflexivity|].
  cbn [fold_left]. rewrite <- IH. f_equal.
  unfold finalize_value.
  destruct (bget (m_do_energy (settings s)) 0 || (length (m_zfix (settings s)) =? 0)%nat);
    reflexivity.
Qed.

End FinalizeProfile.

(** X11.  [_finalize] refreshes the fixed temperature profile at every point.
    With one entry of [m_fixedtemp] per point: when the energy equation is
    enabled at the first point, or no profile has been stored, the entry of
    point [j] becomes the temperature [T(x,j)] of the solution; otherwise it
    becomes the stored profile interpolated at the relative position of the
    point.  The grid and the anchor are not touched, and the energy flags
    change only through [solveEnergyEqn], called when the flag of the first
    point is set. *)
Theorem finalize_refreshes_fixed_profile {A : Arith} {E : Externals A}
    (x : list num) (s : StFlow A) :
  length (m_fixedtemp (settings s)) = m_points (grid s) ->
  let s' := StFlow_finalize x s in
  grid s' = grid s /\ anchor s' = anchor s /\
  (bget (m_do_energy (settings s)) 0 = true \/ m_zfix (settings s) = [] ->
   forall j, (j < m_points (grid s))%nat -> T_fixed s' j = T s x j) /\
  (bget (m_do_energy (settings s)) 0 = false -> m_zfix (settings s) <> [] ->
   forall j, (j < m_points (grid s))%nat ->
     T_fixed s' j
     = linearInterp ((z s j -! z s 0) /! (z s (m_points (grid s) - 1) -! z s 0))
                    (m_zfix (settings s)) (m_tfix (settings s))) /\
  m_do_energy (settings s')
  = if bget (m_do_energy (settings s)) 0 then solveEnergyEqn (m_do_energy (settings s))
    else m_do_energy (settings s).
Proof.
  intros Hlen s'.
  assert (Hfix : forall j, (j < m_points (grid s))%nat ->
            T_fixed s' j = finalize_value x s j).
  { intros j Hj. subst s'. unfold StFlow_finalize. cbv zeta.
    assert (Hr : range 0 (Z.of_nat (m_points (grid s))) = seq 0 (m_points (grid s))).
    { rewrite (range_from 0) by lia. f_equal. lia. }
    rewrite Hr.
    pose proof (finalize_loop x s (seq 0 (m_points (grid s)))
                  (m_fixedtemp (settings s))) as Hloop.
    change (on_settings (set_m_fixedtemp (m_fixedtemp (settings s))) s) with s in Hloop.
    rewrite Hloop.
    destruct (fold_store_lookup (finalize_value x s) (m_points (grid s))
                (m_fixedtemp (settings s))) as [_ Hk].
    specialize (Hk j). destruct (decide _) as [_|Hn]; [|lia].
    unfold T_fixed.
    destruct (bget (m_do_energy (settings s)) 0); apply vget_lookup; exact Hk. }
  destruct (StFlow_finalize_frame x s) as [Hg Ha].
  split; [exact Hg|]. split; [exact Ha|]. split; [|split].
  - intros Hc j Hj. rewrite (Hfix j Hj). unfold finalize_value.
    destruct Hc as [->| ->]; [reflexivity|].
    rewrite orb_true_r. reflexivity.
  - intros He Hz j Hj. rewrite (Hfix j Hj). unfold finalize_value.
    rewrite He. destruct (m_zfix (settings s)); [congruence|]. reflexivity.
  - subst s'. unfold StFlow_finalize. cbv zeta.
    assert (Hr : range 0 (Z.of_nat (m_points (grid s))) = seq 0 (m_points (grid s))).
    { rewrite (range_from 0) by lia. f_equal. lia. }
    rewrite Hr.
    pose proof (finalize_loop x s (seq 0 (m_points (grid s)))
                  (m_fixedtemp (settings s))) as Hloop.
    change (on_settings (set_m_fixedtemp (m_fixedtemp (settings s))) s) with s in Hloop.
    rewrite Hloop.
    destruct (bget (m_do_energy (settings s)) 0); reflexivity.
Qed.

Lemma finalize_refreshes_fixed_profile_witness :
  T_fixed (StFlow_finalize (E:=plain) warm_solution
             (unit_flow (A:=Float64) 2 c_Mixav_Transport grid_012)) 1
  = T (unit_flow (A:=Float64) 2 c_Mixav_Transport grid_012) warm_solution 1.
Proof.
  destruct (finalize_refreshes_fixed_profile (E:=plain) warm_solution
              (unit_flow (A:=Float64) 2 c_Mixav_Transport grid_012))
    as (_ & _ & H & _); [reflexivity|].
  apply H; [right; reflexivity|cbn; lia].
Defined.

(** ** The radiation block *)

Section RadiationFacts.
Context {A : Arith} {L : Libm A} {E : Externals A}.

(** The loop of the radiation block is a loop of stores into
    [m_qdotRadiation]. *)
Lemma radiation_loop (s : StFlow A) (loss : StFlow A -> nat -> num) (l : list nat) :
  forall v, exists v',
    fold_left (fun s0 j =>
                 on_cache (fun c => set_m_qdotRadiation
                                      (<[j := loss s0 j]> (m_qdotRadiation c)) c) s0)
              l (on_cache (set_m_qdotRadiation v) s)
    = on_cache (set_m_qdotRadiation v') s /\
    length v' = length v /\
    (forall j, j ∉ l -> v' !! j = v !! j) /\
    ((forall s0 j, grid s0 = grid s -> settings s0 = settings s -> loss s0 j = loss s j) ->
     forall j, j ∈ l -> (j < length v)%nat -> v' !! j = Some (loss s j)).
Proof.
  induction l as [|i l IH]; intros v.
  - exists v. cbn [fold_left]. repeat split. intros _ j Hj. inversion Hj.
  - cbn [fold_left].
    destruct (IH (<[i := loss (on_cache (set_m_qdotRadiation v) s) i]> v))
      as (v' & E' & Hl & Hout & Hin).
    exists v'. split; [exact E'|]. split; [rewrite Hl; apply length_insert|]. split.
    + intros j Hj. apply not_elem_of_cons in Hj as [Hne Hj].
      rewrite (Hout j Hj). apply list_lookup_insert_ne. congruence.
    + intros Hloss j Hj Hlen.
      destruct (decide (j ∈ l)) as [Hjl|Hjl].
      * apply (Hin Hloss j Hjl). rewrite length_insert. exact Hlen.
      * apply elem_of_cons in Hj as [->|Hj]; [|contradiction].
        rewrite (Hout i Hjl), list_lookup_insert_eq by exact Hlen.
        f_equal. apply Hloss; reflexivity.
Qed.

End RadiationFacts.

(** X12.  The radiation block of [eval] refreshes the radiative heat loss at
    the points [jmin <= j < jmax] only: the entry of [jmax], whose energy row
    the same call evaluates, and every entry outside the window keep the
    value of an earlier call, and nothing else of the domain changes.  When
    the mechanism has neither CO2 nor H2O (both radiating indices are [npos])
    the loss stored is [2 * 0 * (2 sigma T^4 - left - right)]. *)
Theorem radiation_refreshes_window {A : Arith} {L : Libm A} {E : Externals A}
    (x : list num) (jmin jmax : Z) (s : StFlow A) :
  0 <= jmin ->
  exists qdot,
    radiation x jmin jmax s = on_cache (set_m_qdotRadiation qdot) s /\
    length qdot = length (m_qdotRadiation (cache s)) /\
    (forall j, ~ (jmin <= Z.of_nat j < jmax) ->
       qdot !! j = m_qdotRadiation (cache s) !! j) /\
    (m_kRadiating (settings s) = [npos; npos] ->
     forall j, jmin <= Z.of_nat j < jmax ->
       (j < length (m_qdotRadiation (cache s)))%nat ->
       qdot !! j
       = Some (lit 2 *! lit 0 *!
               (lit 2 *! StefanBoltz *! pow (T s x j) (lit 4)
                -! m_epsilon_left (settings s) *! StefanBoltz *! pow (T s x 0) (lit 4)
                -! m_epsilon_right (settings s) *! StefanBoltz
                   *! pow (T s x (Z.to_nat (wrap (Z.of_nat (m_points (grid s)) - 1))))
                          (lit 4)))).
Proof.
  intros Hmin. unfold radiation. cbv zeta.
  match goal with
  | |- context [fold_left (fun s0 j => on_cache (fun c => set_m_qdotRadiation
                                          (<[j := @?loss s0 j]> (m_qdotRadiation c)) c) s0)
                          _ s] =>
      destruct (radiation_loop s loss (range jmin jmax) (m_qdotRadiation (cache s)))
        as (v' & E' & Hl & Hout & Hin)
  end.
  change (on_cache (set_m_qdotRadiation (m_qdotRadiation (cache s))) s) with s in E'.
  exists v'. split; [exact E'|]. split; [exact Hl|]. split.
  - intros j Hj. apply Hout. intros Hin'. apply elem_of_range in Hin'; [|exact Hmin].
    contradiction.
  - intros Hk j Hj Hlen.
    rewrite (Hin) with (j := j); [| |apply elem_of_range; assumption|exact Hlen].
    + cbv beta. rewrite Hk. reflexivity.
    + intros s0 j0 Hg Hs. cbv beta. rewrite Hs, Hk. cbn [lookup list_lookup default].
      unfold T, index. rewrite Hg. reflexivity.
Qed.

Lemma radiation_refreshes_window_witness :
  exists qdot,
    radiation (E:=plain) warm_solution 0 2
      (unit_flow (A:=Float64) 2 c_Mixav_Transport grid_012)
    = on_cache (set_m_qdotRadiation qdot)
        (unit_flow (A:=Float64) 2 c_Mixav_Transport grid_012) /\
    qdot !! 2%nat
    = m_qdotRadiation (cache (unit_flow (A:=Float64) 2 c_Mixav_Transport grid_012)) !! 2%nat.
Proof.
  destruct (radiation_refreshes_window (E:=plain) warm_solution 0 2
              (unit_flow (A:=Float64) 2 c_Mixav_Transport grid_012))
    as (qdot & E1 & _ & Hout & _); [lia|].
  exists qdot. split; [exact E1|]. apply Hout. lia.
Defined.

(** ** Choosing the transport model *)

(** X14.  The Soret flag and the transport model.  After a [setTransport] or
    an [enableSoret] that returns normally, the Soret flag has the value
    asked for and is set only under the multicomponent model.  [enableSoret]
    under any other model throws and changes nothing.  [setTransport] with a
    mixture-averaged model and [withSoret] throws as well, but only after it
    has stored the flag and the model: the domain it leaves behind has the
    Soret flag set under the mixture-averaged model.  With an unknown model
    it throws after storing the flag, with the transport option as before. *)
Theorem soret_flag_and_transport_model {A : Arith} (s : StFlow A) :
  (forall model withSoret s',
     setTransport model withSoret s = (s', None) ->
     m_do_soret (settings s') = withSoret /\
     (m_do_soret (settings s') = true ->
      m_transport_option (settings s') = c_Multi_Transport)) /\
  (forall withSoret s',
     enableSoret withSoret s = (s', None) ->
     m_do_soret (settings s') = withSoret /\
     m_transport_option (settings s') = c_Multi_Transport) /\
  (forall withSoret,
     m_transport_option (settings s) <> c_Multi_Transport ->
     enableSoret withSoret s = (s, Some soret_error)) /\
  (forall model,
     model = cMixtureAveraged \/ model = CK_MixtureAveraged ->
     Z.of_nat (m_nsp (grid s)) * Z.of_nat (m_points (grid s)) <= max_size ->
     exists s',
       setTransport model true s = (s', Some soret_error) /\
       m_do_soret (settings s') = true /\
       m_transport_option (settings s') = c_Mixav_Transport) /\
  (forall withSoret,
     exists s',
       setTransport other_model withSoret s
       = (s', Some (CanteraError "setTransport" "unknown transport model.")) /\
       m_do_soret (settings s') = withSoret /\
       m_transport_option (settings s') = m_transport_option (settings s)).
Proof.
  split; [|split; [|split; [|split]]].
  - intros model withSoret s' H. unfold setTransport, Array2D_resize in H. cbv zeta in H.
    destruct model;
      repeat match type of H with
             | context [resize ?n ?d ?v] => destruct (resize n d v)
             end;
      try destruct withSoret; try discriminate H;
      injection H as <-; (split; [reflexivity|]); intros H'; try discriminate H';
      reflexivity.
  - intros withSoret s' H. unfold enableSoret in H.
    destruct (m_transport_option (settings s)) eqn:E; try discriminate H.
    injection H as <-. split; [reflexivity|exact E].
  - intros withSoret H. unfold enableSoret.
    destruct (m_transport_option (settings s)); [reflexivity|reflexivity|congruence].
  - intros model Hm Hmax. unfold setTransport. cbv zeta.
    destruct (resize_Ok (wrap (Z.of_nat (m_nsp (grid s)) * Z.of_nat (m_points (grid s))))
                num0 (m_diff (cache s))) as (l & El & _).
    { rewrite wrap_small by (unfold max_size in *; lia). lia. }
    destruct Hm as [-> | ->];
      change (m_diff (cache (on_settings (set_m_transport_option c_Mixav_Transport)
                               (on_settings (set_m_do_soret true) s))))
        with (m_diff (cache s));
      change (m_nsp (grid (on_settings (set_m_do_soret true) s))) with (m_nsp (grid s));
      change (m_points (grid (on_settings (set_m_do_soret true) s)))
        with (m_points (grid s));
      rewrite El; eexists; (split; [reflexivity|split; reflexivity]).
  - intros withSoret. eexists. split; [reflexivity|]. split; reflexivity.
Qed.

Lemma soret_flag_and_transport_model_witness :
  exists s',
    setTransport cMixtureAveraged true (new_flow (A:=Float64) 2 c_None_Transport)
    = (s', Some soret_error) /\
    m_do_soret (settings s') = true /\
    m_transport_option (settings s') = c_Mixav_Transport.
Proof.
  apply (soret_flag_and_transport_model (new_flow (A:=Float64) 2 c_None_Transport)).
  - left. reflexivity.
  - vm_compute. discriminate.
Defined.

(** ** Saving and restoring *)

Section GridAccepted.
Context {A : Arith}.

(** [StFlow::resize] touches two of the settings only. *)
Lemma StFlow_resize_settings (nv n : nat) (s s' : StFlow A) :
  StFlow_resize nv n s = Ok s' ->
  m_press (settings s') = m_press (settings s) /\
  m_do_species (settings s') = m_do_species (settings s) /\
  speciesNames (settings s') = speciesNames (settings s) /\
  loc (grid s') = loc (grid s).
Proof.
  unfold StFlow_resize, Array2D_resize. cbv zeta. intros H.
  repeat match type of H with
         | context [resize ?n ?d ?v] =>
             destruct (resize n d v); cbn [bind] in H; [|discriminate H]
         end.
  destruct (m_transport_option _); cbn [bind] in H;
    repeat match type of H with
           | context [resize ?n ?d ?v] =>
               destruct (resize n d v); cbn [bind] in H; [|discriminate H]
           end;
    injection H as <-; destruct s as [[] ? [] ? ? ? ?]; repeat split; reflexivity.
Qed.

(** On an array that the loop's test accepts, [setupGrid] of the base class
    succeeds and stores the array. *)
Lemma StFlow_setupGrid_accepts (s : StFlow A) (z : list num) :
  (1 <= length z)%nat -> allocatable (m_nsp (grid s)) (length z) ->
  (forall j, (1 <= j < length z)%nat -> (z.[j] <=! z.[j - 1]) = false) ->
  exists s', StFlow_setupGrid z s = Ok s' /\
    m_points (grid s') = length z /\ m_z (grid s') = z /\
    m_nv (grid s') = m_nv (grid s) /\ m_nsp (grid s') = m_nsp (grid s) /\
    length (m_do_energy (settings s')) = length z /\
    m_press (settings s') = m_press (settings s) /\
    m_do_species (settings s') = m_do_species (settings s) /\
    speciesNames (settings s') = speciesNames (settings s).
Proof.
  intros Hn Halloc Hinc.
  destruct (StFlow_resize_ok (m_nv (grid s)) (length z) s Hn Halloc) as (s1 & E1 & R1).
  destruct (StFlow_resize_settings _ _ _ _ E1) as (P1 & P2 & P3 & _).
  unfold StFlow_setupGrid. rewrite E1. cbn [bind].
  set (s2 := on_grid _ s1).
  assert (Hp2 : m_points (grid s2) = length z).
  { subst s2. destruct R1. destruct s1 as [[] ? ? ? ? ? ?]. cbn in *. auto. }
  assert (Hr : range 1 (Z.of_nat (length z)) = seq 1 (length z - 1))
    by (apply (range_from 1); lia).
  rewrite Hp2, Hr.
  destruct (setupGrid_loop_fills z (length z) s2 eq_refl (length z - 1) 1 s2)
    as (s' & E' & F'); [lia|lia|exact Hinc| |].
  - subst s2. destruct R1. destruct s1 as [[] ? ? ? ? ? ?]. cbn in *.
    constructor; cbn; auto.
    + rewrite length_insert. auto.
    + intros i Hi. assert (i = 0)%nat as -> by lia.
      rewrite list_lookup_insert_eq by lia.
      destruct z as [|z0 z]; [cbn in Hn; lia|]. reflexivity.
    + intros i Hi. lia.
  - exists s'. split; [exact E'|].
    destruct F' as [Hc Ht Hnv Hp Hs Hlz Hldz Hz Hdz].
    assert (Hs2 : settings s2 = settings s1 /\ m_nv (grid s2) = m_nv (grid s1) /\
                  m_nsp (grid s2) = m_nsp (grid s1)).
    { subst s2. destruct s1 as [[] ? ? ? ? ? ?]. cbn. auto. }
    destruct Hs2 as (S1 & S2 & S3). destruct R1.
    rewrite Hp, Hnv, Hs, Ht, S1, S2, S3.
    repeat split; auto.
    apply list_eq. intros i.
    destruct (decide (i < length z)%nat) as [Hi|Hi].
    + apply Hz. exact Hi.
    + rewrite !lookup_ge_None_2 by lia. reflexivity.
Qed.

(** The same for the virtual call; the porous variant interpolates its solid
    fields first. *)
Lemma setupGrid_accepts (kind : FlowKind) (s : StFlow A) (z : list num) :
  regrid_ready kind s ->
  (1 <= length z)%nat -> allocatable (m_nsp (grid s)) (length z) ->
  (forall j, (1 <= j < length z)%nat -> (z.[j] <=! z.[j - 1]) = false) ->
  exists s', setupGrid kind z s = Ok s' /\
    m_points (grid s') = length z /\ m_z (grid s') = z /\
    m_nv (grid s') = m_nv (grid s) /\ m_nsp (grid s') = m_nsp (grid s) /\
    length (m_do_energy (settings s')) = length z /\
    m_press (settings s') = m_press (settings s) /\
    m_do_species (settings s') = m_do_species (settings s) /\
    speciesNames (settings s') = speciesNames (settings s).
Proof.
  intros Hready Hn Halloc Hinc.
  destruct kind; cbn [setupGrid];
    [apply StFlow_setupGrid_accepts; assumption..|].
  destruct (Hready eq_refl) as [Hlaw Hnp].
  unfold PorousFlow_setupGrid. cbv zeta.
  assert (Hmax : Z.of_nat (length z) <= max_size) by apply Halloc.
  destruct (resize_Ok (Z.of_nat (length z)) (lit 0) (Tw (solidf s))) as (tw & -> & _);
    [lia|].
  destruct (resize_Ok (Z.of_nat (length z)) (lit 0) (dq (solidf s))) as (dq0 & -> & _);
    [lia|].
  cbn [bind].
  destruct (regrid_loop_total Hlaw z (m_z (grid s)) (Tw (solidf s)) (dq (solidf s))
              (m_points (grid s) - 1) (seq 0 (length z)) ltac:(lia) tw dq0 0 ltac:(lia))
    as ([[tw' dq'] j'] & E3).
  rewrite E3. cbn [bind].
  apply (StFlow_setupGrid_accepts (on_solid (fun p => set_dq dq' (set_Tw tw' p)) s) z Hn);
    assumption.
Qed.

End GridAccepted.

Section DatasetLoop.
Context {A : Arith}.

Lemma index_inj (s : StFlow A) (n n' j j' : nat) :
  (n < m_nv (grid s))%nat -> (n' < m_nv (grid s))%nat ->
  index s n j = index s n' j' -> n = n' /\ j = j'.
Proof.
  unfold index. intros Hn Hn' E.
  assert (j = j').
  { destruct (Nat.lt_trichotomy j j') as [H|[H|H]]; [nia|exact H|nia]. }
  subst j'. lia.
Qed.

(** What the rows of the solution hold after [soln[index(n, j)] = x[j]] for
    [j < np]. *)
Lemma copy_component_lookup (s : StFlow A) (n np : nat) (x soln : list num) :
  (n < m_nv (grid s))%nat -> (m_nv (grid s) * np <= length soln)%nat ->
  length (copy_component s n np x soln) = length soln /\
  forall n' j', (n' < m_nv (grid s))%nat ->
    (copy_component s n np x soln).[index s n' j']
    = if decide (n' = n /\ j' < np)%nat then x.[j'] else soln.[index s n' j'].
Proof.
  intros Hn. unfold copy_component. induction np as [|np IH]; intros Hlen.
  - split; [reflexivity|]. intros n' j' _. destruct (decide _) as [[_ H]|_]; [lia|reflexivity].
  - destruct IH as [Hl Hk]; [lia|].
    rewrite seq_S, fold_left_app. cbn [fold_left Nat.add]. split.
    + rewrite length_insert. exact Hl.
    + intros n' j' Hn'.
      destruct (decide (n' = n /\ j' = np)) as [[-> ->]|Hne].
      * rewrite vget_insert_eq by (rewrite Hl; unfold index; nia).
        destruct (decide _) as [_|H]; [reflexivity|lia].
      * rewrite vget_insert_ne.
        2:{ intros E. apply index_inj in E as [-> ->]; [|exact Hn|exact Hn']. apply Hne. auto. }
        rewrite Hk by exact Hn'.
        destruct (decide (n' = n /\ (j' < np)%nat)), (decide (n' = n /\ (j' < S np)%nat));
          try reflexivity; exfalso; lia.
Qed.

Lemma speciesIndex_lookup (names : list string) (k : nat) (nm : string) :
  NoDup names -> names !! k = Some nm -> speciesIndex names nm = Some k.
Proof.
  intros Hnd. revert k. induction Hnd as [|n0 names Hnotin Hnd IH]; intros k Hk.
  - discriminate.
  - cbn [speciesIndex]. destruct k as [|k]; cbn in Hk.
    + injection Hk as ->. rewrite String.eqb_refl. reflexivity.
    + destruct (String.eqb_spec n0 nm) as [->|_].
      * exfalso. apply Hnotin. eapply list_elem_of_lookup_2. exact Hk.
      * rewrite (IH k Hk). reflexivity.
Qed.

Lemma same_domain_refl (s : StFlow A) : same_domain s s.
Proof. repeat split. Qed.

Lemma same_domain_trans (a b c : StFlow A) :
  same_domain a b -> same_domain b c -> same_domain a c.
Proof.
  intros (H1 & H2 & H3 & H4 & H5) (K1 & K2 & K3 & K4 & K5).
  repeat split; congruence.
Qed.

Lemma same_domain_writelog (msg : string) (s : StFlow A) : same_domain s (writelog msg s).
Proof. repeat split. Qed.

Lemma same_domain_debuglog (msg : string) (c : bool) (s : StFlow A) :
  same_domain s (debuglog msg c s).
Proof. unfold debuglog. destruct c; repeat split. Qed.

Lemma restore_dataset_stores (loglevel : Z) (np : nat) (fa : FloatArray A) (s : StFlow A)
    (soln : list num) (did : list Z) (ign : list string) (n : nat) :
  NoDup (speciesNames (settings s)) ->
  stored_as (speciesNames (settings s)) (title fa) n ->
  length (values fa) = np ->
  exists s' did', restore_dataset loglevel np fa (s, soln, did, ign)
                  = Ok (s', copy_component s n np (values fa) soln, did', ign) /\
                  same_domain s s'.
Proof.
  intros Hnd Hst Hl. unfold restore_dataset, debuglog.
  assert (El : (length (values fa) =? np)%nat = true) by (apply Nat.eqb_eq; exact Hl).
  rewrite El. cbn [negb].
  destruct Hst as [[-> ->]|[[-> ->]|[[-> ->]|[[-> ->]|(Ht & k & Hk & ->)]]]].
  - destruct (loglevel >=? 2); eexists _, _; (split; [reflexivity|repeat split]).
  - destruct (loglevel >=? 2); eexists _, _; (split; [reflexivity|repeat split]).
  - destruct (loglevel >=? 2); eexists _, _; (split; [reflexivity|]);
      destruct s as [? ? [] ? ? ? ?]; repeat split.
  - destruct (loglevel >=? 2); eexists _, _; (split; [reflexivity|repeat split]).
  - assert (Hne : forall t, t ∈ ["u"; "z"; "V"; "T"; "L"] -> String.eqb (title fa) t = false).
    { intros t Hin. apply String.eqb_neq. intros E. apply Ht. rewrite E. exact Hin. }
    rewrite !Hne by (repeat first [apply list_elem_of_here | apply list_elem_of_further]).
    rewrite (speciesIndex_lookup _ _ _ Hnd Hk).
    replace (k + 4)%nat with (4 + k)%nat by lia.
    destruct (loglevel >=? 2); eexists _, _; (split; [reflexivity|repeat split]).
Qed.

(** The loop over datasets that are all stored, to components that differ;
    each dataset comes with the component it is stored to. *)
Lemma datasets_loop (loglevel : Z) (np : nat) (l : list (nat * FloatArray A)) :
  forall (s : StFlow A) (soln : list num) (did : list Z) (ign : list string),
  NoDup (speciesNames (settings s)) ->
  (m_nv (grid s) * np <= length soln)%nat ->
  NoDup (map fst l) ->
  (forall n fa, (n, fa) ∈ l ->
     stored_as (speciesNames (settings s)) (title fa) n /\
     (n < m_nv (grid s))%nat /\ length (values fa) = np) ->
  exists s' soln' did',
    for_each (restore_dataset loglevel np) (map snd l) (s, soln, did, ign)
    = Ok (s', soln', did', ign) /\
    same_domain s s' /\ length soln' = length soln /\
    (forall n fa j, (n, fa) ∈ l -> (j < np)%nat ->
       soln'.[index s n j] = (values fa).[j]) /\
    (forall n j, (n < m_nv (grid s))%nat -> n ∉ map fst l ->
       soln'.[index s n j] = soln.[index s n j]).
Proof.
  induction l as [|[n0 fa] l IH]; intros s soln did ign Hnd Hlen Hcomp Hall.
  - exists s, soln, did. split; [reflexivity|]. split; [apply same_domain_refl|].
    split; [reflexivity|]. split; [|reflexivity].
    intros n fa j Hin. apply elem_of_nil in Hin. destruct Hin.
  - cbn [map fst snd] in Hcomp |- *. apply NoDup_cons in Hcomp as [Hnotin Hcomp].
    destruct (Hall n0 fa (list_elem_of_here _ _)) as (Hst & Hn & Hl).
    destruct (restore_dataset_stores loglevel np fa s soln did ign n0 Hnd Hst Hl)
      as (s1 & did1 & E1 & D1).
    destruct (copy_component_lookup s n0 np (values fa) soln Hn Hlen) as [Hl1 Hk1].
    assert (Hg : grid s1 = grid s) by apply D1.
    assert (Hnames : speciesNames (settings s1) = speciesNames (settings s)) by apply D1.
    destruct (IH s1 (copy_component s n0 np (values fa) soln) did1 ign)
      as (s' & soln' & did' & E' & D' & Hl' & Hin' & Hout').
    + rewrite Hnames. exact Hnd.
    + rewrite Hg, Hl1. exact Hlen.
    + exact Hcomp.
    + intros n' fa' Hfa'. rewrite Hnames, Hg. apply Hall. apply list_elem_of_further.
      exact Hfa'.
    + assert (Hix : forall n j, index s1 n j = index s n j)
        by (intros; unfold index; rewrite Hg; reflexivity).
      rewrite Hg in Hout'.
      exists s', soln', did'. cbn [for_each]. rewrite E1. cbn [bind].
      split; [exact E'|]. split; [exact (same_domain_trans _ _ _ D1 D')|].
      split; [congruence|]. split.
      * intros n' fa' j Hfa' Hj. apply elem_of_cons in Hfa' as [Heq|Hfa'].
        -- injection Heq as -> ->.
           specialize (Hout' n0 j Hn Hnotin). rewrite Hix in Hout'.
           rewrite Hout', Hk1 by exact Hn.
           destruct (decide _) as [_|H]; [reflexivity|exfalso; lia].
        -- specialize (Hin' n' fa' j Hfa' Hj). rewrite Hix in Hin'. exact Hin'.
      * intros n j Hn' Hnot. apply not_elem_of_cons in Hnot as [Hne Hnot].
        specialize (Hout' n j Hn' Hnot). rewrite Hix in Hout'.
        rewrite Hout', Hk1 by exact Hn'.
        destruct (decide _) as [[H _]|_]; [congruence|reflexivity].
Qed.

Lemma speciesIndex_absent (names : list string) (nm : string) :
  nm ∉ names -> speciesIndex names nm = None.
Proof.
  induction names as [|n0 names IH]; intros Hnot; [reflexivity|].
  apply not_elem_of_cons in Hnot as [Hne Hnot]. cbn [speciesIndex].
  destruct (String.eqb_spec n0 nm) as [->|_]; [congruence|].
  rewrite (IH Hnot). reflexivity.
Qed.

(** A dataset that is neither a component nor the grid is passed over; its
    title is kept in [ignored] unless it is "z". *)
Lemma restore_dataset_ignored (loglevel : Z) (np : nat) (fa : FloatArray A)
    (s : StFlow A) (soln : list num) (did : list Z) (ign : list string) :
  title fa = "z" \/
  ((title fa ∉ ["u"; "V"; "T"; "L"]) /\ title fa ∉ speciesNames (settings s)) ->
  restore_dataset loglevel np fa (s, soln, did, ign)
  = Ok (s, soln, did, if String.eqb (title fa) "z" then ign else ign ++ [title fa]).
Proof.
  unfold restore_dataset. intros [E|[Ht Hs]].
  - rewrite E. reflexivity.
  - assert (Hne : forall t, t ∈ ["u"; "V"; "T"; "L"] -> String.eqb (title fa) t = false).
    { intros t Hin. apply String.eqb_neq. intros E. apply Ht. rewrite E. exact Hin. }
    rewrite (Hne "u"), (Hne "V"), (Hne "T"), (Hne "L")
      by (repeat first [apply list_elem_of_here | apply list_elem_of_further]).
    rewrite (speciesIndex_absent _ _ Hs).
    destruct (String.eqb (title fa) "z"); reflexivity.
Qed.

(** The echo of the string children leaves the rest of the state alone. *)
Lemma restore_strings_state (doc : Document A) (s : StFlow A) :
  grid (restore_strings doc s) = grid s /\
  settings (restore_strings doc s) = settings s /\
  solidf (restore_strings doc s) = solidf s.
Proof.
  unfold restore_strings. generalize (strings doc). intros l. revert s.
  induction l as [|nd l IH]; intros s; [repeat split|].
  cbn [fold_left].
  match goal with
  | |- context [fold_left _ l ?s1] => destruct (IH s1) as (H1 & H2 & H3)
  end.
  rewrite H1, H2, H3. repeat split.
Qed.

(** The grid is read from the first array when no other is titled "z". *)
Lemma restore_grid_first (kind : FlowKind) (doc : Document A) (loglevel : Z) (s : StFlow A)
    (zfa : FloatArray A) (rest : list (FloatArray A)) :
  grid_data doc = zfa :: rest -> title zfa = "z" ->
  Forall (fun fa => title fa <> "z") rest ->
  restore_grid kind doc loglevel s
  = (s1 <- setupGrid kind (values zfa)
             (if loglevel >=? 2
              then writelog ("Grid contains " +:+ pretty (length (values zfa))
                             +:+ " points." +:+ newline) s
              else s) ;;
     Ok (s1, length (values zfa))).
Proof.
  intros Hd Hz Hrest. unfold restore_grid. rewrite Hd. cbn [for_each]. rewrite Hz.
  cbn [String.eqb Ascii.eqb Bool.eqb]. cbv zeta.
  destruct (setupGrid kind (values zfa) _) as [s1|e]; cbn [bind]; [|reflexivity].
  match goal with
  | |- context [for_each ?f rest ?a] =>
      assert (E : for_each f rest a = Ok a);
      [|rewrite E; reflexivity]
  end.
  clear Hd. induction Hrest as [|fa rest Hfa _ IH]; [reflexivity|].
  cbn [for_each]. apply String.eqb_neq in Hfa. rewrite Hfa. cbn [bind]. exact IH.
Qed.

(** Flags written as numbers and read back. *)
Lemma store_flags_of_bool (written : num -> num) (flags flags0 : list bool) (n : nat) :
  (written (lit 1) ==! lit 0) = false -> (written (lit 0) ==! lit 0) = true ->
  length flags = n -> length flags0 = n ->
  store_flags (map written (map (fun i => of_bool (bget flags i)) (seq 0 n))) flags0
  = flags.
Proof.
  intros H1 H0 Hl Hl0. unfold store_flags.
  rewrite !length_map, length_seq.
  match goal with
  | |- fold_left (fun v i => <[i := @?g i]> v) _ _ = _ =>
      destruct (fold_store_lookup g n flags0) as [_ Hk]
  end.
  apply list_eq. intros k. rewrite Hk. clear Hk.
  destruct (decide _) as [[Hk _]|Hk].
  - destruct (lookup_lt_is_Some_2 flags k) as [b Hb]; [lia|].
    rewrite Hb. f_equal. unfold vget, bget.
    rewrite !lookup_map, lookup_seq_lt by exact Hk. cbn. rewrite Hb. cbn.
    destruct b; cbn [of_bool]; [rewrite H1|rewrite H0]; reflexivity.
  - rewrite !lookup_ge_None_2 by lia. reflexivity.
Qed.

Lemma vget_map_seq (f : nat -> num) (g : num -> num) (n j : nat) :
  (j < n)%nat -> (map g (map f (seq 0 n))).[j] = g (f j).
Proof.
  intros Hj. unfold vget. rewrite !lookup_map, lookup_seq_lt by exact Hj. reflexivity.
Qed.

End DatasetLoop.

Section SavedComponents.
Context {A : Arith}.

(** The component datasets of a saved document, in order. *)
Lemma saved_components (s : StFlow A) (sol : list num) :
  [ {| title := "u"; values := getRow s sol 0 |};
    {| title := "V"; values := getRow s sol 1 |};
    {| title := "T"; values := getRow s sol 2 |};
    {| title := "L"; values := getRow s sol 3 |} ]
  ++ map (fun k => {| title := speciesName k s; values := getRow s sol (4 + k) |})
         (seq 0 (m_nsp (grid s)))
  = map (fun n => {| title := saved_title s n; values := getRow s sol n |})
        (seq 0 (4 + m_nsp (grid s))).
Proof.
  cbn [seq Nat.add map app saved_title]. do 4 f_equal.
  rewrite <- (seq_shift _ 3), <- (seq_shift _ 2), <- (seq_shift _ 1), <- (seq_shift _ 0).
  rewrite !map_map. reflexivity.
Qed.

Lemma saved_title_stored (s : StFlow A) (n : nat) :
  names_usable (speciesNames (settings s)) ->
  length (speciesNames (settings s)) = m_nsp (grid s) ->
  (n < 4 + m_nsp (grid s))%nat ->
  stored_as (speciesNames (settings s)) (saved_title s n) n.
Proof.
  intros [_ Hfix] Hlen Hn. unfold stored_as.
  destruct n as [|[|[|[|k]]]]; cbn [saved_title]; auto 10.
  do 4 right.
  destruct (lookup_lt_is_Some_2 (speciesNames (settings s)) k) as [nm Hnm]; [lia|].
  unfold speciesName. rewrite Hnm. change (default "" (Some nm)) with nm. split; [|exists k; auto].
  assert (Hin : nm ∈ speciesNames (settings s)) by (eapply list_elem_of_lookup_2; exact Hnm).
  intros Hbad. rewrite Forall_forall in Hfix.
  repeat (apply elem_of_cons in Hbad as [->|Hbad];
          [eapply Hfix; [|exact Hin];
           repeat first [apply list_elem_of_here | apply list_elem_of_further]|]).
  apply elem_of_nil in Hbad. exact Hbad.
Qed.

End SavedComponents.

(** [restore] on the document [save] writes, for every kind of domain: the
    rows of the solution are the rows of the document. *)
Lemma restore_saved {A : Arith} (written : num -> num)
    (kind : FlowKind) (s r : StFlow A) (sol soln0 : list num) (loglevel : Z) :
  regrid_ready kind r ->
  consistent s -> names_usable (speciesNames (settings s)) -> same_mechanism r s ->
  allocatable (m_nsp (grid s)) (m_points (grid s)) ->
  (m_nv (grid s) * m_points (grid s) <= length soln0)%nat ->
  (forall j, (1 <= j < m_points (grid s))%nat ->
     (written (m_z (grid s)).[j] <=! written (m_z (grid s)).[j - 1]) = false) ->
  (written (lit 1) ==! lit 0) = false -> (written (lit 0) ==! lit 0) = true ->
  exists r' soln',
    StFlow_restore kind (reread written (StFlow_save s sol)) soln0 loglevel r
    = Ok (r', soln') /\
    m_points (grid r') = m_points (grid s) /\
    m_z (grid r') = map written (m_z (grid s)) /\
    m_press (settings r') = written (m_press (settings s)) /\
    m_do_energy (settings r') = m_do_energy (settings s) /\
    m_do_species (settings r') = m_do_species (settings s) /\
    length soln' = length soln0 /\
    forall n j, (n < m_nv (grid s))%nat -> (j < m_points (grid s))%nat ->
      soln'.[index r' n j] = (map written (getRow s sol n)).[j].
Proof.
  intros Hkind (Hnp & Hnv & Hlz & Hle & Hls & Hln) Hnames (Rnv & Rnsp & Rnames & Rls)
         Halloc Hbuf Hinc H1 H0.
  set (np := m_points (grid s)) in *. set (nsp := m_nsp (grid s)) in *.
  set (doc := reread written (StFlow_save s sol)).
  set (zfa := {| title := "z"; values := map written (m_z (grid s)) |} : FloatArray A).
  set (comps := map (fun n => (n, {| title := saved_title s n;
                                     values := map written (getRow s sol n) |}))
                    (seq 0 (4 + nsp))).
  set (radl := map (fun fa : FloatArray A =>
                      {| title := title fa; values := map written (values fa) |})
                 (if m_do_radiation (settings s)
                  then [ {| title := "radiative_heat_loss";
                            values := map (fun i => (m_qdotRadiation (cache s)).[i])
                                          (seq 0 (length (m_z (grid s)))) |} ]
                  else [])).
  assert (Hdoc : grid_data doc = zfa :: map snd comps ++ radl).
  { subst doc comps radl zfa. unfold reread, StFlow_save. cbv zeta. cbn [grid_data].
    match goal with
    | |- map ?f ([?a; ?b; ?c; ?d; ?e] ++ ?l ++ ?m) = _ =>
        change ([a; b; c; d; e] ++ l ++ m) with (a :: ([b; c; d; e] ++ l ++ m))
    end.
    rewrite app_assoc, saved_components. cbn [map title values]. f_equal.
    rewrite map_app, !map_map. reflexivity. }
  (* the grid *)
  set (nspr := length (speciesNames (settings r))).
  set (r0 := on_settings (set_m_press (pressure doc)) (restore_strings doc r)).
  destruct (restore_strings_state doc r) as (S1 & S2 & S3).
  assert (Hrest : Forall (fun fa : FloatArray A => title fa <> "z") (map snd comps ++ radl)).
  { apply Forall_app. split.
    - subst comps. rewrite map_map. cbn [snd]. rewrite Forall_forall. intros fa Hin.
      apply list_elem_of_In, in_map_iff in Hin as (n & <- & Hn). cbn [title].
      apply in_seq in Hn.
      destruct (saved_title_stored s n Hnames Hln) as [[-> _]|[[-> _]|[[-> _]|[[-> _]|[Ht _]]]]];
        [fold nsp; lia|discriminate..|].
      intros E. apply Ht. rewrite E.
      repeat first [apply list_elem_of_here | apply list_elem_of_further].
    - subst radl. destruct (m_do_radiation (settings s)); cbn [map title].
      + repeat constructor. discriminate.
      + constructor. }
  assert (Hgrid : exists s1, restore_grid kind doc loglevel r0 = Ok (s1, np) /\
            m_points (grid s1) = np /\ m_z (grid s1) = map written (m_z (grid s)) /\
            m_nv (grid s1) = m_nv (grid s) /\ m_nsp (grid s1) = nsp /\
            length (m_do_energy (settings s1)) = np /\
            m_press (settings s1) = written (m_press (settings s)) /\
            m_do_species (settings s1) = m_do_species (settings r) /\
            speciesNames (settings s1) = speciesNames (settings s)).
  { rewrite (restore_grid_first kind doc loglevel r0 zfa _ Hdoc eq_refl Hrest).
    subst zfa. cbn [values].
    match goal with
    | |- context [setupGrid kind _ ?g] => set (g0 := g)
    end.
    assert (Eg0 : grid g0 = grid r /\
                  settings g0 = set_m_press (pressure doc) (settings r) /\
                  solidf g0 = solidf r).
    { subst g0 r0. rewrite <- S1, <- S2, <- S3.
      destruct (loglevel >=? 2); repeat split. }
    destruct Eg0 as (T1 & T2 & T3).
    destruct (setupGrid_accepts kind g0 (map written (m_z (grid s))))
      as (s1 & E1 & P1 & P2 & P3 & P4 & P5 & P6 & P7 & P8).
    - intros Hk. rewrite T1. exact (Hkind Hk).
    - rewrite length_map. lia.
    - rewrite length_map, T1, Rnsp, Hlz. exact Halloc.
    - rewrite length_map, Hlz. intros j Hj.
      unfold vget. rewrite !lookup_map.
      destruct (lookup_lt_is_Some_2 (m_z (grid s)) j) as [a Ha]; [lia|].
      destruct (lookup_lt_is_Some_2 (m_z (grid s)) (j - 1)) as [b Hb]; [lia|].
      specialize (Hinc j Hj). unfold vget in Hinc. rewrite Ha, Hb in Hinc.
      rewrite Ha, Hb. exact Hinc.
    - rewrite length_map, Hlz in *. exists s1. rewrite E1. cbn [bind].
      rewrite T1 in P3, P4. rewrite T2 in P6, P7, P8.
      split; [reflexivity|]. split; [exact P1|]. split; [exact P2|].
      split; [congruence|]. split; [congruence|]. split; [exact P5|].
      split; [exact P6|]. split; [exact P7|]. exact (eq_trans P8 Rnames). }
  destruct Hgrid as (s1g & Eg & K1 & K2 & K3 & K4 & K5 & K6 & K7 & K8).
  set (s1 := debuglog ("Importing datasets:" +:+ newline) (loglevel >=? 2) s1g).
  assert (Hs1 : m_points (grid s1) = np /\ m_z (grid s1) = map written (m_z (grid s)) /\
            m_nv (grid s1) = m_nv (grid s) /\ m_nsp (grid s1) = nsp /\
            length (m_do_energy (settings s1)) = np /\
            m_press (settings s1) = written (m_press (settings s)) /\
            m_do_species (settings s1) = m_do_species (settings r) /\
            speciesNames (settings s1) = speciesNames (settings s)).
  { subst s1. unfold debuglog. destruct (loglevel >=? 2); repeat split; assumption. }
  destruct Hs1 as (G1 & G2 & G3 & G4 & G5 & G6 & G7 & G8).
  (* the datasets *)
  assert (Hnd1 : NoDup (speciesNames (settings s1))) by (rewrite G8; apply Hnames).
  destruct (datasets_loop loglevel np comps s1 soln0 (replicate nspr 0) [])
    as (s2 & soln2 & did2 & E2 & D2 & L2 & In2 & _).
  { exact Hnd1. }
  { rewrite G3. exact Hbuf. }
  { subst comps. rewrite map_map. cbn [fst]. rewrite map_id. apply NoDup_seq. }
  { intros n fa Hin. subst comps.
    apply list_elem_of_In, in_map_iff in Hin as (n' & Heq & Hn). injection Heq as -> <-.
    apply in_seq in Hn. cbn [title values]. rewrite G8, G3, Hnv. fold nsp.
    split; [apply (saved_title_stored s n Hnames Hln); fold nsp; lia|].
    split; [lia|]. unfold getRow. rewrite !length_map, length_seq. reflexivity. }
  destruct D2 as (D21 & D22 & D23 & D24 & D25).
  assert (Hloop : exists ign2,
            for_each (restore_dataset loglevel np) (grid_data doc)
                     (s1, soln0, replicate nspr 0, []) = Ok (s2, soln2, did2, ign2)).
  { rewrite Hdoc. cbn [for_each].
    rewrite (restore_dataset_ignored loglevel np zfa s1 soln0) by (left; reflexivity).
    cbn [bind]. subst zfa. cbn [title String.eqb Ascii.eqb Bool.eqb].
    rewrite for_each_app, E2. cbn [bind].
    subst radl. destruct (m_do_radiation (settings s)); cbn [map for_each];
      [|eexists; reflexivity].
    rewrite restore_dataset_ignored; [eexists; reflexivity|]. right. cbn [title]. split.
    - intros Hbad.
      repeat (apply elem_of_cons in Hbad as [Hbad|Hbad]; [discriminate Hbad|]).
      apply elem_of_nil in Hbad. exact Hbad.
    - rewrite D25, G8. destruct Hnames as [_ Hfix]. rewrite Forall_forall in Hfix.
      apply Hfix. repeat first [apply list_elem_of_here | apply list_elem_of_further]. }
  destruct Hloop as (ign2 & Hloop).
  (* the flags *)
  assert (Hflags : forall t, grid t = grid s2 -> settings t = settings s2 ->
            exists r', restore_flags doc loglevel t = Ok r' /\
            grid r' = grid s2 /\ m_press (settings r') = m_press (settings s2) /\
            m_do_energy (settings r') = m_do_energy (settings s) /\
            m_do_species (settings r') = m_do_species (settings s)).
  { intros t Tg Tt.
    unfold restore_flags, restore_energy_enabled, restore_species_enabled.
    subst doc. unfold reread, StFlow_save. cbv zeta.
    cbn [energy_enabled species_enabled option_map]. fold np nsp.
    rewrite !length_map, !length_seq, Tg, D21, G1, Nat.eqb_refl. cbn [bind].
    match goal with
    | |- context [on_settings ?f t] => set (s3 := on_settings f t)
    end.
    assert (H3 : grid s3 = grid s2 /\ m_press (settings s3) = m_press (settings s2) /\
                 m_do_species (settings s3) = m_do_species (settings s2) /\
                 m_do_energy (settings s3) = m_do_energy (settings s)).
    { subst s3. split; [exact Tg|]. split; [rewrite <- Tt; reflexivity|].
      split; [rewrite <- Tt; reflexivity|].
      apply (store_flags_of_bool written (m_do_energy (settings s))
               (m_do_energy (settings t)) np H1 H0 Hle). rewrite Tt. congruence. }
    destruct H3 as (H31 & H32 & H33 & H34).
    rewrite H31, D21, G4, Nat.eqb_refl.
    eexists. split; [reflexivity|].
    split; [exact (eq_trans H31 D21)|]. split; [exact H32|]. split; [exact H34|].
    apply (store_flags_of_bool written (m_do_species (settings s))
             (m_do_species (settings s3)) nsp H1 H0 Hls). congruence. }
  set (s2' := log_missing loglevel nspr did2 (log_ignored loglevel ign2 s2)).
  assert (Hs2' : grid s2' = grid s2 /\ settings s2' = settings s2).
  { subst s2'.
    destruct (log_missing_state loglevel nspr did2 (log_ignored loglevel ign2 s2))
      as (-> & -> & _).
    destruct (log_ignored_state loglevel ign2 s2) as (-> & -> & _). split; reflexivity. }
  destruct (Hflags s2' (proj1 Hs2') (proj2 Hs2')) as (r' & Ef & F1 & F2 & F3 & F4).
  exists r', soln2. unfold StFlow_restore. cbv zeta. fold r0 nspr.
  rewrite Eg. cbn [bind]. fold s1. rewrite Hloop. cbn [bind]. fold s2'. rewrite Ef.
  cbn [bind].
  split; [reflexivity|].
  rewrite F1, D21, G1, G2, F2, D22, G6.
  do 6 (split; [first [reflexivity | assumption]|]).
  intros n j Hn Hj.
  assert (Hix : index r' n j = index s1 n j)
    by (unfold index; rewrite F1, D21; reflexivity).
  rewrite Hix.
  rewrite (In2 n {| title := saved_title s n; values := map written (getRow s sol n) |} j).
  - reflexivity.
  - subst comps. apply list_elem_of_In, in_map_iff. exists n. split; [reflexivity|].
    apply in_seq. fold nsp in Hnv. lia.
  - exact Hj.
Qed.

Section SolidNodeFacts.
Context {A : Arith}.

(** The base class reads nothing of the node "Solid". *)
Lemma StFlow_restore_ext (kind : FlowKind) (doc doc' : Document A) (soln : list num)
    (loglevel : Z) (r : StFlow A) :
  pressure doc = pressure doc' -> grid_data doc = grid_data doc' ->
  energy_enabled doc = energy_enabled doc' -> species_enabled doc = species_enabled doc' ->
  strings doc = strings doc' ->
  StFlow_restore kind doc soln loglevel r = StFlow_restore kind doc' soln loglevel r.
Proof.
  destruct doc, doc'. cbn. intros -> -> -> -> ->. reflexivity.
Qed.

Lemma per_point_all (v : list num) (n : nat) :
  length v = n -> map (fun i => v.[i]) (seq 0 n) = v.
Proof.
  intros <-. apply list_eq. intros i. rewrite lookup_map.
  destruct (decide (i < length v)%nat) as [Hi|Hi].
  - rewrite lookup_seq_lt by exact Hi. cbn.
    destruct (lookup_lt_is_Some_2 v i Hi) as [x Hx]. rewrite Hx. f_equal.
    apply vget_lookup. exact Hx.
  - rewrite lookup_seq_ge by lia. rewrite lookup_ge_None_2 by lia. reflexivity.
Qed.

(** An array of the node "Solid" with one entry per point replaces the
    member. *)
Lemma restore_solid_array_full (name : string) (np : nat) (x member : list num) :
  Z.of_nat np <= max_size -> length x = np ->
  restore_solid_array name np x member = Ok x.
Proof.
  intros Hmax Hl. unfold restore_solid_array.
  destruct (resize_Ok (Z.of_nat np) (lit 0) member) as (m & -> & Hm); [lia|].
  cbn [bind]. rewrite Hl, Nat.eqb_refl. f_equal.
  rewrite Nat2Z.id in Hm. apply fold_copy_eq; [congruence|].
  intros i Hi. rewrite !lookup_ge_None_2 by lia. reflexivity.
Qed.

End SolidNodeFacts.

(** X15.  Restoring what was saved gives the solution back.  Let [doc] be
    the document [save] writes for a domain [s] and a solution array [sol],
    every number [v] in it read back as [written v] (the XML text layer is
    not among the sources).  [restore] of [doc] into a domain [r] with the
    same species succeeds and leaves [r] with the point count of [s], the
    grid and the pressure of [s] as read back, both flag arrays of [s], and
    in the solution buffer, for every component and point of the domain, the
    value [sol] holds for it at the offset [loc] of [s], as read back.
    Required: the sizes of [s] agree; the species names are distinct and
    none is a dataset title ("z", "u", "V", "T", "L",
    "radiative_heat_loss"); the grid read back is still increasing; 1 is not
    read back as 0 and 0 is; the buffer holds the domain; the vectors can be
    allocated; and a porous [r] can be regridded. *)
Theorem restore_reads_back_saved_solution {A : Arith} (written : num -> num)
    (kind : FlowKind) (s r : StFlow A) (sol soln0 : list num) (loglevel : Z) :
  regrid_ready kind r ->
  consistent s -> names_usable (speciesNames (settings s)) -> same_mechanism r s ->
  allocatable (m_nsp (grid s)) (m_points (grid s)) ->
  (m_nv (grid s) * m_points (grid s) <= length soln0)%nat ->
  (forall j, (1 <= j < m_points (grid s))%nat ->
     (written (m_z (grid s)).[j] <=! written (m_z (grid s)).[j - 1]) = false) ->
  (written (lit 1) ==! lit 0) = false -> (written (lit 0) ==! lit 0) = true ->
  exists r' soln',
    StFlow_restore kind (reread written (StFlow_save s sol)) soln0 loglevel r
    = Ok (r', soln') /\
    m_points (grid r') = m_points (grid s) /\
    m_z (grid r') = map written (m_z (grid s)) /\
    m_press (settings r') = written (m_press (settings s)) /\
    m_do_energy (settings r') = m_do_energy (settings s) /\
    m_do_species (settings r') = m_do_species (settings s) /\
    length soln' = length soln0 /\
    forall n j, (n < m_nv (grid s))%nat -> (j < m_points (grid s))%nat ->
      soln'.[index r' n j] = written (sol.[loc (grid s) + index s n j]).
Proof.
  intros Hready Hs Hnames Hmech Halloc Hbuf Hinc H1 H0.
  destruct (restore_saved written kind s r sol soln0 loglevel)
    as (r' & soln' & E & Hp & Hz & Hpress & He & Hsp & Hlen & Hrows); try assumption.
  exists r', soln'. split; [exact E|].
  split; [exact Hp|]. split; [exact Hz|]. split; [exact Hpress|].
  split; [exact He|]. split; [exact Hsp|]. split; [exact Hlen|].
  intros n j Hn Hj. rewrite (Hrows n j Hn Hj). unfold getRow.
  exact (vget_map_seq (fun j => sol.[loc (grid s) + index s n j]) written
           (m_points (grid s)) j Hj).
Qed.

Lemma restore_reads_back_saved_solution_witness :
  exists r' soln',
    StFlow_restore FreeFlame
      (reread (fun v => v) (StFlow_save (flame_012 (A:=Float64)) warm_solution))
      empty_solution 0 named_flow
    = Ok (r', soln') /\
    m_points (grid r') = 3%nat /\
    m_z (grid r') = map (fun v => v) grid_012 /\
    m_press (settings r') = lit 101325 /\
    m_do_energy (settings r') = [false; false; false] /\
    m_do_species (settings r') = [true; true] /\
    length soln' = 18%nat /\
    forall n j, (n < 6)%nat -> (j < 3)%nat ->
      soln'.[index r' n j] = warm_solution.[0 + index flame_012 n j].
Proof.
  apply (restore_reads_back_saved_solution (A:=Float64) (fun v => v) FreeFlame
           flame_012 named_flow warm_solution empty_solution 0).
  - intros H. discriminate H.
  - vm_compute. repeat split; lia.
  - split; apply (bool_decide_unpack _); vm_compute; exact I.
  - vm_compute. repeat split; reflexivity.
  - vm_compute. repeat split; discriminate.
  - vm_compute. lia.
  - intros j Hj. change (m_points (grid flame_012)) with 3%nat in Hj.
    destruct j as [|[|[|j]]]; try lia; vm_compute; reflexivity.
  - vm_compute. reflexivity.
  - vm_compute. reflexivity.
Defined.


(** X16.  The solid of a porous domain survives save and restore.
    PorousFlow::restore of the document PorousFlow::save writes, every number
    [v] read back as [written v], succeeds and leaves the solid temperature,
    the net radiative flux, porosity, pore diameter, solid conductivity and
    heat-transfer coefficient of the saved domain at every point, and its
    twelve scalar solid properties, all as read back.  Required beyond the
    conditions of the base class: one entry per point in each of the six
    solid arrays of [s], and a receiving domain of two points or more. *)
Theorem PorousFlow_restore_reads_back_solid {A : Arith} (written : num -> num)
    (s r : StFlow A) (sol soln0 : list num) (loglevel : Z) :
  (forall a b : num, (a >! b) = true -> (a >=! b) = true) ->
  (2 <= m_points (grid r))%nat ->
  consistent s -> solid_consistent s ->
  names_usable (speciesNames (settings s)) -> same_mechanism r s ->
  allocatable (m_nsp (grid s)) (m_points (grid s)) ->
  (m_nv (grid s) * m_points (grid s) <= length soln0)%nat ->
  (forall j, (1 <= j < m_points (grid s))%nat ->
     (written (m_z (grid s)).[j] <=! written (m_z (grid s)).[j - 1]) = false) ->
  (written (lit 1) ==! lit 0) = false -> (written (lit 0) ==! lit 0) = true ->
  exists r' soln',
    PorousFlow_restore (reread written (PorousFlow_save s sol)) soln0 loglevel r
    = Ok (r', soln') /\
    m_points (grid r') = m_points (grid s) /\
    Tw (solidf r') = map written (Tw (solidf s)) /\
    dq (solidf r') = map written (dq (solidf s)) /\
    pore (solidf r') = map written (pore (solidf s)) /\
    diam (solidf r') = map written (diam (solidf s)) /\
    scond (solidf r') = map written (scond (solidf s)) /\
    hconv (solidf r') = map written (hconv (solidf s)) /\
    solid_scalars (solidf r') = map written (solid_scalars (solidf s)).
Proof.
  intros Hlaw Hr Hs (S1 & S2 & S3 & S4 & S5 & S6) Hnames Hmech Halloc Hbuf Hinc H1 H0.
  destruct (restore_saved written PorousFlow s r sol soln0 loglevel)
    as (r1 & soln1 & E1 & P1 & _); try assumption.
  { intros _. split; assumption. }
  unfold PorousFlow_restore.
  rewrite (StFlow_restore_ext PorousFlow _ (reread written (StFlow_save s sol)))
    by reflexivity.
  rewrite E1. cbn [bind].
  assert (Hmax : Z.of_nat (m_points (grid s)) <= max_size) by apply Halloc.
  cbn [reread PorousFlow_save Solid_node option_map reread_solid
       n_Tsolid n_Radiation n_Porosity n_Diameter n_SolidConductivity n_Hconv].
  cbv zeta.
  rewrite (per_point_all _ _ S1), (per_point_all _ _ S2), (per_point_all _ _ S3),
          (per_point_all _ _ S4), (per_point_all _ _ S5), (per_point_all _ _ S6).
  do 6 (rewrite restore_solid_array_full;
        [cbn [bind]
        |change (Z.of_nat (m_points (grid r1)) <= max_size); rewrite P1; exact Hmax
        |rewrite length_map; transitivity (m_points (grid s));
         [assumption|symmetry; exact P1]]).
  eexists _, _. split; [reflexivity|].
  split; [exact P1|]. repeat split; reflexivity.
Qed.

Lemma PorousFlow_restore_reads_back_solid_witness :
  exists r' soln',
    PorousFlow_restore
      (reread (fun v => v)
         (PorousFlow_save (filled_porous_domain (A:=Float64)) warm_solution))
      empty_solution 0 filled_porous_domain
    = Ok (r', soln') /\
    m_points (grid r') = 3%nat /\
    Tw (solidf r') = map (fun v => v) (three (lit 300)) /\
    dq (solidf r') = map (fun v => v) (three (lit 5)) /\
    pore (solidf r') = map (fun v => v) (three (lit 0.8)) /\
    diam (solidf r') = map (fun v => v) (three (lit 0.001)) /\
    scond (solidf r') = map (fun v => v) (three (lit 2)) /\
    hconv (solidf r') = map (fun v => v) (three (lit 10)) /\
    solid_scalars (solidf r')
    = map (fun v => v) (solid_scalars (solidf (filled_porous_domain (A:=Float64)))).
Proof.
  apply (PorousFlow_restore_reads_back_solid (A:=Float64) (fun v => v)
           filled_porous_domain filled_porous_domain warm_solution empty_solution 0).
  - exact Float64_above_is_at_least.
  - vm_compute. lia.
  - vm_compute. repeat split; lia.
  - vm_compute. repeat split; reflexivity.
  - split; apply (bool_decide_unpack _); vm_compute; exact I.
  - vm_compute. repeat split; reflexivity.
  - vm_compute. repeat split; discriminate.
  - vm_compute. lia.
  - intros j Hj. change (m_points (grid filled_porous_domain)) with 3%nat in Hj.
    destruct j as [|[|[|j]]]; try lia; vm_compute; reflexivity.
  - vm_compute. reflexivity.
  - vm_compute. reflexivity.
Defined.

Section CollapsedGrid.
Context {A : Arith}.

(** In a saved document the grid comes first and no other array is titled
    "z". *)
Lemma saved_grid_first (written : num -> num) (s : StFlow A) (sol : list num) :
  names_usable (speciesNames (settings s)) ->
  length (speciesNames (settings s)) = m_nsp (grid s) ->
  exists rest,
    grid_data (reread written (StFlow_save s sol))
    = {| title := "z"; values := map written (m_z (grid s)) |} :: rest /\
    Forall (fun fa : FloatArray A => title fa <> "z") rest.
Proof.
  intros Hnames Hln. eexists. split.
  - unfold reread, StFlow_save. cbv zeta. cbn [grid_data].
    match goal with
    | |- map ?f ([?a; ?b; ?c; ?d; ?e] ++ ?l ++ ?m) = _ =>
        change ([a; b; c; d; e] ++ l ++ m) with (a :: ([b; c; d; e] ++ l ++ m))
    end.
    rewrite app_assoc, saved_components. cbn [map title values]. reflexivity.
  - rewrite map_app. apply Forall_app. split.
    + rewrite map_map. cbn [title]. rewrite Forall_forall. intros fa Hin.
      apply list_elem_of_In, in_map_iff in Hin as (n & <- & Hn). cbn [title].
      apply in_seq in Hn.
      destruct (saved_title_stored s n Hnames Hln) as [[-> _]|[[-> _]|[[-> _]|[[-> _]|[Ht _]]]]];
        [lia|discriminate..|].
      intros E. apply Ht. rewrite E.
      repeat first [apply list_elem_of_here | apply list_elem_of_further].
    + destruct (m_do_radiation (settings s)); cbn [map title].
      * repeat constructor. discriminate.
      * constructor.
Qed.

(** [setupGrid] throws the invalid-grid error on an array with a point that
    is not past the one before it. *)
Lemma setupGrid_rejects (kind : FlowKind) (s : StFlow A) (z : list num) :
  regrid_ready kind s ->
  (1 <= length z)%nat -> allocatable (m_nsp (grid s)) (length z) ->
  (exists j, (1 <= j < length z)%nat /\ (z.[j] <=! z.[j - 1]) = true) ->
  setupGrid kind z s = Err invalid_grid.
Proof.
  intros Hready Hn Halloc (j & Hj & Hle).
  assert (Hbase : forall s0 : StFlow A, m_nsp (grid s0) = m_nsp (grid s) ->
                  StFlow_setupGrid z s0 = Err invalid_grid).
  { intros s0 Hnsp.
    destruct (StFlow_resize_ok (m_nv (grid s0)) (length z) s0 Hn) as (s1 & E1 & R1).
    { rewrite Hnsp. exact Halloc. }
    unfold StFlow_setupGrid. rewrite E1. cbn [bind].
    apply setupGrid_loop_throws. exists j. split; [|exact Hle].
    assert (Hp : m_points (grid (on_grid (fun g => set_m_z (<[0%nat := z.[0]]> (m_z g)) g) s1))
                 = length z) by (destruct R1; assumption).
    apply elem_of_range; [lia|]. rewrite Hp. lia. }
  destruct kind; cbn [setupGrid]; [apply Hbase; reflexivity..|].
  destruct (Hready eq_refl) as [Hlaw Hnp].
  unfold PorousFlow_setupGrid. cbv zeta.
  assert (Hmax : Z.of_nat (length z) <= max_size) by apply Halloc.
  destruct (resize_Ok (Z.of_nat (length z)) (lit 0) (Tw (solidf s))) as (tw & -> & _);
    [lia|].
  destruct (resize_Ok (Z.of_nat (length z)) (lit 0) (dq (solidf s))) as (dq0 & -> & _);
    [lia|].
  cbn [bind].
  destruct (regrid_loop_total Hlaw z (m_z (grid s)) (Tw (solidf s)) (dq (solidf s))
              (m_points (grid s) - 1) (seq 0 (length z)) ltac:(lia) tw dq0 0 ltac:(lia))
    as ([[tw' dq'] j'] & E3).
  rewrite E3. cbn [bind]. apply Hbase. reflexivity.
Qed.

End CollapsedGrid.

(** X17.  A grid that collapses when written cannot be restored.  If two
    neighbouring grid points of the saved domain are read back with the
    second not past the first, [restore] of the saved document throws the
    invalid-grid error of [setupGrid], whatever else the document holds. *)
Theorem restore_rejects_collapsed_grid {A : Arith} (written : num -> num)
    (kind : FlowKind) (s r : StFlow A) (sol soln0 : list num) (loglevel : Z) :
  regrid_ready kind r ->
  (1 <= length (m_z (grid s)))%nat ->
  names_usable (speciesNames (settings s)) ->
  length (speciesNames (settings s)) = m_nsp (grid s) ->
  allocatable (m_nsp (grid r)) (length (m_z (grid s))) ->
  (exists j, (1 <= j < length (m_z (grid s)))%nat /\
     (written (m_z (grid s)).[j] <=! written (m_z (grid s)).[j - 1]) = true) ->
  StFlow_restore kind (reread written (StFlow_save s sol)) soln0 loglevel r
  = Err invalid_grid.
Proof.
  intros Hready Hn Hnames Hln Halloc (j & Hj & Hle).
  destruct (saved_grid_first written s sol Hnames Hln) as (rest & Hdoc & Hrest).
  set (doc := reread written (StFlow_save s sol)) in *.
  destruct (restore_strings_state doc r) as (S1 & _ & _).
  unfold StFlow_restore. cbv zeta.
  rewrite (restore_grid_first kind doc loglevel _ _ rest Hdoc eq_refl Hrest). cbn [values].
  match goal with
  | |- context [setupGrid kind _ ?g] => set (g0 := g)
  end.
  assert (T1 : grid g0 = grid r)
    by (subst g0; rewrite <- S1; destruct (loglevel >=? 2); reflexivity).
  rewrite (setupGrid_rejects kind g0); [reflexivity| |rewrite length_map; exact Hn| |].
  - intros Hk. rewrite T1. exact (Hready Hk).
  - rewrite length_map, T1. exact Halloc.
  - exists j. rewrite length_map. split; [exact Hj|].
    unfold vget. rewrite !lookup_map.
    destruct (lookup_lt_is_Some_2 (m_z (grid s)) j) as [a Ha]; [lia|].
    destruct (lookup_lt_is_Some_2 (m_z (grid s)) (j - 1)) as [b Hb]; [lia|].
    unfold vget in Hle. rewrite Ha, Hb in Hle. rewrite Ha, Hb. exact Hle.
Qed.

Lemma restore_rejects_collapsed_grid_witness :
  StFlow_restore FreeFlame (reread no_decimals (StFlow_save flame_halves warm_solution))
    empty_solution 0 named_flow
  = Err invalid_grid.
Proof.
  apply (restore_rejects_collapsed_grid no_decimals FreeFlame flame_halves named_flow).
  - intros H. discriminate H.
  - vm_compute. lia.
  - split; apply (bool_decide_unpack _); vm_compute; exact I.
  - reflexivity.
  - vm_compute. repeat split; discriminate.
  - exists 1%nat. split; [vm_compute; lia|vm_compute; reflexivity].
Defined.

(** ** The boundary rows of the species *)

Section BoundaryRows.
Context {A : Arith} {L : Libm A} {E : Externals A}.

(** A loop that adds up and stores: the sum does not depend on the stores. *)
Lemma fold_sum_and_store {S I} (f : num -> I -> num) (g : num -> S -> I -> S)
    (l : list I) :
  forall (a : num) (b : S),
  (fold_left (fun '(a, b) i => (f a i, g a b i)) l (a, b)).1 = fold_left f l a.
Proof.
  induction l as [|i l IH]; intros a b; [reflexivity|]. cbn [fold_left]. apply IH.
Qed.

Lemma species_rows_keep (s : StFlow A) (j : nat) (f : num -> nat -> num)
    (row : nat -> nat) (v : num -> nat -> num) (l : list nat) :
  forall (a : num) (o : Out A),
  let r := fold_left (fun '(sum, o) k => (f sum k, set_rsd s (row k) j (v sum k) o))
                     l (a, o) in
  length (rsd r.2) = length (rsd o) /\ diag r.2 = diag o.
Proof.
  induction l as [|k l IH]; intros a o; cbn [fold_left]; [split; reflexivity|].
  cbv zeta in IH |- *.
  destruct (IH (f a k) (set_rsd s (row k) j (v a k) o)) as [H1 H2].
  split; [rewrite H1|rewrite H2]; unfold set_rsd; cbn [rsd diag];
    [apply length_insert|reflexivity].
Qed.

(** The last store of the left boundary: the row of the first species holds
    the normalisation, and no flag is touched. *)
Lemma left_boundary_sum (x : list num) (s : StFlow A) (o : Out A) :
  (Y0_row s 0 < length (rsd o))%nat ->
  rsd (left_boundary x s o) !! Y0_row s 0 = Some (lit 1 -! sum_Y s x 0) /\
  diag (left_boundary x s o) = diag o.
Proof.
  intros Hlen. unfold left_boundary.
  match goal with
  | |- context [fold_left ?F (species s) (?z, ?o0)] =>
      pose proof (fold_sum_and_store (fun sum k => sum +! Y s x k 0)
                    (fun sum o k => set_rsd s (c_offset_Y + k) 0
                                      (opp (flux s k 0 +! rho_u s x 0 *! Y s x k 0)) o)
                    (species s) z o0) as Hsum;
      pose proof (species_rows_keep s 0 (fun sum k => sum +! Y s x k 0)
                    (fun k => (c_offset_Y + k)%nat)
                    (fun sum k => opp (flux s k 0 +! rho_u s x 0 *! Y s x k 0))
                    (species s) z o0) as Hkeep
  end.
  cbv zeta in Hkeep.
  destruct (fold_left _ (species s) _) as [sum o1]. cbn [fst snd] in Hsum, Hkeep.
  destruct Hkeep as [Hl Hd]. unfold set_rsd in *. cbn [rsd diag] in *.
  rewrite !length_insert in Hl. split; [|exact Hd].
  fold (Y0_row s 0). rewrite list_lookup_insert_eq by lia.
  rewrite Hsum. reflexivity.
Qed.

(** The last two stores of a right boundary. *)
Lemma right_species_sum (x : list num) (s : StFlow A) (j : nat) (o : Out A) :
  (Y0_row s j < length (rsd o))%nat -> (Y0_row s j < length (diag o))%nat ->
  rsd (right_species x s j o) !! Y0_row s j = Some (lit 1 -! sum_Y s x j) /\
  diag (right_species x s j o) !! Y0_row s j = Some 0.
Proof.
  intros Hr Hd. unfold right_species.
  match goal with
  | |- context [fold_left ?F (species s) (?z, ?o0)] =>
      pose proof (fold_sum_and_store (fun sum k => sum +! Y s x k j)
                    (fun sum o k => set_rsd s (k + 4) j
                                      (flux s k (j - 1) +! rho_u s x j *! Y s x k j) o)
                    (species s) z o0) as Hsum;
      pose proof (species_rows_keep s j (fun sum k => sum +! Y s x k j)
                    (fun k => (k + 4)%nat)
                    (fun sum k => flux s k (j - 1) +! rho_u s x j *! Y s x k j)
                    (species s) z o0) as Hkeep
  end.
  cbv zeta in Hkeep.
  destruct (fold_left _ (species s) _) as [sum o1]. cbn [fst snd] in Hsum, Hkeep.
  destruct Hkeep as [Hl Hdg]. unfold set_diag, set_rsd. cbn [rsd diag].
  change (loc (grid s) + index s 4 j)%nat with (Y0_row s j).
  rewrite !list_lookup_insert_eq by (rewrite ?Hl, ?Hdg; lia).
  rewrite Hsum. split; reflexivity.
Qed.

End BoundaryRows.

Section PointsRow.
Context {A : Arith} {L : Libm A} {E : Externals A}.

Variable pt : StFlow A * Out A -> nat -> StFlow A * Out A.
Variable x : list num.
Hypothesis pt_spec : point_spec pt x.

Variable s : StFlow A.
Hypothesis well_formed : m_nv (grid s) = (4 + m_nsp (grid s))%nat.
Hypothesis has_species : (1 <= m_nsp (grid s))%nat.
Hypothesis has_points : (1 <= m_points (grid s))%nat.
Hypothesis fits : Z.of_nat (m_points (grid s)) <= SIZE_MAX.

Lemma kept_refl (o : Out A) (j : nat) : kept s o j (s, o).
Proof.
  split; [reflexivity|]. split; [reflexivity|]. split; [reflexivity|].
  intros i _. split; reflexivity.
Qed.

Lemma kept_state (o : Out A) (j j' : nat) (a : StFlow A * Out A) :
  kept s o j a -> obs_residual (pt a j').1 = obs_residual s.
Proof.
  intros (Ho & _). destruct a as [s1 o1]. cbn [fst] in Ho.
  assert (Hg : grid s1 = grid s)
    by (apply obs_residual_rows in Ho; exact (f_equal (fun t => t.1.1.1) Ho)).
  destruct (pt_spec s1 o1 j') as (Ho' & _); [rewrite Hg; assumption..|].
  congruence.
Qed.

Lemma kept_step (o : Out A) (j j' : nat) (a : StFlow A * Out A) :
  j' <> j -> kept s o j a -> kept s o j (pt a j').
Proof.
  intros Hne Ha. pose proof (kept_state o j j' a Ha) as Hst.
  destruct Ha as (Ho & Hr & Hd & Hb). destruct a as [s1 o1]. cbn [fst snd] in *.
  assert (Hg : grid s1 = grid s)
    by (apply obs_residual_rows in Ho; exact (f_equal (fun t => t.1.1.1) Ho)).
  destruct (pt_spec s1 o1 j') as (_ & (Lr & Ld & Hout) & _);
    [rewrite Hg; assumption..|].
  rewrite Hg in Hout.
  split; [exact Hst|]. split; [congruence|]. split; [congruence|].
  intros i Hi. destruct (Hout i) as [O1 O2]; [nia|].
  destruct (Hb i Hi) as [B1 B2]. split; congruence.
Qed.

Lemma kept_fold (o : Out A) (j : nat) (js : list nat) :
  forall a, j ∉ js -> kept s o j a -> kept s o j (fold_left pt js a).
Proof.
  induction js as [|j' js IH]; intros a Hnot Ha; [exact Ha|].
  apply not_elem_of_cons in Hnot as [Hne Hnot].
  cbn [fold_left]. apply IH; [exact Hnot|]. apply kept_step; [congruence|exact Ha].
Qed.

(** A property of the block of point [j] that the body establishes at [j]
    holds after the loop. *)
Lemma points_fold_row (o : Out A) (j : nat) (P : Out A -> Prop) (js : list nat) :
  (forall a b : StFlow A * Out A, kept s a.2 j b -> P a.2 -> P b.2) ->
  (forall a, kept s o j a -> P (pt a j).2) ->
  NoDup js -> j ∈ js -> P (fold_left pt js (s, o)).2.
Proof.
  intros Hlocal Hest Hnd Hin.
  pose proof (kept_refl o j) as H0.
  revert H0. generalize (s, o). induction js as [|j' js IH]; intros a Ha.
  - apply elem_of_nil in Hin. destruct Hin.
  - apply NoDup_cons in Hnd as [Hj' Hnd]. cbn [fold_left].
    destruct (decide (j' = j)) as [->|Hne].
    + apply (Hlocal (pt a j)); [|exact (Hest a Ha)].
      apply kept_fold; [exact Hj'|].
      split; [exact (kept_state o j j a Ha)|]. split; [reflexivity|].
      split; [reflexivity|]. intros i _. split; reflexivity.
    + apply elem_of_cons in Hin as [Heq|Hin]; [congruence|].
      apply IH; [exact Hnd|exact Hin|]. apply kept_step; [exact Hne|exact Ha].
Qed.

End PointsRow.

Section BoundaryPoints.
Context {A : Arith} {L : Libm A} {E : Externals A}.

Lemma grid_reads (s s1 : StFlow A) (x : list num) (j : nat) :
  grid s1 = grid s -> Y0_row s1 j = Y0_row s j /\ sum_Y s1 x j = sum_Y s x j.
Proof.
  intros Hg. unfold Y0_row, sum_Y, Y, index, species. rewrite Hg. split; reflexivity.
Qed.

Lemma evalRightBoundary_sum (kind : FlowKind) (x : list num) (s : StFlow A) (o : Out A) :
  let j := (m_points (grid s) - 1)%nat in
  (Y0_row s j < length (rsd o))%nat -> (Y0_row s j < length (diag o))%nat ->
  right_row_written s x (evalRightBoundary kind x s o).
Proof.
  intros j Hr Hd. unfold right_row_written. fold j.
  unfold evalRightBoundary, AxiStagnFlow_evalRightBoundary, FreeFlame_evalRightBoundary.
  fold j.
  destruct kind; apply right_species_sum;
    unfold set_diag, set_rsd; cbn [rsd diag]; rewrite ?length_insert; assumption.
Qed.

Lemma StFlow_boundary_body (kind : FlowKind) (x : list num) (rdt : num) :
  boundary_body kind (StFlow_point kind x rdt) x.
Proof.
  intros s o. split; [reflexivity|]. intros Hnp Hsz. unfold StFlow_point.
  destruct (Nat.eqb_spec (m_points (grid s) - 1) 0) as [H0|_]; [lia|].
  rewrite wrap_small by (unfold SIZE_MAX in *; lia).
  rewrite (proj2 (Z.eqb_eq _ _)) by lia. reflexivity.
Qed.

Lemma PorousFlow_boundary_body (x : list num) (rdt : num) :
  boundary_body PorousFlow (PorousFlow_point x rdt) x.
Proof.
  intros s o. split; [reflexivity|]. intros Hnp Hsz. unfold PorousFlow_point.
  destruct (Nat.eqb_spec (m_points (grid s) - 1) 0) as [H0|_]; [lia|].
  rewrite wrap_small by (unfold SIZE_MAX in *; lia).
  rewrite (proj2 (Z.eqb_eq _ _)) by lia. reflexivity.
Qed.

(** A loop over a window that holds the boundary points writes their
    normalisation rows. *)
Lemma boundary_rows_fold (kind : FlowKind)
    (pt : StFlow A * Out A -> nat -> StFlow A * Out A) (x : list num)
    (s s1 : StFlow A) (o : Out A) (jmin jmax : Z) :
  point_spec pt x -> boundary_body kind pt x ->
  m_nv (grid s) = (4 + m_nsp (grid s))%nat ->
  (1 <= m_nsp (grid s))%nat -> (2 <= m_points (grid s))%nat ->
  Z.of_nat (m_points (grid s)) <= SIZE_MAX ->
  obs_rows s1 = obs_rows s -> 0 <= jmin ->
  let o' := (fold_left pt (range jmin (jmax + 1)) (s1, o)).2 in
  (jmin = 0 -> 0 <= jmax -> (Y0_row s 0 < length (rsd o))%nat ->
   left_row_written s x o o') /\
  (jmin <= jmax -> jmax = Z.of_nat (m_points (grid s) - 1) ->
   (Y0_row s (m_points (grid s) - 1) < length (rsd o))%nat ->
   (Y0_row s (m_points (grid s) - 1) < length (diag o))%nat ->
   right_row_written s x o').
Proof.
  intros Hpt Hbody Hwf Hsp Hnp Hsz H1 Hmin o'.
  assert (Hg : grid s1 = grid s) by exact (f_equal (fun t => t.1.1.1) H1).
  assert (Hkept : forall j (a : StFlow A * Out A), kept s1 o j a -> grid a.1 = grid s).
  { intros j a (Ho & _). apply obs_residual_rows in Ho.
    rewrite <- Hg. exact (f_equal (fun t => t.1.1.1) Ho). }
  assert (Hwf1 : m_nv (grid s1) = (4 + m_nsp (grid s1))%nat) by (rewrite Hg; exact Hwf).
  assert (Hsp1 : (1 <= m_nsp (grid s1))%nat) by (rewrite Hg; exact Hsp).
  assert (Hnp1 : (1 <= m_points (grid s1))%nat) by (rewrite Hg; lia).
  assert (Hsz1 : Z.of_nat (m_points (grid s1)) <= SIZE_MAX) by (rewrite Hg; exact Hsz).
  split.
  - intros H0 Hmax Hrow. subst o'.
    apply (points_fold_row pt x Hpt s1 Hwf1 Hsp1 Hnp1 Hsz1 o 0%nat
             (fun o' => left_row_written s x o o')).
    + intros a b (_ & _ & _ & Hb) [P1 P2]. unfold left_row_written.
      destruct (Hb (Y0_row s 0)) as [B1 B2].
      { rewrite Hg. unfold Y0_row, index, c_offset_Y. lia. }
      split; congruence.
    + intros [s2 o2] Ha. pose proof (Hkept _ _ Ha) as Hg2. cbn [fst] in Hg2.
      destruct Ha as (_ & Lr & Ld & Hb). cbn [snd] in Lr, Ld, Hb.
      rewrite (proj1 (Hbody s2 o2)). cbn [snd].
      destruct (grid_reads s s2 x 0 Hg2) as [R1 R2].
      destruct (left_boundary_sum x s2 o2) as [W1 W2]; [rewrite R1, Lr; exact Hrow|].
      unfold left_row_written. rewrite <- R1, <- R2, W2. split; [exact W1|].
      apply Hb. rewrite Hg, R1. unfold Y0_row, index, c_offset_Y. lia.
    + apply NoDup_range.
    + apply elem_of_range; lia.
  - intros Hle Hmax Hr Hd. subst o'.
    apply (points_fold_row pt x Hpt s1 Hwf1 Hsp1 Hnp1 Hsz1 o (m_points (grid s) - 1)%nat
             (fun o' => right_row_written s x o')).
    + intros a b (_ & _ & _ & Hb) [P1 P2]. unfold right_row_written.
      destruct (Hb (Y0_row s (m_points (grid s) - 1))) as [B1 B2].
      { rewrite Hg. unfold Y0_row, index, c_offset_Y. lia. }
      cbv zeta. split; congruence.
    + intros [s2 o2] Ha. pose proof (Hkept _ _ Ha) as Hg2. cbn [fst] in Hg2.
      destruct Ha as (_ & Lr & Ld & _). cbn [snd] in Lr, Ld.
      assert (Hp : m_points (grid s) = m_points (grid s2)) by (rewrite Hg2; reflexivity).
      rewrite Hp.
      rewrite (proj2 (Hbody s2 o2)) by (rewrite Hg2; assumption). cbn [snd].
      destruct (grid_reads s s2 x (m_points (grid s2) - 1) Hg2) as [R1 R2].
      pose proof (evalRightBoundary_sum kind x s2 o2) as W. cbv zeta in W.
      unfold right_row_written in *. rewrite Hp in *.
      rewrite <- R1, <- R2. apply W; rewrite R1; congruence.
    + apply NoDup_range.
    + apply elem_of_range; lia.
Qed.

End BoundaryPoints.

(** X18.  The mass fractions are normalised at both boundaries.  When the
    window of a residual evaluation holds point 0, the row of the first
    species of that point ends as [1 - sum_k Y_k]: the zero-flux balance the
    species loop stored there is overwritten, and the flag of the row is left
    as the caller passed it.  When the window holds the last point, the row
    of the first species there ends as [1 - sum_k Y_k] with flag 0.  The base
    engine does for each kind of right boundary, and so does the porous
    variant; the domain has two points or more. *)
Theorem boundary_rows_normalise_mass_fractions {A : Arith} {L : Libm A} {E : Externals A}
    (kind : FlowKind) (jg : Z) (xg : list num) (o : Out A) (rdt : num) (s : StFlow A)
    (jmin jmax j0 j1 : Z) :
  (lit 0 >! tolerance) = false ->
  m_nv (grid s) = (4 + m_nsp (grid s))%nat ->
  (1 <= m_nsp (grid s))%nat -> (2 <= m_points (grid s))%nat ->
  Z.of_nat (m_points (grid s)) <= max_size ->
  m_transport_option (settings s) <> c_None_Transport ->
  outside_influence jg s = false ->
  eval_window jg s = (jmin, jmax, j0, j1) ->
  let x := drop (loc (grid s)) xg in
  let last := (m_points (grid s) - 1)%nat in
  let rows (o' : Out A) :=
    (jmin = 0 -> 0 <= jmax -> (Y0_row s 0 < length (rsd o))%nat ->
     left_row_written s x o o') /\
    (jmin <= jmax -> jmax = Z.of_nat last ->
     (Y0_row s last < length (rsd o))%nat -> (Y0_row s last < length (diag o))%nat ->
     right_row_written s x o') in
  (exists s' o', StFlow_eval kind jg xg o rdt s = Ok (s', o') /\ rows o') /\
  (exists s' o', PorousFlow_eval jg xg o rdt s = Some (Ok (s', o')) /\ rows o').
Proof.
  intros Htol Hwf Hsp Hnp Hmax Hopt Hin Hwin x last rows.
  destruct (eval_window_nonneg jg s jmin jmax j0 j1 Hwin) as [Hmin _].
  assert (Hsz : Z.of_nat (m_points (grid s)) <= SIZE_MAX)
    by (unfold max_size, SIZE_MAX in *; lia).
  split.
  - destruct (StFlow_eval_unfold kind jg xg o rdt s jmin jmax j0 j1 Hopt Hin Hwin)
      as (s1 & H1 & _ & _ & Ee).
    rewrite Ee.
    destruct (fold_left _ (range jmin (jmax + 1)) (s1, o)) as [s' o'] eqn:Ef.
    exists s', o'. split; [reflexivity|].
    change o' with (s', o').2. rewrite <- Ef.
    apply (boundary_rows_fold kind); try assumption.
    + apply StFlow_point_spec.
    + apply StFlow_boundary_body.
  - destruct (PorousFlow_eval_unfold Htol jg xg o rdt s jmin jmax j0 j1 Hopt Hmax Hin Hwin)
      as (s1 & H1 & _ & _ & Ee).
    rewrite Ee.
    destruct (fold_left _ (range jmin (jmax + 1)) (s1, o)) as [s' o'] eqn:Ef.
    exists s', o'. split; [reflexivity|].
    change o' with (s', o').2. rewrite <- Ef.
    apply (boundary_rows_fold PorousFlow); try assumption.
    + apply PorousFlow_point_spec.
    + apply PorousFlow_boundary_body.
Qed.

Lemma boundary_rows_normalise_mass_fractions_witness :
  let s := unit_flow (A:=Float64) 2 c_Mixav_Transport grid_012 in
  (exists s' o',
     StFlow_eval (E:=plain) AxiStagnFlow npos warm_solution small_out (lit 10) s
     = Ok (s', o') /\
     left_row_written s warm_solution small_out o' /\
     right_row_written s warm_solution o') /\
  (exists s' o',
     PorousFlow_eval (E:=plain) npos warm_solution small_out (lit 10) s
     = Some (Ok (s', o')) /\
     left_row_written s warm_solution small_out o' /\
     right_row_written s warm_solution o').
Proof.
  intros s.
  destruct (boundary_rows_normalise_mass_fractions (E:=plain) AxiStagnFlow npos
              warm_solution small_out (lit 10) s 0 2 0 2)
    as [(s1 & o1 & E1 & L1 & R1) (s2 & o2 & E2 & L2 & R2)];
    [reflexivity|reflexivity|cbn; lia|cbn; lia|unfold max_size; cbn; lia|discriminate
    |reflexivity|reflexivity|].
  split; [exists s1, o1|exists s2, o2]; (split; [assumption|]); split.
  - apply L1; [reflexivity|lia|vm_compute; lia].
  - apply R1; [lia|reflexivity|vm_compute; lia|vm_compute; lia].
  - apply L2; [reflexivity|lia|vm_compute; lia].
  - apply R2; [lia|reflexivity|vm_compute; lia|vm_compute; lia].
Defined.

(** ** The profiles of the porous solid *)

Section ProfileLoop.
Context {A : Arith} {L : Libm A} {E : Externals A}.

Lemma porous_profiles_stored (s : StFlow A) :
  let n := m_points (grid s) in
  length (pore (solidf s)) = n -> length (diam (solidf s)) = n ->
  length (scond (solidf s)) = n ->
  profiles_stored s n n ((porous_profiles s).1, (porous_profiles s).2.1.1,
                         (porous_profiles s).2.1.2, (porous_profiles s).2.2).
Proof.
  intros n Lp Ld Ls. unfold porous_profiles. cbv zeta. fold n.
  match goal with
  | |- context [fold_left ?f (seq 0 n) ?a] =>
      assert (H : forall k, (k <= n)%nat -> profiles_stored s n k (fold_left f (seq 0 k) a))
  end.
  { induction k as [|k IH]; intros Hk.
    - cbn [seq fold_left]. unfold profiles_stored.
      split; [reflexivity|]. split; [reflexivity|].
      split; [rewrite !length_replicate; auto 10|]. intros i Hi. lia.
    - rewrite seq_S, fold_left_app. cbn [fold_left Nat.add].
      specialize (IH ltac:(lia)).
      destruct (fold_left _ (seq 0 k) _) as [[[s1 RK] Cm] mp].
      unfold profiles_stored in IH |- *.
      destruct IH as (Hg & Hsc & (L1 & L2 & L3 & L4 & L5 & L6) & Hent).
      destruct s1 as [g c t th an [tw dq0 twp po di sc hc p1 p2 d1 d2 c1 c2 o1 o2 r cp zm dzm ds] lg].
      cbn [solidf on_solid set_pore set_diam set_scond pore diam scond pore1 pore2 diam1 diam2
           obs_gas grid cache settings m_thermo anchor] in *.
      injection Hsc as E1 E2 E3 E4. subst p1 p2 d1 d2.
      repeat match goal with
             | |- context [<[k := ?v]> po] =>
                 progress change v with (section_profile s (pore1 (solidf s)) (pore2 (solidf s)) k)
             | |- context [<[k := ?v]> di] =>
                 progress change v with (section_profile s (diam1 (solidf s)) (diam2 (solidf s)) k)
             end.
      split; [exact Hg|]. split; [reflexivity|].
      split; [rewrite !length_insert; auto 10|].
      intros i Hi. destruct (decide (i = k)) as [->|Hne].
      * rewrite !vget_insert_eq by lia. repeat split; reflexivity.
      * rewrite !(vget_insert_ne _ k i) by lia. apply Hent. lia. }
  specialize (H n ltac:(lia)).
  destruct (fold_left _ (seq 0 n) _) as [[[s1 RK] Cm] mp]. exact H.
Qed.

End ProfileLoop.


Lemma Qc_this_div (x y : Qc) : (this (x / y)%Qc == this x / this y)%Q.
Proof.
  unfold Qcdiv, Qcmult, Qcinv. cbn [this Q2Qc]. rewrite !Qred_correct. reflexivity.
Qed.

Lemma Qc_this_minus (x y : Qc) : (this (x - y)%Qc == this x - this y)%Q.
Proof.
  unfold Qcminus, Qcplus, Qcopp. cbn [this Q2Qc]. rewrite !Qred_correct. reflexivity.
Qed.

Lemma Qc_this_plus (x y : Qc) : (this (x + y)%Qc == this x + this y)%Q.
Proof. unfold Qcplus. cbn [this Q2Qc]. rewrite !Qred_correct. reflexivity. Qed.

Lemma Qc_this_mult (x y : Qc) : (this (x * y)%Qc == this x * this y)%Q.
Proof. unfold Qcmult. cbn [this Q2Qc]. rewrite !Qred_correct. reflexivity. Qed.

(** The position of a point inside the transition zone, as a fraction. *)
Lemma zone_fraction (zm dz zi : Qc) :
  (0 < dz)%Qc -> (zm - dz <= zi)%Qc -> (zi <= zm + dz)%Qc ->
  (0 <= (zi - (zm - dz)) / (Q2Qc 2 * dz) <= 1)%Qc.
Proof.
  unfold Qcle, Qclt. intros Hd Hlo Hhi.
  rewrite Qc_this_minus in Hlo. rewrite Qc_this_plus in Hhi.
  rewrite !Qc_this_div, !Qc_this_minus, Qc_this_mult.
  change (this (Q2Qc 2)) with 2%Q. change (this (Q2Qc 0)) with 0%Q in *.
  change (this 1%Qc) with 1%Q.
  assert (H2 : (0 < 2 * this dz)%Q) by lra.
  split.
  - apply Qle_shift_div_l; [exact H2|]. lra.
  - apply Qle_shift_div_r; [exact H2|]. lra.
Qed.

Lemma Qc_ltb_true (a b : Qc) : Qc_ltb a b = true -> (a < b)%Qc.
Proof.
  unfold Qc_ltb. intros H. apply negb_true_iff in H. apply Qcnot_le_lt. intros Hle.
  apply Qle_bool_iff in Hle. congruence.
Qed.

Lemma Qc_ltb_false (a b : Qc) : Qc_ltb a b = false -> (b <= a)%Qc.
Proof.
  unfold Qc_ltb. intros H. apply negb_false_iff in H. apply Qle_bool_iff in H. exact H.
Qed.

(** In exact arithmetic the profile is a weighted mean of its two section
    values, with a weight that depends on the point only. *)
Lemma section_profile_convex (s : StFlow Exact) (i : nat) :
  (0 < m_dzmid (solidf s))%Qc ->
  exists t : Qc,
    (0 <= t <= 1)%Qc /\
    (forall a b : Qc, section_profile s a b i = (a + (b - a) * t)%Qc) /\
    ((z s i <= m_zmid (solidf s) - m_dzmid (solidf s))%Qc -> t = 0%Qc) /\
    ((m_zmid (solidf s) + m_dzmid (solidf s) <= z s i)%Qc -> t = 1%Qc).
Proof.
  intros Hd. unfold section_profile. cbv zeta.
  change (@num Exact) with Qc in *.
  change (@add Exact) with Qcplus; change (@sub Exact) with Qcminus;
    change (@mul Exact) with Qcmult; change (@div Exact) with Qcdiv;
    change (@ltb Exact) with Qc_ltb.
  change (@lit Exact 2) with (Q2Qc 2).
  set (zi := z s i) in *. set (zm := m_zmid (solidf s)) in *.
  set (dz := m_dzmid (solidf s)) in *.
  clearbody zi zm dz.
  destruct (Qc_ltb zi (zm - dz)) eqn:E1.
  - apply Qc_ltb_true in E1. exists 0%Qc.
    split; [split; [apply Qcle_refl|discriminate]|].
    split; [intros a b; ring|]. split; [reflexivity|].
    intros Hhi. exfalso. unfold Qcle, Qclt in *.
    rewrite ?Qc_this_minus, ?Qc_this_plus in *. change (this (Q2Qc 0)) with 0%Q in *. lra.
  - apply Qc_ltb_false in E1.
    destruct (Qc_ltb (zm + dz) zi) eqn:E2.
    + apply Qc_ltb_true in E2. exists 1%Qc.
      split; [split; [discriminate|apply Qcle_refl]|].
      split; [intros a b; ring|]. split; [|reflexivity].
      intros Hlo. exfalso. unfold Qcle, Qclt in *.
      rewrite ?Qc_this_minus, ?Qc_this_plus in *. change (this (Q2Qc 0)) with 0%Q in *. lra.
    + apply Qc_ltb_false in E2.
      assert (Hdz : dz <> Q2Qc 0).
      { intros H. rewrite H in Hd. exact (Qclt_not_eq _ _ Hd eq_refl). }
      assert (H2 : Q2Qc 2 = (1 + 1)%Qc) by (apply Qc_is_canon; reflexivity).
      rewrite H2 in *.
      assert (Hside : dz <> Q2Qc 0 /\ (1 + 1)%Qc <> Q2Qc 0) by (split; [exact Hdz|discriminate]).
      exists ((zi - (zm - dz)) / ((1 + 1) * dz))%Qc.
      split; [rewrite <- H2; apply zone_fraction; assumption|].
      split; [intros a b; field; exact Hside|]. split.
      * intros Hlo. assert (zi = (zm - dz)%Qc) as -> by (apply Qcle_antisym; assumption).
        field. exact Hside.
      * intros Hhi. assert (zi = (zm + dz)%Qc) as -> by (apply Qcle_antisym; assumption).
        field. exact Hside.
Qed.

(** X19.  The profiles of the porous solid lie between their two section
    values and join them continuously.  In exact arithmetic, with a
    transition zone of positive half-width and one entry per point in the
    arrays, the profile loop of PorousFlow::eval leaves the gas side alone
    and stores, at every point [i], a porosity and a pore diameter that are
    the same weighted mean of their two section values, with a weight
    between 0 and 1 that is 0 up to the start of the zone and 1 from its
    end on; the solid conductivity it stores is [0.188 - 17.5 d] and the
    extinction coefficient [3 (1 - porosity) / d] of the diameter [d] just
    stored, whatever the arrays held before. *)
Theorem porous_profiles_between_sections (s : StFlow Exact) :
  let n := m_points (grid s) in
  let p := solidf s in
  length (pore p) = n -> length (diam p) = n -> length (scond p) = n ->
  (0 < m_dzmid p)%Qc ->
  let s' := (porous_profiles s).1 in
  let RK := (porous_profiles s).2.1.1 in
  obs_gas s' = obs_gas s /\
  forall i, (i < n)%nat ->
    exists t : Qc,
      (0 <= t <= 1)%Qc /\
      (pore (solidf s')).[i] = (pore1 p + (pore2 p - pore1 p) * t)%Qc /\
      (diam (solidf s')).[i] = (diam1 p + (diam2 p - diam1 p) * t)%Qc /\
      ((z s i <= m_zmid p - m_dzmid p)%Qc -> t = 0%Qc) /\
      ((m_zmid p + m_dzmid p <= z s i)%Qc -> t = 1%Qc) /\
      (scond (solidf s')).[i] = lit 0.188 -! lit 17.5 *! (diam (solidf s')).[i] /\
      RK.[i] = lit 3 *! (lit 1 -! (pore (solidf s')).[i]) /! (diam (solidf s')).[i].
Proof.
  intros n p Lp Ld Ls Hd s' RK.
  pose proof (porous_profiles_stored s Lp Ld Ls) as H. fold n s' RK in H.
  unfold profiles_stored in H. destruct H as (Hg & _ & _ & Hent).
  split; [exact Hg|]. intros i Hi.
  destruct (Hent i Hi) as (E1 & E2 & E3 & E4 & _).
  destruct (section_profile_convex s i Hd) as (t & Ht & Heq & Hlo & Hhi).
  exists t. split; [exact Ht|].
  split; [rewrite E1; apply Heq|]. split; [rewrite E2; apply Heq|].
  split; [exact Hlo|]. split; [exact Hhi|]. split; [exact E3|exact E4].
Qed.

Lemma porous_profiles_between_sections_witness :
  let s := two_section_domain in
  let p := solidf s in
  let s' := (porous_profiles s).1 in
  let RK := (porous_profiles s).2.1.1 in
  obs_gas s' = obs_gas s /\
  forall i, (i < 3)%nat ->
    exists t : Qc,
      (0 <= t <= 1)%Qc /\
      (pore (solidf s')).[i] = (pore1 p + (pore2 p - pore1 p) * t)%Qc /\
      (diam (solidf s')).[i] = (diam1 p + (diam2 p - diam1 p) * t)%Qc /\
      ((z s i <= m_zmid p - m_dzmid p)%Qc -> t = 0%Qc) /\
      ((m_zmid p + m_dzmid p <= z s i)%Qc -> t = 1%Qc) /\
      (scond (solidf s')).[i] = lit 0.188 -! lit 17.5 *! (diam (solidf s')).[i] /\
      RK.[i] = lit 3 *! (lit 1 -! (pore (solidf s')).[i]) /! (diam (solidf s')).[i].
Proof.
  apply (porous_profiles_between_sections two_section_domain); reflexivity.
Defined.

(** ** The flags of the interior points *)

Section FlagFacts.
Context {A : Arith} {L : Libm A} {E : Externals A}.

Lemma fold_left_proj {S T I} (proj : S -> T) (f : S -> I -> S) (g : T -> I -> T)
    (l : list I) :
  (forall a i, proj (f a i) = g (proj a) i) ->
  forall a, proj (fold_left f l a) = fold_left g l (proj a).
Proof.
  intros H. induction l as [|i l IH]; intros a; [reflexivity|].
  cbn [fold_left]. rewrite IH, H. reflexivity.
Qed.

(** A loop of stores of one value. *)
Lemma fold_const_insert {T} (pos : nat -> nat) (v : T) (l : list nat) :
  forall d : list T,
  let d' := fold_left (fun d k => <[pos k := v]> d) l d in
  length d' = length d /\
  forall p, (p < length d)%nat ->
    (d !! p = Some v \/ (exists k, k ∈ l /\ pos k = p) -> d' !! p = Some v) /\
    ((forall k, k ∈ l -> pos k <> p) -> d' !! p = d !! p).
Proof.
  induction l as [|k l IH]; intros d; cbn [fold_left].
  - split; [reflexivity|]. intros p Hp. split; [|reflexivity].
    intros [H|(k & Hk & _)]; [exact H|]. apply elem_of_nil in Hk. destruct Hk.
  - cbv zeta in IH. destruct (IH (<[pos k := v]> d)) as [Hl Hp].
    rewrite length_insert in Hl, Hp. split; [exact Hl|].
    intros p Hlt. destruct (Hp p Hlt) as [Hin Hout]. split.
    + intros H. apply Hin.
      destruct (decide (pos k = p)) as [<-|Hne].
      * left. apply list_lookup_insert_eq. exact Hlt.
      * destruct H as [H|(k' & Hk' & Hpos)].
        -- left. rewrite list_lookup_insert_ne by exact Hne. exact H.
        -- apply elem_of_cons in Hk' as [->|Hk']; [contradiction|].
           right. exists k'. split; assumption.
    + intros H. rewrite Hout by (intros k' Hk'; apply H; right; exact Hk').
      apply list_lookup_insert_ne. apply H. left.
Qed.

Lemma evalContinuity_diag (kind : FlowKind) (j : nat) (x : list num) (s : StFlow A)
    (o : Out A) :
  diag (evalContinuity kind j x s o) = <[row s c_offset_U j := 0]> (diag o).
Proof.
  unfold evalContinuity, AxiStagnFlow_evalContinuity, FreeFlame_evalContinuity.
  destruct kind; try reflexivity.
  repeat match goal with |- context [if ?c then _ else _] => destruct c end; reflexivity.
Qed.

Lemma StFlow_interior_diag (kind : FlowKind) (j : nat) (x : list num) (rdt : num)
    (s : StFlow A) (o : Out A) :
  diag (StFlow_interior kind j x rdt s o).2 = interior_diag s j (diag o).
Proof.
  unfold StFlow_interior, interior_diag. cbv zeta.
  match goal with
  | |- context [fold_left ?f (species ?s') ?o0] =>
      pose proof (fold_left_proj diag f
                    (fun d k => <[row s (c_offset_Y + k) j := 1]> d) (species s')
                    (fun a i => eq_refl) o0) as Hf;
      destruct (fold_left f (species s') o0) as [r1 d1]
  end.
  cbn [diag] in Hf.
  unfold momentum_row in Hf. cbn [diag set_diag set_rsd] in Hf.
  rewrite evalContinuity_diag in Hf.
  change (species (getWdot x j s)) with (species s) in Hf.
  change (bget (m_do_energy (settings (getWdot x j s))) j)
    with (bget (m_do_energy (settings s)) j).
  destruct (bget (m_do_energy (settings s)) j).
  - destruct (energy_sums j _) as [sum sum2]. cbn. rewrite Hf. reflexivity.
  - cbn. rewrite Hf. reflexivity.
Qed.

Lemma PorousFlow_interior_diag (j : nat) (x : list num) (rdt : num)
    (s : StFlow A) (o : Out A) :
  diag (PorousFlow_interior j x rdt s o).2 = interior_diag s j (diag o).
Proof.
  unfold PorousFlow_interior, interior_diag. cbv zeta.
  match goal with
  | |- context [fold_left ?f (species ?s') ?o0] =>
      pose proof (fold_left_proj diag f
                    (fun d k => <[row s (c_offset_Y + k) j := 1]> d) (species s')
                    (fun a i => eq_refl) o0) as Hf;
      destruct (fold_left f (species s') o0) as [r1 d1]
  end.
  cbn [diag] in Hf.
  unfold momentum_row in Hf. cbn [diag set_diag set_rsd] in Hf.
  change (species (getWdot x j s)) with (species s) in Hf.
  change (bget (m_do_energy (settings (getWdot x j s))) j)
    with (bget (m_do_energy (settings s)) j).
  destruct (bget (m_do_energy (settings s)) j).
  - destruct (energy_sums j _) as [sum sum2]. cbn. rewrite Hf. reflexivity.
  - cbn. rewrite Hf. reflexivity.
Qed.

(** What the stores leave in the block of the point. *)
Lemma interior_diag_flags (s : StFlow A) (j : nat) (o' : Out A) (d : list Z) :
  m_nv (grid s) = (4 + m_nsp (grid s))%nat ->
  (row s 0 j + m_nv (grid s) <= length d)%nat ->
  diag o' = interior_diag s j d -> interior_flags s j o'.
Proof.
  intros Hwf Hlen Hd. unfold interior_flags. rewrite Hd. unfold interior_diag.
  set (d0 := <[row s c_offset_V j := 1]> (<[row s c_offset_U j := 0]> d)).
  destruct (fold_const_insert (fun k => row s (c_offset_Y + k) j) 1 (species s) d0)
    as [Hl Hp].
  cbv zeta in Hl, Hp.
  set (d1 := fold_left _ (species s) d0) in *.
  assert (Hl0 : length d0 = length d) by (subst d0; rewrite !length_insert; reflexivity).
  remember (loc (grid s) + m_nv (grid s) * j)%nat as base eqn:Hbase.
  assert (Hrow : forall n, row s n j = (base + n)%nat)
    by (intros n; unfold row, index; lia).
  rewrite (Hrow 0%nat) in Hlen.
  assert (Hout : forall n, (n < 4)%nat -> d1 !! row s n j = d0 !! row s n j).
  { intros n Hn. apply Hp; [rewrite Hl0, Hrow; lia|].
    intros k _. rewrite (Hrow n), (Hrow (c_offset_Y + k)%nat). unfold c_offset_Y. lia. }
  unfold c_offset_U, c_offset_V, c_offset_T, c_offset_L, c_offset_Y in *.
  repeat split.
  - rewrite !list_lookup_insert_ne by (rewrite !Hrow; lia). rewrite (Hout 0%nat) by lia.
    subst d0. rewrite list_lookup_insert_ne by (rewrite !Hrow; lia).
    apply list_lookup_insert_eq. rewrite Hrow. lia.
  - rewrite !list_lookup_insert_ne by (rewrite !Hrow; lia). rewrite (Hout 1%nat) by lia.
    subst d0. apply list_lookup_insert_eq. rewrite length_insert, Hrow. lia.
  - rewrite list_lookup_insert_ne by (rewrite !Hrow; lia).
    apply list_lookup_insert_eq. rewrite Hl, Hl0, Hrow. lia.
  - apply list_lookup_insert_eq. rewrite length_insert, Hl, Hl0, Hrow. lia.
  - intros k Hk. rewrite !list_lookup_insert_ne by (rewrite !Hrow; lia).
    apply Hp; [rewrite Hl0, Hrow; lia|]. right. exists k. split; [|reflexivity].
    unfold species. apply elem_of_seq. lia.
Qed.

End FlagFacts.

Section FlagsLoop.
Context {A : Arith} {L : Libm A} {E : Externals A}.

Lemma flags_read (s s2 : StFlow A) (j : nat) (o' : Out A) :
  obs_rows s2 = obs_rows s -> interior_flags s2 j o' -> interior_flags s j o'.
Proof.
  intros H. inversion H as [[Hg He Hf Ho]].
  unfold interior_flags, row, index. rewrite Hg, He. auto.
Qed.

(** The loop over the points leaves the flags of an interior point of its
    window as the point's own stores set them. *)
Lemma interior_flags_fold (pt : StFlow A * Out A -> nat -> StFlow A * Out A)
    (x : list num) (s s1 : StFlow A) (o : Out A) (jmin jmax : Z) (j : nat) :
  point_spec pt x ->
  (forall (s : StFlow A) (o : Out A),
     (0 < j)%nat -> (j + 1 < m_points (grid s))%nat ->
     Z.of_nat (m_points (grid s)) <= SIZE_MAX ->
     diag (pt (s, o) j).2 = interior_diag s j (diag o)) ->
  m_nv (grid s) = (4 + m_nsp (grid s))%nat ->
  (1 <= m_nsp (grid s))%nat ->
  Z.of_nat (m_points (grid s)) <= SIZE_MAX ->
  obs_rows s1 = obs_rows s ->
  0 <= jmin -> jmin <= Z.of_nat j <= jmax ->
  (0 < j)%nat -> (j + 1 < m_points (grid s))%nat ->
  (row s 0 j + m_nv (grid s) <= length (diag o))%nat ->
  interior_flags s j (fold_left pt (range jmin (jmax + 1)) (s1, o)).2.
Proof.
  intros Hpt Hbody Hwf Hsp Hsz H1 Hmin Hj Hj0 Hj1 Hlen.
  assert (Hg : grid s1 = grid s) by exact (f_equal (fun t => t.1.1.1) H1).
  assert (Hwf1 : m_nv (grid s1) = (4 + m_nsp (grid s1))%nat) by (rewrite Hg; exact Hwf).
  assert (Hsp1 : (1 <= m_nsp (grid s1))%nat) by (rewrite Hg; exact Hsp).
  assert (Hnp1 : (1 <= m_points (grid s1))%nat) by (rewrite Hg; lia).
  assert (Hsz1 : Z.of_nat (m_points (grid s1)) <= SIZE_MAX) by (rewrite Hg; exact Hsz).
  apply (points_fold_row pt x Hpt s1 Hwf1 Hsp1 Hnp1 Hsz1 o j
           (fun o' => interior_flags s j o')).
  - intros a b (_ & _ & _ & Hb) (P1 & P2 & P3 & P4 & P5).
    assert (Hin : forall n, (n < m_nv (grid s))%nat ->
              diag b.2 !! row s n j = diag a.2 !! row s n j).
    { intros n Hn. apply Hb. rewrite Hg. unfold row, index. lia. }
    unfold interior_flags, c_offset_U, c_offset_V, c_offset_T, c_offset_L, c_offset_Y in *.
    rewrite !Hin by lia. repeat split; try assumption.
    intros k Hk. rewrite Hin by lia. apply P5. exact Hk.
  - intros [s2 o2] (Ho & Lr & Ld & _). cbn [fst snd] in *.
    assert (H2 : obs_rows s2 = obs_rows s).
    { rewrite <- H1. apply obs_residual_rows. exact Ho. }
    assert (Hg2 : grid s2 = grid s) by exact (f_equal (fun t => t.1.1.1) H2).
    apply (flags_read s s2 j _ H2).
    apply (interior_diag_flags s2 j _ (diag o2)).
    + rewrite Hg2. exact Hwf.
    + unfold row, index in *. rewrite Hg2, Ld. exact Hlen.
    + apply Hbody; rewrite ?Hg2; assumption.
  - apply NoDup_range.
  - apply elem_of_range; lia.
Qed.

Lemma StFlow_point_interior_diag (kind : FlowKind) (x : list num) (rdt : num) (j : nat)
    (s : StFlow A) (o : Out A) :
  (0 < j)%nat -> (j + 1 < m_points (grid s))%nat ->
  Z.of_nat (m_points (grid s)) <= SIZE_MAX ->
  diag (StFlow_point kind x rdt (s, o) j).2 = interior_diag s j (diag o).
Proof.
  intros Hj0 Hj1 Hsz. unfold StFlow_point.
  destruct (Nat.eqb_spec j 0) as [H0|_]; [lia|].
  rewrite wrap_small by (unfold SIZE_MAX in *; lia).
  destruct (Z.eqb_spec (Z.of_nat j) (Z.of_nat (m_points (grid s)) - 1)) as [H|_]; [lia|].
  apply StFlow_interior_diag.
Qed.

Lemma PorousFlow_point_interior_diag (x : list num) (rdt : num) (j : nat)
    (s : StFlow A) (o : Out A) :
  (0 < j)%nat -> (j + 1 < m_points (grid s))%nat ->
  Z.of_nat (m_points (grid s)) <= SIZE_MAX ->
  diag (PorousFlow_point x rdt (s, o) j).2 = interior_diag s j (diag o).
Proof.
  intros Hj0 Hj1 Hsz. unfold PorousFlow_point.
  destruct (Nat.eqb_spec j 0) as [H0|_]; [lia|].
  rewrite wrap_small by (unfold SIZE_MAX in *; lia).
  destruct (Z.eqb_spec (Z.of_nat j) (Z.of_nat (m_points (grid s)) - 1)) as [H|_]; [lia|].
  apply PorousFlow_interior_diag.
Qed.

End FlagsLoop.

(** X20.  The flags of an interior point classify its equations.  After a
    residual evaluation, every interior point [j] of the evaluated window has
    flag 0 (algebraic) on its continuity row and on the row of the pressure
    eigenvalue, flag 1 (differential) on its momentum row and on the row of
    every species, and on its energy row flag 1 where the energy equation is
    enabled and 0 where it is not.  The base engine does for both kinds of
    continuity equation (for the free flame in each of its three branches),
    and so does the porous variant. *)
Theorem interior_flags_classify_equations {A : Arith} {L : Libm A} {E : Externals A}
    (kind : FlowKind) (jg : Z) (xg : list num) (o : Out A) (rdt : num) (s : StFlow A)
    (jmin jmax j0 j1 : Z) (j : nat) :
  (lit 0 >! tolerance) = false ->
  m_nv (grid s) = (4 + m_nsp (grid s))%nat ->
  (1 <= m_nsp (grid s))%nat ->
  Z.of_nat (m_points (grid s)) <= max_size ->
  m_transport_option (settings s) <> c_None_Transport ->
  outside_influence jg s = false ->
  eval_window jg s = (jmin, jmax, j0, j1) ->
  jmin <= Z.of_nat j <= jmax ->
  (0 < j)%nat -> (j + 1 < m_points (grid s))%nat ->
  (row s 0 j + m_nv (grid s) <= length (diag o))%nat ->
  (exists s' o', StFlow_eval kind jg xg o rdt s = Ok (s', o') /\ interior_flags s j o') /\
  (exists s' o', PorousFlow_eval jg xg o rdt s = Some (Ok (s', o')) /\
     interior_flags s j o').
Proof.
  intros Htol Hwf Hsp Hmax Hopt Hin Hwin Hj Hj0 Hj1 Hlen.
  destruct (eval_window_nonneg jg s jmin jmax j0 j1 Hwin) as [Hmin _].
  assert (Hsz : Z.of_nat (m_points (grid s)) <= SIZE_MAX)
    by (unfold max_size, SIZE_MAX in *; lia).
  split.
  - destruct (StFlow_eval_unfold kind jg xg o rdt s jmin jmax j0 j1 Hopt Hin Hwin)
      as (s1 & H1 & _ & _ & Ee).
    rewrite Ee.
    destruct (fold_left _ (range jmin (jmax + 1)) (s1, o)) as [s' o'] eqn:Ef.
    exists s', o'. split; [reflexivity|].
    change o' with (s', o').2. rewrite <- Ef.
    apply (interior_flags_fold _ (drop (loc (grid s)) xg)); try assumption.
    + apply StFlow_point_spec.
    + intros s2 o2. apply StFlow_point_interior_diag.
  - destruct (PorousFlow_eval_unfold Htol jg xg o rdt s jmin jmax j0 j1 Hopt Hmax Hin Hwin)
      as (s1 & H1 & _ & _ & Ee).
    rewrite Ee.
    destruct (fold_left _ (range jmin (jmax + 1)) (s1, o)) as [s' o'] eqn:Ef.
    exists s', o'. split; [reflexivity|].
    change o' with (s', o').2. rewrite <- Ef.
    apply (interior_flags_fold _ (drop (loc (grid s)) xg)); try assumption.
    + apply PorousFlow_point_spec.
    + intros s2 o2. apply PorousFlow_point_interior_diag.
Qed.

Lemma interior_flags_classify_equations_witness :
  let s := unit_flow (A:=Float64) 2 c_Mixav_Transport grid_012 in
  (exists s' o',
     StFlow_eval (E:=plain) AxiStagnFlow npos warm_solution small_out (lit 10) s
     = Ok (s', o') /\ interior_flags s 1 o') /\
  (exists s' o',
     PorousFlow_eval (E:=plain) npos warm_solution small_out (lit 10) s
     = Some (Ok (s', o')) /\ interior_flags s 1 o').
Proof.
  intros s.
  apply (interior_flags_classify_equations (E:=plain) AxiStagnFlow npos warm_solution
           small_out (lit 10) s 0 2 0 2 1%nat);
    [reflexivity|reflexivity|cbn; lia|unfold max_size; cbn; lia|discriminate
    |reflexivity|reflexivity|lia|lia|cbn; lia|vm_compute; lia].
Defined.

(** ** The continuity row of the free flame *)

Section PointsRowAnchored.
Context {A : Arith} {L : Libm A} {E : Externals A}.

Variable pt : StFlow A * Out A -> nat -> StFlow A * Out A.
Variable x : list num.
Hypothesis pt_spec : point_spec pt x.
Hypothesis pt_anchor : forall a j, anchor (pt a j).1 = anchor a.1.

Variable s : StFlow A.
Hypothesis well_formed : m_nv (grid s) = (4 + m_nsp (grid s))%nat.
Hypothesis has_species : (1 <= m_nsp (grid s))%nat.
Hypothesis has_points : (1 <= m_points (grid s))%nat.
Hypothesis fits : Z.of_nat (m_points (grid s)) <= SIZE_MAX.

(** [points_fold_row] for a property that reads the anchor. *)
Lemma points_fold_row_anchored (o : Out A) (j : nat) (P : Out A -> Prop) (js : list nat) :
  (forall a b : StFlow A * Out A, kept s a.2 j b -> P a.2 -> P b.2) ->
  (forall a, kept_anchored s o j a -> P (pt a j).2) ->
  NoDup js -> j ∈ js -> P (fold_left pt js (s, o)).2.
Proof.
  intros Hlocal Hest Hnd Hin.
  assert (H0 : kept_anchored s o j (s, o))
    by (split; [apply kept_refl|reflexivity]).
  revert H0. generalize (s, o). induction js as [|j' js IH]; intros a [Ha Han].
  - apply elem_of_nil in Hin. destruct Hin.
  - apply NoDup_cons in Hnd as [Hj' Hnd]. cbn [fold_left].
    destruct (decide (j' = j)) as [->|Hne].
    + apply (Hlocal (pt a j)); [|exact (Hest a (conj Ha Han))].
      apply (kept_fold pt x pt_spec s well_formed has_species has_points fits);
        [exact Hj'|].
      split; [exact (kept_state pt x pt_spec s well_formed has_species has_points fits
                       o j j a Ha)|].
      split; [reflexivity|]. split; [reflexivity|]. intros i _. split; reflexivity.
    + apply elem_of_cons in Hin as [Heq|Hin]; [congruence|].
      apply IH; [exact Hnd|exact Hin|]. split.
      * apply (kept_step pt x pt_spec s well_formed has_species has_points fits);
          [exact Hne|exact Ha].
      * rewrite pt_anchor. exact Han.
Qed.

End PointsRowAnchored.

Section AnchorFrames.
Context {A : Arith} {L : Libm A} {E : Externals A}.

Lemma updateThermo_anchor (x : list num) (j0 j1 : Z) (s : StFlow A) :
  anchor (updateThermo x j0 j1 s) = anchor s.
Proof. unfold updateThermo. apply fold_left_obs. reflexivity. Qed.

Lemma updateTransport_anchor (x : list num) (j0 j1 : Z) (s : StFlow A) :
  anchor (updateTransport x j0 j1 s) = anchor s.
Proof.
  unfold updateTransport. destruct (m_transport_option (settings s)); [reflexivity| |].
  - apply fold_left_obs. reflexivity.
  - apply fold_left_obs. intros s' j.
    cbv zeta.
    match goal with
    | |- anchor (if ?c then _ else _) = _ => destruct c
    end; cbn [anchor on_cache];
    match goal with
    | |- context [fold_left ?f (species ?s0) ?s1] =>
        change (anchor (fold_left f (species s0) s1) = anchor s');
        rewrite (fold_left_obs anchor f (species s0)) by reflexivity; reflexivity
    end.
Qed.

Lemma mixav_fluxes_anchor (x : list num) (j : nat) (s : StFlow A) :
  anchor (mixav_fluxes x j s) = anchor s.
Proof.
  unfold mixav_fluxes. cbv zeta.
  destruct (fold_left _ (species s) (s, lit 0)) as [s1 sum] eqn:E1.
  rewrite (fold_left_obs anchor) by reflexivity.
  change s1 with (fst (s1, sum)). rewrite <- E1.
  apply (fold_left_obs (fun a : StFlow A * num => anchor a.1)).
  intros [s' sum'] k. reflexivity.
Qed.

Lemma updateDiffFluxes_anchor (x : list num) (j0 j1 : Z) (s s' : StFlow A) :
  updateDiffFluxes x j0 j1 s = Ok s' -> anchor s' = anchor s.
Proof.
  unfold updateDiffFluxes. intros H.
  destruct (m_transport_option (settings s)); cbn [bind] in H; [discriminate| |].
  - set (s1 := fold_left _ (range j0 j1) s) in H.
    assert (H1 : anchor s1 = anchor s)
      by (apply fold_left_obs; intros; apply mixav_fluxes_anchor).
    destruct (m_do_soret (settings s1)); inversion H; subst s'; [|exact H1].
    rewrite <- H1. apply fold_left_obs. intros. unfold soret_fluxes.
    apply fold_left_obs. reflexivity.
  - set (s1 := fold_left _ (range j0 j1) s) in H.
    assert (H1 : anchor s1 = anchor s).
    { apply fold_left_obs. intros. unfold multi_fluxes. apply fold_left_obs. reflexivity. }
    destruct (m_do_soret (settings s1)); inversion H; subst s'; [|exact H1].
    rewrite <- H1. apply fold_left_obs. intros. unfold soret_fluxes.
    apply fold_left_obs. reflexivity.
Qed.

Lemma radiation_anchor (x : list num) (jmin jmax : Z) (s : StFlow A) :
  anchor (radiation x jmin jmax s) = anchor s.
Proof. unfold radiation. cbv zeta. apply fold_left_obs. reflexivity. Qed.

Lemma StFlow_point_anchor (kind : FlowKind) (x : list num) (rdt : num)
    (a : StFlow A * Out A) (j : nat) :
  anchor (StFlow_point kind x rdt a j).1 = anchor a.1.
Proof.
  destruct a as [s o]. unfold StFlow_point, StFlow_interior.
  destruct (j =? 0)%nat; [reflexivity|].
  destruct (Z.of_nat j =? _); [reflexivity|].
  cbv zeta.
  change (bget (m_do_energy (settings (getWdot x j s))) j)
    with (bget (m_do_energy (settings s)) j).
  destruct (bget (m_do_energy (settings s)) j); [|reflexivity].
  destruct (energy_sums j (setGas x j (getWdot x j s))). reflexivity.
Qed.

(** The state that enters the loop over the points, with its anchor. *)
Lemma StFlow_eval_enters (kind : FlowKind) (jg : Z) (xg : list num) (o : Out A)
    (rdt : num) (s : StFlow A) (jmin jmax j0 j1 : Z) :
  m_transport_option (settings s) <> c_None_Transport ->
  outside_influence jg s = false ->
  eval_window jg s = (jmin, jmax, j0, j1) ->
  exists s1,
    obs_rows s1 = obs_rows s /\ anchor s1 = anchor s /\
    StFlow_eval kind jg xg o rdt s
    = Ok (fold_left (StFlow_point kind (drop (loc (grid s)) xg)
                       (if negb (jg =? npos) then lit 0 else rdt))
                    (range jmin (jmax + 1)) (s1, o)).
Proof.
  intros Hopt Hin Hwin. unfold StFlow_eval. rewrite Hin, Hwin.
  set (x := drop (loc (grid s)) xg).
  set (sa := updateThermo x j0 j1 s).
  assert (Ha : obs_update sa = obs_update s) by apply updateThermo_obs.
  assert (Aa : anchor sa = anchor s) by apply updateThermo_anchor.
  set (sb := if jg =? npos then updateTransport x j0 j1 sa else sa).
  assert (Hb : obs_rows sb = obs_rows s).
  { subst sb. destruct (jg =? npos).
    - rewrite updateTransport_obs. apply obs_update_rows, Ha.
    - apply obs_update_rows, Ha. }
  assert (Ab : anchor sb = anchor s).
  { subst sb. destruct (jg =? npos); [rewrite updateTransport_anchor|]; exact Aa. }
  assert (Hoptb : m_transport_option (settings sb) <> c_None_Transport)
    by (rewrite (obs_rows_option _ _ Hb); exact Hopt).
  destruct (updateDiffFluxes_Ok x j0 j1 sb Hoptb) as (sc & Ec).
  rewrite Ec. cbn [bind].
  assert (Hc : obs_update sc = obs_update sb) by (eapply updateDiffFluxes_obs; exact Ec).
  assert (Ac : anchor sc = anchor sb) by (eapply updateDiffFluxes_anchor; exact Ec).
  set (sd := if m_do_radiation (settings sc) then radiation x jmin jmax sc else sc).
  assert (Hd : obs_residual sd = obs_residual sc).
  { subst sd. destruct (m_do_radiation (settings sc)); [apply radiation_obs|reflexivity]. }
  assert (Ad : anchor sd = anchor sc).
  { subst sd. destruct (m_do_radiation (settings sc)); [apply radiation_anchor|reflexivity]. }
  exists sd. split; [|split].
  - rewrite (obs_residual_rows _ _ Hd), (obs_update_rows _ _ Hc). exact Hb.
  - congruence.
  - reflexivity.
Qed.

End AnchorFrames.

Section ContinuityRow.
Context {A : Arith} {L : Libm A} {E : Externals A}.

(** The stores of an interior point after the continuity equation leave the
    continuity row alone. *)
Lemma StFlow_interior_rsd_U (kind : FlowKind) (j : nat) (x : list num) (rdt : num)
    (s : StFlow A) (o : Out A) :
  rsd (StFlow_interior kind j x rdt s o).2 !! row s c_offset_U j
  = rsd (evalContinuity kind j x s o) !! row s c_offset_U j.
Proof.
  assert (Hrow : forall n, n <> 0%nat -> row s n j <> row s c_offset_U j)
    by (intros n Hn; unfold row, index, c_offset_U; lia).
  unfold StFlow_interior. cbv zeta.
  match goal with
  | |- context [fold_left ?f (species ?s') ?o0] =>
      pose proof (fold_left_obs (fun o : Out A => rsd o !! row s c_offset_U j) f
                    (species s')) as Hf;
      specialize (Hf ltac:(intros o1 k; cbn [rsd set_diag set_rsd];
                           apply list_lookup_insert_ne, Hrow; unfold c_offset_Y; lia) o0);
      destruct (fold_left f (species s') o0) as [r1 d1]
  end.
  cbn [rsd] in Hf. unfold momentum_row in Hf. cbn [rsd set_diag set_rsd] in Hf.
  rewrite list_lookup_insert_ne in Hf by (apply Hrow; unfold c_offset_V; lia).
  rewrite <- Hf.
  change (bget (m_do_energy (settings (getWdot x j s))) j)
    with (bget (m_do_energy (settings s)) j).
  destruct (bget (m_do_energy (settings s)) j).
  - destruct (energy_sums j _) as [sum sum2]. cbn [snd lambda_row rsd set_diag set_rsd].
    rewrite !list_lookup_insert_ne
      by (apply Hrow; unfold c_offset_L, c_offset_T; lia).
    reflexivity.
  - cbn [snd lambda_row fixed_temperature_row rsd set_diag set_rsd].
    rewrite !list_lookup_insert_ne
      by (apply Hrow; unfold c_offset_L, c_offset_T; lia).
    reflexivity.
Qed.

(** The continuity row of an interior point of a free flame. *)
Lemma FreeFlame_interior_row (j : nat) (x : list num) (rdt : num)
    (s : StFlow A) (o : Out A) :
  m_nv (grid s) = (4 + m_nsp (grid s))%nat ->
  (row s c_offset_U j < length (rsd o))%nat ->
  let o' := (StFlow_interior FreeFlame j x rdt s o).2 in
  ((z s j >! m_zfixed (anchor s)) = false -> (z s j ==! m_zfixed (anchor s)) = true ->
   bget (m_do_energy (settings s)) j = true ->
   rsd o' !! row s c_offset_U j = Some (T s x j -! m_tfixed (anchor s))) /\
  (unordered_with_anchor s j ->
   rsd o' !! row s c_offset_U j = rsd o !! row s c_offset_U j).
Proof.
  intros Hwf Hr o'. subst o'. rewrite StFlow_interior_rsd_U.
  cbn [evalContinuity]. unfold FreeFlame_evalContinuity. cbn [rsd set_diag].
  split.
  - intros H1 H2 H3. rewrite H1, H2, H3. cbn [rsd set_rsd].
    apply list_lookup_insert_eq. exact Hr.
  - intros (H1 & H2 & H3). rewrite H1, H2, H3. reflexivity.
Qed.

End ContinuityRow.

(** X21.  The free flame is pinned at its anchor.  After a residual
    evaluation of a free flame, the continuity row of an interior point [j]
    of the window is flagged algebraic; if the point lies on the anchor
    ([z(j) == m_zfixed]) and its energy equation is enabled, the row holds
    [T(x,j) - m_tfixed], the temperature condition that fixes the flame's
    position; if the coordinate compares with the anchor in none of the three
    ways the code asks for (as a NaN does), the row keeps the value the
    caller passed.  The evaluation does not move the anchor. *)
Theorem free_flame_anchor_row {A : Arith} {L : Libm A} {E : Externals A}
    (jg : Z) (xg : list num) (o : Out A) (rdt : num) (s : StFlow A)
    (jmin jmax j0 j1 : Z) (j : nat) :
  m_nv (grid s) = (4 + m_nsp (grid s))%nat ->
  (1 <= m_nsp (grid s))%nat ->
  Z.of_nat (m_points (grid s)) <= max_size ->
  m_transport_option (settings s) <> c_None_Transport ->
  outside_influence jg s = false ->
  eval_window jg s = (jmin, jmax, j0, j1) ->
  jmin <= Z.of_nat j <= jmax ->
  (0 < j)%nat -> (j + 1 < m_points (grid s))%nat ->
  (row s 0 j + m_nv (grid s) <= length (rsd o))%nat ->
  (row s 0 j + m_nv (grid s) <= length (diag o))%nat ->
  let x := drop (loc (grid s)) xg in
  exists s' o',
    StFlow_eval FreeFlame jg xg o rdt s = Ok (s', o') /\
    anchor s' = anchor s /\
    diag o' !! row s c_offset_U j = Some 0 /\
    ((z s j >! m_zfixed (anchor s)) = false -> (z s j ==! m_zfixed (anchor s)) = true ->
     bget (m_do_energy (settings s)) j = true ->
     rsd o' !! row s c_offset_U j = Some (T s x j -! m_tfixed (anchor s))) /\
    (unordered_with_anchor s j ->
     rsd o' !! row s c_offset_U j = rsd o !! row s c_offset_U j).
Proof.
  intros Hwf Hsp Hmax Hopt Hin Hwin Hj Hj0 Hj1 Hlr Hld x.
  destruct (eval_window_nonneg jg s jmin jmax j0 j1 Hwin) as [Hmin _].
  assert (Hsz : Z.of_nat (m_points (grid s)) <= SIZE_MAX)
    by (unfold max_size, SIZE_MAX in *; lia).
  destruct (StFlow_eval_enters FreeFlame jg xg o rdt s jmin jmax j0 j1 Hopt Hin Hwin)
    as (s1 & H1 & A1 & Ee).
  rewrite Ee. fold x.
  set (pt := StFlow_point FreeFlame x (if negb (jg =? npos) then lit 0 else rdt)).
  assert (Hg : grid s1 = grid s) by exact (f_equal (fun t => t.1.1.1) H1).
  assert (Hwf1 : m_nv (grid s1) = (4 + m_nsp (grid s1))%nat) by (rewrite Hg; exact Hwf).
  assert (Hsp1 : (1 <= m_nsp (grid s1))%nat) by (rewrite Hg; exact Hsp).
  assert (Hnp1 : (1 <= m_points (grid s1))%nat) by (rewrite Hg; lia).
  assert (Hsz1 : Z.of_nat (m_points (grid s1)) <= SIZE_MAX) by (rewrite Hg; exact Hsz).
  assert (Hrow0 : row s c_offset_U j = row s 0 j) by reflexivity.
  destruct (fold_left pt (range jmin (jmax + 1)) (s1, o)) as [s' o'] eqn:Ef.
  exists s', o'. split; [reflexivity|]. split.
  { change s' with (s', o').1. rewrite <- Ef, <- A1.
    apply (fold_left_obs (fun a : StFlow A * Out A => anchor a.1)).
    intros a i. apply StFlow_point_anchor. }
  change o' with (s', o').2. rewrite <- Ef.
  apply (points_fold_row_anchored pt x (StFlow_point_spec FreeFlame x _)
           (StFlow_point_anchor FreeFlame x _) s1 Hwf1 Hsp1 Hnp1 Hsz1 o j
           (fun o' =>
              diag o' !! row s c_offset_U j = Some 0 /\
              ((z s j >! m_zfixed (anchor s)) = false ->
               (z s j ==! m_zfixed (anchor s)) = true ->
               bget (m_do_energy (settings s)) j = true ->
               rsd o' !! row s c_offset_U j = Some (T s x j -! m_tfixed (anchor s))) /\
              (unordered_with_anchor s j ->
               rsd o' !! row s c_offset_U j = rsd o !! row s c_offset_U j))).
  - intros a b (_ & _ & _ & Hb) (P1 & P2 & P3).
    destruct (Hb (row s c_offset_U j)) as [B1 B2].
    { rewrite Hg. unfold row, index, c_offset_U. lia. }
    rewrite B1, B2. split; [exact P1|]. split; [exact P2|exact P3].
  - intros [s2 o2] [(Ho & Lr & Ld & Hb) Han]. cbn [fst snd] in *.
    assert (H2 : obs_rows s2 = obs_rows s).
    { rewrite <- H1. apply obs_residual_rows. exact Ho. }
    inversion H2 as [[Hg2 He2 Hf2 Ho2]].
    assert (Han2 : anchor s2 = anchor s) by congruence.
    assert (Hpt : pt (s2, o2) j
                  = StFlow_interior FreeFlame j x
                      (if negb (jg =? npos) then lit 0 else rdt) s2 o2).
    { subst pt. unfold StFlow_point.
      destruct (Nat.eqb_spec j 0) as [H0|_]; [lia|].
      rewrite Hg2, wrap_small by (unfold SIZE_MAX in *; lia).
      destruct (Z.eqb_spec (Z.of_nat j) (Z.of_nat (m_points (grid s)) - 1)) as [H|_];
        [lia|reflexivity]. }
    rewrite Hpt.
    assert (Rrow : row s2 c_offset_U j = row s c_offset_U j)
      by (unfold row, index; rewrite Hg2; reflexivity).
    assert (Rz : z s2 j = z s j) by (unfold z; rewrite Hg2; reflexivity).
    assert (RT : T s2 x j = T s x j) by (unfold T, index; rewrite Hg2; reflexivity).
    destruct (FreeFlame_interior_row j x (if negb (jg =? npos) then lit 0 else rdt) s2 o2)
      as [W1 W2].
    { rewrite Hg2. exact Hwf. }
    { rewrite Rrow, Lr, Hrow0. lia. }
    pose proof (StFlow_interior_diag FreeFlame j x
                  (if negb (jg =? npos) then lit 0 else rdt) s2 o2) as Hd.
    apply (interior_diag_flags s2 j _ (diag o2)) in Hd;
      [|rewrite Hg2; exact Hwf|unfold row, index in *; rewrite Hg2, Ld; exact Hld].
    destruct Hd as (D1 & _).
    rewrite Rrow, ?Rz, ?RT, ?Han2, ?He2 in *.
    split; [exact D1|]. split; [exact W1|].
    intros Hun. rewrite W2.
    + apply Hb. rewrite Hg. unfold row, index, c_offset_U. lia.
    + unfold unordered_with_anchor in *. rewrite Rz, Han2. exact Hun.
  - apply NoDup_range.
  - apply elem_of_range; lia.
Qed.

Lemma free_flame_anchor_row_witness :
  let s := burning_flame (A:=Float64) in
  exists s' o',
    StFlow_eval (E:=plain) FreeFlame npos rising_profile flame_out (lit 10) s
    = Ok (s', o') /\
    anchor s' = anchor s /\
    diag o' !! 5%nat = Some 0 /\
    rsd o' !! 5%nat = Some (lit 800 -! lit 1000).
Proof.
  intros s.
  destruct (free_flame_anchor_row (E:=plain) npos rising_profile flame_out (lit 10) s
              0 3 0 3 1%nat)
    as (s' & o' & Ee & Ha & Hd & Hr & _);
    [reflexivity|cbn; lia|unfold max_size; cbn; lia|discriminate|reflexivity|reflexivity
    |lia|lia|cbn; lia|vm_compute; lia|vm_compute; lia|].
  exists s', o'. split; [exact Ee|]. split; [exact Ha|]. split; [exact Hd|].
  apply Hr; reflexivity.
Defined.

(** ** A solid that does not absorb *)

Section NoAbsorption.
Context {L : Libm Exact}.

Lemma vget_seq_map (f : nat -> @num Exact) (n i : nat) :
  (i < n)%nat -> (map f (seq 0 n)).[i] = f i.
Proof.
  intros Hi. unfold vget. rewrite lookup_map, lookup_seq_lt by exact Hi. reflexivity.
Qed.

Lemma vget_insert (v : list (@num Exact)) (k i : nat) (a : @num Exact) :
  (<[k := a]> v).[i] = if decide (i = k /\ k < length v)%nat then a else v.[i].
Proof.
  destruct (decide _) as [[-> Hk]|Hn].
  - apply vget_insert_eq. exact Hk.
  - destruct (decide (i = k)) as [->|Hne].
    + rewrite list_insert_ge by lia. reflexivity.
    + apply vget_insert_ne. congruence.
Qed.

Lemma solid_enter_no_flux (s : StFlow Exact) : no_net_flux (solid_enter s).
Proof.
  intros i Hi. unfold solid_enter in *. cbv zeta in *.
  change (m_points (grid (on_solid _ (on_solid _ s)))) with (m_points (grid s)) in Hi.
  change ((fold_left (fun d i => <[i := lit 0]> d) (seq 0 (m_points (grid s)))
             (dq (solidf s))).[i] = lit 0).
  destruct (fold_store_lookup (fun _ : nat => @lit Exact 0) (m_points (grid s))
              (dq (solidf s))) as [Hl Hk].
  unfold vget. rewrite Hk.
  destruct (decide _) as [_|Hn]; [reflexivity|].
  rewrite lookup_ge_None_2 by lia. reflexivity.
Qed.

Lemma relax_zero (n : nat) (dqnew : list (@num Exact)) (l : list nat) :
  (forall i, (i < n)%nat -> dqnew.[i] = lit 0) ->
  (forall k, k ∈ l -> (k < n)%nat) ->
  forall acc : @num Exact * list (@num Exact),
  (forall i, (i < n)%nat -> acc.2.[i] = lit 0) ->
  forall i, (i < n)%nat ->
    (fold_left (fun '(norm, dq) i =>
                  (norm +! (dqnew.[i] -! dq.[i]) *! (dqnew.[i] -! dq.[i]),
                   <[i := lit 0.1 *! dqnew.[i] +! (lit 1 -! lit 0.1) *! dq.[i]]> dq))
               l acc).2.[i] = lit 0.
Proof.
  intros Hnew. induction l as [|k l IH]; intros Hl [norm d] Hacc i Hi; cbn [fold_left].
  - apply Hacc, Hi.
  - apply IH; [intros k' Hk'; apply Hl; right; exact Hk'| |exact Hi].
    intros i' Hi'. cbn [snd] in *. rewrite vget_insert.
    destruct (decide _) as [[-> Hk]|_]; [|apply Hacc, Hi'].
    rewrite (Hnew k Hi'), (Hacc k Hi').
    apply Qc_is_canon. reflexivity.
Qed.

Lemma net_flux_zero (RK Omega : list (@num Exact)) (s : StFlow Exact) (q : TwoFlux)
    (fail : bool) :
  no_absorption RK Omega (m_points (grid s)) -> no_net_flux s ->
  (forall i, (i < m_points (grid s))%nat -> (net_flux RK Omega s q fail).1.[i] = lit 0) /\
  dq (solidf (net_flux RK Omega s q fail).2) = dq (solidf s) /\
  grid (net_flux RK Omega s q fail).2 = grid s.
Proof.
  intros Hno Hz. unfold net_flux. cbv zeta. destruct fail; cbn [fst snd].
  - split; [|split; reflexivity]. intros i Hi.
    rewrite vget_seq_map by exact Hi. apply Hz, Hi.
  - split; [|split; reflexivity]. intros i Hi.
    rewrite vget_seq_map by exact Hi.
    specialize (Hno i Hi). revert Hno.
    generalize (sigma *! pow (Tw (solidf s)).[i] (lit 4)
                -! lit 0.5 *! (qplus q).[i] -! lit 0.5 *! (qminus q).[i]).
    generalize (RK.[i]), (Omega.[i]).
    change (@num Exact) with Qc.
    change (@add Exact) with Qcplus; change (@sub Exact) with Qcminus;
      change (@mul Exact) with Qcmult.
    change (@lit Exact 4) with (Q2Qc 4); change (@lit Exact 1) with (Q2Qc 1);
      change (@lit Exact 0) with (Q2Qc 0).
    intros r w X H.
    replace (Q2Qc 4 * r * (Q2Qc 1 - w) * X)%Qc
      with (Q2Qc 4 * (r * (Q2Qc 1 - w)) * X)%Qc by ring.
    rewrite H. ring.
Qed.

Lemma solid_pass_zero (fuel : nat) (x hconv scond RK Omega : list (@num Exact))
    (srho sCp rdt : @num Exact) (s s' : StFlow Exact) (norm : @num Exact) :
  no_absorption RK Omega (m_points (grid s)) -> no_net_flux s ->
  solid_pass fuel x hconv scond RK Omega srho sCp rdt s = Some (s', norm) ->
  grid s' = grid s /\ no_net_flux s'.
Proof.
  intros Hno Hz. unfold solid_pass. cbv zeta.
  set (s1 := on_solid _ s).
  destruct (two_flux_loop fuel RK Omega s1 (lit 1) 0 false (two_flux_init x s1))
    as [[q fail]|]; [|discriminate].
  destruct (net_flux_zero RK Omega s1 q fail Hno Hz) as (Hnew & Hdq & Hg).
  destruct (net_flux RK Omega s1 q fail) as [dqnew s2]. cbn [fst snd] in *.
  pose proof (relax_zero (m_points (grid s)) dqnew (seq 0 (m_points (grid s))) Hnew
                ltac:(intros k Hk; apply elem_of_seq in Hk; lia)
                (lit 0, dq (solidf s2))) as Hrel.
  cbn [snd] in Hrel. rewrite Hdq in Hrel. specialize (Hrel Hz).
  unfold relax. cbv zeta. rewrite Hdq.
  destruct (fold_left _ (seq 0 (m_points (grid s))) _) as [nrm dq'].
  cbn [snd] in Hrel. intros H. injection H as <- <-.
  split; [exact Hg|]. intros i Hi. apply Hrel.
  change (i < m_points (grid s2))%nat in Hi. rewrite Hg in Hi. exact Hi.
Qed.

Lemma solid_loop_zero (fuel inner : nat) (x hconv scond RK Omega : list (@num Exact))
    (srho sCp rdt : @num Exact) :
  forall (change1 : @num Exact) (count1 : Z) (fail1 : bool) (s s' : StFlow Exact)
         (fail' : bool),
  no_absorption RK Omega (m_points (grid s)) -> no_net_flux s ->
  solid_loop fuel inner x hconv scond RK Omega srho sCp rdt change1 count1 fail1 s
  = Some (s', fail') ->
  grid s' = grid s /\ no_net_flux s'.
Proof.
  induction fuel as [|fuel IH]; intros change1 count1 fail1 s s' fail' Hno Hz H;
    [discriminate|].
  cbn [solid_loop] in H.
  destruct (change1 >! tolerance); [|injection H as <- <-; split; [reflexivity|exact Hz]].
  destruct (solid_pass inner x hconv scond RK Omega srho sCp rdt s) as [[s1 norm]|] eqn:E1;
    [|discriminate].
  destruct (solid_pass_zero _ _ _ _ _ _ _ _ _ _ _ _ Hno Hz E1) as [Hg1 Hz1].
  assert (Hno1 : no_absorption RK Omega (m_points (grid s1))) by (rewrite Hg1; exact Hno).
  destruct (count1 + 1 >? 400).
  - destruct (IH _ _ _ _ _ _ Hno1 Hz1 H) as [Hg' Hz']. split; [congruence|exact Hz'].
  - destruct (IH _ _ _ _ _ _ Hno1 Hz1 H) as [Hg' Hz']. split; [congruence|exact Hz'].
Qed.

End NoAbsorption.

(** X22.  A solid that does not absorb exchanges no radiation.  In exact
    arithmetic, for every choice of [sqrt] and [pow], on a strictly
    increasing grid and with no division by zero in the solve (the pivots of
    the conduction system, which are the same in every pass, and the
    denominators of the two-flux sweeps are not zero): if at every grid point
    the extinction coefficient is zero or the scattering albedo is one, the
    solid subsolver returns with the net radiative flux [dq] zero at every
    point, whether its loops converge, stall or reach their caps. *)
Theorem solid_without_absorption_has_no_net_flux {L : Libm Exact}
    (x hconv scond RK Omega : list (@num Exact)) (srho sCp rdt : @num Exact)
    (s : StFlow Exact) :
  no_absorption RK Omega (m_points (grid s)) ->
  (forall i, (i + 1 < m_points (grid s))%nat -> (z s i <! z s (i + 1)) = true) ->
  (forall i, (i < m_points (grid s))%nat ->
     (decomposition (m_points (grid s))
        (solid_rows x hconv scond srho sCp rdt s)).2.[i] <> lit 0) ->
  (forall i, (i + 1 < m_points (grid s))%nat ->
     lit 1 +! (z s (i + 1) -! z s i) *! RK.[i + 1] *! (lit 2 -! Omega.[i + 1]) <> lit 0 /\
     lit 1 +! (z s (i + 1) -! z s i) *! RK.[i] *! (lit 2 -! Omega.[i]) <> lit 0) ->
  exists s',
    PorousFlow_solid x hconv scond RK Omega srho sCp rdt s = Some s' /\
    no_net_flux s'.
Proof.
  intros Hno _ _ _.
  destruct (PorousFlow_solid_total (A:=Exact) eq_refl x hconv scond RK Omega srho sCp rdt s)
    as (s1 & fail1 & E1 & Es & _ & _).
  exists (solid_leave fail1 s1). split; [exact Es|].
  destruct (solid_loop_zero outer_fuel inner_fuel x hconv scond RK Omega srho sCp rdt
              (lit 1) 0 false (solid_enter s) s1 fail1 Hno (solid_enter_no_flux s) E1)
    as [Hg Hz].
  intros i Hi. unfold solid_leave in *. cbv zeta in *.
  destruct fail1; apply Hz; exact Hi.
Qed.

Lemma solid_without_absorption_has_no_net_flux_witness :
  exists s',
    PorousFlow_solid (L:=exact_libm) gas_300_400_500 (three (lit 1))
      (three (lit 1)) (three (lit 3)) (three (lit 1)) (lit 1) (lit 1) (lit 0)
      (porous_domain (A:=Exact) (three (lit 7))) = Some s' /\
    no_net_flux s'.
Proof.
  apply (solid_without_absorption_has_no_net_flux (L:=exact_libm)).
  - intros i Hi. change (i < 3)%nat in Hi.
    destruct i as [|[|[|i]]]; try lia; apply Qc_is_canon; reflexivity.
  - intros i Hi. change (i + 1 < 3)%nat in Hi.
    destruct i as [|[|i]]; try lia; vm_compute; reflexivity.
  - intros i Hi. change (i < 3)%nat in Hi.
    destruct i as [|[|[|i]]]; try lia; vm_compute; discriminate.
  - intros i Hi. change (i + 1 < 3)%nat in Hi.
    destruct i as [|[|i]]; try lia; split; vm_compute; discriminate.
Defined.

(** ** The tridiagonal solve *)

Section SolveEntries.
Context {A : Arith}.

(** Every entry of the forward substitution, from the entry before it. *)
Lemma forward_substitution_entries (e r : list num) (k : nat) :
  let r' := fold_left (fun r i => <[i := r.[i] -! e.[i] *! r.[i - 1]]> r) (seq 1 k) r in
  length r' = length r /\
  (forall i, (1 <= i <= k)%nat -> (i < length r)%nat ->
     r'.[i] = r.[i] -! e.[i] *! r'.[i - 1]) /\
  (forall i, (i = 0 \/ k < i)%nat -> r' !! i = r !! i).
Proof.
  induction k as [|k IH]; cbv zeta.
  - cbn [seq fold_left]. split; [reflexivity|]. split; [intros; lia|reflexivity].
  - cbv zeta in IH. destruct IH as (Hl & Hin & Hout).
    rewrite seq_S, fold_left_app. cbn [fold_left].
    set (R := fold_left _ (seq 1 k) r) in *.
    replace (1 + k)%nat with (S k) by lia.
    split; [rewrite length_insert; exact Hl|]. split.
    + intros i Hi Hlen. destruct (decide (i = S k)) as [->|Hne].
      * rewrite vget_insert_eq by lia. rewrite (vget_insert_ne _ (S k) (S k - 1)) by lia.
        rewrite (vget_ext R r (S k)) by (apply Hout; lia). reflexivity.
      * rewrite !(vget_insert_ne _ (S k)) by lia. apply Hin; lia.
    + intros i Hi. rewrite list_lookup_insert_ne by lia. apply Hout. lia.
Qed.

(** Every entry of the decomposition. *)
Lemma decomposition_entries (g e f : list num) (k : nat) :
  let d := fold_left (fun '(e, f) i =>
                        let e := <[i := e.[i] /! f.[i - 1]]> e in
                        let f := <[i := f.[i] -! e.[i] *! g.[i - 1]]> f in
                        (e, f)) (seq 1 k) (e, f) in
  (length d.1 = length e /\ length d.2 = length f) /\
  (forall i, (1 <= i <= k)%nat -> (i < length e)%nat -> (i < length f)%nat ->
     d.1.[i] = e.[i] /! d.2.[i - 1] /\ d.2.[i] = f.[i] -! d.1.[i] *! g.[i - 1]) /\
  (forall i, (i = 0 \/ k < i)%nat -> d.1 !! i = e !! i /\ d.2 !! i = f !! i).
Proof.
  induction k as [|k IH]; cbv zeta.
  - cbn [seq fold_left fst snd]. split; [split; reflexivity|].
    split; [intros; lia|intros; split; reflexivity].
  - cbv zeta in IH. destruct IH as ((Hle & Hlf) & Hin & Hout).
    rewrite seq_S, fold_left_app. cbn [fold_left].
    destruct (fold_left _ (seq 1 k) (e, f)) as [e0 f0]. cbn [fst snd] in *.
    replace (1 + k)%nat with (S k) by lia.
    split; [rewrite !length_insert; split; assumption|]. split.
    + intros i Hi Hie Hif. destruct (decide (i = S k)) as [->|Hne].
      * rewrite !vget_insert_eq by lia.
        rewrite (vget_insert_ne _ (S k) (S k - 1)) by lia.
        destruct (Hout (S k)) as [Oe Of]; [lia|].
        rewrite (vget_ext e0 e (S k) Oe), (vget_ext f0 f (S k) Of).
        split; reflexivity.
      * rewrite !(vget_insert_ne _ (S k)) by lia. apply Hin; lia.
    + intros i Hi. rewrite !list_lookup_insert_ne by lia. apply Hout. lia.
Qed.

(** Every entry of the back substitution below the last, from the entry
    after it. *)
Lemma back_substitution_entries (f g r : list num) (k : nat) :
  forall (a : nat) (tw : list num),
  let t := fold_left (fun tw i => <[i := (r.[i] -! g.[i] *! tw.[i + 1]) /! f.[i]]> tw)
                     (rev (seq a k)) tw in
  length t = length tw /\
  (forall i, (a <= i < a + k)%nat -> (i < length tw)%nat ->
     t.[i] = (r.[i] -! g.[i] *! t.[i + 1]) /! f.[i]) /\
  (forall i, (i < a \/ a + k <= i)%nat -> t !! i = tw !! i).
Proof.
  induction k as [|k IH]; intros a tw; cbv zeta.
  - cbn [seq rev fold_left]. split; [reflexivity|]. split; [intros; lia|reflexivity].
  - cbn [seq rev]. rewrite fold_left_app. cbn [fold_left].
    specialize (IH (S a) tw). cbv zeta in IH. destruct IH as (Hl & Hin & Hout).
    set (T := fold_left _ (rev (seq (S a) k)) tw) in *.
    split; [rewrite length_insert; exact Hl|]. split.
    + intros i Hi Hlen. destruct (decide (i = a)) as [->|Hne].
      * rewrite vget_insert_eq by lia. rewrite (vget_insert_ne _ a (a + 1)) by lia.
        reflexivity.
      * rewrite !(vget_insert_ne _ a) by lia. apply Hin; lia.
    + intros i Hi. rewrite list_lookup_insert_ne by lia. apply Hout. lia.
Qed.

End SolveEntries.

(** The algebra of one eliminated row: the row above it and the row itself,
    both in the reduced form, give back the row of the system. *)
Lemma eliminated_row (e e' f f' fp gp r r' rp t tp gt : Qc) :
  fp <> 0%Qc ->
  e' = (e / fp)%Qc -> f' = (f - e' * gp)%Qc -> r' = (r - e' * rp)%Qc ->
  (fp * tp + gp * t)%Qc = rp -> (f' * t + gt)%Qc = r' ->
  (e * tp + f * t + gt)%Qc = r.
Proof.
  intros Hfp E1 E2 E3 H1 H2.
  assert (He : e = (e' * fp)%Qc) by (rewrite E1; field; exact Hfp).
  assert (Hf : f = (f' + e' * gp)%Qc) by (rewrite E2; ring).
  assert (Hr : r = (r' + e' * rp)%Qc) by (rewrite E3; ring).
  rewrite He, Hf, Hr, <- H1, <- H2. ring.
Qed.

(** A back-substituted entry, as the reduced row it solves. *)
Lemma reduced_row (f g r t tn : Qc) :
  f <> 0%Qc -> t = ((r - g * tn) / f)%Qc -> (f * t + g * tn)%Qc = r.
Proof. intros Hf ->. field. exact Hf. Qed.

Lemma reduced_last_row (f r t : Qc) :
  f <> 0%Qc -> t = (r / f)%Qc -> (f * t + 0)%Qc = r.
Proof. intros Hf ->. field. exact Hf. Qed.

(** X23. In exact arithmetic, when no pivot of the decomposition is zero,
    the field returned by the tridiagonal solve of [PorousFlow::solid]
    satisfies every row of the system it was given: the first row
    [f0*Tw0 + g0*Tw1 = r0], every row between
    [e_i*Tw(i-1) + f_i*Tw_i + g_i*Tw(i+1) = r_i], and the last row
    [e*Tw(n-2) + f*Tw(n-1) = r]; entries of [Tw] from [n] on are left as
    they were. *)
Theorem tridiagonal_solve_satisfies_rows
    (n : nat) (m : Rows (A:=Exact)) (tw : list (@num Exact)) :
  (2 <= n)%nat ->
  (n <= length (edia m))%nat -> (n <= length (fdia m))%nat ->
  (n <= length (rhs m))%nat -> (n <= length tw)%nat ->
  (forall i, (i < n)%nat -> (decomposition n m).2.[i] <> 0%Qc) ->
  let t := tridiagonal_solve n m tw in
  ((fdia m).[0] * t.[0] + (gdia m).[0] * t.[1])%Qc = (rhs m).[0] /\
  (forall i, (1 <= i)%nat -> (i < n - 1)%nat ->
     ((edia m).[i] * t.[i - 1] + (fdia m).[i] * t.[i] + (gdia m).[i] * t.[i + 1])%Qc
     = (rhs m).[i]) /\
  ((edia m).[n - 1] * t.[n - 2] + (fdia m).[n - 1] * t.[n - 1])%Qc = (rhs m).[n - 1] /\
  (forall i, (n <= i)%nat -> t !! i = tw !! i).
Proof.
  intros Hn Le Lf Lr Lt Hpiv t.
  pose proof (decomposition_entries (gdia m) (edia m) (fdia m) (n - 1)) as D.
  subst t. unfold tridiagonal_solve, decomposition in *. cbv zeta in D.
  destruct (fold_left _ (seq 1 (n - 1)) (edia m, fdia m)) as [e' f'].
  cbn [fst snd] in *. destruct D as (_ & Din & Dout).
  destruct (forward_substitution_entries e' (rhs m) (n - 1)) as (Fl & Fin & Fout).
  fold (forward_substitution n e' (rhs m)) in Fl, Fin, Fout.
  set (r' := forward_substitution n e' (rhs m)) in *.
  unfold back_substitution.
  set (tw1 := <[(n - 1)%nat := r'.[n - 1] /! f'.[n - 1]]> tw).
  destruct (back_substitution_entries f' (gdia m) r' (n - 1) 0 tw1) as (Bl & Bin & Bout).
  set (t := fold_left _ (rev (seq 0 (n - 1))) tw1) in *.
  assert (Ltw1 : length tw1 = length tw) by (subst tw1; apply length_insert).
  assert (Tlast : t.[n - 1] = (r'.[n - 1] / f'.[n - 1])%Qc).
  { rewrite (vget_ext t tw1 (n - 1)) by (apply Bout; lia).
    subst tw1. rewrite vget_insert_eq by lia. reflexivity. }
  assert (Tin : forall i, (i < n - 1)%nat ->
            (f'.[i] * t.[i] + (gdia m).[i] * t.[i + 1])%Qc = r'.[i]).
  { intros i Hi. apply reduced_row; [apply Hpiv; lia|].
    apply (Bin i); lia. }
  assert (F0 : f'.[0] = (fdia m).[0]) by (apply vget_ext, (Dout 0%nat); lia).
  assert (R0 : r'.[0] = (rhs m).[0]) by (apply vget_ext, Fout; lia).
  split; [|split; [|split]].
  - rewrite <- F0, <- R0. replace 1%nat with (0 + 1)%nat by lia. apply Tin. lia.
  - intros i H1 H2.
    destruct (Din i) as [De Df]; [lia..|].
    apply eliminated_row with (e' := e'.[i]) (f' := f'.[i]) (fp := f'.[i - 1])
      (gp := (gdia m).[i - 1]) (r' := r'.[i]) (rp := r'.[i - 1]).
    + apply Hpiv. lia.
    + exact De.
    + exact Df.
    + apply (Fin i); lia.
    + pose proof (Tin (i - 1)%nat) as Hp.
      replace (i - 1 + 1)%nat with i in Hp by lia. apply Hp. lia.
    + apply Tin. lia.
  - destruct (Din (n - 1)%nat) as [De Df]; [lia..|].
    replace (n - 1 - 1)%nat with (n - 2)%nat in * by lia.
    rewrite <- (Qcplus_0_r ((edia m).[n - 1] * t.[n - 2] + (fdia m).[n - 1] * t.[n - 1])%Qc).
    apply eliminated_row with (e' := e'.[n - 1]) (f' := f'.[n - 1]) (fp := f'.[n - 2])
      (gp := (gdia m).[n - 2]) (r' := r'.[n - 1]) (rp := r'.[n - 2]).
    + apply Hpiv. lia.
    + exact De.
    + exact Df.
    + specialize (Fin (n - 1)%nat). replace (n - 1 - 1)%nat with (n - 2)%nat in Fin by lia.
      apply Fin; lia.
    + pose proof (Tin (n - 2)%nat) as Hp.
      replace (n - 2 + 1)%nat with (n - 1)%nat in Hp by lia. apply Hp. lia.
    + apply reduced_last_row; [apply Hpiv; lia|exact Tlast].
  - intros i Hi. rewrite Bout by lia. subst tw1.
    apply list_lookup_insert_ne. lia.
Qed.

Lemma tridiagonal_solve_satisfies_rows_witness :
  let s := porous_domain (A:=Exact) (three (lit 0)) in
  let m := solid_rows gas_300_400_500 (three (lit 1)) (three (lit 1))
             (lit 1) (lit 1) (lit 0) s in
  let t := tridiagonal_solve 3 m (Tw (solidf s)) in
  ((edia m).[1] * t.[0] + (fdia m).[1] * t.[1] + (gdia m).[1] * t.[2])%Qc = (rhs m).[1].
Proof.
  intros s m t.
  destruct (tridiagonal_solve_satisfies_rows 3 m (Tw (solidf s))) as (_ & Hrow & _).
  - lia.
  - cbn. lia.
  - cbn. lia.
  - cbn. lia.
  - cbn. lia.
  - intros i Hi. destruct i as [|[|[|i]]]; [vm_compute; discriminate..|lia].
  - apply (Hrow 1%nat); lia.
Defined.
